(* ===== verification/_CoqProject ===== *)
-Q . S2P
Prelude.v
Prog.v
GoStrings.v
Validation.v
Encoding.v
Rfc3339.v
Json.v
JsonTheory.v
ConfigTypes.v
ConfigParser.v
ConfigParserTheory.v
ConfigParserCorrect.v
ConfigStore.v
Credential.v
CredentialCorrect.v
AcrProvider.v
Scheduler.v
SchedulerTheory.v
SchedulerRun.v
SchedulerCorrect.v
WorkQueue.v
SchedulerSystem.v
SchedulerSystemTheory.v
SchedulerSystemCorrect.v
SecretCodec.v
SecretCodecTheory.v
RegistrySecret.v
RegistrySecretTheory.v
ExistingSecret.v
RegistrySecretCorrect.v
RenderedConfiguration.v
Kube.v
SecretSyncer.v
SecretSyncerCorrect.v
ServiceAccount.v
ServiceAccountCorrect.v
Kubeclient.v
KubeclientCorrect.v
Configuration.v
ConfigurationCorrect.v
Controller.v
ControllerCorrect.v
Metrics.v
MetricsCorrect.v
Collector.v
CollectorCorrect.v
Convergence.v
ConvergenceCorrect.v
GoFloat.v
GoDuration.v
GoDurationTheory.v
GoCsv.v
Tracker.v
TrackerCorrect.v
TrackerMutation.v
TrackerStats.v
Parallel.v
GoFlag.v
ControllerMain.v
ControllerMainCorrect.v
E2E.v
E2ECorrect.v
PerfOptions.v
PerfOptionsCorrect.v
PerfProfile.v
PerfProfileCorrect.v
PerfBenchmark.v
PerfBenchmarkCorrect.v
KubeWrites.v
PerfCluster.v
PerfClusterCorrect.v
PerfStages.v
PerfStagesCorrect.v
PerfPhase.v
PerfPhaseCorrect.v
PerfObserve.v
PerfObserveCorrect.v
PerfFiles.v
PerfFilesCorrect.v
PerfCalls.v
