(* ===== verification/Prelude.v ===== *)
(** * Kubernetes registry secret controller: a verification library

    The controller keeps, in every selected Namespace, one image pull Secret with
    short-lived registry credentials, and a reference to it in the selected
    ServiceAccounts.  One ConfigMap selects Namespaces, accounts and registries.

    ** The program and how its parts interact

    - [internal/config] parses the ConfigMap into a snapshot and keeps the
      current one in a store.
    - [internal/credential] asks the registry service for tokens (the ACR
      provider), keeps them in a store, and refreshes them before they expire
      (the scheduler: a leader loop that follows the configuration and workers
      that take keys from a work queue).
    - [internal/registrysecret] renders the Secret from the snapshot and the
      credentials (the builder), reads one back (the inspection), and makes a
      Namespace's Secret converge (the syncer).
    - [internal/serviceaccount] makes an account's references converge.
    - [internal/controller] reconciles the ConfigMap, Namespaces and accounts,
      and turns watch events into requests.
    - [internal/kubeclient] applies the client tuning of the ConfigMap,
      [internal/observability] exports metrics.
    - [cmd/controller] wires them; [cmd/e2e-controller] does so with a mock
      provider and a clock that can be advanced; [cmd/perf-driver] measures the
      convergence of such a controller.

    ** How code becomes definitions

    Functions that return an error are functions into [result] (below).  Code
    that calls the API, the clock, a store or a queue is a program over a
    signature of calls ([Prog]): [interp] runs it against one handler, [wp]
    against every answer the environment may give, [pool_step] interleaves
    programs call by call.  Go's order of ranging over a map is the class
    [RangeOrder] (below), so a definition that ranges has it as a parameter.
    Integers keep their width where Go's wrap around can be observed: revisions
    and generations are taken modulo 2^64, time subtraction saturates.
    Instants are nanoseconds since the Unix epoch, in Z.

    ** Files

    - [Prelude]: results, ranges, automation, list and map lemmas; [Prog]:
      programs with calls.
    - [GoStrings], [GoFloat],
      [GoDuration], [GoDurationTheory], [GoFlag], [Validation], [Encoding], [Rfc3339],
      [Json], [JsonTheory]: what the code uses of Go's standard library
      (strings, strconv, time, flag, hex, base64, SHA-256, RFC 3339,
      float64, durations, encoding/json) and the interface of the Kubernetes name validators.
    - [ConfigTypes], [ConfigParser], [ConfigStore] model internal/config/types.go,
      parser.go with runtime.go, and store.go; [ConfigParserTheory] and
      [ConfigParserCorrect] hold the theorems.
    - [Credential] (types.go, store.go), [AcrProvider] (acr_provider.go) and
      [Scheduler] (scheduler.go) model internal/credential; [SchedulerTheory]
      treats interleavings, [SchedulerRun] single runs, [SchedulerCorrect] and
      [CredentialCorrect] hold the theorems.  [SchedulerSystem] is [Start] as a
      whole: the leader, the workers, the clock and the work queue, which
      [WorkQueue] knows by its laws; [SchedulerSystemTheory] follows one registry
      through its runs, [SchedulerSystemCorrect] holds the theorems.
    - [SecretCodec] is the JSON of the Secret's documents; [RegistrySecret]
      models builder.go and inspection.go, with [RegistrySecretTheory],
      [ExistingSecret] (whatever a Secret found in the cluster holds can be
      written again), [RegistrySecretCorrect] and, for snapshots that come from
      the parser, [RenderedConfiguration].
    - [Kube] is the interface of the API server and its cache.  [SecretSyncer]
      models internal/registrysecret/syncer.go, [ServiceAccount]
      internal/serviceaccount/syncer.go; theorems in the files with the suffix
      [Correct].
    - [Kubeclient] models internal/kubeclient, [Configuration] the configuration
      reconciler and the event publisher, [Controller] the rest of
      internal/controller, [Metrics] internal/observability/metrics.go, with
      [Collector] for what Prometheus sees of it.
    - [Convergence] puts the reconcilers and their syncers into one process:
      workers of distinct namespaces run sequences of reconciles side by side;
      [ConvergenceCorrect] proves that they converge, stay converged and write
      nothing more, and that the metrics then say so.
    - [ControllerMain] models cmd/controller/main.go and
      internal/observability/server.go, [E2E] cmd/e2e-controller.
    - [PerfOptions] (command line, names, target ConfigMap), [PerfProfile]
      (profile.go), [Tracker] (tracker.go and the data of mutation.go),
      [Parallel] (runParallel) model cmd/perf-driver, with [TrackerCorrect],
      [TrackerMutation] and [TrackerStats] for the tracker.
    - [PerfBenchmark] models main and runBenchmark as a program over its stages
      (theorems in [PerfBenchmarkCorrect]).  The stages: [KubeWrites] (create,
      read, change and write back with RetryOnConflict), [PerfCluster]
      (prepareWorkload, the late resources of mutation.go), [PerfStages]
      (validateReusableDataset to verifyFinalState, cleanupRun, the Pods, the logs,
      the ConfigMap and the Deployment), [PerfPhase] (waitForPhase,
      runConcurrentMutation), [PerfObserve] (observer.go, resources.go), [PerfFiles]
      (the CSV files, over [GoCsv]), each with its file [Correct].  [PerfCalls] has
      the single calls, and the clock of the mock controller behind one of them.

    ** What the theorems show

    - Parsing: [parseRegistries] is equivalent to a declarative grouping of the
      list, what [Parse] returns satisfies the snapshot invariant, does not
      depend on Go's map order, and is a fixed point when listed back.
    - Stores: refinement of an append-only history, unique revisions.
    - Scheduler: any interleaving of workers leaves only sound credentials in
      the store, rotation reaches the provider; the running scheduler follows the
      configuration and never forgets a registry that stays configured, which is
      refreshed in time (one that is removed and comes back can be forgotten:
      [registry_forgotten]).
    - Rendering: what [Build] renders, that it is deterministic and stable, and
      that the inspection's "synced" is sound and complete for it.
    - Convergence: a sync never touches what the controller does not own, under
      any interleaving and with stale reads; with fresh reads it settles its
      object whatever happens to others meanwhile, and touches no other.
    - The whole: any number of workers on distinct namespaces, interleaved call
      by call, leave every namespace with a clean reconcile as the configuration
      asks; converged namespaces are left alone and reported as synced.
    - Configuration: the behaviour of the reconcile on every branch, and that no
      business change is forgotten however publications fail.
    - Metrics: labels follow the configuration, target states partition the
      targets, a partial observation emits nothing, every scrape is accepted and
      the flags behind it are truthful.
    - Processes: of the options that the controller's command line accepts only
      one combination is refused later (metrics to be secured without a
      certificate directory), and what the processes wire together agrees; the
      mock provider fails as often as asked under any interleaving; the fake clock
      moves as sent.  The client tuning follows the ConfigMap from startup on.
    - Performance driver: the names and the ConfigMap of a run are valid and
      select what it measures; the tracker records first observations, closes
      its channels once, and its percentiles are ordered and interpolate between
      their neighbours up to rounding ([GoFloat] bounds every rounding); the worker
      pool ends, and says success only when all the work is done; an injection
      beside a refresh reports what the tracker saw, under any interleaving.  The
      exit status and the summary of a run are truthful however its stages
      answer, and every way out of a run cleans up.  The driver writes only to its
      own Namespaces and never undoes the controller's references; its deletions
      stay inside the run; its final check means what it says; waiting loops end
      in the state they report.  Its
      files are prefixes of what was recorded, and all of it when no error was
      reported.

    ** Bounds and fuel

    The JSON parser's fuel is the length of its input, and nesting is limited to
    10000 as in encoding/json; SHA-256 takes a block per step, with one unit of
    fuel per word; binary search halves an interval and has its length as fuel.
    In each case a lemma shows that the result does not depend on more fuel, or
    the theorems about results (parsing back what was printed, finding exactly
    the members) would fail without enough.

    ** Parameters

    Code that is not in the repository is a parameter: the YAML decoder and
    [ParseFloat] ([ConfigParser]), the DNS-1123 validators ([Validation]), the
    ACR SDK ([AcrProvider]), the work queue ([WorkQueue]), the API server ([Kube]), the token bucket of
    client-go ([Kubeclient]) and the manager of controller-runtime
    ([Controller]).  Their laws are classes; the examples instantiate each.

    ** Not modelled

    The manager, informers, leader election and HTTP servers of the libraries;
    log lines; Prometheus (a metric is its description and labels, a histogram
    the durations it observed); TLS key loading (an outcome of the environment).  Of cmd/perf-driver:
    clientcmd, encoding/json (the summary), the metrics API, the file system
    (what it answers is a parameter) and printing.
*)

From stdpp Require Export base tactics option gmap strings list sorting.
From Stdlib Require Export ZArith Lia.

(** ** Results

    A Go function returning [(T, error)] is a function into [result E T]:
    [Err e] when the error is not nil. *)
Inductive result (E A : Type) : Type :=
| Ok (a : A)
| Err (e : E).
Arguments Ok {E A} a.
Arguments Err {E A} e.

#[export] Instance result_ret E : MRet (result E) := @Ok E.
#[export] Instance result_bind E : MBind (result E) :=
  λ A B f r, match r with Ok a => f a | Err e => Err e end.
#[export] Instance result_fmap E : FMap (result E) :=
  λ A B f r, match r with Ok a => Ok (f a) | Err e => Err e end.
#[export] Instance result_eq_dec E A `{EqDecision E, EqDecision A} : EqDecision (result E A).
Proof. solve_decision. Defined.

Definition is_ok {E A} (r : result E A) : bool :=
  match r with Ok _ => true | Err _ => false end.

(** A Go loop over a slice that stops at the first error. *)
Fixpoint fold_result {E S A} (f : S → A → result E S) (s : S) (l : list A) : result E S :=
  match l with
  | [] => Ok s
  | x :: l => match f s x with Ok s' => fold_result f s' l | Err e => Err e end
  end.

(** ** Machine integers

    [uint64] counters wrap; [int] and [time.Duration] are 64-bit signed. *)
Definition u64_modulus : Z := 2 ^ 64.
Definition max_int64 : Z := 2 ^ 63 - 1.
Definition min_int64 : Z := - 2 ^ 63.
Definition u64_succ (x : Z) : Z := (x + 1) mod u64_modulus.

(** ** Map iteration

    [for k, v := range m] visits every binding once, in an order that differs
    from run to run.  A model that ranges over a map takes the order from an
    instance of this class, so its theorems hold for every order. *)
Class RangeOrder := {
  range : ∀ {K V : Type} `{Countable K}, gmap K V → list (K * V);
  range_perm : ∀ {K V : Type} `{Countable K} (m : gmap K V), range m ≡ₚ map_to_list m
}.

Definition range_forward : RangeOrder.
Proof. by exists (λ K V _ _ m, map_to_list m). Defined.

Definition range_backward : RangeOrder.
Proof.
  exists (λ K V _ _ m, reverse (map_to_list m)).
  intros K V ? ? m. apply reverse_Permutation.
Defined.

Section range.
Context `{RangeOrder} {K V : Type} `{Countable K}.
Implicit Type m : gmap K V.

Lemma elem_of_range m k v : (k, v) ∈ range m ↔ m !! k = Some v.
Proof. by rewrite range_perm, elem_of_map_to_list. Qed.

Lemma NoDup_range_fst m : NoDup (range m).*1.
Proof. rewrite range_perm. apply NoDup_fst_map_to_list. Qed.
End range.

(** ** Hints and tactics *)
Create HintDb go.
#[export] Hint Resolve list_elem_of_here list_elem_of_further : go.

(** What every step preserves holds in every reachable state. *)
Lemma rtc_invariant {A} (R : A → A → Prop) (P : A → Prop) x y :
  (∀ a b, R a b → P a → P b) → P x → rtc R x y → P y.
Proof. intros Hstep Hx. induction 1 as [|a b c Hab _ IH]; eauto. Qed.

(** [go_case] destructs the scrutinee of the first match or test it finds. *)
Ltac go_case :=
  match goal with
  | |- context [match ?x with _ => _ end] => is_var x; destruct x
  | |- context [match ?x with _ => _ end] => let E := fresh "E" in destruct x eqn:E
  | H : context [match ?x with _ => _ end] |- _ => let E := fresh "E" in destruct x eqn:E
  end.

(** [inv_ok] reads [H : (if ...) = Ok _] down to the branch that returns. *)
Ltac inv_ok H :=
  repeat (let E := fresh "E" in
          match type of H with
          | context [match ?x with _ => _ end] => destruct x eqn:E; try discriminate H
          end);
  simplify_eq.

(** ** Lists *)
Section lists.
Context {E A B : Type}.

Lemma mapM_Ok (f : A → result E B) l k :
  mapM f l = Ok k ↔ Forall2 (λ x y, f x = Ok y) l k.
Proof.
  split.
  - revert k. induction l as [|x l IH]; intros k; simpl; [by intros [= <-]; constructor|].
    destruct (f x) eqn:Hx; simpl; [|done].
    destruct (mapM f l) eqn:Hl; simpl; [|done].
    intros [= <-]. constructor; auto.
  - induction 1 as [|x y l k Hx _ IH]; simpl; [done|].
    by rewrite Hx; simpl; rewrite IH.
Qed.

Lemma fold_result_app {S} (f : S → A → result E S) s l1 l2 :
  fold_result f s (l1 ++ l2) = fold_result f s l1 ≫= λ s', fold_result f s' l2.
Proof. revert s. induction l1 as [|x l1 IH]; intros s; simpl; [done|]. by destruct (f s x). Qed.

(** Invariant rule for a loop that ran to its end. *)
Lemma fold_result_inv {S} (f : S → A → result E S) (I : list A → S → Prop) s l s' :
  I [] s →
  (∀ done x st st', I done st → f st x = Ok st' → x ∈ l → I (done ++ [x]) st') →
  fold_result f s l = Ok s' → I l s'.
Proof.
  intros H0 Hstep.
  assert (∀ rest pre st, (∀ x, x ∈ rest → x ∈ l) → I pre st →
    fold_result f st rest = Ok s' → I (pre ++ rest) s') as Hgen.
  { induction rest as [|x rest IH]; intros pre st Hin HI; simpl.
    - intros [= <-]. by rewrite app_nil_r.
    - destruct (f st x) as [st'|] eqn:Hf; [|done]. intros Hrest.
      rewrite cons_middle, (assoc_L (++)). apply (IH (pre ++ [x]) st'); [set_solver| |done].
      apply (Hstep pre x st st'); [done|done|set_solver]. }
  intros Hrun. by apply (Hgen l [] s).
Qed.
End lists.

Lemma StronglySorted_lookup {A} (R : relation A) `{!Reflexive R} l i j x y :
  StronglySorted R l → i ≤ j → l !! i = Some x → l !! j = Some y → R x y.
Proof.
  intros Hs. revert i j. induction Hs as [|z l Hs IH Hz]; intros i j Hij Hi Hj; [done|].
  destruct i as [|i], j as [|j]; simplify_eq/=; [done| |lia|by apply (IH i j); [lia|..]].
  rewrite Forall_forall in Hz. by eapply Hz, list_elem_of_lookup_2.
Qed.

(** ** Maps filled by a loop *)
Section foldl_insert.
Context {K V : Type} `{Countable K}.

Lemma foldl_insert l (m : gmap K V) :
  NoDup l.*1 → foldl (λ m kv, <[kv.1 := kv.2]> m) m l = list_to_map l ∪ m.
Proof.
  revert m. induction l as [|[k v] l IH]; intros m; simpl; [by rewrite map_empty_union|].
  intros [Hk Hnd]%NoDup_cons. rewrite IH by done.
  rewrite <-insert_union_l, insert_union_r; [done|]. by apply not_elem_of_list_to_map_1.
Qed.

Lemma foldl_insert_bindings l (m : gmap K V) :
  NoDup l.*1 → (∀ k v, (k, v) ∈ l ↔ m !! k = Some v) →
  foldl (λ m kv, <[kv.1 := kv.2]> m) ∅ l = m.
Proof.
  intros Hnd Hl. rewrite foldl_insert, map_union_empty by done.
  apply map_eq. intros k. apply option_eq. intros v.
  by rewrite <-elem_of_list_to_map, Hl.
Qed.
End foldl_insert.

(** ** Sorted duplicate-free string slices *)
Definition sorted_set (l : list string) : Prop := StronglySorted String.le l ∧ NoDup l.

Lemma sorted_set_unique l1 l2 :
  sorted_set l1 → sorted_set l2 → (∀ x, x ∈ l1 ↔ x ∈ l2) → l1 = l2.
Proof.
  intros [Hs1 Hd1] [Hs2 Hd2] Hin.
  apply (StronglySorted_unique String.le); [done..|].
  by apply NoDup_Permutation.
Qed.
