(* ===== verification/Prog.v ===== *)
(** * Effectful programs

    Handlers of the controller call a Kubernetes client, stores guarded by
    mutexes, a clock and a work queue.  Each such call is an event of a
    signature [E : Type -> Type], and the handler is a program over [E]: a tree
    whose nodes are the calls and whose branches are the answers.  The same
    program is run against one handler ([interp]), against every environment
    the signature allows ([wp]), and interleaved with other goroutines ([pool]). *)
From S2P Require Import Prelude.

Inductive prog (E : Type → Type) (A : Type) : Type :=
| Ret (a : A)
| Vis {X : Type} (e : E X) (k : X → prog E A).
Arguments Ret {E A} a.
Arguments Vis {E A X} e k.

Fixpoint prog_bind_def {E A B} (f : A → prog E B) (p : prog E A) : prog E B :=
  match p with
  | Ret a => f a
  | Vis e k => Vis e (λ x, prog_bind_def f (k x))
  end.

#[export] Instance prog_ret E : MRet (prog E) := @Ret E.
#[export] Instance prog_bind E : MBind (prog E) := λ A B f p, prog_bind_def f p.

(** One call. *)
Definition call {E X} (e : E X) : prog E X := Vis e Ret.

(** [if err := f(); err != nil { return ... }] *)
Definition try {E Er A B} (p : prog E (result Er A)) (on_err : Er → prog E B)
    (k : A → prog E B) : prog E B :=
  p ≫= λ r, match r with Ok a => k a | Err e => on_err e end.

(** A [for] loop over a slice whose body returns no value. *)
Fixpoint for_each {E A} (l : list A) (body : A → prog E ()) : prog E () :=
  match l with
  | [] => mret tt
  | x :: l => body x ≫= λ _, for_each l body
  end.

(** ** Execution against one deterministic handler *)
Section interp.
Context {E : Type → Type} {S : Type} (h : ∀ X, E X → S → X * S).

Fixpoint interp {A} (p : prog E A) (s : S) : A * S :=
  match p with
  | Ret a => (a, s)
  | Vis e k => let '(x, s') := h _ e s in interp (k x) s'
  end.

Lemma interp_bind {A B} (p : prog E A) (f : A → prog E B) s :
  interp (p ≫= f) s = let '(a, s') := interp p s in interp (f a) s'.
Proof.
  revert s. induction p as [a|X e k IH]; intros s; simpl; [done|].
  destruct (h X e s) as [x s']. apply IH.
Qed.

Lemma interp_for_each {A} (l : list A) (body : A → prog E ()) s :
  (interp (for_each l body) s).2 = foldl (λ s x, (interp (body x) s).2) s l.
Proof.
  revert s. induction l as [|x l IH]; intros s; simpl; [done|].
  rewrite interp_bind. destruct (interp (body x) s) as [u s'] eqn:Hb. simpl. by rewrite IH.
Qed.
End interp.

(** ** Every environment

    [H e s x s'] says that the call [e] in state [s] may answer [x] and leave
    [s'].  [wp H p s Phi]: whatever the answers, [p] started in [s] ends in a
    value and a state that [Phi] accepts.  Programs are well-founded trees, so
    [wp] states termination too. *)
Section wp.
Context {E : Type → Type} {S : Type} (H : ∀ X, E X → S → X → S → Prop).

Fixpoint wp {A} (p : prog E A) (s : S) (Φ : A → S → Prop) : Prop :=
  match p with
  | Ret a => Φ a s
  | Vis e k => ∀ x s', H _ e s x s' → wp (k x) s' Φ
  end.

Lemma wp_mono {A} (p : prog E A) s (Φ Ψ : A → S → Prop) :
  (∀ a s', Φ a s' → Ψ a s') → wp p s Φ → wp p s Ψ.
Proof. intros HΦ. revert s. induction p as [a|X e k IH]; simpl; eauto. Qed.

Lemma wp_bind {A B} (p : prog E A) (f : A → prog E B) s Φ :
  wp p s (λ a s', wp (f a) s' Φ) → wp (p ≫= f) s Φ.
Proof. revert s. induction p as [a|X e k IH]; simpl; [done|]; eauto. Qed.

Lemma wp_bind_inv {A B} (p : prog E A) (f : A → prog E B) s Φ :
  wp (p ≫= f) s Φ → wp p s (λ a s', wp (f a) s' Φ).
Proof. revert s. induction p as [a|X e k IH]; simpl; [done|]; eauto. Qed.

(** Loop rule: [I done s] after the iterations of [done]. *)
Lemma wp_for_each {A} (I : list A → S → Prop) (l : list A) (body : A → prog E ()) s :
  I [] s →
  (∀ done x s', I done s' → x ∈ l → wp (body x) s' (λ _ s'', I (done ++ [x]) s'')) →
  wp (for_each l body) s (λ _ s', I l s').
Proof.
  intros H0 Hstep.
  assert (∀ rest pre s1, (∀ x, x ∈ rest → x ∈ l) → I pre s1 →
    wp (for_each rest body) s1 (λ _ s2, I (pre ++ rest) s2)) as Hgen.
  { induction rest as [|x rest IH]; intros pre s1 Hin HI; simpl.
    - by rewrite app_nil_r.
    - apply wp_bind. eapply wp_mono; [|apply Hstep; [done|set_solver]].
      intros u s2 HI2. rewrite cons_middle, (assoc_L (++)). apply IH; [set_solver|done]. }
  by apply (Hgen l []).
Qed.

(** A deterministic handler that stays inside [H] obeys what [wp] proves. *)
Lemma wp_interp {A} (h : ∀ X, E X → S → X * S) (p : prog E A) s Φ :
  (∀ X (e : E X) s, H X e s (h X e s).1 (h X e s).2) →
  wp p s Φ → Φ (interp h p s).1 (interp h p s).2.
Proof.
  intros Hh. revert s. induction p as [a|X e k IH]; intros s Hwp; simpl; [done|].
  specialize (Hh X e s). destruct (h X e s) as [x s']. by apply IH, Hwp.
Qed.
End wp.

Lemma wp_weaken {E S A} (H1 H2 : ∀ X, E X → S → X → S → Prop) (p : prog E A) s Φ :
  (∀ X (e : E X) s x s', H1 X e s x s' → H2 X e s x s') →
  wp H2 p s Φ → wp H1 p s Φ.
Proof. intros Hw. revert s. induction p as [a|X e k IH]; simpl; eauto. Qed.

(** ** Components side by side

    A handler that has calls of its own and uses a component: the component's
    program runs on its part of the state, and the handler's calls leave that
    part alone. *)
Inductive sumE (E F : Type → Type) (X : Type) : Type :=
| OwnCall (e : E X)
| ComponentCall (f : F X).
Arguments OwnCall {E F X} e.
Arguments ComponentCall {E F X} f.

Fixpoint lift {E F A} (p : prog F A) : prog (sumE E F) A :=
  match p with
  | Ret a => Ret a
  | Vis f k => Vis (ComponentCall f) (λ x, lift (k x))
  end.
Definition own {E F X} (e : E X) : prog (sumE E F) X := call (OwnCall e).

(** The calls of a component as calls of a larger signature. *)
Fixpoint embed {E F A} (on : ∀ X, F X → E X) (p : prog F A) : prog E A :=
  match p with
  | Ret a => Ret a
  | Vis f k => Vis (on _ f) (λ x, embed on (k x))
  end.

Section sum.
Context {E F : Type → Type} {S T : Type}.
Context (HE : ∀ X, E X → T → S → X → S → Prop) (HF : ∀ X, F X → T → X → T → Prop).

Definition sum_exec (X : Type) (c : sumE E F X) (s : S * T) (x : X) (s' : S * T) : Prop :=
  match c with
  | OwnCall e => HE X e s.2 s.1 x s'.1 ∧ s'.2 = s.2
  | ComponentCall f => HF X f s.2 x s'.2 ∧ s'.1 = s.1
  end.

Lemma wp_lift {A} (p : prog F A) s t Φ :
  wp HF p t Φ → wp sum_exec (lift p) (s, t) (λ a s', s'.1 = s ∧ Φ a s'.2).
Proof.
  revert t. induction p as [a|X f k IH]; intros t; simpl; [done|].
  intros Hp x [s1 t1] [Hf Hs]. simpl in *. subst s1. eauto.
Qed.
End sum.

(** ** Interleavings

    Goroutines over one shared state: [pool_step] runs one call of one of them,
    or one step [Env] of the rest of the process.  [rg R G p s Phi] is the
    rely-guarantee reading of a program: before each call the state may move
    along [R], and each call moves it along [G]. *)
Section pool.
Context {E : Type → Type} {S : Type} (H : ∀ X, E X → S → X → S → Prop).

Fixpoint rg {A} (R G : S → S → Prop) (p : prog E A) (s : S) (Φ : A → S → Prop) : Prop :=
  match p with
  | Ret a => ∀ s1, R s s1 → Φ a s1
  | Vis e k => ∀ s1, R s s1 → ∀ x s2, H _ e s1 x s2 → G s1 s2 ∧ rg R G (k x) s2 Φ
  end.

Lemma rg_stable {A} R G (p : prog E A) s s' Φ :
  (∀ a b c, R a b → R b c → R a c) → R s s' → rg R G p s Φ → rg R G p s' Φ.
Proof. destruct p; simpl; eauto. Qed.

Lemma rg_mono {A} R G (p : prog E A) s (Φ Ψ : A → S → Prop) :
  (∀ a s', Φ a s' → Ψ a s') → rg R G p s Φ → rg R G p s Ψ.
Proof.
  intros HΦ. revert s. induction p as [a|X e k IH]; intros s; simpl; [eauto|].
  intros Hrg s1 HR x s2 He. destruct (Hrg s1 HR x s2 He) as [HG Hk]. eauto.
Qed.

Lemma rg_guar {A} R (G G' : S → S → Prop) (p : prog E A) s Φ :
  (∀ a b, G a b → G' a b) → rg R G p s Φ → rg R G' p s Φ.
Proof.
  intros HG. revert s. induction p as [a|X e k IH]; intros s; simpl; [done|].
  intros Hrg s1 HR x s2 He. destruct (Hrg s1 HR x s2 He). eauto.
Qed.

Lemma rg_rely {A} (R R' : S → S → Prop) G (p : prog E A) s Φ :
  (∀ a b, R' a b → R a b) → rg R G p s Φ → rg R' G p s Φ.
Proof.
  intros HR. revert s. induction p as [a|X e k IH]; intros s; simpl; [eauto|].
  intros Hrg s1 H1 x s2 He. destruct (Hrg s1 (HR _ _ H1) x s2 He). eauto.
Qed.

(** What the others and the program's own calls keep holds in the end. *)
Lemma rg_keep {A} (P : S → Prop) R G (p : prog E A) s Φ :
  (∀ a b, R a b → P a → P b) → (∀ X (e : E X) a x b, H X e a x b → G a b → P a → P b) → P s →
  rg R G p s Φ → rg R G p s (λ a s', Φ a s' ∧ P s').
Proof.
  intros HR HG. revert s. induction p as [a|X e k IH]; intros s; simpl; [eauto|].
  intros HP Hrg s1 H1 x s2 He. destruct (Hrg s1 H1 x s2 He). eauto 6.
Qed.

Lemma rg_bind {A B} R G (p : prog E A) (f : A → prog E B) s Φ :
  (∀ a, R a a) → rg R G p s (λ a s', rg R G (f a) s' Φ) → rg R G (p ≫= f) s Φ.
Proof.
  intros Hrefl. revert s. induction p as [a|X e k IH]; intros s; simpl; [by eauto|].
  intros Hrg s1 HR x s2 He. destruct (Hrg s1 HR x s2 He) as [HG Hk]. eauto.
Qed.

(** The loop rule, for an invariant that the others keep. *)
Lemma rg_for_each {A} R G (I : list A → S → Prop) (l : list A) (body : A → prog E ()) s :
  (∀ a, R a a) → (∀ done a b, R a b → I done a → I done b) → I [] s →
  (∀ done x s', I done s' → x ∈ l → rg R G (body x) s' (λ _ s'', I (done ++ [x]) s'')) →
  rg R G (for_each l body) s (λ _ s', I l s').
Proof.
  intros Hrefl Hst H0 Hstep.
  assert (∀ rest pre s1, (∀ x, x ∈ rest → x ∈ l) → I pre s1 →
    rg R G (for_each rest body) s1 (λ _ s2, I (pre ++ rest) s2)) as Hgen.
  { induction rest as [|x rest IH]; intros pre s1 Hin HI; simpl.
    - intros s2 HR. rewrite app_nil_r. by eapply Hst.
    - apply rg_bind; [done|]. eapply rg_mono; [|apply Hstep; [done|set_solver]].
      intros u s2 HI2. rewrite cons_middle, (assoc_L (++)). apply IH; [set_solver|done]. }
  by apply (Hgen l []).
Qed.

(** Alone, a program meets its specification beside others. *)
Lemma rg_wp {A} R G (p : prog E A) s Φ : (∀ a, R a a) → rg R G p s Φ → wp H p s Φ.
Proof.
  intros Hrefl. revert s. induction p as [a|X e k IH]; intros s; simpl; [by eauto|].
  intros Hrg x s2 He. destruct (Hrg s (Hrefl s) x s2 He) as [_ Hk]. eauto.
Qed.

Lemma wp_rg {A} (p : prog E A) s Φ : wp H p s Φ → rg eq (λ _ _, True) p s Φ.
Proof.
  revert s. induction p as [a|X e k IH]; intros s; simpl; [by intros ? ? <-|].
  intros Hwp s1 <- x s2 He. split; [done|]. by apply IH, Hwp.
Qed.

Context (Env : S → S → Prop).

Inductive pool_step {A} : S * list (prog E A) → S * list (prog E A) → Prop :=
| pool_call i {X} (e : E X) k s x s' ts :
    ts !! i = Some (Vis e k) → H X e s x s' →
    pool_step (s, ts) (s', <[i := k x]> ts)
| pool_env s s' ts : Env s s' → pool_step (s, ts) (s', ts).

(** Soundness: when every goroutine's guarantee, and the environment, are in the
    others' rely, every reachable pool keeps each goroutine's specification and
    its state moved along the guarantees. *)
Lemma pool_sound {A} (R G : nat → S → S → Prop) (Φ : nat → A → S → Prop) s ts s' ts' :
  (∀ i a b c, R i a b → R i b c → R i a c) → (∀ i a, R i a a) →
  (∀ i j a b, i ≠ j → G i a b → R j a b) → (∀ i a b, Env a b → R i a b) →
  (∀ i p, ts !! i = Some p → rg (R i) (G i) p s (Φ i)) →
  rtc pool_step (s, ts) (s', ts') →
  rtc (λ a b, Env a b ∨ ∃ i, i < length ts ∧ G i a b) s s' ∧
  ∀ i p, ts' !! i = Some p → rg (R i) (G i) p s' (Φ i).
Proof.
  intros Htrans Hrefl HGR HER Hts Hrtc.
  remember (s, ts) as c eqn:Hc. remember (s', ts') as c' eqn:Hc'.
  revert s ts s' ts' Hc Hc' Hts.
  induction Hrtc as [c|c c1 c2 Hstep _ IH]; intros s ts s' ts' -> Hc' Hts; simplify_eq.
  { split; [constructor|done]. }
  inversion Hstep as [i X e k s0 x s1 ts0 Hi He|s0 s1 ts0 He]; subst.
  - pose proof (Hts i _ Hi) as Hrg. simpl in Hrg.
    destruct (Hrg s (Hrefl i s) x s1 He) as [HG Hk].
    destruct (IH s1 (<[i:=k x]> ts) s' ts' eq_refl eq_refl) as [HG' Hts'].
    { intros j p Hj. destruct (decide (i = j)) as [<-|Hne].
      - rewrite list_lookup_insert_eq in Hj by eauto using lookup_lt_Some. by simplify_eq.
      - rewrite list_lookup_insert_ne in Hj by done.
        apply (rg_stable (R j) (G j) p s s1); eauto. }
    split; [|done]. rewrite length_insert in HG'.
    eapply rtc_l; [|exact HG']. right. exists i. eauto using lookup_lt_Some.
  - destruct (IH s1 ts s' ts' eq_refl eq_refl) as [HG' Hts'].
    { intros j p Hj. apply (rg_stable (R j) (G j) p s s1); eauto. }
    split; [|done]. eapply rtc_l; [|exact HG']. by left.
Qed.

(** One goroutine run to its end by a deterministic handler inside [H]. *)
Lemma pool_run {A} (h : ∀ X, E X → S → X * S) (p : prog E A) s ts i :
  (∀ X (e : E X) s, H X e s (h X e s).1 (h X e s).2) → ts !! i = Some p →
  rtc pool_step (s, ts) ((interp h p s).2, <[i := Ret (interp h p s).1]> ts).
Proof.
  intros Hh. revert s ts. induction p as [a|X e k IH]; intros s ts Hi; simpl.
  - rewrite list_insert_id by done. constructor.
  - specialize (Hh X e s). destruct (h X e s) as [x s'] eqn:He.
    eapply rtc_l; [by apply pool_call with (i := i) (e := e) (k := k) (x := x) (s' := s')|].
    specialize (IH x s' (<[i:=k x]> ts)).
    rewrite list_insert_insert_eq in IH. apply IH.
    by rewrite list_lookup_insert_eq by eauto using lookup_lt_Some.
Qed.

(** The same for a handler that is inside [H] on the calls that pass a check. *)
Fixpoint checked {A} (ok : ∀ X, E X → S → bool) (h : ∀ X, E X → S → X * S) (p : prog E A) (s : S) : bool :=
  match p with
  | Ret _ => true
  | Vis e k => ok _ e s && (let '(x, s') := h _ e s in checked ok h (k x) s')
  end.
Lemma pool_run_checked {A} ok (h : ∀ X, E X → S → X * S) (p : prog E A) s ts i :
  (∀ X (e : E X) s, ok X e s = true → H X e s (h X e s).1 (h X e s).2) →
  checked ok h p s = true → ts !! i = Some p →
  rtc pool_step (s, ts) ((interp h p s).2, <[i := Ret (interp h p s).1]> ts).
Proof.
  intros Hh. revert s ts. induction p as [a|X e k IH]; intros s ts Hc Hi; simpl.
  - rewrite list_insert_id by done. constructor.
  - simpl in Hc. apply andb_true_iff in Hc as [Ho Hc]. specialize (Hh X e s Ho). destruct (h X e s) as [x s'] eqn:He.
    eapply rtc_l; [by apply pool_call with (i := i) (e := e) (k := k) (x := x) (s' := s')|].
    specialize (IH x s' (<[i:=k x]> ts) Hc). rewrite list_insert_insert_eq in IH. apply IH.
    by rewrite list_lookup_insert_eq by eauto using lookup_lt_Some.
Qed.
Lemma wp_checked {A} ok (h : ∀ X, E X → S → X * S) (p : prog E A) s Φ :
  (∀ X (e : E X) s, ok X e s = true → H X e s (h X e s).1 (h X e s).2) →
  checked ok h p s = true → wp H p s Φ → Φ (interp h p s).1 (interp h p s).2.
Proof.
  intros Hh. revert s. induction p as [a|X e k IH]; intros s Hc Hwp; simpl; [done|].
  simpl in Hc. apply andb_true_iff in Hc as [Ho Hc]. specialize (Hh X e s Ho). destruct (h X e s) as [x s'].
  by apply IH, Hwp.
Qed.

(** All the goroutines, each to its end before the next. *)
Fixpoint run_all {A} (h : ∀ X, E X → S → X * S) (ps : list (prog E A)) (s : S) : list A * S :=
  match ps with
  | [] => ([], s)
  | p :: ps => let '(a, s) := interp h p s in let '(l, s) := run_all h ps s in (a :: l, s)
  end.
Lemma pool_run_all {A} (h : ∀ X, E X → S → X * S) (ps pre : list (prog E A)) s :
  (∀ X (e : E X) s, H X e s (h X e s).1 (h X e s).2) →
  rtc pool_step (s, pre ++ ps) ((run_all h ps s).2, pre ++ (Ret <$> (run_all h ps s).1)).
Proof.
  intros Hh. revert pre s. induction ps as [|p ps IH]; intros pre s; simpl; [done|].
  etrans; [apply (pool_run h p s _ (length pre) Hh); by apply list_lookup_middle|].
  destruct (interp h p s) as [a s1]. simpl. rewrite insert_app_r_alt, Nat.sub_diag by done. simpl.
  specialize (IH (pre ++ [Ret a]) s1). destruct (run_all h ps s1) as [l s2].
  by rewrite <-!(assoc_L (++)) in IH.
Qed.
End pool.

(** A component that sees part of the state runs there as it does alone. *)
Section embedding.
Context {E F : Type → Type} {S T : Type} (HE : ∀ X, E X → S → X → S → Prop) (HF : ∀ X, F X → T → X → T → Prop).
Context (on : ∀ X, F X → E X) (view : S → T) (R G : S → S → Prop) (RT GT : T → T → Prop).
Hypothesis rely_view : ∀ s s', R s s' → RT (view s) (view s').
Hypothesis exec_view : ∀ X (f : F X) s x s', HE X (on X f) s x s' → HF X f (view s) x (view s').
Hypothesis guar_view : ∀ X (f : F X) s x s', HE X (on X f) s x s' → GT (view s) (view s') → G s s'.

Lemma rg_embed {A} (p : prog F A) s Φ :
  rg HF RT GT p (view s) Φ → rg HE R G (embed on p) s (λ a s', Φ a (view s')).
Proof.
  revert s. induction p as [a|X f k IH]; intros s; simpl; [eauto|].
  intros Hrg s1 HR x s2 He. destruct (Hrg _ (rely_view _ _ HR) x _ (exec_view _ _ _ _ _ He)) as [HG Hk].
  split; [by eapply guar_view|]. by apply IH.
Qed.
End embedding.

(** A handler's component beside the rest of the process: [Rs] is what the rest
    may do to the handler's own part. *)
Section lifting.
Context {E F : Type → Type} {S T : Type} (HE : ∀ X, E X → T → S → X → S → Prop) (HF : ∀ X, F X → T → X → T → Prop).
Context (Rs : S → S → Prop) `{!PreOrder Rs} (R G : T → T → Prop).

Lemma rg_lift {A} (p : prog F A) s t Φ :
  rg HF R G p t Φ →
  rg (sum_exec HE HF) (λ a b, Rs a.1 b.1 ∧ R a.2 b.2) (λ a b, b.1 = a.1 ∧ G a.2 b.2) (lift p) (s, t)
    (λ a st, Rs s st.1 ∧ Φ a st.2).
Proof.
  assert (∀ s0 s t, Rs s0 s → rg HF R G p t Φ →
    rg (sum_exec HE HF) (λ a b, Rs a.1 b.1 ∧ R a.2 b.2) (λ a b, b.1 = a.1 ∧ G a.2 b.2) (lift p) (s, t)
      (λ a st, Rs s0 st.1 ∧ Φ a st.2)) as Hgen; [|by apply Hgen].
  clear s t. induction p as [a|X f k IH]; intros s0 s t Hs; simpl.
  - intros Hrg [s1 t1] [HR1 HR2]. split; [by etrans|]. by apply Hrg.
  - intros Hrg [s1 t1] [HR1 HR2] x [s2 t2] [Hf Hs2]. simpl in *. subst s2.
    destruct (Hrg t1 HR2 x t2 Hf) as [HG Hk]. split; [done|]. apply IH; [by etrans|done].
Qed.
End lifting.
