(* ===== verification/GoStrings.v ===== *)
(** * The Go string functions the controller uses

    Go strings are byte strings.  [strings.TrimSpace] and [strings.ToLower]
    read UTF-8: the byte patterns below are the encodings of the runes that
    [unicode.IsSpace] accepts and of the two non-ASCII runes whose lower case is
    an ASCII letter (U+0130 to [i], U+212A to [k]).  [ToLower] leaves the bytes
    of every other non-ASCII rune alone, where Go may replace them by other
    non-ASCII bytes: the two agree on every result that is ASCII, and the caller
    ([normalizeRegistry]) rejects every result that is not. *)
From S2P Require Import Prelude.
From Stdlib Require Import Ascii.

Abbreviation bytes := (list ascii).
Definition to_bytes (s : string) : bytes := String.list_ascii_of_string s.
Definition of_bytes (l : bytes) : string := String.string_of_list_ascii l.
Definition code (c : ascii) : N := N_of_ascii c.
Definition chr (n : N) : ascii := ascii_of_N n.

Lemma of_to_bytes s : of_bytes (to_bytes s) = s.
Proof. apply String.string_of_list_ascii_of_string. Qed.
Lemma to_of_bytes l : to_bytes (of_bytes l) = l.
Proof. apply String.list_ascii_of_string_of_list_ascii. Qed.

#[export] Instance to_bytes_inj : Inj (=) (=) to_bytes.
Proof. intros s1 s2 Heq. by rewrite <-(of_to_bytes s1), <-(of_to_bytes s2), Heq. Qed.

(** ** strings.TrimSpace *)
Definition in_range (lo hi n : N) : bool := (lo <=? n)%N && (n <=? hi)%N.

(** U+0009..U+000D and U+0020 *)
Definition space1 (a : ascii) : bool := in_range 9 13 (code a) || (code a =? 32)%N.
(** U+0085, U+00A0 *)
Definition space2 (a b : ascii) : bool :=
  (code a =? 194)%N && ((code b =? 133)%N || (code b =? 160)%N).
(** U+1680, U+2000..U+200A, U+2028, U+2029, U+202F, U+205F, U+3000 *)
Definition space3 (a b c : ascii) : bool :=
  let n := (code a * 65536 + code b * 256 + code c)%N in
  (n =? 14785152)%N || in_range 14844032 14844042 n || in_range 14844072 14844073 n
  || (n =? 14844079)%N || (n =? 14844319)%N || (n =? 14909568)%N.

(** Strip spaces at the head.  [s2] and [s3] read the bytes in the order of the
    list, so one function serves both ends of a string. *)
Section trim.
Context (s2 : ascii → ascii → bool) (s3 : ascii → ascii → ascii → bool).

Fixpoint trim_head (l : bytes) : bytes :=
  match l with
  | [] => []
  | a :: l1 =>
    if space1 a then trim_head l1 else
    match l1 with
    | [] => l
    | b :: l2 =>
      if s2 a b then trim_head l2 else
      match l2 with
      | [] => l
      | c :: l3 => if s3 a b c then trim_head l3 else l
      end
    end
  end.

(** No space at the head. *)
Definition head_clean (l : bytes) : Prop :=
  (∀ a l1, l = a :: l1 → space1 a = false) ∧
  (∀ a b l2, l = a :: b :: l2 → s2 a b = false) ∧
  (∀ a b c l3, l = a :: b :: c :: l3 → s3 a b c = false).

(** Induction along the three recursive calls of [trim_head]. *)
Lemma bytes_ind3 (P : bytes → Prop) :
  (∀ l, (∀ a l', l = a :: l' → P l') → (∀ a b l', l = a :: b :: l' → P l') →
    (∀ a b c l', l = a :: b :: c :: l' → P l') → P l) → ∀ l, P l.
Proof.
  intros Hstep l. remember (length l) as n eqn:Hn. revert l Hn.
  induction (lt_wf n) as [n _ IH]. intros l ->.
  apply Hstep; intros; subst; eapply IH; try reflexivity; simpl; lia.
Qed.

Lemma trim_head_clean l : head_clean (trim_head l).
Proof.
  induction l as [l IH1 IH2 IH3] using bytes_ind3.
  destruct l as [|a l1]; simpl; [by split_and!|].
  destruct (space1 a) eqn:Ha; [by eapply IH1|].
  destruct l1 as [|b l2]; [by split_and!; intros; simplify_eq|].
  destruct (s2 a b) eqn:Hab; [by eapply IH2|].
  destruct l2 as [|c l3]; [by split_and!; intros; simplify_eq|].
  destruct (s3 a b c) eqn:Habc; [by eapply IH3|].
  by split_and!; intros; simplify_eq.
Qed.

Lemma trim_head_id l : head_clean l → trim_head l = l.
Proof.
  intros (H1 & H2 & H3). destruct l as [|a l1]; simpl; [done|].
  rewrite (H1 a l1) by done. destruct l1 as [|b l2]; [done|].
  rewrite (H2 a b l2) by done. destruct l2 as [|c l3]; [done|].
  by rewrite (H3 a b c l3).
Qed.

Lemma trim_head_suffix l : ∃ k, l = k ++ trim_head l.
Proof.
  induction l as [l IH1 IH2 IH3] using bytes_ind3.
  destruct l as [|a l1]; simpl; [by exists []|].
  destruct (space1 a).
  { destruct (IH1 a l1 eq_refl) as [k Hk]. exists (a :: k). simpl. by f_equal. }
  destruct l1 as [|b l2]; [by exists []|].
  destruct (s2 a b).
  { destruct (IH2 a b l2 eq_refl) as [k Hk]. exists (a :: b :: k). simpl. by do 2 f_equal. }
  destruct l2 as [|c l3]; [by exists []|].
  destruct (s3 a b c); [|by exists []].
  destruct (IH3 a b c l3 eq_refl) as [k Hk]. exists (a :: b :: c :: k). simpl. by do 3 f_equal.
Qed.

Lemma head_clean_prefix l k : head_clean (l ++ k) → head_clean l.
Proof.
  intros (H1 & H2 & H3). split_and!.
  - intros a l1 ->. by apply (H1 a (l1 ++ k)).
  - intros a b l2 ->. by apply (H2 a b (l2 ++ k)).
  - intros a b c l3 ->. by apply (H3 a b c (l3 ++ k)).
Qed.
End trim.

Definition trim_left (l : bytes) : bytes := trim_head space2 space3 l.
Definition trim_right (l : bytes) : bytes :=
  reverse (trim_head (λ b a, space2 a b) (λ c b a, space3 a b c) (reverse l)).
Definition trim_space (l : bytes) : bytes := trim_right (trim_left l).
Definition TrimSpace (s : string) : string := of_bytes (trim_space (to_bytes s)).

Lemma trim_right_prefix l : ∃ k, l = trim_right l ++ k.
Proof.
  destruct (trim_head_suffix (λ b a, space2 a b) (λ c b a, space3 a b c) (reverse l)) as [k Hk].
  exists (reverse k). unfold trim_right.
  rewrite <-reverse_app, <-Hk. by rewrite reverse_involutive.
Qed.

Lemma trim_right_idem l : trim_right (trim_right l) = trim_right l.
Proof.
  unfold trim_right. rewrite reverse_involutive.
  by rewrite (trim_head_id _ _ (trim_head _ _ _)) by apply trim_head_clean.
Qed.

Lemma trim_space_idem l : trim_space (trim_space l) = trim_space l.
Proof.
  unfold trim_space. set (m := trim_left l).
  assert (trim_left (trim_right m) = trim_right m) as ->; [|apply trim_right_idem].
  apply trim_head_id. destruct (trim_right_prefix m) as [k Hk].
  apply (head_clean_prefix _ _ _ k). rewrite <-Hk. apply trim_head_clean.
Qed.

(** Trimming twice is trimming once. *)
Lemma TrimSpace_idem s : TrimSpace (TrimSpace s) = TrimSpace s.
Proof. unfold TrimSpace. by rewrite to_of_bytes, trim_space_idem. Qed.

(** Bytes of a string without spaces are kept as they are. *)
Lemma trim_head_no_space s2 s3 l :
  (∀ a b, s2 a b = true → a ∉ l ∨ b ∉ l) → (∀ a b c, s3 a b c = true → a ∉ l ∨ b ∉ l ∨ c ∉ l) →
  Forall (λ a, space1 a = false) l → trim_head s2 s3 l = l.
Proof.
  intros H2 H3 H1. apply trim_head_id. split_and!.
  - intros a l1 ->. by inversion H1.
  - intros a b l2 ->. destruct (s2 a b) eqn:Hab; [|done]. apply H2 in Hab. set_solver.
  - intros a b c l3 ->. destruct (s3 a b c) eqn:Habc; [|done]. apply H3 in Habc. set_solver.
Qed.

Lemma space2_lead a b : space2 a b = true → (128 <= code a)%N.
Proof. unfold space2. intros [->%N.eqb_eq _]%andb_true_iff. lia. Qed.

Lemma code_lt a : (code a < 256)%N.
Proof. apply N_ascii_bounded. Qed.

Lemma space3_lead a b c : space3 a b c = true → (128 <= code a)%N.
Proof.
  unfold space3, in_range. pose proof (code_lt b). pose proof (code_lt c). intros Hs.
  destruct (N.leb_spec 128 (code a)); [done|exfalso].
  repeat (apply orb_true_iff in Hs as [Hs|Hs]);
    (apply N.eqb_eq in Hs || (apply andb_true_iff in Hs as [Hs _]; apply N.leb_le in Hs)); lia.
Qed.

Lemma TrimSpace_plain s :
  Forall (λ a, space1 a = false ∧ (code a < 128)%N) (to_bytes s) → TrimSpace s = s.
Proof.
  intros Hs. unfold TrimSpace, trim_space, trim_right, trim_left.
  rewrite Forall_forall in Hs.
  assert (∀ a, (128 <= code a)%N → a ∉ to_bytes s) as Hn.
  { intros a Ha Hin. destruct (Hs a Hin). lia. }
  rewrite (trim_head_no_space space2 space3).
  2: { intros a b Hab. left. by apply Hn, (space2_lead a b). }
  2: { intros a b c Hab. left. eapply Hn, space3_lead, Hab. }
  2: { apply Forall_forall. intros a Ha. by apply Hs. }
  rewrite trim_head_no_space; [by rewrite reverse_involutive, of_to_bytes|..].
  - intros a b Hab. right. rewrite elem_of_reverse. eapply Hn, space2_lead, Hab.
  - intros a b c Hab. right; right. rewrite elem_of_reverse. eapply Hn, space3_lead, Hab.
  - apply Forall_forall. intros a. rewrite elem_of_reverse. by apply Hs.
Qed.

(** ** strings.ToLower *)
Definition is_upper (c : ascii) : bool := in_range 65 90 (code c).
Definition lower_ascii (c : ascii) : ascii := if is_upper c then chr (code c + 32) else c.

Fixpoint to_lower (l : bytes) : bytes :=
  match l with
  | [] => []
  | a :: l1 =>
    match l1 with
    | b :: l2 =>
      if (code a =? 196)%N && (code b =? 176)%N then chr 105 :: to_lower l2 else
      match l2 with
      | c :: l3 =>
        if (code a =? 226)%N && (code b =? 132)%N && (code c =? 170)%N
        then chr 107 :: to_lower l3 else lower_ascii a :: to_lower l1
      | [] => lower_ascii a :: to_lower l1
      end
    | [] => lower_ascii a :: to_lower l1
    end
  end.
Definition ToLower (s : string) : string := of_bytes (to_lower (to_bytes s)).

Lemma to_lower_id l :
  Forall (λ a, is_upper a = false ∧ (code a < 128)%N) l → to_lower l = l.
Proof.
  assert (∀ a, is_upper a = false → lower_ascii a = a) as Hlow.
  { intros a Ha. unfold lower_ascii. by rewrite Ha. }
  induction 1 as [|a l1 [Hu Hc] Hl IH]; simpl; [done|].
  assert ((code a =? 196)%N = false) as -> by (apply N.eqb_neq; lia).
  assert ((code a =? 226)%N = false) as -> by (apply N.eqb_neq; lia).
  simpl. rewrite Hlow by done.
  destruct l1 as [|b [|c l3]]; by rewrite ?IH.
Qed.

(** ** Prefixes, suffixes, search *)
Fixpoint has_prefix (p l : bytes) : bool :=
  match p, l with
  | [], _ => true
  | a :: p, b :: l => bool_decide (a = b) && has_prefix p l
  | _ :: _, [] => false
  end.
Definition HasPrefix (s p : string) : bool := has_prefix (to_bytes p) (to_bytes s).

(** strings.TrimPrefix, strings.TrimSuffix *)
Definition TrimPrefix (s p : string) : string :=
  if HasPrefix s p then of_bytes (drop (String.length p) (to_bytes s)) else s.
Definition trim_suffix (l p : bytes) : bytes :=
  if has_prefix (reverse p) (reverse l) then take (length l - length p) l else l.
Definition TrimSuffix (s p : string) : string := of_bytes (trim_suffix (to_bytes s) (to_bytes p)).

(** strings.Contains *)
Fixpoint contains (l p : bytes) : bool :=
  has_prefix p l || match l with [] => false | _ :: l => contains l p end.
Definition Contains (s p : string) : bool := contains (to_bytes s) (to_bytes p).

(** strings.ContainsAny, for an ASCII set of characters *)
Definition ContainsAny (s chars : string) : bool :=
  existsb (λ c, bool_decide (c ∈ to_bytes chars)) (to_bytes s).

(** strings.Split with a one-byte separator *)
Fixpoint split_on (sep : ascii) (l : bytes) : list bytes :=
  match l with
  | [] => [[]]
  | c :: l =>
    let rest := split_on sep l in
    if decide (c = sep) then [] :: rest
    else match rest with [] => [[c]] | p :: rest => (c :: p) :: rest end
  end.
Definition Split (s : string) (sep : ascii) : list string :=
  of_bytes <$> split_on sep (to_bytes s).

(** strings.Join *)
Definition Join (l : list string) (sep : string) : string := String.concat sep l.

Lemma split_on_not_nil sep l : split_on sep l ≠ [].
Proof. destruct l as [|c l]; simpl; [done|]. destruct (decide _); [done|]. by destruct (split_on sep l). Qed.

Lemma Split_not_nil s sep : Split s sep ≠ [].
Proof.
  unfold Split. intros Heq%fmap_nil_inv. by eapply split_on_not_nil.
Qed.

Lemma split_on_sep_free sep l p : p ∈ split_on sep l → sep ∉ p.
Proof.
  revert p. induction l as [|c l IH]; intros p; simpl.
  { intros ->%list_elem_of_singleton. apply not_elem_of_nil. }
  destruct (decide (c = sep)) as [->|Hne].
  { intros [->|Hp]%elem_of_cons; [apply not_elem_of_nil|by apply IH]. }
  destruct (split_on sep l) as [|q rest].
  { intros ->%list_elem_of_singleton. rewrite list_elem_of_singleton. done. }
  intros [->|Hp]%elem_of_cons; [|by apply IH; right].
  rewrite not_elem_of_cons. split; [done|]. apply IH. left.
Qed.

(** ** strconv.Atoi, on a 64-bit platform *)
Definition digit_value (c : ascii) : option Z :=
  if in_range 48 57 (code c) then Some (Z.of_N (code c) - 48)%Z else None.

Fixpoint digits_value (acc : Z) (l : bytes) : option Z :=
  match l with
  | [] => Some acc
  | c :: l => d ← digit_value c; digits_value (acc * 10 + d) l
  end.

Definition Atoi (s : string) : option Z :=
  let '(neg, ds) :=
    match to_bytes s with
    | c :: l => if decide (code c = 45%N) then (true, l)
                else if decide (code c = 43%N) then (false, l) else (false, c :: l)
    | [] => (false, [])
    end in
  match ds with
  | [] => None
  | _ :: _ =>
    n ← digits_value 0 ds;
    let v := if neg : bool then (- n)%Z else n in
    if (min_int64 <=? v)%Z && (v <=? max_int64)%Z then Some v else None
  end.

Lemma Atoi_range s v : Atoi s = Some v → (min_int64 ≤ v ≤ max_int64)%Z.
Proof.
  unfold Atoi. destruct (match to_bytes s with [] => _ | _ => _ end) as [neg [|d ds]]; [done|].
  destruct (digits_value 0 (d :: ds)) as [n|]; simpl; [|done].
  destruct (_ && _) eqn:Hb; [|done]. apply andb_true_iff in Hb as [?%Z.leb_le ?%Z.leb_le].
  by intros [= <-].
Qed.

(** ** sort.Strings and sort.SearchStrings *)
Definition sort_Strings (l : list string) : list string := merge_sort String.le l.

(** sort.Search: the loop of the library, [fuel] bounding its iterations. *)
Fixpoint search_loop (fuel : nat) (f : nat → bool) (i j : nat) : nat :=
  match fuel with
  | O => i
  | S fuel =>
    if decide (i < j) then
      let h := (i + j) / 2 in
      if f h then search_loop fuel f i h else search_loop fuel f (S h) j
    else i
  end.
Definition search (n : nat) (f : nat → bool) : nat := search_loop n f 0 n.
Definition SearchStrings (values : list string) (value : string) : nat :=
  search (length values) (λ i, from_option (λ v, bool_decide (String.le value v)) false (values !! i)).

(** With enough fuel the loop ends at the boundary of a predicate that is
    monotone below [n]. *)
Lemma search_loop_spec f fuel n i j :
  j - i ≤ fuel → i ≤ j ≤ n → (∀ a b, a ≤ b < n → f a = true → f b = true) →
  let r := search_loop fuel f i j in
  i ≤ r ≤ j ∧ (∀ a, i ≤ a < r → f a = false) ∧ (r < j → f r = true).
Proof.
  intros Hfuel Hij Hmono. revert i j Hfuel Hij.
  induction fuel as [|fuel IH]; intros i j Hfuel Hij; cbn [search_loop]; cbv zeta.
  { split_and!; [lia|lia|intros; lia|lia]. }
  destruct (decide (i < j)) as [Hlt|Hge]; [|split_and!; [lia|lia|intros; lia|lia]].
  assert (i ≤ (i + j) / 2 < j) as Hh.
  { split; [apply Nat.div_le_lower_bound; lia|apply Nat.Div0.div_lt_upper_bound; lia]. }
  generalize dependent ((i + j) / 2). intros h Hh. destruct (f h) eqn:Hf.
  - destruct (IH i h) as ([? ?] & Hbelow & Hat); [lia|lia|].
    split_and!; [lia|lia|done|]. intros _.
    destruct (decide (search_loop fuel f i h < h)); [by apply Hat|].
    by replace (search_loop fuel f i h) with h by lia.
  - destruct (IH (S h) j) as ([? ?] & Hbelow & Hat); [lia|lia|].
    split_and!; [lia|lia| |done]. intros a Ha.
    destruct (decide (a ≤ h)); [|apply Hbelow; lia].
    destruct (f a) eqn:Hfa; [|done]. by rewrite (Hmono a h) in Hf by (done || lia).
Qed.

(** sort.SearchStrings on a sorted slice: everything before the index is
    smaller, everything from it on is not. *)
Lemma SearchStrings_spec values value :
  StronglySorted String.le values →
  (∀ i v, values !! i = Some v → i < SearchStrings values value → ¬ String.le value v) ∧
  (∀ i v, values !! i = Some v → SearchStrings values value ≤ i → String.le value v).
Proof.
  intros Hs. unfold SearchStrings, search.
  set (f := λ i, from_option (λ v, bool_decide (String.le value v)) false (values !! i)).
  assert (∀ a b, a ≤ b < length values → f a = true → f b = true) as Hmono.
  { intros a b [Hab Hb]. unfold f. destruct (lookup_lt_is_Some_2 values b Hb) as [vb Hvb].
    rewrite Hvb. simpl. destruct (values !! a) as [va|] eqn:Hva; simpl; [|done].
    intros Hle%bool_decide_eq_true. apply bool_decide_eq_true.
    trans va; [done|]. by apply (StronglySorted_lookup String.le values a b). }
  destruct (search_loop_spec f (length values) (length values) 0 (length values))
    as ([_ Hr] & Hbelow & Hat); [lia|lia|done|].
  split; intros i v Hi Hlt.
  - specialize (Hbelow i ltac:(lia)). unfold f in Hbelow. rewrite Hi in Hbelow. simpl in Hbelow.
    by apply bool_decide_eq_false in Hbelow.
  - assert (f i = true) as Hf.
    { pose proof (lookup_lt_Some _ _ _ Hi). eapply Hmono, Hat; lia. }
    unfold f in Hf. rewrite Hi in Hf. simpl in Hf. by apply bool_decide_eq_true in Hf.
Qed.
