(* ===== verification/Validation.v ===== *)
(** * DNS name validation

    [k8s.io/apimachinery/pkg/util/validation] is a library the controller
    calls: its two predicates are parameters, with the documented shape of the
    names they accept as laws.  [dns1123] follows the documented regular
    expressions and satisfies the laws; the witnesses use it. *)
From S2P Require Import Prelude GoStrings.
From Stdlib Require Import Ascii.

Definition is_lower_alnum (c : ascii) : bool := in_range 97 122 (code c) || in_range 48 57 (code c).
Definition is_hyphen (c : ascii) : bool := (code c =? 45)%N.
Definition is_dot (c : ascii) : bool := (code c =? 46)%N.

Class DNSValidation := {
  IsDNS1123Label : string → list string;
  IsDNS1123Subdomain : string → list string
}.

(** No problem is reported only for names of the documented form. *)
Class DNSValidationLaws (D : DNSValidation) : Prop := {
  label_chars s : IsDNS1123Label s = [] →
    s ≠ "" ∧ Forall (λ c, is_lower_alnum c || is_hyphen c) (to_bytes s);
  subdomain_chars s : IsDNS1123Subdomain s = [] →
    s ≠ "" ∧ Forall (λ c, is_lower_alnum c || is_hyphen c || is_dot c) (to_bytes s);
  subdomain_last s c l : IsDNS1123Subdomain s = [] → to_bytes s = l ++ [c] → is_lower_alnum c
}.

(** [[a-z0-9]([-a-z0-9]*[a-z0-9])?] *)
Definition dns_label (l : bytes) : bool :=
  match l with
  | [] => false
  | c :: _ => is_lower_alnum c && from_option is_lower_alnum false (last l)
              && forallb (λ c, is_lower_alnum c || is_hyphen c) l
  end.

Definition dns1123_label (s : string) : list string :=
  if dns_label (to_bytes s) && (String.length s <=? 63) then [] else ["must be a DNS-1123 label"].

Definition dns1123_subdomain (s : string) : list string :=
  if forallb dns_label (split_on (chr 46) (to_bytes s)) && (String.length s <=? 253)
  then [] else ["must be a DNS-1123 subdomain"].

Definition dns1123 : DNSValidation := {|
  IsDNS1123Label := dns1123_label;
  IsDNS1123Subdomain := dns1123_subdomain
|}.

Lemma dns_label_chars l : dns_label l = true → l ≠ [] ∧ Forall (λ c, is_lower_alnum c || is_hyphen c) l.
Proof.
  destruct l as [|c l]; [done|]. unfold dns_label.
  intros [_ Hall]%andb_true_iff. split; [done|].
  apply Forall_forall. intros a Ha. apply forallb_forall with (x := a) in Hall; [by rewrite Hall|].
  by apply list_elem_of_In.
Qed.

(** The pieces of a split, and the separators between them, are the string. *)
Lemma split_on_Forall (P : ascii → Prop) sep l :
  P sep → Forall (Forall P) (split_on sep l) → Forall P l.
Proof.
  intros Hsep. induction l as [|c l IH]; simpl; [done|].
  destruct (decide (c = sep)) as [->|Hne].
  { intros Hf. inversion Hf; subst. auto. }
  destruct (split_on sep l) as [|p rest].
  { inversion 1 as [|? ? Hc]; subst. inversion Hc; subst. auto. }
  inversion 1 as [|? ? Hc Hrest]; subst. inversion Hc; subst. auto.
Qed.

(** The last piece is empty (the string ends with a separator) or ends with the
    last byte. *)
Lemma split_on_last sep l c :
  ∃ ps q, split_on sep (l ++ [c]) = ps ++ [q] ∧ ((q = [] ∧ ps ≠ []) ∨ last q = Some c).
Proof.
  induction l as [|a l (ps & q & Heq & Hq)]; simpl.
  { destruct (decide (c = sep)); [exists [[]], []|exists [], [c]]; auto. }
  rewrite Heq. destruct (decide (a = sep)).
  { exists ([] :: ps), q. split; [done|]. destruct Hq as [[-> ?]|?]; [by left|by right]. }
  destruct ps as [|p ps]; simpl.
  - exists [], (a :: q). split; [done|]. right. destruct Hq as [[_ ?]|Hq]; [done|].
    rewrite last_cons, Hq. done.
  - exists ((a :: p) :: ps), q. split; [done|]. destruct Hq as [[-> ?]|?]; [by left|by right].
Qed.

#[export] Instance dns1123_laws : DNSValidationLaws dns1123.
Proof.
  split; intros s; simpl; unfold dns1123_label, dns1123_subdomain.
  - destruct (dns_label (to_bytes s)) eqn:Hl; [|done]. intros _.
    apply dns_label_chars in Hl as [Hne Hl]. split; [by intros ->|done].
  - destruct (forallb dns_label _) eqn:Hl; [|done]. intros _. split; [by intros ->|].
    apply (split_on_Forall _ (chr 46)); [done|].
    apply Forall_forall. intros p Hp. apply Forall_forall. intros c Hc.
    apply forallb_forall with (x := p) in Hl; [|by apply list_elem_of_In].
    apply dns_label_chars in Hl as [_ Hl]. rewrite Forall_forall in Hl.
    apply Hl in Hc. by destruct (is_lower_alnum c), (is_hyphen c).
  - intros c l. destruct (forallb dns_label _) eqn:Hl; [|done]. intros _ Hs.
    rewrite Hs in Hl. destruct (split_on_last (chr 46) l c) as (ps & q & Heq & Hq).
    rewrite Heq, forallb_app in Hl. apply andb_true_iff in Hl as [_ Hl].
    simpl in Hl. rewrite andb_true_r in Hl.
    destruct Hq as [[-> _]|Hq]; [done|]. destruct q as [|a q]; [done|].
    unfold dns_label in Hl. rewrite Hq in Hl. simpl in Hl.
    by destruct (is_lower_alnum a), (is_lower_alnum c).
Qed.
