(* ===== verification/Encoding.v ===== *)
(** * Encodings of the standard library the controller relies on

    UTF-8 scanning, the string encoder of encoding/json (with HTML escaping),
    encoding/hex, encoding/base64 (StdEncoding) and crypto/sha256, on byte
    lists.  The controller only feeds their results into comparisons and Secret
    payloads, so they are kept executable and checked on published vectors. *)
From S2P Require Import Prelude GoStrings.
From Stdlib Require Import Ascii.

Definition byteZ (z : Z) : ascii := chr (Z.to_N z).
Definition codeZ (c : ascii) : Z := Z.of_N (code c).

Lemma codeZ_range c : (0 ≤ codeZ c < 256)%Z.
Proof. unfold codeZ. pose proof (code_lt c). lia. Qed.
Lemma byteZ_codeZ c : byteZ (codeZ c) = c.
Proof. unfold byteZ, codeZ, chr, code. rewrite N2Z.id. apply ascii_N_embedding. Qed.
Lemma codeZ_byteZ z : (0 ≤ z < 256)%Z → codeZ (byteZ z) = z.
Proof. intros Hz. unfold byteZ, codeZ, chr, code. rewrite N_ascii_embedding; lia. Qed.

(** ** utf8.DecodeRune: the length of the valid encoding at the head, 0 if none *)
Definition cont (c : ascii) : bool := in_range 128 191 (code c).
Definition second_ok (a b : ascii) : bool :=
  let x := code a in
  if (x =? 224)%N then in_range 160 191 (code b)
  else if (x =? 237)%N then in_range 128 159 (code b)
  else if (x =? 240)%N then in_range 144 191 (code b)
  else if (x =? 244)%N then in_range 128 143 (code b)
  else cont b.

Definition rune_length (l : bytes) : nat :=
  match l with
  | [] => 0
  | a :: l =>
    if (code a <? 128)%N then 1 else
    match l with
    | b :: l =>
      if in_range 194 223 (code a) && cont b then 2 else
      match l with
      | c :: l =>
        if in_range 224 239 (code a) && second_ok a b && cont c then 3 else
        match l with
        | d :: _ => if in_range 240 244 (code a) && second_ok a b && cont c && cont d then 4 else 0
        | [] => 0
        end
      | [] => 0
      end
    | [] => 0
    end
  end.

(** ** Strings in encoding/json *)
Definition hex_digit (n : N) : ascii := if (n <? 10)%N then chr (48 + n) else chr (87 + n).
Definition backslash : ascii := chr 92.
Definition quote : ascii := chr 34.
Definition u00 (c : ascii) : bytes :=
  to_bytes "\u00" ++ [hex_digit (code c / 16); hex_digit (code c mod 16)].

(** A byte below U+0080; [<], [>] and [&] are escaped for HTML. *)
Definition escape_ascii (c : ascii) : bytes :=
  let n := code c in
  if (n =? 34)%N || (n =? 92)%N then [backslash; c]
  else if (n =? 8)%N then to_bytes "\b"
  else if (n =? 12)%N then to_bytes "\f"
  else if (n =? 10)%N then to_bytes "\n"
  else if (n =? 13)%N then to_bytes "\r"
  else if (n =? 9)%N then to_bytes "\t"
  else if (n <? 32)%N || (n =? 60)%N || (n =? 62)%N || (n =? 38)%N then u00 c
  else [c].

(** [copy] counts the bytes of the current rune that are still to be copied,
    [skip] those that were already written in escaped form. *)
Fixpoint json_escape (copy skip : nat) (l : bytes) : bytes :=
  match l with
  | [] => []
  | a :: l' =>
    match copy, skip with
    | S copy, _ => a :: json_escape copy 0 l'
    | O, S skip => json_escape 0 skip l'
    | O, O =>
      if (code a <? 128)%N then escape_ascii a ++ json_escape 0 0 l' else
      match l' with
      | b :: c :: _ =>
        if (code a =? 226)%N && (code b =? 128)%N && in_range 168 169 (code c)
        then to_bytes "\u202" ++ [hex_digit (code c mod 16)] ++ json_escape 0 2 l'
        else match rune_length l with
             | O => to_bytes "\ufffd" ++ json_escape 0 0 l'
             | S n => a :: json_escape n 0 l'
             end
      | _ => match rune_length l with
             | O => to_bytes "\ufffd" ++ json_escape 0 0 l'
             | S n => a :: json_escape n 0 l'
             end
      end
    end
  end.

Definition json_string (s : string) : bytes := quote :: json_escape 0 0 (to_bytes s) ++ [quote].

(** The documents the controller hashes are structs of strings: an object whose
    members are given in the order of the fields. *)
Definition json_member (name : string) (value : bytes) : bytes :=
  json_string name ++ to_bytes ":" ++ value.
Fixpoint join_bytes (sep : bytes) (ls : list bytes) : bytes :=
  match ls with
  | [] => []
  | [l] => l
  | l :: ls => l ++ sep ++ join_bytes sep ls
  end.
Definition json_struct (members : list (string * bytes)) : bytes :=
  to_bytes "{" ++ join_bytes (to_bytes ",") ((λ m, json_member m.1 m.2) <$> members)
  ++ to_bytes "}".
Definition json_strings (l : list string) : bytes :=
  to_bytes "[" ++ join_bytes (to_bytes ",") (json_string <$> l) ++ to_bytes "]".

(** ** encoding/hex *)
Definition hex_encode (l : bytes) : bytes :=
  l ≫= λ c, [hex_digit (code c / 16); hex_digit (code c mod 16)].

(** ** encoding/base64, StdEncoding *)
Definition base64_char (n : Z) : ascii :=
  if (n <? 26)%Z then byteZ (65 + n)
  else if (n <? 52)%Z then byteZ (71 + n)
  else if (n <? 62)%Z then byteZ (n - 4)
  else if (n =? 62)%Z then "+"%char else "/"%char.
Fixpoint base64_encode (l : bytes) : bytes :=
  match l with
  | [] => []
  | [a] =>
    let n := (codeZ a * 65536)%Z in
    [base64_char (n / 262144); base64_char (n / 4096 mod 64); "="%char; "="%char]
  | [a; b] =>
    let n := (codeZ a * 65536 + codeZ b * 256)%Z in
    [base64_char (n / 262144); base64_char (n / 4096 mod 64); base64_char (n / 64 mod 64); "="%char]
  | a :: b :: c :: l =>
    let n := (codeZ a * 65536 + codeZ b * 256 + codeZ c)%Z in
    base64_char (n / 262144) :: base64_char (n / 4096 mod 64) :: base64_char (n / 64 mod 64)
    :: base64_char (n mod 64) :: base64_encode l
  end.

(** ** crypto/sha256 *)
Definition w32 (x : Z) : Z := Z.land x 4294967295.
Definition add32 (x y : Z) : Z := w32 (x + y).
Definition rotr (n x : Z) : Z := Z.lor (Z.shiftr x n) (w32 (Z.shiftl x (32 - n))).
Definition big_sigma0 x := Z.lxor (rotr 2 x) (Z.lxor (rotr 13 x) (rotr 22 x)).
Definition big_sigma1 x := Z.lxor (rotr 6 x) (Z.lxor (rotr 11 x) (rotr 25 x)).
Definition sigma0 x := Z.lxor (rotr 7 x) (Z.lxor (rotr 18 x) (Z.shiftr x 3)).
Definition sigma1 x := Z.lxor (rotr 17 x) (Z.lxor (rotr 19 x) (Z.shiftr x 10)).
Definition ch x y z := Z.lxor (Z.land x y) (Z.land (w32 (Z.lnot x)) z).
Definition maj x y z := Z.lxor (Z.land x y) (Z.lxor (Z.land x z) (Z.land y z)).

(** FIPS 180-4 derives its constants from the first primes: the round constants
    are the first 32 bits of the fractional parts of their cube roots, the
    initial state those of their square roots. *)
Definition divides (n d : nat) : bool := bool_decide (n mod d = 0).
Definition is_prime (n : nat) : bool := negb (existsb (divides n) (seq 2 (n - 2))).
Definition first_primes (n : nat) : list nat := take n (filter (λ p, is_prime p) (seq 2 310)).
(** The integer part of the [e]-th root of [n], below [2 ^ bits], bit by bit. *)
Fixpoint integer_root (e n : Z) (bits : nat) (root : Z) : Z :=
  match bits with
  | 0 => root
  | S bits =>
    let next := (root + 2 ^ Z.of_nat bits)%Z in
    integer_root e n bits (if (next ^ e <=? n)%Z then next else root)
  end.
Definition root_fraction (e : Z) (p : nat) : Z :=
  (integer_root e (Z.of_nat p * 2 ^ (32 * e)) 40 0 mod 2 ^ 32)%Z.
Definition sha256_k : list Z := Eval vm_compute in root_fraction 3 <$> first_primes 64.
Definition sha256_init : list Z := Eval vm_compute in root_fraction 2 <$> first_primes 8.

(** The schedule, newest word first: [w] holds the last sixteen or more. *)
Definition next_word (w : list Z) : Z :=
  add32 (add32 (sigma1 (nth 1 w 0%Z)) (nth 6 w 0%Z)) (add32 (sigma0 (nth 14 w 0%Z)) (nth 15 w 0%Z)).
Definition schedule (block : list Z) : list Z :=
  reverse (Nat.iter 48 (λ w, next_word w :: w) (reverse block)).

Definition sha256_round (st : list Z) (kw : Z * Z) : list Z :=
  match st with
  | [a; b; c; d; e; f; g; h] =>
    let t1 := add32 (add32 h (big_sigma1 e)) (add32 (ch e f g) (add32 kw.1 kw.2)) in
    let t2 := add32 (big_sigma0 a) (maj a b c) in
    [add32 t1 t2; a; b; c; add32 d t1; e; f; g]
  | _ => st
  end.
Definition sha256_block (st block : list Z) : list Z :=
  zip_with add32 st (foldl sha256_round st (zip sha256_k (schedule block))).

Fixpoint be_words (l : bytes) : list Z :=
  match l with
  | a :: b :: c :: d :: l =>
    (codeZ a * 16777216 + codeZ b * 65536 + codeZ c * 256 + codeZ d)%Z :: be_words l
  | _ => []
  end.
Definition be_bytes (n : nat) (z : Z) : bytes :=
  (λ i, byteZ (Z.land (Z.shiftr z (8 * Z.of_nat (n - S i))) 255)) <$> seq 0 n.

Definition sha256_pad (l : bytes) : bytes :=
  l ++ [chr 128] ++ replicate ((119 - length l mod 64) mod 64) (chr 0)
  ++ be_bytes 8 (8 * Z.of_nat (length l)).

Fixpoint sha256_blocks (fuel : nat) (st ws : list Z) : list Z :=
  match fuel, ws with
  | S fuel, _ :: _ => sha256_blocks fuel (sha256_block st (take 16 ws)) (drop 16 ws)
  | _, _ => st
  end.
(** Every block takes sixteen words, so the number of words is enough fuel. *)
Definition Sum256 (l : bytes) : bytes :=
  let ws := be_words (sha256_pad l) in
  sha256_blocks (length ws) sha256_init ws ≫= be_bytes 4.

(** hex.EncodeToString(sha256.Sum256(canonical)[:]) *)
Definition sha256_hex (canonical : bytes) : string := of_bytes (hex_encode (Sum256 canonical)).

(** A digest has 32 bytes, and its hexadecimal form determines it. *)
Lemma sha256_round_length st kw : length st = 8 → length (sha256_round st kw) = 8.
Proof. unfold sha256_round. intros Hst. repeat (destruct st; try done). Qed.

Lemma sha256_block_length st block : length st = 8 → length (sha256_block st block) = 8.
Proof.
  intros Hst. unfold sha256_block. rewrite length_zip_with, Hst.
  assert (∀ l s, length s = 8 → length (foldl sha256_round s l) = 8) as Hfold.
  { intros l. induction l as [|kw l IH]; intros s Hs; [done|]. by apply IH, sha256_round_length. }
  by rewrite Hfold.
Qed.

Lemma Sum256_length l : length (Sum256 l) = 32.
Proof.
  unfold Sum256.
  assert (∀ fuel st ws, length st = 8 → length (sha256_blocks fuel st ws) = 8) as Hb.
  { induction fuel as [|fuel IH]; intros st ws Hst; [done|].
    destruct ws; [done|]. by apply IH, sha256_block_length. }
  specialize (Hb (length (be_words (sha256_pad l))) sha256_init (be_words (sha256_pad l)) eq_refl).
  destruct (sha256_blocks _ _ _) as [|z1 [|z2 [|z3 [|z4 [|z5 [|z6 [|z7 [|z8 [|]]]]]]]]]; done.
Qed.

Lemma hex_encode_length l : length (hex_encode l) = 2 * length l.
Proof.
  unfold hex_encode. induction l as [|c l IH]; [done|].
  rewrite bind_cons, length_app, IH. simpl. lia.
Qed.

Lemma hex_digit_inj a b : (a < 16)%N → (b < 16)%N → hex_digit a = hex_digit b → a = b.
Proof.
  intros Ha Hb Heq. apply (f_equal code) in Heq. unfold hex_digit, code, chr in Heq.
  destruct (N.ltb_spec a 10), (N.ltb_spec b 10); rewrite !N_ascii_embedding in Heq; lia.
Qed.

#[export] Instance hex_encode_inj : Inj (=) (=) hex_encode.
Proof.
  intros l1. induction l1 as [|a l1 IH]; intros [|b l2]; unfold hex_encode in *;
    rewrite ?bind_cons; simpl; [done..|].
  intros [= Hhi Hlo Hrest]. f_equal; [|by apply IH].
  pose proof (code_lt a). pose proof (code_lt b).
  apply hex_digit_inj in Hhi; [|apply N.Div0.div_lt_upper_bound; lia..].
  apply hex_digit_inj in Hlo; [|apply N.mod_lt; lia..].
  assert (code a = code b) as Heq.
  { rewrite (N.div_mod (code a) 16), (N.div_mod (code b) 16) by lia. congruence. }
  rewrite <-(ascii_N_embedding a), <-(ascii_N_embedding b). unfold code in Heq. by rewrite Heq.
Qed.

Lemma sha256_hex_not_empty l : sha256_hex l ≠ "".
Proof.
  intros Heq%(f_equal (length ∘ to_bytes)). unfold sha256_hex in Heq. simpl in Heq.
  rewrite to_of_bytes, hex_encode_length, Sum256_length in Heq. done.
Qed.

Lemma sha256_hex_inj l1 l2 : sha256_hex l1 = sha256_hex l2 → Sum256 l1 = Sum256 l2.
Proof.
  intros Heq%(f_equal to_bytes). unfold sha256_hex in Heq. rewrite !to_of_bytes in Heq.
  by apply (inj hex_encode).
Qed.

Example sha256_abc : sha256_hex (to_bytes "abc")
  = "ba7816bf8f01cfea414140de5dae2223b00361a396177a9cb410ff61f20015ad".
Proof. vm_compute. reflexivity. Qed.
Example sha256_empty : sha256_hex []
  = "e3b0c44298fc1c149afbf4c8996fb92427ae41e4649b934ca495991b7852b855".
Proof. vm_compute. reflexivity. Qed.
Example sha256_two_blocks :
  sha256_hex (to_bytes "abcdbcdecdefdefgefghfghighijhijkijkljklmklmnlmnomnopnopq")
  = "248d6a61d20638b8e5c026930c3e6039a33ce45964ff2167f6ecedd419db06c1".
Proof. vm_compute. reflexivity. Qed.
Example base64_man : of_bytes (base64_encode (to_bytes "user:pass")) = "dXNlcjpwYXNz".
Proof. vm_compute. reflexivity. Qed.
Example base64_pad : of_bytes (base64_encode (to_bytes "a:")) = "YTo=".
Proof. vm_compute. reflexivity. Qed.
