(* ===== verification/Rfc3339.v ===== *)
(** * RFC 3339 times

    [time.Time] values as the Secret's annotation carries them: an instant and
    the offset they are printed with.  [format_nano] is [Format(time.RFC3339Nano)],
    [marshal_time] the text of [MarshalJSON] and [parse_strict] the grammar that
    [UnmarshalJSON] accepts.  [parse_format] is their round trip. *)
From S2P Require Import Prelude GoStrings Encoding.
From Stdlib Require Import Ascii.

Local Open Scope Z_scope.

(** [unix_nano]: nanoseconds since the Unix epoch; [offset]: seconds east of UTC. *)
Record GoTime := MkTime { unix_nano : Z; offset : Z }.
#[export] Instance GoTime_eq_dec : EqDecision GoTime.
Proof. solve_decision. Defined.

(** January 1 of year 1, UTC: the zero [time.Time] *)
Definition zero_time : GoTime := MkTime (-62135596800000000000) 0.
Definition IsZero (t : GoTime) : bool := unix_nano t =? unix_nano zero_time.
Definition UTC (t : Z) : GoTime := MkTime t 0.

(** ** Civil dates *)
Definition is_leap (y : Z) : bool :=
  (y mod 4 =? 0) && (negb (y mod 100 =? 0) || (y mod 400 =? 0)).
(** Days from 0000-01-01 to the first day of year [y]. *)
Definition year_start (y : Z) : Z := 365 * y + (y + 3) / 4 - (y + 99) / 100 + (y + 399) / 400.
Definition month_days (leap : bool) (m : Z) : Z :=
  if m =? 2 then (if leap then 29 else 28)
  else if (m =? 4) || (m =? 6) || (m =? 9) || (m =? 11) then 30 else 31.
(** Days of the year before month [m]. *)
Fixpoint month_start_nat (leap : bool) (n : nat) : Z :=
  match n with O => 0 | S n => month_start_nat leap n + month_days leap (Z.of_nat (S n)) end.
Definition month_start (leap : bool) (m : Z) : Z := month_start_nat leap (Z.to_nat (m - 1)).
(** 1970-01-01, in days from 0000-01-01 *)
Definition epoch_days : Z := 719528.

Definition days_from_civil (y m d : Z) : Z :=
  year_start y + month_start (is_leap y) m + (d - 1) - epoch_days.

Definition year_of (n : Z) : Z :=
  let y := n * 400 / 146097 in
  if year_start (y + 1) <=? n then y + 1 else if n <? year_start y then y - 1 else y.

(** The last month that starts on or before day [n] of the year. *)
Fixpoint month_of_nat (leap : bool) (fuel : nat) (n : Z) : Z :=
  match fuel with
  | O => 1
  | S f => if month_start_nat leap f <=? n then Z.of_nat fuel else month_of_nat leap f n
  end.

Definition civil_from_days (days : Z) : Z * Z * Z :=
  let n := days + epoch_days in
  let y := year_of n in
  let r := n - year_start y in
  let m := month_of_nat (is_leap y) 12 r in
  (y, m, r - month_start (is_leap y) m + 1).

(** Both sides are periodic in the 400-year cycle. *)
Lemma year_start_period q r : year_start (400 * q + r) = 146097 * q + year_start r.
Proof.
  unfold year_start.
  replace ((400 * q + r + 3) / 4) with (100 * q + (r + 3) / 4).
  2: { rewrite <-Z.div_add_l by lia. f_equal. lia. }
  replace ((400 * q + r + 99) / 100) with (4 * q + (r + 99) / 100).
  2: { rewrite <-Z.div_add_l by lia. f_equal. lia. }
  replace ((400 * q + r + 399) / 400) with (q + (r + 399) / 400).
  2: { rewrite <-Z.div_add_l by lia. f_equal. lia. }
  lia.
Qed.

Lemma is_leap_period q r : is_leap (400 * q + r) = is_leap r.
Proof.
  unfold is_leap.
  replace (400 * q + r) with (r + (100 * q) * 4) at 1 by lia.
  replace (400 * q + r) with (r + (4 * q) * 100) at 1 by lia.
  replace (400 * q + r) with (r + q * 400) at 1 by lia.
  by rewrite !Z.mod_add by lia.
Qed.

Lemma year_start_succ_cycle :
  forallb (λ n, year_start (Z.of_nat n + 1)
                =? year_start (Z.of_nat n) + (if is_leap (Z.of_nat n) then 366 else 365)) (seq 0 400)
  = true.
Proof. vm_compute. reflexivity. Qed.

Lemma year_start_succ y : year_start (y + 1) = year_start y + (if is_leap y then 366 else 365).
Proof.
  pose proof (Z.div_mod y 400 ltac:(lia)) as Hy. pose proof (Z.mod_pos_bound y 400 ltac:(lia)).
  rewrite Hy, <-Z.add_assoc, !year_start_period, is_leap_period.
  pose proof year_start_succ_cycle as Hc. rewrite forallb_forall in Hc.
  specialize (Hc (Z.to_nat (y mod 400))). rewrite in_seq, Z.eqb_eq, Z2Nat.id in Hc by lia. lia.
Qed.

Lemma year_start_bounds y : 146097 * y - 396 <= 400 * year_start y <= 146097 * y + 699.
Proof. unfold year_start. Z.to_euclidean_division_equations. lia. Qed.

Lemma year_of_spec n : year_start (year_of n) <= n < year_start (year_of n + 1).
Proof.
  unfold year_of. set (y := n * 400 / 146097).
  assert (year_start (y - 1) <= n < year_start (y + 2)) as Hb.
  { pose proof (year_start_bounds (y - 1)). pose proof (year_start_bounds (y + 2)).
    pose proof (Z.mul_div_le (n * 400) 146097 eq_refl) as Hlo.
    pose proof (Z.mul_succ_div_gt (n * 400) 146097 eq_refl) as Hhi. fold y in Hlo, Hhi. lia. }
  destruct (Z.leb_spec (year_start (y + 1)) n).
  - replace (y + 1 + 1) with (y + 2) by lia. lia.
  - destruct (Z.ltb_spec n (year_start y)); [|lia]. rewrite Z.sub_add. lia.
Qed.

Definition month_ok (leap : bool) (n : Z) : bool :=
  let m := month_of_nat leap 12 n in
  (1 <=? m) && (m <=? 12) && (1 <=? n - month_start leap m + 1)
  && (n - month_start leap m + 1 <=? month_days leap m).

Lemma month_ok_year leap :
  forallb (λ k, month_ok leap (Z.of_nat k)) (seq 0 (if leap : bool then 366 else 365)) = true.
Proof. destruct leap; vm_compute; reflexivity. Qed.

Lemma month_of_spec leap n :
  0 <= n < (if leap : bool then 366 else 365) →
  let m := month_of_nat leap 12 n in
  1 <= m <= 12 ∧ 1 <= n - month_start leap m + 1 <= month_days leap m.
Proof.
  intros Hn. cbv zeta.
  assert (month_ok leap n = true) as Hc.
  { assert (In (Z.to_nat n) (seq 0 (if leap then 366 else 365)%nat)) as Hin.
    { apply in_seq. split; [lia|]. rewrite Nat.add_0_l. apply Nat2Z.inj_lt.
      rewrite Z2Nat.id by apply Hn. destruct leap; apply Hn. }
    pose proof (month_ok_year leap) as Hc. rewrite forallb_forall in Hc.
    specialize (Hc _ Hin). by rewrite Z2Nat.id in Hc by apply Hn. }
  unfold month_ok in Hc. cbv zeta in Hc. rewrite !andb_true_iff, !Z.leb_le in Hc.
  destruct Hc as [[[H1 H2] H3] H4].
  exact (conj (conj H1 H2) (conj H3 H4)).
Qed.

Lemma civil_from_days_spec days :
  let '(y, m, d) := civil_from_days days in
  days_from_civil y m d = days ∧ 1 <= m <= 12 ∧ 1 <= d <= month_days (is_leap y) m.
Proof.
  unfold civil_from_days, days_from_civil. cbv zeta.
  set (n := days + epoch_days). set (yy := year_of n).
  pose proof (year_of_spec n) as Hy. fold yy in Hy. rewrite year_start_succ in Hy.
  destruct (month_of_spec (is_leap yy) (n - year_start yy)) as [Hm Hd].
  { destruct (is_leap yy); lia. }
  generalize dependent (month_of_nat (is_leap yy) 12 (n - year_start yy)). intros m Hm Hd.
  split; [unfold n; lia|]. exact (conj Hm Hd).
Qed.

(** ** Formatting *)
Definition digit (d : Z) : ascii := byteZ (48 + d).
Definition pad2 (n : Z) : bytes := [digit (n / 10); digit (n mod 10)].
Definition pad4 (n : Z) : bytes := pad2 (n / 100) ++ pad2 (n mod 100).
Fixpoint decimal (fuel : nat) (n : Z) : bytes :=
  match fuel with
  | O => []
  | S fuel => if n <? 10 then [digit n] else decimal fuel (n / 10) ++ [digit (n mod 10)]
  end.
(** [appendInt(year, 4)]; the years of [int64] instants have fewer than 20 digits *)
Definition format_year (y : Z) : bytes :=
  (if y <? 0 then to_bytes "-" else [])
  ++ (if Z.abs y <? 10000 then pad4 (Z.abs y) else decimal 20 (Z.abs y)).

Definition frac_digits (ns : Z) : list Z :=
  [ns / 100000000; ns / 10000000 mod 10; ns / 1000000 mod 10; ns / 100000 mod 10;
   ns / 10000 mod 10; ns / 1000 mod 10; ns / 100 mod 10; ns / 10 mod 10; ns mod 10].
Fixpoint trim_zeros (l : list Z) : list Z :=
  match l with
  | [] => []
  | d :: l => match trim_zeros l with
              | [] => if d =? 0 then [] else [d]
              | k => d :: k
              end
  end.
Definition format_frac (ns : Z) : bytes :=
  match trim_zeros (frac_digits ns) with
  | [] => []
  | ds => to_bytes "." ++ (digit <$> ds)
  end.
Definition format_zone (off : Z) : bytes :=
  if off =? 0 then to_bytes "Z"
  else (if off <? 0 then to_bytes "-" else to_bytes "+")
       ++ pad2 (Z.abs off / 3600) ++ to_bytes ":" ++ pad2 (Z.abs off mod 3600 / 60).

Definition nano : Z := 1000000000.
Definition local_seconds (t : GoTime) : Z := unix_nano t / nano + offset t.
Definition year (t : GoTime) : Z := (civil_from_days (local_seconds t / 86400)).1.1.

Definition format_nano (t : GoTime) : bytes :=
  let sec := local_seconds t in
  let '(y, m, d) := civil_from_days (sec / 86400) in
  let s := sec mod 86400 in
  format_year y ++ to_bytes "-" ++ pad2 m ++ to_bytes "-" ++ pad2 d ++ to_bytes "T"
  ++ pad2 (s / 3600) ++ to_bytes ":" ++ pad2 (s mod 3600 / 60) ++ to_bytes ":" ++ pad2 (s mod 60)
  ++ format_frac (unix_nano t mod nano) ++ format_zone (offset t).

(** [MarshalJSON] refuses years that do not print as four digits. *)
Definition marshal_time (t : GoTime) : option bytes :=
  if (0 <=? year t) && (year t <=? 9999) then Some (format_nano t) else None.

(** ** Parsing *)
Definition digit_val (c : ascii) : option Z :=
  let v := codeZ c - 48 in if (0 <=? v) && (v <=? 9) then Some v else None.
Definition p2 (l : bytes) : option (Z * bytes) :=
  match l with
  | a :: b :: l => x ← digit_val a; y ← digit_val b; Some (10 * x + y, l)
  | _ => None
  end.
Definition p4 (l : bytes) : option (Z * bytes) :=
  '(a, l) ← p2 l; '(b, l) ← p2 l; Some (100 * a + b, l).
Definition expect (s : string) (l : bytes) : option bytes :=
  match to_bytes s, l with
  | [c], a :: l => if decide (a = c) then Some l else None
  | _, _ => None
  end.
Definition within (lo hi v : Z) : option Z := if (lo <=? v) && (v <=? hi) then Some v else None.

(** The digits at the head, and what follows them. *)
Fixpoint span_digits (l : bytes) : list Z * bytes :=
  match l with
  | [] => ([], [])
  | c :: l' => match digit_val c with
               | Some d => let '(ds, r) := span_digits l' in (d :: ds, r)
               | None => ([], l)
               end
  end.
(** Nanoseconds of a fraction: its first nine digits. *)
Fixpoint frac_value (scale : Z) (ds : list Z) : Z :=
  match ds with
  | [] => 0
  | d :: ds => d * scale + frac_value (scale / 10) ds
  end.
Definition parse_frac (l : bytes) : Z * bytes :=
  match l with
  | c :: l' =>
    if decide (c = chr 46) then
      match span_digits l' with
      | ([], _) => (0, l)
      | (ds, r) => (frac_value 100000000 (take 9 ds), r)
      end
    else (0, l)
  | [] => (0, l)
  end.
Definition parse_offset (sign : Z) (l : bytes) : option Z :=
  '(h, l) ← p2 l; h ← within 0 23 h;
  l ← expect ":" l;
  '(m, l) ← p2 l; m ← within 0 59 m;
  match l with [] => Some (sign * (h * 3600 + m * 60)) | _ => None end.
Definition parse_zone (l : bytes) : option Z :=
  match l with
  | [] => None
  | c :: l =>
    if decide (c = chr 90) then match l with [] => Some 0 | _ => None end
    else if decide (c = chr 43) then parse_offset 1 l
    else if decide (c = chr 45) then parse_offset (-1) l
    else None
  end.

Definition parse_strict (l : bytes) : option GoTime :=
  '(y, l) ← p4 l; l ← expect "-" l;
  '(mo, l) ← p2 l; mo ← within 1 12 mo; l ← expect "-" l;
  '(d, l) ← p2 l; d ← within 1 (month_days (is_leap y) mo) d; l ← expect "T" l;
  '(h, l) ← p2 l; h ← within 0 23 h; l ← expect ":" l;
  '(mi, l) ← p2 l; mi ← within 0 59 mi; l ← expect ":" l;
  '(s, l) ← p2 l; s ← within 0 59 s;
  let '(ns, l) := parse_frac l in
  off ← parse_zone l;
  Some (MkTime ((days_from_civil y mo d * 86400 + h * 3600 + mi * 60 + s - off) * nano + ns) off).

Example format_example :
  of_bytes (format_nano (UTC 1721210400123400000)) = "2024-07-17T10:00:00.1234Z"%string.
Proof. vm_compute. reflexivity. Qed.
Example parse_example :
  parse_strict (to_bytes "2024-07-17T18:00:00.1234+08:00")
  = Some (MkTime 1721210400123400000 28800).
Proof. vm_compute. reflexivity. Qed.
Example zero_time_example : of_bytes (format_nano zero_time) = "0001-01-01T00:00:00Z"%string.
Proof. vm_compute. reflexivity. Qed.

(** ** Round trip *)
Lemma digit_val_digit d : 0 <= d < 10 → digit_val (digit d) = Some d.
Proof.
  intros Hd. unfold digit_val, digit. rewrite codeZ_byteZ by lia.
  replace (48 + d - 48) with d by lia.
  destruct (Z.leb_spec 0 d), (Z.leb_spec d 9); simpl; first [done|lia].
Qed.

Lemma p2_pad2 n l : 0 <= n < 100 → p2 (pad2 n ++ l) = Some (n, l).
Proof.
  intros Hn. unfold p2, pad2. simpl.
  rewrite digit_val_digit by (Z.to_euclidean_division_equations; lia). simpl.
  rewrite digit_val_digit by (Z.to_euclidean_division_equations; lia). simpl.
  do 2 f_equal. Z.to_euclidean_division_equations; lia.
Qed.

Lemma p4_pad4 n l : 0 <= n < 10000 → p4 (pad4 n ++ l) = Some (n, l).
Proof.
  intros Hn. unfold p4, pad4. rewrite <-(assoc_L (++)).
  rewrite p2_pad2 by (Z.to_euclidean_division_equations; lia). cbn [mbind option_bind].
  rewrite p2_pad2 by (Z.to_euclidean_division_equations; lia). cbn [mbind option_bind].
  do 2 f_equal. Z.to_euclidean_division_equations; lia.
Qed.

Lemma within_ok lo hi v : lo <= v <= hi → within lo hi v = Some v.
Proof.
  intros Hv. unfold within. destruct (Z.leb_spec lo v), (Z.leb_spec v hi); simpl; first [done|lia].
Qed.

Lemma frac_digits_range ns : 0 <= ns < nano → Forall (λ d, 0 <= d < 10) (frac_digits ns).
Proof.
  intros Hns. unfold frac_digits, nano in *.
  repeat constructor; try (apply Z.mod_pos_bound; lia); Z.to_euclidean_division_equations; lia.
Qed.

Lemma trim_zeros_range l : Forall (λ d, 0 <= d < 10) l → Forall (λ d, 0 <= d < 10) (trim_zeros l).
Proof.
  induction 1 as [|d l Hd _ IH]; simpl; [done|].
  destruct (trim_zeros l); [destruct (d =? 0)|]; eauto.
Qed.

Lemma trim_zeros_length l : (length (trim_zeros l) <= length l)%nat.
Proof.
  induction l as [|d l IH]; simpl; [done|].
  destruct (trim_zeros l); [destruct (d =? 0)|]; simpl in *; lia.
Qed.

Lemma frac_value_trim scale l : frac_value scale (trim_zeros l) = frac_value scale l.
Proof.
  revert scale. induction l as [|d l IH]; intros scale; simpl; [done|].
  rewrite <-(IH (scale / 10)). destruct (trim_zeros l) as [|e k]; simpl; [|done].
  destruct (Z.eqb_spec d 0) as [->|]; simpl; lia.
Qed.

Lemma frac_value_digits ns : 0 <= ns < nano → frac_value 100000000 (frac_digits ns) = ns.
Proof.
  intros Hns. unfold frac_digits. cbn [frac_value].
  change (100000000 / 10) with 10000000.
  change (10000000 / 10) with 1000000.
  change (1000000 / 10) with 100000.
  change (100000 / 10) with 10000.
  change (10000 / 10) with 1000.
  change (1000 / 10) with 100.
  change (100 / 10) with 10.
  change (10 / 10) with 1.
  assert (∀ k, 0 < k → ns / (k * 10) = ns / k / 10) as Hdd.
  { intros k Hk. by rewrite Z.div_div by lia. }
  assert (ns / 100 = ns / 10 / 10) as D1 by by apply (Hdd 10).
  assert (ns / 1000 = ns / 100 / 10) as D2 by by apply (Hdd 100).
  assert (ns / 10000 = ns / 1000 / 10) as D3 by by apply (Hdd 1000).
  assert (ns / 100000 = ns / 10000 / 10) as D4 by by apply (Hdd 10000).
  assert (ns / 1000000 = ns / 100000 / 10) as D5 by by apply (Hdd 100000).
  assert (ns / 10000000 = ns / 1000000 / 10) as D6 by by apply (Hdd 1000000).
  assert (ns / 100000000 = ns / 10000000 / 10) as D7 by by apply (Hdd 10000000).
  pose proof (Z.div_mod ns 10 ltac:(lia)).
  pose proof (Z.div_mod (ns / 10) 10 ltac:(lia)).
  pose proof (Z.div_mod (ns / 100) 10 ltac:(lia)).
  pose proof (Z.div_mod (ns / 1000) 10 ltac:(lia)).
  pose proof (Z.div_mod (ns / 10000) 10 ltac:(lia)).
  pose proof (Z.div_mod (ns / 100000) 10 ltac:(lia)).
  pose proof (Z.div_mod (ns / 1000000) 10 ltac:(lia)).
  pose proof (Z.div_mod (ns / 10000000) 10 ltac:(lia)).
  lia.
Qed.

Lemma span_digits_app ds l :
  Forall (λ d, 0 <= d < 10) ds → (∀ c l', l = c :: l' → digit_val c = None) →
  span_digits ((digit <$> ds) ++ l) = (ds, l).
Proof.
  intros Hds Hl. induction Hds as [|d ds Hd _ IH].
  - simpl. destruct l as [|c l]; [done|]. simpl. by rewrite (Hl c l).
  - rewrite fmap_cons. cbn [app span_digits]. rewrite digit_val_digit by done. by rewrite IH.
Qed.

Lemma parse_frac_format ns l :
  0 <= ns < nano → (∀ c l', l = c :: l' → digit_val c = None ∧ c ≠ chr 46) →
  parse_frac (format_frac ns ++ l) = (ns, l).
Proof.
  intros Hns Hl. unfold format_frac.
  pose proof (frac_value_trim 100000000 (frac_digits ns)) as Hv.
  rewrite frac_value_digits in Hv by done.
  pose proof (trim_zeros_range _ (frac_digits_range ns Hns)) as Hr.
  pose proof (trim_zeros_length (frac_digits ns)) as Hlen.
  destruct (trim_zeros (frac_digits ns)) as [|d ds] eqn:Ht.
  - simpl in Hv. subst ns. unfold parse_frac. simpl. destruct l as [|c l]; [done|].
    destruct (Hl c l eq_refl) as [_ Hc]. by rewrite decide_False.
  - unfold parse_frac. change (to_bytes ".") with [chr 46]. cbn [app].
    rewrite decide_True by done.
    rewrite (span_digits_app (d :: ds)); [|done|by intros c l' Heq; apply (Hl c l')].
    rewrite take_ge; [by rewrite Hv|]. unfold frac_digits in Hlen. simpl in *. lia.
Qed.

Lemma expect_ok c l : expect (of_bytes [c]) (c :: l) = Some l.
Proof. unfold expect. rewrite to_of_bytes. by rewrite decide_True. Qed.

Lemma p2_pad2_nil n : 0 <= n < 100 → p2 (pad2 n) = Some (n, []).
Proof. intros Hn. rewrite <-(app_nil_r (pad2 n)). by apply p2_pad2. Qed.

Lemma parse_offset_format sign h m :
  0 <= h <= 23 → 0 <= m <= 59 →
  parse_offset sign (pad2 h ++ chr 58 :: pad2 m) = Some (sign * (h * 3600 + m * 60)).
Proof.
  intros Hh Hm. unfold parse_offset. rewrite p2_pad2 by lia. cbn [mbind option_bind].
  rewrite within_ok by lia. cbn [mbind option_bind].
  rewrite (expect_ok (chr 58)). cbn [mbind option_bind].
  rewrite p2_pad2_nil by lia. cbn [mbind option_bind]. by rewrite within_ok by lia.
Qed.

Lemma parse_zone_format off :
  -86400 < off < 86400 → off mod 60 = 0 → parse_zone (format_zone off) = Some off.
Proof.
  intros Ho Hm. unfold format_zone. destruct (Z.eqb_spec off 0) as [->|Hne]; [done|].
  assert (0 <= Z.abs off / 3600 <= 23 ∧ 0 <= Z.abs off mod 3600 / 60 <= 59 ∧
          Z.abs off = Z.abs off / 3600 * 3600 + Z.abs off mod 3600 / 60 * 60) as (Hh & Hmi & Heq).
  { Z.to_euclidean_division_equations. lia. }
  change (to_bytes ":") with [chr 58]. change (to_bytes "-") with [chr 45].
  change (to_bytes "+") with [chr 43].
  destruct (Z.ltb_spec off 0); cbn [app parse_zone];
    repeat first [rewrite decide_True by done|rewrite decide_False by done];
    rewrite parse_offset_format by done; f_equal; lia.
Qed.

(** [UnmarshalJSON] reads back every time that [MarshalJSON] writes. *)
Lemma parse_format t :
  0 <= year t <= 9999 → -86400 < offset t < 86400 → offset t mod 60 = 0 →
  parse_strict (format_nano t) = Some t.
Proof.
  intros Hy Ho Hom. unfold format_nano, year in *.
  pose proof (civil_from_days_spec (local_seconds t / 86400)) as Hciv.
  destruct (civil_from_days (local_seconds t / 86400)) as [[y m] d]. simpl in Hy.
  destruct Hciv as (Hdays & Hm & Hd). cbv zeta.
  set (s := local_seconds t mod 86400).
  assert (0 <= s < 86400) as Hs by (apply Z.mod_pos_bound; lia).
  assert (0 <= s / 3600 <= 23 ∧ 0 <= s mod 3600 / 60 <= 59 ∧ 0 <= s mod 60 <= 59 ∧
          s = s / 3600 * 3600 + s mod 3600 / 60 * 60 + s mod 60) as (Hh & Hmi & Hse & Heq).
  { clear -Hs. Z.to_euclidean_division_equations. lia. }
  assert (month_days (is_leap y) m <= 31) as Hmd.
  { unfold month_days. destruct (is_leap y); repeat case_match; lia. }
  unfold format_year. destruct (Z.ltb_spec y 0); [lia|].
  rewrite Z.abs_eq by lia. destruct (Z.ltb_spec y 10000); [|lia]. cbn [app].
  change (to_bytes "-") with [chr 45]. change (to_bytes "T") with [chr 84].
  change (to_bytes ":") with [chr 58].
  unfold parse_strict.
  rewrite p4_pad4 by lia. cbn [mbind option_bind app]. rewrite (expect_ok (chr 45)).
  cbn [mbind option_bind]. rewrite p2_pad2 by lia. cbn [mbind option_bind].
  rewrite within_ok by lia. cbn [mbind option_bind]. rewrite (expect_ok (chr 45)).
  cbn [mbind option_bind]. rewrite p2_pad2 by lia. cbn [mbind option_bind].
  rewrite within_ok by lia. cbn [mbind option_bind]. rewrite (expect_ok (chr 84)).
  cbn [mbind option_bind]. rewrite p2_pad2 by lia. cbn [mbind option_bind].
  rewrite within_ok by lia. cbn [mbind option_bind]. rewrite (expect_ok (chr 58)).
  cbn [mbind option_bind]. rewrite p2_pad2 by lia. cbn [mbind option_bind].
  rewrite within_ok by lia. cbn [mbind option_bind]. rewrite (expect_ok (chr 58)).
  cbn [mbind option_bind]. rewrite p2_pad2 by lia. cbn [mbind option_bind].
  rewrite within_ok by lia. cbn [mbind option_bind].
  rewrite parse_frac_format.
  2: { apply Z.mod_pos_bound. reflexivity. }
  2: { intros c l Hc. unfold format_zone in Hc. repeat case_match; simpl in Hc;
       injection Hc as <- _; done. }
  rewrite parse_zone_format by done. cbn [mbind option_bind].
  destruct t as [u off]. unfold local_seconds in *. simpl in *. f_equal. f_equal.
  rewrite Hdays. pose proof (Z.div_mod (u / nano + off) 86400 ltac:(lia)) as H1.
  pose proof (Z.div_mod u nano ltac:(done)) as H2. fold s in H1.
  replace ((u / nano + off) / 86400 * 86400 + s / 3600 * 3600 + s mod 3600 / 60 * 60 + s mod 60 - off)
    with (u / nano) by lia. lia.
Qed.
