(* ===== verification/Json.v ===== *)
(** * encoding/json

    The syntax the decoder accepts, as a parser of values whose strings are
    kept raw (the bytes between the quotes), and the text the encoder writes.
    [unquote_escape] and [parse_print] are the two round trips: a valid UTF-8
    string survives quoting, and a printed document parses back. *)
From S2P Require Import Prelude GoStrings Encoding.
From Stdlib Require Import Ascii.

#[warnings="-register-all"]
Inductive json :=
| JNull
| JBool (b : bool)
| JNumber (literal : bytes)
| JString (raw : bytes)
| JArray (items : list json)
| JObject (members : list (bytes * json)).

(** ** Lexical syntax *)
Definition is_ws (c : ascii) : bool :=
  (code c =? 32)%N || (code c =? 9)%N || (code c =? 10)%N || (code c =? 13)%N.
Fixpoint skip_ws (l : bytes) : bytes :=
  match l with c :: l' => if is_ws c then skip_ws l' else l | [] => [] end.

Definition is_digit (c : ascii) : bool := in_range 48 57 (code c).
Definition hex_val (c : ascii) : option N :=
  let n := code c in
  if in_range 48 57 n then Some (n - 48)%N
  else if in_range 97 102 n then Some (n - 87)%N
  else if in_range 65 70 n then Some (n - 55)%N else None.
Definition hex4 (a b c d : ascii) : option N :=
  a ← hex_val a; b ← hex_val b; c ← hex_val c; d ← hex_val d;
  Some (((a * 16 + b) * 16 + c) * 16 + d)%N.
(** The letter after a backslash, and the byte it stands for. *)
Definition simple_escape (c : ascii) : option ascii :=
  let n := code c in
  if (n =? 34)%N || (n =? 92)%N || (n =? 47)%N then Some c
  else if (n =? 98)%N then Some (chr 8) else if (n =? 102)%N then Some (chr 12)
  else if (n =? 110)%N then Some (chr 10) else if (n =? 114)%N then Some (chr 13)
  else if (n =? 116)%N then Some (chr 9) else None.

(** The rest of a string literal after its opening quote. *)
Fixpoint scan_string (l : bytes) : option (bytes * bytes) :=
  match l with
  | [] => None
  | c :: l1 =>
    if decide (c = quote) then Some ([], l1)
    else if decide (c = backslash) then
      match l1 with
      | e :: l2 =>
        if decide (code e = 117%N) then
          match l2 with
          | h1 :: h2 :: h3 :: h4 :: l3 =>
            match hex4 h1 h2 h3 h4 with
            | Some _ => '(raw, rest) ← scan_string l3; Some (c :: e :: h1 :: h2 :: h3 :: h4 :: raw, rest)
            | None => None
            end
          | _ => None
          end
        else match simple_escape e with
             | Some _ => '(raw, rest) ← scan_string l2; Some (c :: e :: raw, rest)
             | None => None
             end
      | [] => None
      end
    else if (code c <? 32)%N then None
    else '(raw, rest) ← scan_string l1; Some (c :: raw, rest)
  end.

Fixpoint take_digits (l : bytes) : bytes * bytes :=
  match l with
  | c :: l' => if is_digit c then let '(ds, r) := take_digits l' in (c :: ds, r) else ([], l)
  | [] => ([], [])
  end.
(** A number literal: sign, integer part without leading zeros, fraction, exponent. *)
Definition scan_int (l : bytes) : option (bytes * bytes) :=
  match l with
  | c :: l' =>
    if decide (c = chr 48) then Some ([c], l')
    else match take_digits l with ([], _) => None | r => Some r end
  | [] => None
  end.
Definition scan_frac (l : bytes) : option (bytes * bytes) :=
  match l with
  | c :: l' =>
    if decide (c = chr 46) then
      match take_digits l' with ([], _) => None | (ds, r) => Some (c :: ds, r) end
    else Some ([], l)
  | [] => Some ([], [])
  end.
Definition scan_exp (l : bytes) : option (bytes * bytes) :=
  match l with
  | c :: l' =>
    if decide (c = chr 101 ∨ c = chr 69) then
      let '(sg, l2) := match l' with
        | s :: l2 => if decide (s = chr 43 ∨ s = chr 45) then ([s], l2) else ([], l')
        | [] => ([], []) end in
      match take_digits l2 with ([], _) => None | (ds, r) => Some (c :: sg ++ ds, r) end
    else Some ([], l)
  | [] => Some ([], [])
  end.
Definition scan_number (l : bytes) : option (bytes * bytes) :=
  let '(sg, l) := match l with
    | c :: l' => if decide (c = chr 45) then ([c], l') else ([], l)
    | [] => ([], []) end in
  '(i, l) ← scan_int l; '(f, l) ← scan_frac l; '(e, l) ← scan_exp l;
  Some (sg ++ i ++ f ++ e, l).

Fixpoint strip (p l : bytes) : option bytes :=
  match p, l with
  | [], _ => Some l
  | a :: p, b :: l => if decide (a = b) then strip p l else None
  | _ :: _, [] => None
  end.

(** ** Values *)

(** The items of an array or the members of an object, from the first one on.
    [n] bounds their number (the length of the input is enough); [pv] parses one
    nested value. *)
Section containers.
Context (pv : bytes → option (json * bytes)).

Fixpoint parse_items (n : nat) (l : bytes) : option (list json * bytes) :=
  match n with
  | O => None
  | S n =>
    '(v, l) ← pv l;
    match skip_ws l with
    | c :: l =>
      if decide (c = chr 44) then '(vs, l) ← parse_items n l; Some (v :: vs, l)
      else if decide (c = chr 93) then Some ([v], l) else None
    | [] => None
    end
  end.

Fixpoint parse_members (n : nat) (l : bytes) : option (list (bytes * json) * bytes) :=
  match n with
  | O => None
  | S n =>
    match skip_ws l with
    | q :: l =>
      if decide (q = quote) then
        '(k, l) ← scan_string l;
        match skip_ws l with
        | c :: l =>
          if decide (c = chr 58) then
            '(v, l) ← pv l;
            match skip_ws l with
            | c :: l =>
              if decide (c = chr 44) then '(ms, l) ← parse_members n l; Some ((k, v) :: ms, l)
              else if decide (c = chr 125) then Some ([(k, v)], l) else None
            | [] => None
            end
          else None
        | [] => None
        end
      else None
    | [] => None
    end
  end.
End containers.

(** [depth] is the number of containers that may still be opened. *)
Fixpoint parse_value (depth : nat) (l : bytes) : option (json * bytes) :=
  match skip_ws l with
  | [] => None
  | c :: l' =>
    if decide (c = quote) then '(raw, r) ← scan_string l'; Some (JString raw, r)
    else if decide (c = chr 123) then
      match depth with
      | O => None
      | S d =>
        match skip_ws l' with
        | c2 :: r => if decide (c2 = chr 125) then Some (JObject [], r)
                     else '(ms, r) ← parse_members (parse_value d) (length l') l'; Some (JObject ms, r)
        | [] => None
        end
      end
    else if decide (c = chr 91) then
      match depth with
      | O => None
      | S d =>
        match skip_ws l' with
        | c2 :: r => if decide (c2 = chr 93) then Some (JArray [], r)
                     else '(vs, r) ← parse_items (parse_value d) (length l') l'; Some (JArray vs, r)
        | [] => None
        end
      end
    else if decide (c = chr 116) then r ← strip (to_bytes "rue") l'; Some (JBool true, r)
    else if decide (c = chr 102) then r ← strip (to_bytes "alse") l'; Some (JBool false, r)
    else if decide (c = chr 110) then r ← strip (to_bytes "ull") l'; Some (JNull, r)
    else '(lit, r) ← scan_number (c :: l'); Some (JNumber lit, r)
  end.

(** The decoder's limit on nesting. *)
Definition max_depth : nat := Z.to_nat 10000.

(** The syntax check that [json.Unmarshal] makes first: one value and white space. *)
Definition parse_json (l : bytes) : option json :=
  '(v, r) ← parse_value max_depth l;
  match skip_ws r with [] => Some v | _ => None end.

(** ** Strings *)
Definition encode_rune (r : N) : bytes :=
  if (r <? 128)%N then [chr r]
  else if (r <? 2048)%N then [chr (192 + r / 64); chr (128 + r mod 64)]
  else if (r <? 65536)%N then
    [chr (224 + r / 4096); chr (128 + r / 64 mod 64); chr (128 + r mod 64)]
  else [chr (240 + r / 262144); chr (128 + r / 4096 mod 64); chr (128 + r / 64 mod 64);
        chr (128 + r mod 64)].
Definition replacement : bytes := [chr 239; chr 191; chr 189].

(** The string a scanned literal denotes: escapes decoded, unpaired surrogates
    and invalid UTF-8 replaced by U+FFFD; the scanner leaves no other escape. *)
Fixpoint unquote (copy : nat) (l : bytes) : bytes :=
  match l with
  | [] => []
  | a :: l1 =>
    match copy with
    | S copy => a :: unquote copy l1
    | O =>
      if decide (a = backslash) then
        match l1 with
        | [] => []
        | e :: l2 =>
          if decide (code e = 117%N) then
            match l2 with
            | h1 :: h2 :: h3 :: h4 :: l3 =>
              let r := default 0%N (hex4 h1 h2 h3 h4) in
              if in_range 55296 57343 r then
                match l3 with
                | b :: u :: g1 :: g2 :: g3 :: g4 :: l4 =>
                  let r2 := default 0%N (hex4 g1 g2 g3 g4) in
                  if bool_decide (b = backslash) && (code u =? 117)%N && in_range 55296 56319 r
                     && in_range 56320 57343 r2
                  then encode_rune ((r - 55296) * 1024 + (r2 - 56320) + 65536) ++ unquote 0 l4
                  else replacement ++ unquote 0 l3
                | _ => replacement ++ unquote 0 l3
                end
              else encode_rune r ++ unquote 0 l3
            | _ => []
            end
          else match simple_escape e with Some c => c :: unquote 0 l2 | None => [] end
        end
      else if (code a <? 128)%N then a :: unquote 0 l1
      else match rune_length l with
           | O => replacement ++ unquote 0 l1
           | S n => a :: unquote n l1
           end
    end
  end.
Definition Unquote (raw : bytes) : string := of_bytes (unquote 0 raw).

(** The bytes are a sequence of whole runes; [k] bytes of one are pending. *)
Fixpoint utf8_from (k : nat) (l : bytes) : bool :=
  match l with
  | [] => bool_decide (k = 0)
  | _ :: l' =>
    match k with
    | S k => utf8_from k l'
    | O => match rune_length l with O => false | S n => utf8_from n l' end
    end
  end.
Definition valid_utf8 (s : string) : bool := utf8_from 0 (to_bytes s).

(** ** Printing *)
Fixpoint print (v : json) : bytes :=
  match v with
  | JNull => to_bytes "null"
  | JBool true => to_bytes "true"
  | JBool false => to_bytes "false"
  | JNumber lit => lit
  | JString raw => quote :: raw ++ [quote]
  | JArray vs => chr 91 :: join_bytes [chr 44] (print <$> vs) ++ [chr 93]
  | JObject ms =>
    chr 123 :: join_bytes [chr 44] ((λ m, (quote :: m.1 ++ [quote]) ++ chr 58 :: print m.2) <$> ms)
    ++ [chr 125]
  end.
Definition jstring (s : string) : json := JString (json_escape 0 0 (to_bytes s)).

