(* ===== verification/JsonTheory.v ===== *)
(** * Round trips of encoding/json *)
From S2P Require Import Prelude GoStrings Encoding Json.
From Stdlib Require Import Ascii.

Example parse_json_example :
  parse_json (to_bytes "[1, -2.5e+3 ,true,null , {}] ")
  = Some (JArray [JNumber (to_bytes "1"); JNumber (to_bytes "-2.5e+3"); JBool true; JNull; JObject []]).
Proof. vm_compute. reflexivity. Qed.
Example unquote_surrogates :
  Unquote (to_bytes "\ud83d\ude00\ud83d!") = of_bytes [chr 240; chr 159; chr 152; chr 128; chr 239; chr 191; chr 189; "!"%char].
Proof. vm_compute. reflexivity. Qed.
Example escape_html : of_bytes (json_escape 0 0 (to_bytes "<a&b>")) = "\u003ca\u0026b\u003e".
Proof. vm_compute. reflexivity. Qed.

(** ** Runes *)
Definition high (c : ascii) : Prop := (128 <= code c)%N.

Lemma in_range_spec lo hi n : in_range lo hi n = true ↔ (lo <= n <= hi)%N.
Proof. unfold in_range. by rewrite andb_true_iff, !N.leb_le. Qed.
Lemma cont_high c : cont c = true → high c.
Proof. unfold cont, high. rewrite in_range_spec. lia. Qed.
Lemma second_high a b : second_ok a b = true → high b.
Proof.
  unfold second_ok, cont, high. repeat case_match; rewrite in_range_spec; lia.
Qed.

(** A rune of [S n] bytes: its bytes are there, and are not ASCII. *)
Lemma rune_length_spec a l n :
  rune_length (a :: l) = S n → high a →
  n ≤ length l ∧ Forall high (take n l) ∧ ∀ r, rune_length (a :: take n l ++ r) = S n.
Proof.
  intros Hr Ha. unfold rune_length in *.
  assert ((code a <? 128)%N = false) as Hlt by (apply N.ltb_ge; exact Ha). rewrite Hlt in *.
  destruct l as [|b l]; [done|].
  destruct (in_range 194 223 (code a) && cont b) eqn:H2.
  { injection Hr as <-. apply andb_true_iff in H2 as [Hr1 Hb]. simpl. split; [lia|].
    split; [repeat constructor; by apply cont_high|]. intros r. by rewrite Hr1, Hb. }
  destruct l as [|c l]; [done|].
  destruct (in_range 224 239 (code a) && second_ok a b && cont c) eqn:H3.
  { injection Hr as <-. apply andb_true_iff in H3 as [[Hr1 Hb]%andb_true_iff Hc]. simpl.
    split; [lia|]. split; [repeat constructor; eauto using cont_high, second_high|].
    intros r. rewrite Hr1, Hb, Hc. simpl in H2. by rewrite H2. }
  destruct l as [|d l]; [done|].
  destruct (in_range 240 244 (code a) && second_ok a b && cont c && cont d) eqn:H4; [|done].
  injection Hr as <-. apply andb_true_iff in H4 as [[[Hr1 Hb]%andb_true_iff Hc]%andb_true_iff Hd].
  simpl. split; [lia|]. split; [repeat constructor; eauto using cont_high, second_high|].
  intros r. rewrite H2, H3, Hr1, Hb, Hc, Hd. done.
Qed.

Lemma json_escape_copy n l : json_escape n 0 l = take n l ++ json_escape 0 0 (drop n l).
Proof.
  revert l. induction n as [|n IH]; intros l; [done|]. destruct l as [|a l]; [done|].
  simpl. by rewrite IH.
Qed.
Lemma json_escape_skip n l : json_escape 0 n l = json_escape 0 0 (drop n l).
Proof.
  revert l. induction n as [|n IH]; intros l; [done|]. destruct l as [|a l]; [done|]. apply IH.
Qed.
Lemma unquote_copy n l : unquote n l = take n l ++ unquote 0 (drop n l).
Proof.
  revert l. induction n as [|n IH]; intros l; [done|]. destruct l as [|a l]; [done|].
  simpl. by rewrite IH.
Qed.
Lemma utf8_from_drop n l : utf8_from n l = true → n ≤ length l ∧ utf8_from 0 (drop n l) = true.
Proof.
  revert l. induction n as [|n IH]; intros l; [split; [lia|done]|].
  destruct l as [|a l]; [done|]. intros [Hn Hl]%IH. simpl. split; [lia|done].
Qed.

Definition is_line_sep (l : bytes) : bool :=
  match l with
  | a :: b :: c :: _ => (code a =? 226)%N && (code b =? 128)%N && in_range 168 169 (code c)
  | _ => false
  end.

(** The encoder, one rune at a time. *)
Lemma json_escape_high a l :
  high a →
  json_escape 0 0 (a :: l) =
  if is_line_sep (a :: l)
  then to_bytes "\u202" ++ [hex_digit (code (default a (l !! 1)) mod 16)] ++ json_escape 0 0 (drop 2 l)
  else match rune_length (a :: l) with
       | O => to_bytes "\ufffd" ++ json_escape 0 0 l
       | S n => (a :: take n l) ++ json_escape 0 0 (drop n l)
       end.
Proof.
  intros Ha. assert ((code a <? 128)%N = false) as Hlt by (apply N.ltb_ge; exact Ha).
  cbn [json_escape]. rewrite Hlt.
  destruct l as [|b [|c l]].
  - cbn [is_line_sep]. destruct (rune_length [a]); [done|]. by rewrite json_escape_copy.
  - cbn [is_line_sep]. destruct (rune_length [a; b]); [done|]. by rewrite json_escape_copy.
  - cbn [is_line_sep].
    destruct ((code a =? 226)%N && (code b =? 128)%N && in_range 168 169 (code c)).
    + rewrite json_escape_skip. done.
    + destruct (rune_length (a :: b :: c :: l)); [done|]. by rewrite json_escape_copy.
Qed.

(** ** Scanning an escaped string *)
Definition scans (p : bytes) : Prop :=
  ∀ r, scan_string (p ++ r) = ('(raw, rest) ← scan_string r; Some (p ++ raw, rest)).

Lemma scans_app p q : scans p → scans q → scans (p ++ q).
Proof.
  intros Hp Hq r. rewrite <-(assoc_L (++)), Hp, Hq.
  destruct (scan_string r) as [[raw rest]|]; [|done]. simpl. by rewrite (assoc_L (++)).
Qed.
Lemma scans_nil : scans [].
Proof. intros r. simpl. by destruct (scan_string r) as [[raw rest]|]. Qed.

Lemma scans_high p : Forall high p → scans p.
Proof.
  induction 1 as [|c p Hc _ IH]; [apply scans_nil|].
  apply (scans_app [c]); [|done]. intros r. simpl.
  rewrite decide_False by (intros ->; by vm_compute in Hc).
  rewrite decide_False by (intros ->; by vm_compute in Hc).
  assert ((code c <? 32)%N = false) as -> by (apply N.ltb_ge; unfold high in Hc; lia). done.
Qed.

Lemma scans_ascii a : (code a <? 128)%N = true → scans (escape_ascii a).
Proof.
  intros Ha r. destruct a as [[] [] [] [] [] [] [] []]; try discriminate Ha; reflexivity.
Qed.

Lemma unquote_ascii a r :
  (code a <? 128)%N = true → unquote 0 (escape_ascii a ++ r) = a :: unquote 0 r.
Proof.
  intros Ha. destruct a as [[] [] [] [] [] [] [] []]; try discriminate Ha; reflexivity.
Qed.

(** Induction along the runes of a byte string. *)
Lemma rune_ind (P : bytes → Prop) :
  P [] →
  (∀ a l, (code a <? 128)%N = true → P l → P (a :: l)) →
  (∀ a l, high a → (∀ n, P (drop n l)) → P (a :: l)) →
  ∀ l, P l.
Proof.
  intros Hnil Hascii Hhigh l. remember (length l) as k eqn:Hk.
  assert (length l ≤ k) as Hle by lia. clear Hk. revert l Hle.
  induction k as [|k IH]; intros [|a l] Hle; simpl in Hle; [done|lia|done|].
  destruct (code a <? 128)%N eqn:Ha.
  - apply Hascii; [done|]. apply IH. lia.
  - apply Hhigh; [by apply N.ltb_ge|]. intros n. apply IH. rewrite length_drop. lia.
Qed.

Lemma line_sep_cases a l :
  is_line_sep (a :: l) = true →
  ∃ c l', l = chr 128 :: c :: l' ∧ a = chr 226 ∧ (c = chr 168 ∨ c = chr 169).
Proof.
  destruct l as [|b [|c l']]; [done..|]. cbn [is_line_sep].
  intros [[Ha%N.eqb_eq Hb%N.eqb_eq]%andb_true_iff Hc%in_range_spec]%andb_true_iff.
  assert (∀ x n, code x = n → x = chr n) as Hchr.
  { intros x n <-. unfold chr, code. by rewrite ascii_N_embedding. }
  exists c, l'. split; [by rewrite (Hchr b 128%N Hb)|]. split; [by apply Hchr|].
  destruct (decide (code c = 168%N)) as [He|He]; [left|right]; apply Hchr; lia.
Qed.

Lemma scans_escape l : scans (json_escape 0 0 l).
Proof.
  induction l as [|a l Ha IH|a l Ha IH] using rune_ind; [apply scans_nil|..].
  - cbn [json_escape]. rewrite Ha. apply scans_app; [by apply scans_ascii|done].
  - rewrite json_escape_high by done. destruct (is_line_sep (a :: l)) eqn:Hs.
    + apply line_sep_cases in Hs as (c & l' & -> & -> & Hc). rewrite (assoc_L (++)).
      apply scans_app; [|apply (IH 2)]. intros r. by destruct Hc as [-> | ->].
    + destruct (rune_length (a :: l)) as [|n] eqn:Hn.
      * apply scans_app; [|apply (IH 0)]. intros r. reflexivity.
      * destruct (rune_length_spec a l n Hn Ha) as (_ & Hh & _).
        apply scans_app; [|apply IH]. apply scans_high. by constructor.
Qed.

Lemma scan_escape l r :
  scan_string (json_escape 0 0 l ++ quote :: r) = Some (json_escape 0 0 l, r).
Proof. rewrite scans_escape. simpl. by rewrite app_nil_r. Qed.

Lemma not_backslash a : high a → a ≠ backslash.
Proof. by intros Ha ->. Qed.

(** Quoting loses nothing of a valid UTF-8 string. *)
Lemma unquote_escape l : utf8_from 0 l = true → unquote 0 (json_escape 0 0 l) = l.
Proof.
  induction l as [|a l Ha IH|a l Ha IH] using rune_ind; intros Hu; [done|..].
  - cbn [json_escape]. rewrite Ha, unquote_ascii by done. f_equal. apply IH.
    cbn [utf8_from] in Hu. unfold rune_length in Hu. by rewrite Ha in Hu.
  - cbn [utf8_from] in Hu. rewrite json_escape_high by done.
    destruct (is_line_sep (a :: l)) eqn:Hs.
    + apply line_sep_cases in Hs as (c & l' & -> & -> & Hc).
      assert (utf8_from 0 l' = true) as Hl' by by destruct Hc as [-> | ->].
      specialize (IH 2 Hl'). cbn [drop] in IH |- *.
      destruct Hc as [-> | ->]; cbn -[json_escape]; by rewrite IH.
    + destruct (rune_length (a :: l)) as [|n] eqn:Hn; [done|].
      destruct (rune_length_spec a l n Hn Ha) as (Hlen & Hh & Hext).
      apply utf8_from_drop in Hu as [_ Hu]. specialize (IH n Hu).
      cbn [app unquote]. rewrite decide_False by by apply not_backslash.
      assert ((code a <? 128)%N = false) as -> by (by apply N.ltb_ge).
      rewrite Hext, unquote_copy. rewrite take_app_length', drop_app_length' by (rewrite length_take; lia).
      by rewrite IH, take_drop.
Qed.

Lemma Unquote_jstring s : valid_utf8 s = true → Unquote (json_escape 0 0 (to_bytes s)) = s.
Proof. intros Hs. unfold Unquote. by rewrite unquote_escape, of_to_bytes. Qed.

(** A quoted string at the head of a document determines the string. *)
Lemma json_string_inj s1 s2 r1 r2 :
  valid_utf8 s1 = true → valid_utf8 s2 = true →
  json_string s1 ++ r1 = json_string s2 ++ r2 → s1 = s2 ∧ r1 = r2.
Proof.
  intros H1 H2 Heq. unfold json_string in Heq. cbn [app] in Heq. injection Heq as Heq.
  rewrite <-!(assoc_L (++)) in Heq. cbn [app] in Heq.
  apply (f_equal scan_string) in Heq. rewrite !scan_escape in Heq. injection Heq as He Hr.
  split; [|done]. rewrite <-(Unquote_jstring s1 H1), <-(Unquote_jstring s2 H2).
  unfold Unquote. by rewrite He.
Qed.

(** ** Printing and parsing *)
Section json_ind.
Context (P : json → Prop).
Context (Hnull : P JNull) (Hbool : ∀ b, P (JBool b)) (Hnum : ∀ lit, P (JNumber lit))
  (Hstr : ∀ raw, P (JString raw)) (Harr : ∀ vs, Forall P vs → P (JArray vs))
  (Hobj : ∀ ms, Forall (λ m, P m.2) ms → P (JObject ms)).

Fixpoint json_ind' (v : json) : P v :=
  match v with
  | JNull => Hnull
  | JBool b => Hbool b
  | JNumber lit => Hnum lit
  | JString raw => Hstr raw
  | JArray vs => Harr vs ((fix go l : Forall P l :=
      match l with
      | [] => Forall_nil_2 _
      | v :: l => Forall_cons_2 _ _ _ (json_ind' v) (go l)
      end) vs)
  | JObject ms => Hobj ms ((fix go l : Forall (λ m, P m.2) l :=
      match l with
      | [] => Forall_nil_2 _
      | m :: l => Forall_cons_2 (λ m, P m.2) m _ (json_ind' m.2) (go l)
      end) ms)
  end.
End json_ind.

(** What may follow a value inside a document. *)
Definition stops (r : bytes) : Prop :=
  match r with [] => True | c :: _ => c = chr 44 ∨ c = chr 125 ∨ c = chr 93 end.
Definition raw_ok (raw : bytes) : Prop := ∀ r, scan_string (raw ++ quote :: r) = Some (raw, r).
Definition number_ok (lit : bytes) : Prop :=
  (∃ c l, lit = c :: l ∧ (is_digit c || bool_decide (c = chr 45)) = true) ∧
  ∀ d r, stops r → parse_value d (lit ++ r) = Some (JNumber lit, r).

Fixpoint printable (v : json) : Prop :=
  match v with
  | JNull | JBool _ => True
  | JNumber lit => number_ok lit
  | JString raw => raw_ok raw
  | JArray vs => (fix go l := match l with [] => True | v :: l => printable v ∧ go l end) vs
  | JObject ms =>
    (fix go l := match l with [] => True | m :: l => raw_ok m.1 ∧ printable m.2 ∧ go l end) ms
  end.
Fixpoint nesting (v : json) : nat :=
  match v with
  | JArray vs => S ((fix go l := match l with [] => 0 | v :: l => nesting v `max` go l end) vs)
  | JObject ms => S ((fix go l := match l with [] => 0 | m :: l => nesting m.2 `max` go l end) ms)
  | _ => 0
  end.

Lemma printable_array vs : printable (JArray vs) ↔ Forall printable vs.
Proof. induction vs as [|v vs IH]; simpl in *; [done|]. by rewrite Forall_cons, IH. Qed.
Lemma printable_object ms :
  printable (JObject ms) ↔ Forall (λ m, raw_ok m.1 ∧ printable m.2) ms.
Proof. induction ms as [|m ms IH]; simpl in *; [done|]. rewrite Forall_cons, IH. tauto. Qed.
Lemma nesting_array vs d : nesting (JArray vs) ≤ S d ↔ Forall (λ v, nesting v ≤ d) vs.
Proof.
  induction vs as [|v vs IH]; simpl in *; [split; [done|lia]|].
  rewrite Forall_cons, <-IH. lia.
Qed.
Lemma nesting_object ms d : nesting (JObject ms) ≤ S d ↔ Forall (λ m, nesting m.2 ≤ d) ms.
Proof.
  induction ms as [|m ms IH]; simpl in *; [split; [done|lia]|].
  rewrite Forall_cons, <-IH. lia.
Qed.

Definition print_member (m : bytes * json) : bytes :=
  (quote :: m.1 ++ [quote]) ++ chr 58 :: print m.2.

Lemma join_cons sep (l : bytes) ls :
  join_bytes sep (l :: ls) = l ++ match ls with [] => [] | _ => sep ++ join_bytes sep ls end.
Proof. destruct ls; simpl; [by rewrite app_nil_r|done]. Qed.

Lemma join_length sep ls :
  Forall (λ l, l ≠ []) ls → length ls ≤ length (join_bytes sep ls).
Proof.
  induction 1 as [|l ls Hl _ IH]; [done|]. rewrite join_cons, length_app.
  assert (1 ≤ length l) by (destruct l; [done|simpl; lia]).
  destruct ls; [simpl; lia|]. rewrite length_app. simpl in *. lia.
Qed.

(** Printed values start with no white space. *)
Lemma skip_ws_stops r : stops r → skip_ws r = r.
Proof. destruct r as [|c r]; [done|]. by intros [-> |[-> | ->]]. Qed.

Section print_containers.
Context (d : nat).
Definition parses (v : json) : Prop :=
  ∀ r, stops r → parse_value d (print v ++ r) = Some (v, r).

Lemma parse_items_print vs n r :
  vs ≠ [] → Forall parses vs → length vs ≤ n →
  parse_items (parse_value d) n (join_bytes [chr 44] (print <$> vs) ++ chr 93 :: r) = Some (vs, r).
Proof.
  intros Hne Hall. revert n. induction Hall as [|v vs Hv Hall IH]; intros n Hn; [done|].
  destruct n as [|n]; simpl in Hn; [lia|]. cbn [parse_items].
  rewrite fmap_cons, join_cons, <-(assoc_L (++)). destruct vs as [|v' vs].
  - cbn [fmap list_fmap app]. rewrite Hv by (simpl; auto). done.
  - rewrite fmap_cons. cbn [app]. rewrite <-fmap_cons.
    rewrite Hv by (simpl; auto). cbn [mbind option_bind].
    change (skip_ws (chr 44 :: ?x)) with (chr 44 :: x). cbv beta iota.
    rewrite decide_True by done. rewrite IH by (simpl in *; first [done|lia]). done.
Qed.

Lemma parse_members_print ms n r :
  ms ≠ [] → Forall (λ m, raw_ok m.1 ∧ parses m.2) ms → length ms ≤ n →
  parse_members (parse_value d) n (join_bytes [chr 44] (print_member <$> ms) ++ chr 125 :: r)
  = Some (ms, r).
Proof.
  intros Hne Hall. revert n. induction Hall as [|[k v] ms [Hk Hv] Hall IH]; intros n Hn; [done|].
  destruct n as [|n]; simpl in Hn; [lia|]. cbn [parse_members].
  cbn [fst snd] in Hk, Hv.
  rewrite fmap_cons, join_cons, <-(assoc_L (++)). unfold print_member at 1. cbn [fst snd app].
  change (skip_ws (quote :: ?x)) with (quote :: x). cbv beta iota.
  rewrite decide_True by done. rewrite <-!(assoc_L (++)). cbn [app].
  rewrite <-?(assoc_L (++)). cbn [app].
  rewrite Hk. cbn [mbind option_bind].
  change (skip_ws (chr 58 :: ?x)) with (chr 58 :: x). cbv beta iota. rewrite decide_True by done.
  cbn [app].
  destruct ms as [|m' ms].
  - cbn [fmap list_fmap app]. rewrite Hv by (simpl; auto). done.
  - rewrite fmap_cons. cbn [app]. rewrite <-fmap_cons.
    rewrite Hv by (simpl; auto). cbn [mbind option_bind].
    change (skip_ws (chr 44 :: ?x)) with (chr 44 :: x). cbv beta iota.
    rewrite decide_True by done. rewrite IH by (simpl in *; first [done|lia]). done.
Qed.
End print_containers.

(** A printed value starts with neither white space nor a closing bracket. *)
Lemma print_head v : printable v → ∃ c l, print v = c :: l ∧ is_ws c = false ∧ c ≠ chr 93.
Proof.
  intros Hp. destruct v as [|[]|lit|raw|vs|ms]; try (do 2 eexists; split; [done|]; by split).
  destruct Hp as [(c & l & -> & Hc) _]. exists c, l. split; [done|].
  destruct c as [[] [] [] [] [] [] [] []]; by first [discriminate Hc|split].
Qed.

(** A printed document parses back, inside any document. *)
Lemma parse_value_print v d r :
  printable v → nesting v ≤ d → stops r → parse_value d (print v ++ r) = Some (v, r).
Proof.
  revert d r. induction v as [|b|lit|raw|vs IH|ms IH] using json_ind'; intros d r Hp Hd Hr.
  - by destruct d.
  - by destruct b, d.
  - by apply Hp.
  - cbn [print app]. rewrite <-(assoc_L (++)). cbn [app].
    destruct d; cbn [parse_value]; change (skip_ws (quote :: ?x)) with (quote :: x); cbv beta iota;
      rewrite decide_True by done; by rewrite Hp.
  - destruct d as [|d]; [simpl in Hd; lia|]. apply nesting_array in Hd.
    apply printable_array in Hp. cbn [print app]. rewrite <-(assoc_L (++)). cbn [app parse_value].
    change (skip_ws (chr 91 :: ?x)) with (chr 91 :: x). cbv beta iota.
    rewrite decide_False by done. rewrite decide_False by done. rewrite decide_True by done.
    destruct vs as [|v vs]; [done|].
    assert (Forall (parses d) (v :: vs)) as Hall.
    { rewrite Forall_forall in IH, Hp, Hd |- *. intros v' Hv r' Hr'. by apply IH; auto. }
    pose proof (parse_items_print d (v :: vs)
      (length (join_bytes [chr 44] (print <$> v :: vs) ++ chr 93 :: r)) r) as Hitems.
    rewrite Hitems; [|done|done|].
    + apply Forall_cons in Hp as [Hp _]. destruct (print_head v Hp) as (c & l & Heq & Hws & Hc).
      rewrite fmap_cons, join_cons, Heq. cbn [app skip_ws]. rewrite Hws. by rewrite decide_False.
    + rewrite length_app. etrans; [|apply Nat.le_add_r].
      rewrite <-(length_fmap print (v :: vs)). apply join_length.
      rewrite Forall_forall in Hp. apply Forall_forall. intros l (v' & -> & Hv')%list_elem_of_fmap.
      destruct (print_head v' (Hp v' Hv')) as (c & l' & -> & _). done.
  - destruct d as [|d]; [simpl in Hd; lia|]. apply nesting_object in Hd.
    apply printable_object in Hp.
    change (print (JObject ms))
      with (chr 123 :: join_bytes [chr 44] (print_member <$> ms) ++ [chr 125]).
    cbn [app]. rewrite <-(assoc_L (++)). cbn [app parse_value].
    change (skip_ws (chr 123 :: ?x)) with (chr 123 :: x). cbv beta iota.
    rewrite decide_False by done. rewrite decide_True by done.
    destruct ms as [|m ms]; [done|].
    assert (Forall (λ m, raw_ok m.1 ∧ parses d m.2) (m :: ms)) as Hall.
    { rewrite Forall_forall in IH, Hp, Hd |- *. intros m' Hm. destruct (Hp m' Hm) as [Hraw Hpr].
      split; [done|]. intros r' Hr'. by apply IH; auto. }
    rewrite parse_members_print; [|done|done|].
    + rewrite fmap_cons, join_cons. unfold print_member at 1. cbn [app].
      change (skip_ws (quote :: ?x)) with (quote :: x). cbv beta iota. by rewrite decide_False.
    + rewrite length_app. etrans; [|apply Nat.le_add_r].
      rewrite <-(length_fmap print_member (m :: ms)). apply join_length.
      rewrite Forall_forall. intros l (m' & -> & _)%list_elem_of_fmap. done.
Qed.

Lemma parse_print v : printable v → nesting v ≤ max_depth → parse_json (print v) = Some v.
Proof.
  intros Hp Hd. unfold parse_json. rewrite <-(app_nil_r (print v)).
  by rewrite parse_value_print.
Qed.

Lemma raw_ok_escape s : raw_ok (json_escape 0 0 (to_bytes s)).
Proof. intros r. apply scan_escape. Qed.

Lemma number_ok_1 : number_ok (to_bytes "1").
Proof.
  split; [by do 2 eexists|]. intros d r Hr. destruct r as [|c r]; [by destruct d|].
  by destruct Hr as [-> |[-> | ->]], d.
Qed.
