(* ===== verification/ConfigTypes.v ===== *)
(** * Configuration data model (internal/config/types.go, runtime.go)

    Slices are lists: a nil slice and an empty one are both [[]], and the code
    never builds an empty non-nil slice inside a snapshot, so [reflect.DeepEqual]
    is equality of these values.  A [float64] is a [spec_float] of the Standard
    Library (IEEE 754 binary64 values). *)
From S2P Require Import Prelude GoStrings.
From Stdlib Require Import SpecFloat.

Definition NamespaceKey : string := "namespace".
Definition ExcludeNamespaceKey : string := "excludeNamespace".
Definition ServiceAccountKey : string := "serviceaccount".
Definition RegistriesKey : string := "registries".
Definition Wildcard : string := "*".
Definition KubeAPIQPSKey : string := "kubeAPIQPS".
Definition KubeAPIBurstKey : string := "kubeAPIBurst".
Definition WorkersKey : string := "workers".
Definition DefaultKubeAPIBurst : Z := 50.
Definition DefaultWorkers : Z := 8.

(** ** Registries *)
Record RegistryKey := MkKey { RegionID : string; InstanceID : string }.

#[export] Instance RegistryKey_eq_dec : EqDecision RegistryKey.
Proof. solve_decision. Defined.
#[export] Instance RegistryKey_countable : Countable RegistryKey.
Proof.
  refine (inj_countable' (λ k, (RegionID k, InstanceID k)) (λ p, MkKey p.1 p.2) _).
  by intros [].
Defined.

Definition RegistryKey_String (k : RegistryKey) : string :=
  RegionID k +:+ "/" +:+ InstanceID k.

Record RegistryConfig := MkRegistry {
  reg_RegionID : string;
  reg_InstanceID : string;
  AccessKeyID : string;
  AccessKeySecret : string;
  Domains : list string
}.
#[export] Instance RegistryConfig_eq_dec : EqDecision RegistryConfig.
Proof. solve_decision. Defined.

Definition Key (r : RegistryConfig) : RegistryKey := MkKey (reg_RegionID r) (reg_InstanceID r).

Definition with_Domains (r : RegistryConfig) (ds : list string) : RegistryConfig :=
  MkRegistry (reg_RegionID r) (reg_InstanceID r) (AccessKeyID r) (AccessKeySecret r) ds.

(** ** Selectors *)
Record NameSelector := MkSelector { MatchAll : bool; Names : list string }.
#[export] Instance NameSelector_eq_dec : EqDecision NameSelector.
Proof. solve_decision. Defined.

Definition containsSorted (values : list string) (value : string) : bool :=
  let index := SearchStrings values value in
  match values !! index with
  | Some v => bool_decide (v = value)
  | None => false
  end.

Definition Matches (s : NameSelector) (name : string) : bool :=
  if MatchAll s then true else containsSorted (Names s) name.

(** ** Runtime tuning *)
Abbreviation float64 := spec_float.
#[export] Instance float64_eq_dec : EqDecision float64.
Proof. solve_decision. Defined.

Record RuntimeConfiguration := MkRuntimeConfiguration {
  KubeAPIQPS : float64;
  KubeAPIBurst : Z;
  Workers : Z
}.
#[export] Instance RuntimeConfiguration_eq_dec : EqDecision RuntimeConfiguration.
Proof. solve_decision. Defined.

Definition zero_float : float64 := S754_zero false.
(** math.MaxFloat32, (2^24 - 1) * 2^104, in the canonical form of binary64 *)
Definition MaxFloat32 : float64 := S754_finite false 9007198717870080 75.
(** 25.0 *)
Definition DefaultKubeAPIQPS : float64 := S754_finite false 7036874417766400 (-48).
Definition zero_runtime : RuntimeConfiguration := MkRuntimeConfiguration zero_float 0 0.

(** [float32(x)]: rounding to nearest, ties to even. *)
Definition to_float32 (x : float64) : spec_float :=
  match x with
  | S754_finite s m e => binary_normalize 24 128 (cond_Zopp s (Zpos m)) e s
  | _ => x
  end.

Definition is_nan (x : float64) : bool := match x with S754_nan => true | _ => false end.
Definition is_inf (x : float64) : bool := match x with S754_infinity _ => true | _ => false end.

(** [ValidateQPS(qps) == nil] *)
Definition ValidateQPS (qps : float64) : bool :=
  negb (SFleb qps zero_float || SFltb MaxFloat32 qps || is_nan qps || is_inf qps
        || SFeqb (to_float32 qps) zero_float).

(** ** Snapshots *)
Record ConfigurationSnapshot := MkSnapshot {
  Generation : Z;
  Namespaces : NameSelector;
  ExcludedNamespaces : list string;
  ServiceAccounts : NameSelector;
  Registries : gmap RegistryKey RegistryConfig;
  Runtime : RuntimeConfiguration
}.
#[export] Instance ConfigurationSnapshot_eq_dec : EqDecision ConfigurationSnapshot.
Proof. solve_decision. Defined.

Definition zero_snapshot : ConfigurationSnapshot :=
  MkSnapshot 0 (MkSelector false []) [] (MkSelector false []) ∅ zero_runtime.

Definition with_Generation (s : ConfigurationSnapshot) (g : Z) : ConfigurationSnapshot :=
  MkSnapshot g (Namespaces s) (ExcludedNamespaces s) (ServiceAccounts s) (Registries s) (Runtime s).

(** [s.Runtime == other.Runtime]: Go's [==] on a struct with a float field *)
Definition runtime_eqb (a b : RuntimeConfiguration) : bool :=
  SFeqb (KubeAPIQPS a) (KubeAPIQPS b) && (KubeAPIBurst a =? KubeAPIBurst b)%Z
  && (Workers a =? Workers b)%Z.

Definition BusinessEqual (s other : ConfigurationSnapshot) : bool :=
  bool_decide (Namespaces s = Namespaces other)
  && bool_decide (ExcludedNamespaces s = ExcludedNamespaces other)
  && bool_decide (ServiceAccounts s = ServiceAccounts other)
  && bool_decide (Registries s = Registries other).

Definition Equal (s other : ConfigurationSnapshot) : bool :=
  runtime_eqb (Runtime s) (Runtime other) && BusinessEqual s other.

Definition MatchesNamespace (s : ConfigurationSnapshot) (name : string) : bool :=
  Matches (Namespaces s) name && negb (containsSorted (ExcludedNamespaces s) name).

(** [append([]string(nil), l...)] *)
Definition clone_slice (l : list string) : list string := [] ++ l.

Definition cloneSelector (s : NameSelector) : NameSelector :=
  MkSelector (MatchAll s) (clone_slice (Names s)).

Definition Clone (s : ConfigurationSnapshot) : ConfigurationSnapshot :=
  MkSnapshot (Generation s) (cloneSelector (Namespaces s)) (clone_slice (ExcludedNamespaces s))
    (cloneSelector (ServiceAccounts s))
    ((λ r, with_Domains r (clone_slice (Domains r))) <$> Registries s) (Runtime s).

(** ** Facts *)

(** The binary search finds exactly the members of a sorted slice. *)
Lemma containsSorted_spec values value :
  StronglySorted String.le values → containsSorted values value = true ↔ value ∈ values.
Proof.
  intros Hs. unfold containsSorted.
  destruct (SearchStrings_spec values value Hs) as [Hbelow Hat].
  set (r := SearchStrings values value) in *. split.
  - destruct (values !! r) as [v|] eqn:Hr; [|done].
    intros ->%bool_decide_eq_true. by eapply list_elem_of_lookup_2.
  - intros [i Hi]%list_elem_of_lookup. destruct (decide (i < r)) as [Hlt|Hge].
    { by destruct (Hbelow i value Hi Hlt). }
    assert (r < length values) as Hlen by (apply lookup_lt_Some in Hi; lia).
    destruct (lookup_lt_is_Some_2 _ _ Hlen) as [v Hv]. rewrite Hv.
    apply bool_decide_eq_true. apply (anti_symm String.le).
    + by apply (StronglySorted_lookup String.le values r i); [done|lia|..].
    + by apply (Hat r).
Qed.

Lemma Clone_id s : Clone s = s.
Proof.
  destruct s as [g [ma ns] ex [sma sns] regs rt]. unfold Clone, cloneSelector, clone_slice; simpl.
  f_equal. rewrite <-(map_fmap_id regs) at 2. apply map_fmap_ext. by intros k [].
Qed.

Lemma BusinessEqual_spec s1 s2 :
  BusinessEqual s1 s2 = true ↔
  Namespaces s1 = Namespaces s2 ∧ ExcludedNamespaces s1 = ExcludedNamespaces s2 ∧
  ServiceAccounts s1 = ServiceAccounts s2 ∧ Registries s1 = Registries s2.
Proof. unfold BusinessEqual. rewrite !andb_true_iff, !bool_decide_eq_true. tauto. Qed.

Lemma Key_with_Domains r ds : Key (with_Domains r ds) = Key r.
Proof. done. Qed.
