(* ===== verification/ConfigParser.v ===== *)
(** * ConfigMap parser (internal/config/parser.go, runtime.go)

    [Parse] and its helpers.  The YAML decoder, the DNS validators and
    [strconv.ParseFloat] are parameters; an error keeps what its text names. *)
From S2P Require Import Prelude GoStrings Validation ConfigTypes.
From Stdlib Require Import Ascii.

(** [yaml.UnmarshalStrict] into [[]RegistryConfig] *)
Class YAML := { UnmarshalStrict : string → result string (list RegistryConfig) }.
(** [strconv.ParseFloat(s, 64)]; [None] is its error *)
Class FloatParser := { ParseFloat : string → option float64 }.

Inductive registry_error :=
| EmptyRegionID
| EmptyInstanceID
| EmptyAccessKeyID
| EmptyAccessKeySecret
| AccessKeyIDWhitespace
| AccessKeySecretWhitespace
| NoDomains
| EmptyDomain
| DomainSyntax
| InvalidDomain (problems : list string).

Inductive parse_error :=
| UnsupportedKey (key : string)
| FieldEmpty (field : string)
| NameEmpty (field : string)
| NameInvalid (field name problems : string)
| WildcardCombined (field : string)
| RegistriesEmpty
| RegistriesYAML (e : string)
| RegistriesNone
| RegistryAt (index : nat) (e : registry_error)
| ConflictingCredentials (key : RegistryKey)
| DomainShared (domain : string) (owner key : RegistryKey)
| InvalidQPS
| InvalidInteger (key : string).

#[export] Instance registry_error_eq_dec : EqDecision registry_error.
Proof. solve_decision. Defined.
#[export] Instance parse_error_eq_dec : EqDecision parse_error.
Proof. solve_decision. Defined.

(** ** Helpers *)

(** The loop of [sortedUnique]: [seen] is the set of values already copied. *)
Fixpoint dedup (seen : gset string) (values : list string) : list string :=
  match values with
  | [] => []
  | v :: values => if decide (v ∈ seen) then dedup seen values
                   else v :: dedup ({[v]} ∪ seen) values
  end.

Definition sortedUnique (values : list string) : list string := sort_Strings (dedup ∅ values).

(** [data[key]] with the zero value for a missing key *)
Definition data_get (data : gmap string string) (key : string) : string := default "" (data !! key).

Section parser.
Context `{RangeOrder} `{DNSValidation} `{YAML} `{FloatParser}.

(** The body of the loop of [parseNameList]. *)
Definition check_name (field : string) (validate : string → list string) (allowWildcard : bool)
    (part : string) : result parse_error string :=
  let name := TrimSpace part in
  if bool_decide (name = "") then Err (NameEmpty field)
  else if negb (bool_decide (name = Wildcard)) || negb allowWildcard then
    match validate name with
    | [] => Ok name
    | problems => Err (NameInvalid field name (Join problems "; "))
    end
  else Ok name.

Definition parseNameList (raw field : string) (validate : string → list string)
    (allowWildcard : bool) : result parse_error (list string) :=
  values ← mapM (check_name field validate allowWildcard) (Split raw ","%char);
  mret (sortedUnique values).

Definition parseNameSelector (raw field : string) (validate : string → list string) :
    result parse_error NameSelector :=
  let raw := TrimSpace raw in
  if bool_decide (raw = "") then Err (FieldEmpty field) else
  values ← parseNameList raw field validate true;
  if containsSorted values Wildcard then
    if bool_decide (length values ≠ 1) then Err (WildcardCombined field)
    else mret (MkSelector true [])
  else mret (MkSelector false values).

Definition parseOptionalNameList (raw field : string) (validate : string → list string) :
    result parse_error (list string) :=
  if bool_decide (TrimSpace raw = "") then mret []
  else parseNameList raw field validate false.

Definition normalizeDomain (rawDomain : string) : result registry_error string :=
  let domain := TrimSuffix (ToLower (TrimSpace rawDomain)) "." in
  if bool_decide (domain = "") then Err EmptyDomain
  else if Contains domain "://" || ContainsAny domain "/?#@:" then Err DomainSyntax
  else match IsDNS1123Subdomain domain with
       | [] => Ok domain
       | problems => Err (InvalidDomain problems)
       end.

Definition normalizeRegistry (r : RegistryConfig) : result registry_error RegistryConfig :=
  let regionID := TrimSpace (reg_RegionID r) in
  let instanceID := TrimSpace (reg_InstanceID r) in
  if bool_decide (regionID = "") then Err EmptyRegionID
  else if bool_decide (instanceID = "") then Err EmptyInstanceID
  else if bool_decide (TrimSpace (AccessKeyID r) = "") then Err EmptyAccessKeyID
  else if bool_decide (TrimSpace (AccessKeySecret r) = "") then Err EmptyAccessKeySecret
  else if bool_decide (AccessKeyID r ≠ TrimSpace (AccessKeyID r)) then Err AccessKeyIDWhitespace
  else if bool_decide (AccessKeySecret r ≠ TrimSpace (AccessKeySecret r))
       then Err AccessKeySecretWhitespace
  else if bool_decide (Domains r = []) then Err NoDomains
  else
    domains ← mapM normalizeDomain (Domains r);
    mret (MkRegistry regionID instanceID (AccessKeyID r) (AccessKeySecret r)
            (sortedUnique domains)).

(** The inner loop: every domain of a registry is claimed for its key. *)
Definition claim_domain (key : RegistryKey) (owners : gmap string RegistryKey)
    (domain : string) : result parse_error (gmap string RegistryKey) :=
  match owners !! domain with
  | Some owner =>
    if bool_decide (owner ≠ key) then Err (DomainShared domain owner key)
    else Ok (<[domain := key]> owners)
  | None => Ok (<[domain := key]> owners)
  end.

Definition registries_state : Type :=
  gmap RegistryKey RegistryConfig * gmap string RegistryKey.

(** A registry met before under the same key is merged into the new one. *)
Definition merge_current (current : option RegistryConfig) (normalized : RegistryConfig) :
    result parse_error RegistryConfig :=
  match current with
  | Some current =>
    if negb (bool_decide (AccessKeyID current = AccessKeyID normalized))
       || negb (bool_decide (AccessKeySecret current = AccessKeySecret normalized))
    then Err (ConflictingCredentials (Key normalized))
    else Ok (with_Domains normalized (sortedUnique (Domains current ++ Domains normalized)))
  | None => Ok normalized
  end.

(** One iteration of the loop of [parseRegistries]. *)
Definition add_registry (st : registries_state) (indexed : nat * RegistryConfig) :
    result parse_error registries_state :=
  let '(registries, domainOwners) := st in
  let '(index, registry) := indexed in
  match normalizeRegistry registry with
  | Err e => Err (RegistryAt index e)
  | Ok normalized =>
    let key := Key normalized in
    normalized ← merge_current (registries !! key) normalized;
    domainOwners ← fold_result (claim_domain key) domainOwners (Domains normalized);
    mret (<[key := normalized]> registries, domainOwners)
  end.

Definition indexed {A} (l : list A) : list (nat * A) := zip (seq 0 (length l)) l.

Definition parseRegistries (raw : string) : result parse_error (gmap RegistryKey RegistryConfig) :=
  if bool_decide (TrimSpace raw = "") then Err RegistriesEmpty else
  match UnmarshalStrict raw with
  | Err e => Err (RegistriesYAML e)
  | Ok [] => Err RegistriesNone
  | Ok input => fst <$> fold_result add_registry (∅, ∅) (indexed input)
  end.

(** The integer fields are filled by ranging over a map from key to target. *)
Inductive runtime_target := TargetBurst | TargetWorkers.
Definition runtime_targets : gmap string runtime_target :=
  <[KubeAPIBurstKey := TargetBurst]> {[WorkersKey := TargetWorkers]}.
Definition set_target (r : RuntimeConfiguration) (t : runtime_target) (v : Z) :
    RuntimeConfiguration :=
  match t with
  | TargetBurst => MkRuntimeConfiguration (KubeAPIQPS r) v (Workers r)
  | TargetWorkers => MkRuntimeConfiguration (KubeAPIQPS r) (KubeAPIBurst r) v
  end.

Definition parse_target (data : gmap string string) (r : RuntimeConfiguration)
    (kt : string * runtime_target) : result parse_error RuntimeConfiguration :=
  match data !! kt.1 with
  | None => Ok r
  | Some raw =>
    match Atoi (TrimSpace raw) with
    | Some value => if (value <? 1)%Z then Err (InvalidInteger kt.1)
                    else Ok (set_target r kt.2 value)
    | None => Err (InvalidInteger kt.1)
    end
  end.

Definition parseRuntime (data : gmap string string) : result parse_error RuntimeConfiguration :=
  qps ← match data !! KubeAPIQPSKey with
    | None => Ok zero_float
    | Some raw =>
      match ParseFloat (TrimSpace raw) with
      | Some qps => if ValidateQPS qps then Ok qps else Err InvalidQPS
      | None => Err InvalidQPS
      end
    end;
  fold_result (parse_target data) (MkRuntimeConfiguration qps 0 0) (range runtime_targets).

Definition supported_keys : list string :=
  [NamespaceKey; ExcludeNamespaceKey; ServiceAccountKey; RegistriesKey; KubeAPIQPSKey;
   KubeAPIBurstKey; WorkersKey].

Definition check_keys (data : gmap string string) : result parse_error () :=
  fold_result (λ _ kv, if bool_decide (kv.1 ∈ supported_keys) then Ok tt
                       else Err (UnsupportedKey kv.1)) tt (range data).

Definition Parse (data : gmap string string) : result parse_error ConfigurationSnapshot :=
  _ ← check_keys data;
  namespaces ← parseNameSelector (data_get data NamespaceKey) "namespace" IsDNS1123Label;
  excludedNamespaces ← parseOptionalNameList (data_get data ExcludeNamespaceKey)
                         "excludeNamespace" IsDNS1123Label;
  serviceAccounts ← parseNameSelector (data_get data ServiceAccountKey) "serviceaccount"
                      IsDNS1123Subdomain;
  registries ← parseRegistries (data_get data RegistriesKey);
  runtime ← parseRuntime data;
  mret (MkSnapshot 0 namespaces excludedNamespaces serviceAccounts registries runtime).
End parser.
