(* ===== verification/ConfigParserTheory.v ===== *)
(** * What the parser accepts and what it produces

    [registries_spec] is the specification of the merged registry map;
    [parseRegistries_spec] shows that the loops of the parser implement it. *)
From S2P Require Import Prelude GoStrings Validation ConfigTypes ConfigParser.
From Stdlib Require Import Ascii SpecFloat.

(** ** sortedUnique *)
Lemma elem_of_dedup seen l x : x ∈ dedup seen l ↔ x ∈ l ∧ x ∉ seen.
Proof.
  revert seen. induction l as [|v l IH]; intros seen; simpl; [set_solver|].
  destruct (decide (v ∈ seen)).
  - rewrite IH. set_solver.
  - rewrite !elem_of_cons, IH, not_elem_of_union, not_elem_of_singleton.
    destruct (decide (x = v)) as [->|]; naive_solver.
Qed.

Lemma NoDup_dedup seen l : NoDup (dedup seen l).
Proof.
  revert seen. induction l as [|v l IH]; intros seen; simpl; [constructor|].
  destruct (decide (v ∈ seen)); [done|]. constructor; [|done].
  rewrite elem_of_dedup. set_solver.
Qed.

Lemma elem_of_sortedUnique l x : x ∈ sortedUnique l ↔ x ∈ l.
Proof.
  unfold sortedUnique, sort_Strings. rewrite merge_sort_Permutation, elem_of_dedup. set_solver.
Qed.

Lemma sortedUnique_sorted_set l : sorted_set (sortedUnique l).
Proof.
  split; [apply StronglySorted_merge_sort; apply _|].
  unfold sortedUnique, sort_Strings. rewrite merge_sort_Permutation. apply NoDup_dedup.
Qed.
#[export] Hint Resolve sortedUnique_sorted_set : go.

(** The result is a function of the set of values. *)
Lemma sortedUnique_ext l1 l2 : (∀ x, x ∈ l1 ↔ x ∈ l2) → sortedUnique l1 = sortedUnique l2.
Proof.
  intros Heq. apply sorted_set_unique; [eauto with go..|].
  intros x. by rewrite !elem_of_sortedUnique.
Qed.

Lemma sortedUnique_id l : sorted_set l → sortedUnique l = l.
Proof.
  intros Hl. apply sorted_set_unique; [eauto with go|done|].
  intros x. by rewrite elem_of_sortedUnique.
Qed.

Lemma sortedUnique_nil l : sortedUnique l = [] ↔ l = [].
Proof.
  split; [|by intros ->]. intros Hnil. destruct l as [|x l]; [done|].
  assert (x ∈ sortedUnique (x :: l)) as Hx by (rewrite elem_of_sortedUnique; left).
  rewrite Hnil in Hx. by apply not_elem_of_nil in Hx.
Qed.

Lemma containsSorted_sortedUnique l x : containsSorted (sortedUnique l) x = true ↔ x ∈ l.
Proof.
  rewrite containsSorted_spec by apply sortedUnique_sorted_set. apply elem_of_sortedUnique.
Qed.

(** ** Name lists *)
Definition name_ok (validate : string → list string) (allowWildcard : bool) (name : string) : Prop :=
  name ≠ "" ∧ ((allowWildcard = true ∧ name = Wildcard) ∨ validate name = []).

Definition names_of (raw : string) : list string := TrimSpace <$> Split raw ","%char.

Lemma names_of_not_nil raw : names_of raw ≠ [].
Proof. unfold names_of. intros Heq%fmap_nil_inv. by eapply Split_not_nil. Qed.

Lemma check_name_spec field validate allow part name :
  check_name field validate allow part = Ok name ↔
  name_ok validate allow (TrimSpace part) ∧ name = TrimSpace part.
Proof.
  unfold check_name, name_ok. cbv zeta.
  destruct (bool_decide_reflect (TrimSpace part = "")); [naive_solver|].
  destruct (bool_decide_reflect (TrimSpace part = Wildcard)), allow; simpl;
    destruct (validate (TrimSpace part)); naive_solver.
Qed.

Lemma check_names_spec field validate allow parts names :
  mapM (check_name field validate allow) parts = Ok names ↔
  Forall (name_ok validate allow) (TrimSpace <$> parts) ∧ names = TrimSpace <$> parts.
Proof.
  rewrite mapM_Ok. split.
  - induction 1 as [|x y l k Hxy _ [IH ->]]; [done|].
    apply check_name_spec in Hxy as [Hok ->]. by split; [constructor|].
  - intros [Hall ->]. induction parts as [|x parts IH]; [by constructor|].
    apply Forall_cons in Hall as [Hx Hall].
    constructor; [by apply check_name_spec|by apply IH].
Qed.

Lemma parseNameList_spec raw field validate allow values :
  parseNameList raw field validate allow = Ok values ↔
  Forall (name_ok validate allow) (names_of raw) ∧ values = sortedUnique (names_of raw).
Proof.
  unfold parseNameList, names_of.
  destruct (mapM _ (Split raw ","%char)) as [names|e] eqn:Hm; simpl.
  - apply check_names_spec in Hm as [Hok ->].
    split; [by intros [= <-]|]. by intros [_ ->].
  - split; [done|]. intros [Hok _].
    assert (mapM (check_name field validate allow) (Split raw ","%char)
            = Ok (TrimSpace <$> Split raw ","%char)) by by apply check_names_spec.
    congruence.
Qed.

(** ** Registries *)
Lemma claim_domains_spec key ds owners :
  match fold_result (claim_domain key) owners ds with
  | Ok owners' =>
    (∀ d owner, d ∈ ds → owners !! d = Some owner → owner = key) ∧
    (∀ d owner, owners' !! d = Some owner ↔ (d ∈ ds ∧ owner = key) ∨ owners !! d = Some owner)
  | Err _ => ∃ d owner, d ∈ ds ∧ owners !! d = Some owner ∧ owner ≠ key
  end.
Proof.
  revert owners. induction ds as [|d ds IH]; intros owners; simpl; [set_solver|].
  assert (claim_domain key owners d = Ok (<[d:=key]> owners) ∧
            (∀ owner, owners !! d = Some owner → owner = key) ∨
          ∃ e owner, claim_domain key owners d = Err e ∧ owners !! d = Some owner ∧ owner ≠ key)
    as [[-> Hd]|(e & owner & -> & Hd & Hne)].
  { unfold claim_domain. destruct (owners !! d) as [o|] eqn:Hd; [|left; by split].
    destruct (bool_decide_reflect (o ≠ key)) as [Hne|He]; [right; by eauto|].
    left. split; [done|]. intros ? [= <-]. by apply dec_stable. }
  2: { exists d, owner. split; [left|done]. }
  specialize (IH (<[d:=key]> owners)).
  destruct (fold_result _ _ ds) as [owners'|e].
  - destruct IH as [Hold Hnew]. split.
    + intros d' owner Hin Ho. destruct (decide (d' = d)) as [->|Hne]; [by eauto|].
      apply elem_of_cons in Hin as [?|Hin]; [done|]. apply (Hold d'); [done|].
      by rewrite lookup_insert_ne.
    + intros d' owner. rewrite Hnew, elem_of_cons.
      destruct (decide (d = d')) as [<-|Hne].
      * rewrite lookup_insert_eq. naive_solver.
      * rewrite lookup_insert_ne by done. naive_solver.
  - destruct IH as (d' & owner & Hin & Ho & Hne).
    rewrite lookup_insert_Some in Ho. destruct Ho as [[-> ->]|[_ Ho]]; [done|].
    exists d', owner. split; [by right|done].
Qed.

(** What a list of normalized registries must satisfy, and the map it means. *)
Definition consistent (ns : list RegistryConfig) : Prop :=
  ∀ n1 n2, n1 ∈ ns → n2 ∈ ns →
    (Key n1 = Key n2 → AccessKeyID n1 = AccessKeyID n2 ∧ AccessKeySecret n1 = AccessKeySecret n2) ∧
    (∀ d, d ∈ Domains n1 → d ∈ Domains n2 → Key n1 = Key n2).

Definition merged (ns : list RegistryConfig) (k : RegistryKey) (r : RegistryConfig) : Prop :=
  Key r = k ∧ (∃ n, n ∈ ns ∧ Key n = k) ∧
  (∀ n, n ∈ ns → Key n = k →
     AccessKeyID r = AccessKeyID n ∧ AccessKeySecret r = AccessKeySecret n) ∧
  sorted_set (Domains r) ∧
  (∀ d, d ∈ Domains r ↔ ∃ n, n ∈ ns ∧ Key n = k ∧ d ∈ Domains n).

Definition registries_spec (ns : list RegistryConfig) (m : gmap RegistryKey RegistryConfig) : Prop :=
  ∀ k, match m !! k with
       | Some r => merged ns k r
       | None => ∀ n, n ∈ ns → Key n ≠ k
       end.

Lemma merged_unique ns k r1 r2 : merged ns k r1 → merged ns k r2 → r1 = r2.
Proof.
  intros (Hk1 & (n & Hn & Hnk) & Ha1 & Hs1 & Hd1) (Hk2 & _ & Ha2 & Hs2 & Hd2).
  destruct (Ha1 n Hn Hnk), (Ha2 n Hn Hnk).
  assert (Domains r1 = Domains r2).
  { apply sorted_set_unique; [done..|]. intros d. by rewrite Hd1, Hd2. }
  destruct r1, r2; unfold Key in *; simpl in *. congruence.
Qed.

Lemma registries_spec_unique ns m1 m2 :
  registries_spec ns m1 → registries_spec ns m2 → m1 = m2.
Proof.
  intros H1 H2. apply map_eq. intros k. specialize (H1 k). specialize (H2 k).
  destruct (m1 !! k) as [r1|], (m2 !! k) as [r2|]; [|exfalso..|done].
  - f_equal. by eapply merged_unique.
  - destruct H1 as (_ & (n & Hn & Hk) & _). by eapply H2.
  - destruct H2 as (_ & (n & Hn & Hk) & _). by eapply H1.
Qed.

Lemma registries_spec_perm ns1 ns2 m :
  ns1 ≡ₚ ns2 → registries_spec ns1 m → registries_spec ns2 m.
Proof.
  intros Hp H k. specialize (H k). destruct (m !! k) as [r|].
  - unfold merged in *. setoid_rewrite <-Hp. done.
  - setoid_rewrite <-Hp. done.
Qed.

Lemma consistent_perm ns1 ns2 : ns1 ≡ₚ ns2 → consistent ns1 → consistent ns2.
Proof. intros Hp H n1 n2. rewrite <-!Hp. apply H. Qed.

Definition owners_spec (ns : list RegistryConfig) (owners : gmap string RegistryKey) : Prop :=
  ∀ d k, owners !! d = Some k ↔ ∃ n, n ∈ ns ∧ Key n = k ∧ d ∈ Domains n.

Lemma exists_snoc {A} (P : A → Prop) l x :
  (∃ y, y ∈ l ++ [x] ∧ P y) ↔ (∃ y, y ∈ l ∧ P y) ∨ P x.
Proof. setoid_rewrite elem_of_app. setoid_rewrite list_elem_of_singleton. naive_solver. Qed.

Lemma merge_current_spec ns n regs :
  sorted_set (Domains n) → registries_spec ns regs →
  match merge_current (regs !! Key n) n with
  | Ok n' => merged (ns ++ [n]) (Key n) n' ∧
      (∀ n0, n0 ∈ ns → Key n0 = Key n →
         AccessKeyID n0 = AccessKeyID n ∧ AccessKeySecret n0 = AccessKeySecret n)
  | Err _ => ¬ consistent (ns ++ [n])
  end.
Proof.
  intros Hn Hspec. specialize (Hspec (Key n)). unfold merge_current.
  destruct (regs !! Key n) as [cur|].
  - destruct Hspec as (Hk & (n0 & Hn0 & Hk0) & Hcred & Hs & Hd).
    destruct (bool_decide_reflect (AccessKeyID cur = AccessKeyID n)) as [Hid|Hid]; simpl;
      [destruct (bool_decide_reflect (AccessKeySecret cur = AccessKeySecret n)) as [Hse|Hse]; simpl|].
    + split; [|intros n1 Hn1 Hk1; destruct (Hcred n1 Hn1 Hk1); split; congruence].
      split; [done|]. split; [exists n; set_solver|]. split; [|split].
      * intros n1 [Hn1| ->%list_elem_of_singleton]%elem_of_app Hk1; [|done].
        destruct (Hcred n1 Hn1 Hk1). simpl. split; congruence.
      * simpl. eauto with go.
      * intros d. simpl. rewrite elem_of_sortedUnique, elem_of_app, Hd, exists_snoc. tauto.
    + intros Hc. destruct (Hc n0 n) as [[] _]; [set_solver..|done|].
      destruct (Hcred n0 Hn0 Hk0). congruence.
    + intros Hc. destruct (Hc n0 n) as [[] _]; [set_solver..|done|].
      destruct (Hcred n0 Hn0 Hk0). congruence.
  - split; [|intros n0 Hn0 Hk0; by destruct (Hspec n0)].
    split; [done|]. split; [exists n; set_solver|]. split; [|split; [done|]].
    + intros n1 [Hn1| ->%list_elem_of_singleton]%elem_of_app Hk1; [by destruct (Hspec n1)|done].
    + intros d. rewrite exists_snoc. split; [by right|].
      intros [(n1 & Hn1 & Hk1 & _)|[_ ?]]; [by destruct (Hspec n1)|done].
Qed.

Lemma merged_app_ne ns n k r : Key n ≠ k → merged ns k r → merged (ns ++ [n]) k r.
Proof.
  unfold merged. intros Hne (Hk & Hex & Hc & Hs & Hd).
  split; [done|]. split; [rewrite exists_snoc; by left|]. split; [|split; [done|]].
  - intros n0 [Hn0| ->%list_elem_of_singleton]%elem_of_app Hk0; [by apply Hc|done].
  - intros d. rewrite exists_snoc, Hd. tauto.
Qed.

Section parser_theory.
Context `{RangeOrder} `{DNSValidation} `{YAML} `{FloatParser}.

Lemma normalizeRegistry_spec r n :
  normalizeRegistry r = Ok n ↔
  TrimSpace (reg_RegionID r) ≠ "" ∧ TrimSpace (reg_InstanceID r) ≠ "" ∧
  AccessKeyID r ≠ "" ∧ AccessKeySecret r ≠ "" ∧
  TrimSpace (AccessKeyID r) = AccessKeyID r ∧ TrimSpace (AccessKeySecret r) = AccessKeySecret r ∧
  Domains r ≠ [] ∧
  ∃ ds, Forall2 (λ raw d, normalizeDomain raw = Ok d) (Domains r) ds ∧
    n = MkRegistry (TrimSpace (reg_RegionID r)) (TrimSpace (reg_InstanceID r)) (AccessKeyID r)
          (AccessKeySecret r) (sortedUnique ds).
Proof.
  unfold normalizeRegistry. setoid_rewrite <-mapM_Ok.
  repeat case_bool_decide; try (split; [done|]; intuition congruence).
  destruct (mapM normalizeDomain (Domains r)) as [ds|e]; simpl.
  - split; [intros [= <-]|]; [intuition (try congruence); eauto|].
    by intros (_ & _ & _ & _ & _ & _ & _ & ? & [= <-] & ->).
  - split; [done|]. by intros (_ & _ & _ & _ & _ & _ & _ & ? & ? & ?).
Qed.

Lemma normalizeRegistry_sorted r n : normalizeRegistry r = Ok n → sorted_set (Domains n).
Proof.
  intros (_ & _ & _ & _ & _ & _ & _ & ds & _ & ->)%normalizeRegistry_spec. simpl. eauto with go.
Qed.

Definition loop_inv (ns : list RegistryConfig) (st : registries_state) : Prop :=
  consistent ns ∧ registries_spec ns st.1 ∧ owners_spec ns st.2.

Lemma add_registry_step ns i r n st :
  normalizeRegistry r = Ok n → loop_inv ns st →
  match add_registry st (i, r) with
  | Ok st' => loop_inv (ns ++ [n]) st'
  | Err _ => ¬ consistent (ns ++ [n])
  end.
Proof.
  destruct st as [regs owners]. intros Hn (Hc & Hr & Ho). simpl in *. rewrite Hn.
  pose proof (merge_current_spec ns n regs (normalizeRegistry_sorted r n Hn) Hr) as Hm.
  destruct (merge_current (regs !! Key n) n) as [n'|e]; simpl; [|done].
  destruct Hm as [Hm Hcred].
  pose proof (claim_domains_spec (Key n) (Domains n') owners) as Hcl.
  destruct (fold_result _ owners (Domains n')) as [owners'|e]; simpl.
  - destruct Hcl as [Hold Hnew]. pose proof Hm as (Hk & _ & _ & _ & Hd).
    assert (Hshare : ∀ n0 d, n0 ∈ ns → d ∈ Domains n0 → d ∈ Domains n → Key n0 = Key n).
    { intros n0 d Hn0 Hd0 Hd1. apply (Hold d); [apply Hd; set_solver|]. apply Ho. eauto. }
    split; [|split].
    + intros n1 n2 [Hn1| ->%list_elem_of_singleton]%elem_of_app
        [Hn2| ->%list_elem_of_singleton]%elem_of_app; [by apply Hc| | |done].
      * split; [by apply Hcred|]. eauto.
      * split; [|symmetry; eauto].
        intros Heq. by destruct (Hcred n2 Hn2).
    + intros k. simpl. destruct (decide (k = Key n)) as [->|Hne].
      * by rewrite lookup_insert_eq.
      * rewrite lookup_insert_ne by done. specialize (Hr k).
        destruct (regs !! k); [by apply merged_app_ne|]. set_solver.
    + intros d k. simpl. rewrite Hnew. unfold owners_spec in Ho. rewrite Ho. split.
      * intros [[Hin ->]|(n0 & Hn0 & Hk0 & Hd0)]; [by apply Hd|]. exists n0. set_solver.
      * intros (n0 & [Hn0| ->%list_elem_of_singleton]%elem_of_app & Hk0 & Hd0); [right; eauto|].
        left. split; [|done]. apply Hd. exists n. set_solver.
  - destruct Hcl as (d & owner & Hin & Howner & Hne). intros Hc'. apply Hne.
    apply Ho in Howner as (n0 & Hn0 & <- & Hd0).
    destruct Hm as (_ & _ & _ & _ & Hd). apply Hd in Hin as (n1 & Hn1 & <- & Hd1).
    destruct (Hc' n0 n1) as [_ Hshare]; [set_solver|done|]. by apply (Hshare d).
Qed.

Lemma add_registries_spec inputs ns0 ns st i :
  Forall2 (λ r n, normalizeRegistry r = Ok n) inputs ns → loop_inv ns0 st →
  match fold_result add_registry st (zip (seq i (length inputs)) inputs) with
  | Ok st' => loop_inv (ns0 ++ ns) st'
  | Err _ => ¬ consistent (ns0 ++ ns)
  end.
Proof.
  intros Hf. revert ns0 st i. induction Hf as [|r n inputs ns Hn _ IH]; intros ns0 st i Hinv.
  { simpl. by rewrite app_nil_r. }
  cbn [length seq zip zip_with fold_result].
  pose proof (add_registry_step ns0 i r n st Hn Hinv) as Hstep.
  destruct (add_registry st (i, r)) as [st'|e].
  - rewrite cons_middle, (assoc_L (++)). by apply (IH (ns0 ++ [n]) st' (S i)).
  - intros Hc. apply Hstep. intros n1 n2 Hn1 Hn2. apply Hc; set_solver.
Qed.

Definition normalized_inputs (input ns : list RegistryConfig) : Prop :=
  Forall2 (λ r n, normalizeRegistry r = Ok n) input ns.

Lemma loop_inv_empty : loop_inv [] (∅, ∅).
Proof.
  split; [|split].
  - intros n1 n2 Hn. by apply not_elem_of_nil in Hn.
  - intros k. simpl. rewrite lookup_empty. intros n Hn. by apply not_elem_of_nil in Hn.
  - intros d k. simpl. rewrite lookup_empty. split; [done|].
    intros (n & Hn & _). by apply not_elem_of_nil in Hn.
Qed.

Lemma add_registries_normalized inputs i st st' :
  fold_result add_registry st (zip (seq i (length inputs)) inputs) = Ok st' →
  ∃ ns, normalized_inputs inputs ns.
Proof.
  revert i st. induction inputs as [|r inputs IH]; intros i [regs owners].
  { exists []. constructor. }
  cbn [length seq zip zip_with fold_result]. unfold add_registry at 1.
  destruct (normalizeRegistry r) as [n|e] eqn:Hn; [|done].
  destruct (merge_current _ n ≫= _); [|done]. intros Hrest.
  destruct (IH _ _ Hrest) as [ns Hns]. exists (n :: ns). by constructor.
Qed.

Lemma add_registries_correct input m :
  fst <$> fold_result add_registry (∅, ∅) (indexed input) = Ok m ↔
  ∃ ns, normalized_inputs input ns ∧ consistent ns ∧ registries_spec ns m.
Proof.
  split.
  - destruct (fold_result _ _ _) as [[regs owners]|e] eqn:Hf; simpl; [|done]. intros [= <-].
    destruct (add_registries_normalized _ _ _ _ Hf) as [ns Hns]. exists ns.
    pose proof (add_registries_spec input [] ns (∅, ∅) 0 Hns loop_inv_empty) as Hs.
    unfold indexed in Hf. rewrite Hf in Hs. by destruct Hs as (Hc & Hr & _).
  - intros (ns & Hns & Hc & Hr).
    pose proof (add_registries_spec input [] ns (∅, ∅) 0 Hns loop_inv_empty) as Hs.
    unfold indexed. destruct (fold_result _ _ _) as [[regs owners]|e]; [|done].
    simpl. f_equal. destruct Hs as (_ & Hs & _). by eapply registries_spec_unique.
Qed.

(** The parser accepts exactly the consistent registry lists, and its map is
    the merge of the normalized entries. *)
Lemma parseRegistries_spec raw m :
  parseRegistries raw = Ok m ↔
  ∃ input ns, TrimSpace raw ≠ "" ∧ UnmarshalStrict raw = Ok input ∧ input ≠ [] ∧
    normalized_inputs input ns ∧ consistent ns ∧ registries_spec ns m.
Proof.
  unfold parseRegistries.
  destruct (bool_decide_reflect (TrimSpace raw = "")) as [He|He].
  { split; [done|]. by intros (? & ? & ? & _). }
  destruct (UnmarshalStrict raw) as [[|r input]|e].
  { split; [done|]. by intros (? & ? & _ & [= <-] & ? & _). }
  2: { split; [done|]. by intros (? & ? & _ & ? & _). }
  rewrite add_registries_correct. split.
  - intros (ns & ? & ? & ?). by exists (r :: input), ns.
  - intros (? & ns & _ & [= <-] & _ & ?). by exists ns.
Qed.

(** ** Normalization is idempotent *)
Context `{!DNSValidationLaws H0}.

Lemma normalizeDomain_spec raw d :
  normalizeDomain raw = Ok d ↔
  d = TrimSuffix (ToLower (TrimSpace raw)) "." ∧ d ≠ "" ∧
  Contains d "://" = false ∧ ContainsAny d "/?#@:" = false ∧ IsDNS1123Subdomain d = [].
Proof.
  unfold normalizeDomain. set (x := TrimSuffix _ _).
  destruct (bool_decide_reflect (x = "")); [intuition congruence|].
  destruct (Contains x "://") eqn:?, (ContainsAny x "/?#@:") eqn:?; simpl;
    [intuition congruence..|].
  destruct (IsDNS1123Subdomain x) eqn:?; intuition congruence.
Qed.

Lemma plain_char (c : ascii) :
  is_lower_alnum c || is_hyphen c || is_dot c = true →
  space1 c = false ∧ is_upper c = false ∧ (code c < 128)%N.
Proof.
  unfold is_lower_alnum, is_hyphen, is_dot, space1, is_upper, in_range.
  rewrite !orb_true_iff, !andb_true_iff, !N.leb_le, !N.eqb_eq.
  intros Hc. rewrite orb_false_iff, !andb_false_iff, !N.leb_gt, !N.eqb_neq. lia.
Qed.

Lemma TrimSuffix_dot_id s :
  (∀ c l, to_bytes s = l ++ [c] → c ≠ chr 46) → TrimSuffix s "." = s.
Proof.
  intros Hlast. unfold TrimSuffix, trim_suffix.
  destruct (has_prefix _ _) eqn:Hp; [|apply of_to_bytes].
  destruct (reverse (to_bytes s)) as [|c l] eqn:Hr; [done|]. simpl in Hp.
  apply andb_true_iff in Hp as [Hc _]. apply bool_decide_eq_true in Hc as <-.
  exfalso. apply (Hlast (chr 46) (reverse l)); [|done].
  by rewrite <-(reverse_involutive (to_bytes s)), Hr, reverse_cons.
Qed.

Lemma normalizeDomain_idempotent raw d : normalizeDomain raw = Ok d → normalizeDomain d = Ok d.
Proof.
  intros (_ & Hne & Hc & Ha & Hdns)%normalizeDomain_spec. apply normalizeDomain_spec.
  split; [|done].
  destruct (subdomain_chars d Hdns) as [_ Hchars].
  rewrite TrimSpace_plain.
  2: { eapply Forall_impl; [exact Hchars|]. intros c (?&?&?)%Is_true_true%plain_char. by split. }
  unfold ToLower. rewrite to_lower_id, of_to_bytes.
  2: { eapply Forall_impl; [exact Hchars|]. intros c (?&?&?)%Is_true_true%plain_char. by split. }
  symmetry. apply TrimSuffix_dot_id. intros c l Heq ->.
  by pose proof (subdomain_last d _ l Hdns Heq).
Qed.

Lemma Forall2_diag {A B} (P : A → B → Prop) (Q : B → Prop) l k :
  (∀ x y, P x y → Q y) → Forall2 P l k → Forall Q k.
Proof. intros HPQ. induction 1; eauto. Qed.

(** A registry as the snapshot holds it: normalization keeps it. *)
Definition normal_registry (n : RegistryConfig) : Prop := normalizeRegistry n = Ok n.

Lemma normal_registry_spec n :
  normal_registry n ↔
  reg_RegionID n ≠ "" ∧ reg_InstanceID n ≠ "" ∧ AccessKeyID n ≠ "" ∧ AccessKeySecret n ≠ "" ∧
  TrimSpace (reg_RegionID n) = reg_RegionID n ∧ TrimSpace (reg_InstanceID n) = reg_InstanceID n ∧
  TrimSpace (AccessKeyID n) = AccessKeyID n ∧ TrimSpace (AccessKeySecret n) = AccessKeySecret n ∧
  Domains n ≠ [] ∧ sorted_set (Domains n) ∧
  (∀ d, d ∈ Domains n → normalizeDomain d = Ok d).
Proof.
  unfold normal_registry. rewrite normalizeRegistry_spec. split.
  - intros (Hr & Hi & Ha & Hs & Hat & Hst & Hne & ds & Hds & Hn).
    pose proof (f_equal Domains Hn) as Hdom. simpl in Hdom.
    pose proof (f_equal reg_RegionID Hn) as Hreg. pose proof (f_equal reg_InstanceID Hn) as Hins.
    simpl in Hreg, Hins. rewrite <-Hreg in Hr. rewrite <-Hins in Hi.
    do 8 (split; [done|]). split; [done|]. split; [rewrite Hdom; eauto with go|].
    intros d. rewrite Hdom, elem_of_sortedUnique.
    assert (Forall (λ d, normalizeDomain d = Ok d) ds) as Hall.
    { eapply Forall2_diag; [|exact Hds]. apply normalizeDomain_idempotent. }
    rewrite Forall_forall in Hall. apply Hall.
  - intros (Hr & Hi & Ha & Hs & Hrt & Hit & Hat & Hst & Hne & Hss & Hd).
    rewrite Hrt, Hit. do 7 (split; [done|]). exists (Domains n). split.
    + clear -Hd. induction (Domains n) as [|d ds IH]; constructor; [apply Hd; left|].
      apply IH. intros d' Hd'. apply Hd. by right.
    + rewrite sortedUnique_id by done. by destruct n.
Qed.

Lemma normalizeRegistry_idempotent r n : normalizeRegistry r = Ok n → normal_registry n.
Proof.
  intros (Hr & Hi & Ha & Hs & Hat & Hst & Hne & ds & Hds & ->)%normalizeRegistry_spec.
  apply normal_registry_spec. simpl. rewrite !TrimSpace_idem.
  do 8 (split; [done|]). split; [|split; [eauto with go|]].
  - rewrite sortedUnique_nil. intros ->. by apply Forall2_nil_inv_r in Hds.
  - intros d. rewrite elem_of_sortedUnique.
    revert d. rewrite <-Forall_forall.
    eapply Forall2_diag; [|exact Hds]. apply normalizeDomain_idempotent.
Qed.

(** The registries of a snapshot: normalized, filed under their key, and no two
    of them share a domain. *)
Definition wf_registries (m : gmap RegistryKey RegistryConfig) : Prop :=
  (∀ k r, m !! k = Some r → Key r = k ∧ normal_registry r) ∧
  (∀ k1 k2 r1 r2 d, m !! k1 = Some r1 → m !! k2 = Some r2 →
     d ∈ Domains r1 → d ∈ Domains r2 → k1 = k2).

Lemma registries_spec_wf ns m :
  Forall normal_registry ns → consistent ns → registries_spec ns m → wf_registries m.
Proof.
  intros Hns Hc Hm. rewrite Forall_forall in Hns. split.
  - intros k r Hk. specialize (Hm k). rewrite Hk in Hm.
    destruct Hm as (Hkr & (n & Hn & Hkn) & Hcred & Hs & Hd). split; [done|].
    apply normal_registry_spec. pose proof (Hns n Hn) as Hnorm.
    apply normal_registry_spec in Hnorm as (? & ? & ? & ? & ? & ? & ? & ? & Hne & _ & _).
    assert (reg_RegionID r = reg_RegionID n ∧ reg_InstanceID r = reg_InstanceID n) as [-> ->].
    { unfold Key in *. split; congruence. }
    destruct (Hcred n Hn Hkn) as [-> ->]. do 8 (split; [done|]).
    split; [|split; [done|]].
    + destruct (Domains n) as [|d ds] eqn:Hdn; [done|]. intros Hnil.
      assert (d ∈ Domains r) as Hin.
      { apply Hd. exists n. rewrite Hdn. split; [done|]. split; [done|left]. }
      rewrite Hnil in Hin. by apply not_elem_of_nil in Hin.
    + intros d (n' & Hn' & _ & Hdn')%Hd. pose proof (Hns n' Hn') as Hnorm'.
      apply normal_registry_spec in Hnorm'. by apply Hnorm'.
  - intros k1 k2 r1 r2 d H1' H2' Hd1 Hd2.
    pose proof (Hm k1) as Hm1. rewrite H1' in Hm1. pose proof (Hm k2) as Hm2. rewrite H2' in Hm2.
    destruct Hm1 as (_ & _ & _ & _ & Hm1). destruct Hm2 as (_ & _ & _ & _ & Hm2).
    apply Hm1 in Hd1 as (n1 & Hn1 & <- & Hd1). apply Hm2 in Hd2 as (n2 & Hn2 & <- & Hd2).
    destruct (Hc n1 n2) as [_ Hsh]; [done..|]. by apply (Hsh d).
Qed.

Lemma parseRegistries_wf raw m : parseRegistries raw = Ok m → wf_registries m ∧ m ≠ ∅.
Proof.
  intros (input & ns & _ & _ & Hne & Hn & Hc & Hm)%parseRegistries_spec. split.
  - eapply registries_spec_wf; [|done..]. eapply Forall2_diag; [|exact Hn].
    apply normalizeRegistry_idempotent.
  - intros ->. destruct Hn as [|r n input ns Hr Hn]; [done|].
    specialize (Hm (Key n)). rewrite lookup_empty in Hm. apply (Hm n); [left|done].
Qed.
End parser_theory.

(** ** Selectors *)
Lemma parseNameSelector_spec raw field validate s :
  parseNameSelector raw field validate = Ok s ↔
  TrimSpace raw ≠ "" ∧ Forall (name_ok validate true) (names_of (TrimSpace raw)) ∧
  ((Forall (.= Wildcard) (names_of (TrimSpace raw)) ∧ s = MkSelector true []) ∨
   ((Wildcard ∉ names_of (TrimSpace raw)) ∧
    s = MkSelector false (sortedUnique (names_of (TrimSpace raw))))).
Proof.
  unfold parseNameSelector. cbv zeta. set (l := names_of (TrimSpace raw)).
  destruct (bool_decide_reflect (TrimSpace raw = "")) as [He|He]; [intuition congruence|].
  destruct (parseNameList (TrimSpace raw) field validate true) as [values|e] eqn:Hp; simpl.
  2: { split; [done|]. intros (_ & Hok & _).
       assert (parseNameList (TrimSpace raw) field validate true = Ok (sortedUnique l))
         by (apply parseNameList_spec; by split). congruence. }
  apply parseNameList_spec in Hp as [Hok ->]. fold l in Hok |- *.
  destruct (containsSorted (sortedUnique l) Wildcard) eqn:Hw.
  - apply containsSorted_sortedUnique in Hw.
    assert (length (sortedUnique l) = 1 ↔ Forall (.= Wildcard) l) as Hlen.
    { rewrite <-elem_of_sortedUnique in Hw. rewrite Forall_forall.
      setoid_rewrite <-(elem_of_sortedUnique l).
      destruct (sortedUnique_sorted_set l) as [_ Hnd].
      destruct (sortedUnique l) as [|x [|y k]]; simpl; [set_solver|set_solver|].
      split; [done|]. intros Hall. apply NoDup_cons in Hnd as [Hx _]. exfalso. apply Hx.
      rewrite (Hall x), (Hall y) by set_solver. left. }
    destruct (bool_decide_reflect (length (sortedUnique l) ≠ 1)) as [Hn|Hn].
    + split; [done|]. intros (_ & _ & [[Hf _]|[Hf _]]); tauto.
    + apply dec_stable in Hn. split; [intros [= <-]; tauto|].
      intros (_ & _ & [[_ ->]|[Hf _]]); [done|tauto].
  - assert (Wildcard ∉ l) as Hn by (rewrite <-containsSorted_sortedUnique; congruence).
    split; [intros [= <-]; tauto|]. intros (_ & _ & [[Hf _]|[_ ->]]); [|done].
    destruct l as [|x l'] eqn:Hl; [by apply names_of_not_nil in Hl|].
    rewrite Forall_cons in Hf. destruct Hf as [-> _]. exfalso. apply Hn. left.
Qed.

Lemma parseOptionalNameList_spec raw field validate values :
  parseOptionalNameList raw field validate = Ok values ↔
  (TrimSpace raw = "" ∧ values = []) ∨
  (TrimSpace raw ≠ "" ∧ Forall (name_ok validate false) (names_of raw) ∧
   values = sortedUnique (names_of raw)).
Proof.
  unfold parseOptionalNameList.
  destruct (bool_decide_reflect (TrimSpace raw = "")) as [He|He].
  - split; [intros [= <-]; tauto|]. intros [[_ ->]|[? _]]; [done|tauto].
  - rewrite parseNameList_spec. tauto.
Qed.

(** What a selector value of the ConfigMap selects. *)
Definition selects (raw name : string) : Prop :=
  let l := names_of (TrimSpace raw) in Forall (.= Wildcard) l ∨ name ∈ l.
Definition excludes (raw name : string) : Prop := TrimSpace raw ≠ "" ∧ name ∈ names_of raw.

Lemma parseNameSelector_Matches raw field validate s name :
  parseNameSelector raw field validate = Ok s → name ≠ Wildcard →
  (Matches s name = true ↔ selects raw name).
Proof.
  rewrite parseNameSelector_spec. unfold selects. cbv zeta.
  set (l := names_of (TrimSpace raw)). intros (_ & _ & [[Hf ->]|[Hn ->]]) Hname; simpl; [tauto|].
  unfold Matches; simpl. rewrite containsSorted_sortedUnique. split; [tauto|].
  intros [Hf|?]; [|done]. destruct l as [|x l'] eqn:Hl; [by apply names_of_not_nil in Hl|].
  rewrite Forall_cons in Hf. destruct Hf as [-> _]. exfalso. apply Hn. left.
Qed.

Lemma parseOptionalNameList_contains raw field validate values name :
  parseOptionalNameList raw field validate = Ok values →
  (containsSorted values name = true ↔ excludes raw name).
Proof.
  intros [[He ->]|(Hne & _ & ->)]%parseOptionalNameList_spec; unfold excludes.
  - split; [done|]. by intros [? _].
  - rewrite containsSorted_sortedUnique. tauto.
Qed.
