(* ===== verification/ConfigParserCorrect.v ===== *)
(** * Correctness of the ConfigMap parser

    The whole of [Parse]: its runtime fields, the snapshot invariant, and the
    properties of the parser with their witnesses. *)
From S2P Require Import Prelude GoStrings Validation ConfigTypes ConfigParser ConfigParserTheory.
From Stdlib Require Import Ascii SpecFloat.

(** ** Invariant of a parsed snapshot *)
Definition wf_selector (validate : string → list string) (s : NameSelector) : Prop :=
  if MatchAll s then Names s = []
  else Names s ≠ [] ∧ sorted_set (Names s) ∧ Forall (λ n, n ≠ "" ∧ validate n = []) (Names s).

Definition wf_integer (v : Z) : Prop := v = 0%Z ∨ (1 ≤ v ≤ max_int64)%Z.

Definition wf_runtime (r : RuntimeConfiguration) : Prop :=
  (KubeAPIQPS r = zero_float ∨ ValidateQPS (KubeAPIQPS r) = true) ∧
  wf_integer (KubeAPIBurst r) ∧ wf_integer (Workers r).

Section snapshot.
Context `{RangeOrder} `{DNSValidation} `{YAML} `{FloatParser}.

Record wf_snapshot (s : ConfigurationSnapshot) : Prop := {
  wf_namespaces : wf_selector IsDNS1123Label (Namespaces s);
  wf_excluded : sorted_set (ExcludedNamespaces s) ∧
    Forall (λ n, n ≠ "" ∧ IsDNS1123Label n = []) (ExcludedNamespaces s);
  wf_serviceaccounts : wf_selector IsDNS1123Subdomain (ServiceAccounts s);
  wf_some_registry : Registries s ≠ ∅;
  wf_regs : wf_registries (Registries s);
  wf_rt : wf_runtime (Runtime s)
}.

Lemma parseNameSelector_wf raw field validate s :
  parseNameSelector raw field validate = Ok s → wf_selector validate s.
Proof.
  intros (_ & Hok & [[_ ->]|[Hn ->]])%parseNameSelector_spec; [done|]. simpl.
  unfold wf_selector; simpl. split; [|split; [eauto with go|]].
  - rewrite sortedUnique_nil. apply names_of_not_nil.
  - rewrite Forall_forall in Hok |- *. intros n Hin. rewrite elem_of_sortedUnique in Hin.
    destruct (Hok n Hin) as [Hne [[_ ->]|Hv]]; done.
Qed.

Lemma parseOptionalNameList_wf raw field validate values :
  parseOptionalNameList raw field validate = Ok values →
  sorted_set values ∧ Forall (λ n, n ≠ "" ∧ validate n = []) values.
Proof.
  intros [[_ ->]|(_ & Hok & ->)]%parseOptionalNameList_spec.
  - split; [split; constructor|constructor].
  - split; [eauto with go|]. rewrite Forall_forall in Hok |- *.
    intros n Hin. rewrite elem_of_sortedUnique in Hin.
    destruct (Hok n Hin) as [Hne [[? _]|Hv]]; done.
Qed.

(** ** Runtime fields *)
Definition qps_value (data : gmap string string) (qps : float64) : Prop :=
  match data !! KubeAPIQPSKey with
  | None => qps = zero_float
  | Some raw => ParseFloat (TrimSpace raw) = Some qps ∧ ValidateQPS qps = true
  end.
Definition integer_value (data : gmap string string) (key : string) (v : Z) : Prop :=
  match data !! key with
  | None => v = 0%Z
  | Some raw => Atoi (TrimSpace raw) = Some v ∧ (1 ≤ v)%Z
  end.

Lemma parse_target_spec data r key t r' :
  parse_target data r (key, t) = Ok r' ↔
  match data !! key with
  | None => r' = r
  | Some raw => ∃ v, Atoi (TrimSpace raw) = Some v ∧ (1 ≤ v)%Z ∧ r' = set_target r t v
  end.
Proof.
  unfold parse_target; simpl. destruct (data !! key) as [raw|]; [|split; congruence].
  destruct (Atoi (TrimSpace raw)) as [v|].
  - destruct (Z.ltb_spec v 1).
    + split; [done|]. intros (? & [= <-] & ? & _). lia.
    + split; [intros [= <-]; by exists v|]. by intros (? & [= <-] & _ & ->).
  - split; [done|]. by intros (? & ? & _).
Qed.

Lemma fold_targets data r0 kt1 kt2 r :
  fold_result (parse_target data) r0 [kt1; kt2] = Ok r ↔
  ∃ r1, parse_target data r0 kt1 = Ok r1 ∧ parse_target data r1 kt2 = Ok r.
Proof.
  cbn [fold_result]. destruct (parse_target data r0 kt1) as [r1|e].
  - split.
    + intros Hf. exists r1. split; [done|]. by destruct (parse_target data r1 kt2).
    + intros (? & [= <-] & Hf). by rewrite Hf.
  - split; [done|]. by intros (? & ? & _).
Qed.

Lemma range_runtime_targets :
  range runtime_targets = [(KubeAPIBurstKey, TargetBurst); (WorkersKey, TargetWorkers)] ∨
  range runtime_targets = [(WorkersKey, TargetWorkers); (KubeAPIBurstKey, TargetBurst)].
Proof.
  assert (range runtime_targets ≡ₚ [(KubeAPIBurstKey, TargetBurst); (WorkersKey, TargetWorkers)])
    as Hp.
  { rewrite range_perm. unfold runtime_targets.
    rewrite map_to_list_insert by (by rewrite lookup_singleton_ne).
    by rewrite map_to_list_singleton. }
  symmetry in Hp. by apply Permutation_length_2_inv in Hp as [->| ->]; [left|right].
Qed.

(** The integer loop gives the same fields for both orders of its two keys. *)
Lemma parseRuntime_spec data r :
  parseRuntime data = Ok r ↔
  qps_value data (KubeAPIQPS r) ∧ integer_value data KubeAPIBurstKey (KubeAPIBurst r) ∧
  integer_value data WorkersKey (Workers r).
Proof.
  set (q := match data !! KubeAPIQPSKey with
    | None => Ok zero_float
    | Some raw =>
      match ParseFloat (TrimSpace raw) with
      | Some qps => if ValidateQPS qps then Ok qps else Err InvalidQPS
      | None => Err InvalidQPS
      end
    end : result parse_error float64).
  assert (∀ qps, q = Ok qps ↔ qps_value data qps) as Hq.
  { intros qps. unfold q, qps_value. destruct (data !! _) as [raw|]; [|split; congruence].
    destruct (ParseFloat _) as [f|]; [|split; [done|by intros [? _]]].
    destruct (ValidateQPS f) eqn:Hv.
    - split; [by intros [= <-]|by intros [[= <-] _]].
    - split; [done|]. intros [[= <-] ?]. congruence. }
  assert (parseRuntime data = Ok r ↔ ∃ qps, q = Ok qps ∧
    fold_result (parse_target data) (MkRuntimeConfiguration qps 0 0) (range runtime_targets) = Ok r)
    as ->.
  { unfold parseRuntime. fold q. destruct q as [qps|e]; simpl.
    - split; [by exists qps|]. by intros (? & [= <-] & ?).
    - split; [done|]. by intros (? & ? & _). }
  setoid_rewrite Hq. clearbody q. clear q Hq. unfold integer_value.
  destruct r as [rq rb rw]; cbn [KubeAPIQPS KubeAPIBurst Workers].
  split.
  - intros (qps & Hqv & Hf). destruct range_runtime_targets as [Hr|Hr]; rewrite Hr in Hf;
      apply fold_targets in Hf as (r1 & Ht1 & Ht2);
      apply parse_target_spec in Ht1, Ht2;
      destruct (data !! KubeAPIBurstKey) as [b|], (data !! WorkersKey) as [w|];
      repeat match goal with Hx : ∃ _, _ |- _ => destruct Hx as (? & ? & ? & ?) end;
      subst; simplify_eq/=; done.
  - intros (Hqv & Hb & Hw). exists rq. split; [done|].
    destruct range_runtime_targets as [Hr|Hr]; rewrite Hr; apply fold_targets;
      setoid_rewrite parse_target_spec;
      destruct (data !! KubeAPIBurstKey) as [b|], (data !! WorkersKey) as [w|];
      subst; naive_solver.
Qed.

(** ** Parse *)
Lemma check_keys_spec data u :
  check_keys data = Ok u ↔ ∀ k v, data !! k = Some v → k ∈ supported_keys.
Proof.
  unfold check_keys. setoid_rewrite <-elem_of_range. destruct u.
  induction (range data) as [|[k v] l IH]; simpl; [set_solver|].
  destruct (bool_decide_reflect (k ∈ supported_keys)) as [Hk|Hk].
  - rewrite IH. split; [|intros Hall k' v' Hin; apply (Hall k' v'); by right].
    intros Hall k' v' [[= -> ->]|Hin]%elem_of_cons; [done|by eapply Hall].
  - split; [done|]. intros Hall. destruct Hk. apply (Hall k v). left.
Qed.

Lemma bind_Ok {E A B} (r : result E A) (f : A → result E B) b :
  r ≫= f = Ok b ↔ ∃ a, r = Ok a ∧ f a = Ok b.
Proof. destruct r; simpl; [|naive_solver]. split; [eauto|]. by intros (? & [= <-] & ?). Qed.

Lemma Parse_spec data s :
  Parse data = Ok s ↔
  (∀ k v, data !! k = Some v → k ∈ supported_keys) ∧
  parseNameSelector (data_get data NamespaceKey) "namespace" IsDNS1123Label = Ok (Namespaces s) ∧
  parseOptionalNameList (data_get data ExcludeNamespaceKey) "excludeNamespace" IsDNS1123Label
    = Ok (ExcludedNamespaces s) ∧
  parseNameSelector (data_get data ServiceAccountKey) "serviceaccount" IsDNS1123Subdomain
    = Ok (ServiceAccounts s) ∧
  parseRegistries (data_get data RegistriesKey) = Ok (Registries s) ∧
  parseRuntime data = Ok (Runtime s) ∧ Generation s = 0%Z.
Proof.
  unfold Parse. repeat setoid_rewrite bind_Ok. setoid_rewrite check_keys_spec. split.
  - intros (_ & Hk & ns & Hns & ex & Hex & sa & Hsa & regs & Hregs & rt & Hrt & [= <-]). done.
  - destruct s as [g ns ex sa regs rt]; simpl.
    intros (Hk & Hns & Hex & Hsa & Hregs & Hrt & ->). exists tt. eauto 15.
Qed.
End snapshot.

Lemma wf_registries_values `{DNSValidation} (m : gmap RegistryKey RegistryConfig) l :
  wf_registries m → l ≡ₚ (map_to_list m).*2 →
  normalized_inputs l l ∧ consistent l ∧ registries_spec l m.
Proof.
  intros [Hkey Hdom] Hl.
  assert (∀ r, r ∈ l ↔ m !! Key r = Some r) as Hin.
  { intros r. rewrite Hl, list_elem_of_fmap. split.
    - intros ([k r'] & -> & Hr'%elem_of_map_to_list). simpl.
      by destruct (Hkey k r' Hr') as [-> _].
    - intros Hr. exists (Key r, r). by rewrite elem_of_map_to_list. }
  split; [|split].
  - assert (Forall normal_registry l) as Hn.
    { rewrite Forall_forall. intros r Hr%Hin. by apply (Hkey (Key r)). }
    unfold normalized_inputs. clear -Hn. induction Hn; by constructor.
  - intros n1 n2 Hn1%Hin Hn2%Hin. split; [|intros d; by apply Hdom].
    intros Heq. rewrite Heq in Hn1. by simplify_eq.
  - intros k. destruct (m !! k) as [r|] eqn:Hk.
    + destruct (Hkey k r Hk) as [Hkr Hnorm].
      assert (∀ n, n ∈ l → Key n = k → n = r) as Huniq.
      { intros n Hn%Hin Heq. rewrite Heq in Hn. by simplify_eq. }
      assert (r ∈ l) as Hr by (apply Hin; by rewrite Hkr).
      split; [done|]. split; [by exists r|]. split; [|split].
      * intros n Hn Heq. by rewrite (Huniq n Hn Heq).
      * by apply normalizeRegistry_sorted in Hnorm.
      * intros d. split; [by exists r|]. intros (n & Hn & Heq & Hd).
        by rewrite <-(Huniq n Hn Heq).
    + intros n Hn%Hin Heq. rewrite Heq in Hn. congruence.
Qed.

(** ** Properties *)
Section properties.
Context {R : RangeOrder} {D : DNSValidation} {Y : YAML} {F : FloatParser}.

(** C10.  [parseRegistries] succeeds exactly when the YAML list is not empty,
    every entry normalizes, entries of one key agree on their credentials and
    no domain is claimed by two keys; its map then holds, for each key, the
    agreed credentials and the sorted union of the domains. *)
Theorem parseRegistries_correct raw m :
  parseRegistries raw = Ok m ↔
  ∃ input ns, TrimSpace raw ≠ "" ∧ UnmarshalStrict raw = Ok input ∧ input ≠ [] ∧
    normalized_inputs input ns ∧ consistent ns ∧ registries_spec ns m.
Proof. apply parseRegistries_spec. Qed.

(** C11.  Every snapshot that [Parse] returns satisfies the snapshot invariant:
    selectors, exclusions and domains are sorted duplicate-free slices of valid
    names, a wildcard stands alone, each registry is normalized and filed under
    its own key, no two registries share a domain, and the runtime fields are
    absent (zero) or valid. *)
Theorem Parse_wf `{!DNSValidationLaws D} data s :
  Parse data = Ok s → wf_snapshot s.
Proof.
  intros (_ & Hns & Hex & Hsa & Hregs & Hrt & _)%Parse_spec.
  apply parseRegistries_wf in Hregs as [Hregs Hne].
  constructor; eauto using parseNameSelector_wf, parseOptionalNameList_wf.
  apply parseRuntime_spec in Hrt as (Hq & Hb & Hw).
  assert (∀ key v, integer_value data key v → wf_integer v) as Hint.
  { intros key v. unfold integer_value, wf_integer. destruct (data !! key); [|by left].
    intros [Ha Hv]. apply Atoi_range in Ha. right. lia. }
  split; [|split; eauto].
  unfold qps_value in Hq. destruct (data !! _); [right; tauto|by left].
Qed.

(** The result of [Parse] does not depend on the order in which Go ranges
    over the ConfigMap data and over the table of integer fields. *)
Theorem Parse_order_independent (R1 R2 : RangeOrder) data s :
  Parse (H := R1) data = Ok s ↔ Parse (H := R2) data = Ok s.
Proof. rewrite !Parse_spec, !parseRuntime_spec. done. Qed.

(** A parsed snapshot selects a namespace when the ConfigMap's list names
    it, or is all wildcards, and the exclusion list does not name it; and a
    ServiceAccount when its list names it or is all wildcards. *)
Theorem Parse_selects `{!DNSValidationLaws D} data s name :
  Parse data = Ok s → name ≠ Wildcard →
  (MatchesNamespace s name = true ↔
     selects (data_get data NamespaceKey) name ∧
     ¬ excludes (data_get data ExcludeNamespaceKey) name) ∧
  (Matches (ServiceAccounts s) name = true ↔ selects (data_get data ServiceAccountKey) name).
Proof.
  intros (_ & Hns & Hex & Hsa & _)%Parse_spec Hname. unfold MatchesNamespace.
  rewrite andb_true_iff, negb_true_iff, <-not_true_iff_false.
  rewrite (parseNameSelector_Matches _ _ _ _ name Hns Hname).
  rewrite (parseNameSelector_Matches _ _ _ _ name Hsa Hname).
  by rewrite (parseOptionalNameList_contains _ _ _ _ name Hex).
Qed.

(** The order of the YAML list does not matter, and the parsed registries
    are a fixed point: a ConfigMap that lists them back, in any order, parses to
    the same map. *)
Theorem parseRegistries_roundtrip `{!DNSValidationLaws D} raw raw' m input l :
  parseRegistries raw = Ok m → UnmarshalStrict raw = Ok input → TrimSpace raw' ≠ "" →
  UnmarshalStrict raw' = Ok l → l ≡ₚ input ∨ l ≡ₚ (map_to_list m).*2 →
  parseRegistries raw' = Ok m.
Proof.
  intros Hp Hin Hne Hl Hperm.
  pose proof (parseRegistries_wf _ _ Hp) as [Hwf Hm].
  apply parseRegistries_spec in Hp as (input' & ns & _ & Hin' & Hi & Hn & Hc & Hs).
  assert (input' = input) as -> by congruence. apply parseRegistries_spec.
  destruct Hperm as [Hperm|Hperm].
  - destruct (Permutation_Forall2 (symmetry Hperm) Hn) as (ns' & Hp' & Hn').
    exists l, ns'. split; [done|]. split; [done|].
    split; [by intros ->; apply Permutation_nil_l in Hperm; congruence|].
    split; [done|]. split; [by eapply consistent_perm|by eapply registries_spec_perm].
  - destruct (wf_registries_values m l Hwf Hperm) as (? & ? & ?).
    exists l, l. do 2 (split; [done|]). split; [|done].
    intros ->. apply Permutation_nil_l in Hperm. symmetry in Hperm.
    apply fmap_nil_inv, map_to_list_empty_iff in Hperm. done.
Qed.
End properties.

(** ** A concrete ConfigMap *)
Module ParserExample.
Definition reg_a : RegistryConfig :=
  MkRegistry " cn-hangzhou" "cri-1" "AKID" "SECRET" ["Registry.Example.com."; "b.example.com"].
Definition reg_a' : RegistryConfig :=
  MkRegistry "cn-hangzhou" "cri-1" "AKID" "SECRET" ["a.example.com"; "b.example.com"].
Definition reg_b : RegistryConfig :=
  MkRegistry "cn-beijing" "cri-2" "AKID2" "SECRET2" ["c.example.com"].
Definition merged_a : RegistryConfig :=
  MkRegistry "cn-hangzhou" "cri-1" "AKID" "SECRET"
    ["a.example.com"; "b.example.com"; "registry.example.com"].

(** A decoder of two fixed documents and the text of their merge. *)
#[export] Instance yaml : YAML := {|
  UnmarshalStrict raw :=
    if bool_decide (raw = "doc1") then Ok [reg_a; reg_b; reg_a']
    else if bool_decide (raw = "doc2") then Ok [reg_a'; reg_a; reg_b]
    else if bool_decide (raw = "doc3") then Ok [reg_b; merged_a]
    else Err "not a document"
|}.
#[export] Instance floats : FloatParser := {|
  ParseFloat s := if bool_decide (s = "25") then Some DefaultKubeAPIQPS else None
|}.
#[export] Existing Instance dns1123.
#[export] Existing Instance range_forward.

Definition data : gmap string string :=
  <[NamespaceKey := "team-b, team-a ,kube-system"]> (<[ExcludeNamespaceKey := "kube-system"]>
    (<[ServiceAccountKey := "*,*"]> (<[RegistriesKey := "doc1"]>
      (<[KubeAPIQPSKey := " 25"]> {[ WorkersKey := "4" ]})))).

Definition snapshot : ConfigurationSnapshot :=
  MkSnapshot 0 (MkSelector false ["kube-system"; "team-a"; "team-b"]) ["kube-system"]
    (MkSelector true []) (<[Key reg_b := reg_b]> {[ Key merged_a := merged_a ]})
    (MkRuntimeConfiguration DefaultKubeAPIQPS 0 4).

Lemma parse_data : Parse data = Ok snapshot.
Proof. apply (bool_decide_unpack _). vm_compute. exact I. Qed.

Lemma Parse_wf_witness : Parse data = Ok snapshot ∧ wf_snapshot snapshot.
Proof. split; [exact parse_data|apply (Parse_wf data), parse_data]. Defined.

Lemma Parse_selects_witness :
  Parse data = Ok snapshot ∧ "team-a" ≠ Wildcard ∧
  (MatchesNamespace snapshot "team-a" = true ↔
     selects (data_get data NamespaceKey) "team-a" ∧
     ¬ excludes (data_get data ExcludeNamespaceKey) "team-a").
Proof.
  split; [exact parse_data|]. split; [discriminate|].
  exact (proj1 (Parse_selects data snapshot "team-a" parse_data ltac:(discriminate))).
Defined.

Lemma parse_doc1 : parseRegistries "doc1" = Ok (Registries snapshot).
Proof. apply (bool_decide_unpack _). vm_compute. exact I. Qed.

Lemma parseRegistries_roundtrip_witness :
  parseRegistries "doc2" = Ok (Registries snapshot) ∧
  parseRegistries "doc3" = Ok (Registries snapshot).
Proof.
  split.
  - apply (parseRegistries_roundtrip "doc1" "doc2" _ [reg_a; reg_b; reg_a'] [reg_a'; reg_a; reg_b]);
      [exact parse_doc1|reflexivity|discriminate|reflexivity|left].
    rewrite (Permutation_app_comm [reg_a; reg_b] [reg_a']). reflexivity.
  - apply (parseRegistries_roundtrip "doc1" "doc3" _ [reg_a; reg_b; reg_a'] [reg_b; merged_a]);
      [exact parse_doc1|reflexivity|discriminate|reflexivity|right].
    vm_compute. first [reflexivity|apply perm_swap].
Defined.

(** Two registries cannot share a domain; one key cannot have two secrets. *)
Example shared_domain_rejected :
  is_ok (fold_result add_registry (∅, ∅) (indexed [reg_a; with_Domains reg_b ["B.example.com"]]))
  = false.
Proof. vm_compute. reflexivity. Qed.
End ParserExample.
