(* ===== verification/ConfigStore.v ===== *)
(** * Configuration store (internal/config/store.go)

    The store is a mutex-guarded pair; every method is atomic, so each is a
    function of the store.  Its contract is a history of installed snapshots. *)
From S2P Require Import Prelude GoStrings Validation ConfigTypes ConfigParser ConfigParserTheory.
From S2P Require Import ConfigParserCorrect.
From Stdlib Require Import SpecFloat.

Module ConfigStore.
Record Store := MkStore { current : option ConfigurationSnapshot; valid : bool }.
Definition empty : Store := MkStore None false.

Record ApplyResult := MkApplyResult {
  Current : ConfigurationSnapshot;
  Changed : bool;
  BusinessChanged : bool
}.

Definition Apply (s : Store) (candidate : ConfigurationSnapshot) : ApplyResult * Store :=
  let candidate := Clone candidate in
  match current s with
  | Some cur =>
    if Equal cur candidate then (MkApplyResult (Clone cur) false false, MkStore (Some cur) true)
    else
      let candidate' := with_Generation candidate (u64_succ (Generation cur)) in
      (MkApplyResult (Clone candidate') true (negb (BusinessEqual cur candidate)),
       MkStore (Some candidate') true)
  | None =>
    let candidate' := with_Generation candidate 1 in
    (MkApplyResult (Clone candidate') true true, MkStore (Some candidate') true)
  end.

Definition MarkInvalid (s : Store) : Store := MkStore (current s) false.
Definition Valid (s : Store) : bool := valid s.

Definition Load (s : Store) : ConfigurationSnapshot * bool :=
  match current s with
  | None => (zero_snapshot, false)
  | Some cur => (Clone cur, true)
  end.

Definition Loaded (s : Store) : bool := bool_decide (is_Some (current s)).

Definition MatchesServiceAccount (s : Store) (namespace serviceAccount : string) : bool :=
  match current s with
  | None => false
  | Some cur => MatchesNamespace cur namespace && Matches (ServiceAccounts cur) serviceAccount
  end.

Lemma Load_eq s :
  Load s = match current s with None => (zero_snapshot, false) | Some cur => (cur, true) end.
Proof. unfold Load. destruct (current s); [by rewrite Clone_id|done]. Qed.

(** ** Specification: the history of installed snapshots *)
Inductive op := OpApply (candidate : ConfigurationSnapshot) | OpMarkInvalid.

Definition step (s : Store) (o : op) : Store :=
  match o with OpApply c => (Apply s c).2 | OpMarkInvalid => MarkInvalid s end.

Definition spec_step (h : list ConfigurationSnapshot * bool) (o : op) :
    list ConfigurationSnapshot * bool :=
  match o with
  | OpMarkInvalid => (h.1, false)
  | OpApply c =>
    match last h.1 with
    | Some cur => if Equal cur c then (h.1, true) else (h.1 ++ [c], true)
    | None => ([c], true)
    end
  end.

(** The store is the last entry of the history, numbered by its position. *)
Definition implements (s : Store) (h : list ConfigurationSnapshot * bool) : Prop :=
  current s = (λ c, with_Generation c (Z.of_nat (length h.1) mod u64_modulus)%Z) <$> last h.1
  ∧ valid s = h.2.

Lemma Equal_with_Generation a b g : Equal (with_Generation a g) b = Equal a b.
Proof. done. Qed.

Lemma u64_succ_length n :
  u64_succ (Z.of_nat n mod u64_modulus) = (Z.of_nat (S n) mod u64_modulus)%Z.
Proof.
  unfold u64_succ. rewrite Nat2Z.inj_succ, <-Z.add_1_r.
  by rewrite Zplus_mod_idemp_l.
Qed.

Lemma step_implements s h o : implements s h → implements (step s o) (spec_step h o).
Proof.
  destruct h as [h v]. intros [Hc Hv]. destruct o as [c|]; [|by split].
  unfold step, Apply, spec_step. rewrite Clone_id. simpl in Hc |- *. rewrite Hc.
  destruct (last h) as [cur|] eqn:Hl; simpl.
  - rewrite Equal_with_Generation. destruct (Equal cur c); simpl.
    + split; [|done]. simpl. by rewrite Hl.
    + split; [|done]. simpl. rewrite last_snoc; simpl.
      rewrite length_app, Nat.add_1_r, <-u64_succ_length. done.
  - apply last_None in Hl as ->. by split.
Qed.

Lemma Equal_refl s : is_nan (KubeAPIQPS (Runtime s)) = false → Equal s s = true.
Proof.
  intros Hn. unfold Equal. apply andb_true_iff. split; [|by apply BusinessEqual_spec].
  unfold runtime_eqb. rewrite !Z.eqb_refl, !andb_true_r.
  destruct (KubeAPIQPS (Runtime s)) as [b|b| |b m e]; [done| |done|].
  - by destruct b.
  - unfold SFeqb, SFcompare. destruct b; by rewrite Z.compare_refl, Pos.compare_refl.
Qed.

Lemma Apply_no_change s c cur :
  current s = Some cur → Equal cur c = true →
  Apply s c = (MkApplyResult cur false false, MkStore (current s) true).
Proof. intros Hc He. unfold Apply. by rewrite Hc, !Clone_id, He. Qed.

Lemma Apply_installs s c :
  Changed (Apply s c).1 = true →
  current (Apply s c).2 = Some (Current (Apply s c).1) ∧
  Equal (Current (Apply s c).1) c = Equal c c ∧
  BusinessEqual (Current (Apply s c).1) c = true.
Proof.
  unfold Apply. rewrite Clone_id.
  destruct (current s) as [cur|]; [destruct (Equal cur c)|]; simpl; [done|..];
    intros _; rewrite Clone_id; (split; [done|]); split; [done| |done|];
    by apply BusinessEqual_spec.
Qed.

(** What is not a business change keeps the registries. *)
Lemma Apply_quiet s c :
  BusinessChanged (Apply s c).1 = false →
  ∃ old cur, current s = Some old ∧ current (Apply s c).2 = Some cur ∧
    Registries cur = Registries old.
Proof.
  unfold Apply. rewrite Clone_id. destruct (current s) as [old|]; [|done].
  destruct (Equal old c) eqn:He; simpl; [by exists old, old|]. intros Hb%negb_false_iff.
  apply BusinessEqual_spec in Hb as (_ & _ & _ & Hr). by eexists _, _.
Qed.

(** ** Properties *)

(** Refinement: from the empty store, after any sequence of updates and
    invalid observations, the store holds the last entry of the abstract
    history, its generation is the number of installed snapshots (as a uint64),
    and the validity flag tells whether the last observation was valid. *)
Theorem store_refines_history ops :
  implements (foldl step empty ops) (foldl spec_step ([], false) ops).
Proof.
  assert (implements empty ([], false)) as H0 by done.
  revert H0. generalize empty ([] : list ConfigurationSnapshot, false).
  induction ops as [|o ops IH]; intros s h H0; simpl; [done|].
  by apply IH, step_implements.
Qed.

(** [Apply] leaves the snapshot alone exactly when the candidate is
    semantically equal to it, reports a business change exactly when more than
    the runtime tuning changed, never reads the candidate's generation, and
    always answers the snapshot that [Load] returns afterwards. *)
Theorem Apply_correct s c g :
  let '(r, s') := Apply s c in
  Load s' = (Current r, true) ∧ Valid s' = true ∧
  Apply s (with_Generation c g) = (r, s') ∧
  match current s with
  | None => Changed r = true ∧ BusinessChanged r = true ∧ Current r = with_Generation c 1
  | Some cur =>
    (Changed r = negb (Equal cur c)) ∧
    (BusinessChanged r = negb (BusinessEqual cur c)) ∧
    Current r = if Equal cur c then cur
                else with_Generation c (u64_succ (Generation cur))
  end.
Proof.
  unfold Apply, Load, Valid. rewrite !Clone_id.
  destruct (current s) as [cur|]; [|simpl; by rewrite !Clone_id].
  change (Equal cur (with_Generation c g)) with (Equal cur c).
  change (BusinessEqual cur (with_Generation c g)) with (BusinessEqual cur c).
  destruct (Equal cur c) eqn:He; simpl; rewrite !Clone_id; [|done].
  apply andb_true_iff in He as [_ ->]. done.
Qed.

(** Applying a parsed snapshot a second time changes nothing: no new
    generation, and no change is reported. *)
Theorem Apply_idempotent `{RangeOrder} `{D : DNSValidation} `{YAML} `{FloatParser}
    `{!DNSValidationLaws D} s data c :
  Parse data = Ok c →
  let s1 := (Apply s c).2 in
  Changed (Apply s1 c).1 = false ∧ (Apply s1 c).2 = s1.
Proof.
  intros Hp. assert (is_nan (KubeAPIQPS (Runtime c)) = false) as Hnan.
  { apply Parse_spec in Hp as (_ & _ & _ & _ & _ & Hrt & _).
    apply parseRuntime_spec in Hrt as (Hq & _). unfold qps_value in Hq.
    destruct (data !! _); [|by rewrite Hq]. destruct Hq as [_ Hq].
    by destruct (KubeAPIQPS (Runtime c)). }
  assert (∃ cur, (Apply s c).2 = MkStore (Some cur) true ∧ Equal cur c = true) as (cur & -> & He).
  { unfold Apply. rewrite Clone_id. destruct (current s) as [cur|].
    - destruct (Equal cur c) eqn:He; [by exists cur|]. eexists. split; [done|].
      rewrite Equal_with_Generation. by apply Equal_refl.
    - eexists. split; [done|]. rewrite Equal_with_Generation. by apply Equal_refl. }
  cbv zeta. by rewrite (Apply_no_change (MkStore (Some cur) true) c cur).
Qed.

Lemma Apply_idempotent_witness :
  let s1 := (Apply empty ParserExample.snapshot).2 in
  Changed (Apply s1 ParserExample.snapshot).1 = false ∧ (Apply s1 ParserExample.snapshot).2 = s1.
Proof. exact (Apply_idempotent empty ParserExample.data _ ParserExample.parse_data). Defined.
End ConfigStore.
