(* ===== verification/Credential.v ===== *)
(** * Credentials and their store (internal/credential/types.go, store.go)

    A [time.Time] is its instant, in nanoseconds since the Unix epoch; the
    location of a credential's times is never printed (the Secret shows UTC).
    A [time.Duration] is a number of nanoseconds. *)
From S2P Require Import Prelude GoStrings ConfigTypes Encoding.

Abbreviation Time := Z.
Abbreviation Duration := Z.

Definition Millisecond : Duration := 1000000.
Definition Second : Duration := 1000000000.
Definition Minute : Duration := (60 * Second)%Z.

(** [t.Add(d)], [t.Sub(u)] (which saturates at the bounds of int64), [t.After(u)] *)
Definition time_Add (t : Time) (d : Duration) : Time := (t + d)%Z.
Definition time_Sub (t u : Time) : Duration := Z.max min_int64 (Z.min max_int64 (t - u)).
Definition After (t u : Time) : bool := (u <? t)%Z.

Record Request := MkRequest {
  req_Key : RegistryKey;
  req_AccessKeyID : string;
  req_AccessKeySecret : string
}.
#[export] Instance Request_eq_dec : EqDecision Request.
Proof. solve_decision. Defined.

Record Token := MkToken {
  tok_Username : string;
  tok_Password : string;
  tok_ExpiresAt : Time
}.
#[export] Instance Token_eq_dec : EqDecision Token.
Proof. solve_decision. Defined.

Record Credential := MkCredential {
  Username : string;
  Password : string;
  RefreshedAt : Time;
  ExpiresAt : Time
}.
#[export] Instance Credential_eq_dec : EqDecision Credential.
Proof. solve_decision. Defined.

Record Entry := MkEntry {
  entry_Credential : Credential;
  Revision : Z;
  authenticationHash : string
}.
#[export] Instance Entry_eq_dec : EqDecision Entry.
Proof. solve_decision. Defined.

(** The document that fingerprints a registry's identity and AK/SK. *)
Definition authentication_document (registry : RegistryConfig) : bytes :=
  json_struct [
    ("regionID", json_string (reg_RegionID registry));
    ("instanceID", json_string (reg_InstanceID registry));
    ("accessKeyID", json_string (AccessKeyID registry));
    ("accessKeySecret", json_string (AccessKeySecret registry))].

Definition registryAuthenticationHash (registry : RegistryConfig) : string :=
  sha256_hex (authentication_document registry).

#[global] Arguments registryAuthenticationHash : simpl never.

Definition MatchesRegistry (e : Entry) (registry : RegistryConfig) : bool :=
  negb (bool_decide (authenticationHash e = ""))
  && bool_decide (authenticationHash e = registryAuthenticationHash registry).

Module CredentialStore.
(** A nil map and an empty one read alike, and [Apply] replaces the former. *)
Record Store := MkStore { current : gmap RegistryKey Entry; nextRevision : Z }.
Definition empty : Store := MkStore ∅ 0.

Definition Apply (s : Store) (registry : RegistryConfig) (value : Credential) : Entry * Store :=
  let nextRevision := u64_succ (nextRevision s) in
  let entry := MkEntry value nextRevision (registryAuthenticationHash registry) in
  (entry, MkStore (<[Key registry := entry]> (current s)) nextRevision).

Definition Load (s : Store) (key : RegistryKey) : option Entry := current s !! key.

Definition Delete (s : Store) (key : RegistryKey) : bool * Store :=
  match current s !! key with
  | None => (false, s)
  | Some _ => (true, MkStore (delete key (current s)) (nextRevision s))
  end.

Section snapshot.
Context `{RangeOrder}.
Definition Snapshot (s : Store) : gmap RegistryKey Entry :=
  foldl (λ m kv, <[kv.1 := kv.2]> m) ∅ (range (current s)).

Lemma Snapshot_id s : Snapshot s = current s.
Proof. apply foldl_insert_bindings; [apply NoDup_range_fst|intros; apply elem_of_range]. Qed.
End snapshot.

(** ** The store as a history of installations *)
Inductive op := OpApply (registry : RegistryConfig) (value : Credential) | OpDelete (key : RegistryKey).
Definition step (s : Store) (o : op) : Store :=
  match o with
  | OpApply r v => (Apply s r v).2
  | OpDelete k => (Delete s k).2
  end.
Fixpoint applies (ops : list op) : nat :=
  match ops with
  | [] => 0
  | OpApply _ _ :: ops => S (applies ops)
  | OpDelete _ :: ops => applies ops
  end.

(** [n] installations were made: revisions are between 1 and [n], two keys
    never hold the same one, and the counter is [n]. *)
Definition numbered (n : nat) (s : Store) : Prop :=
  nextRevision s = Z.of_nat n ∧
  (∀ k e, current s !! k = Some e → (1 ≤ Revision e ≤ Z.of_nat n)%Z) ∧
  (∀ k1 k2 e1 e2, current s !! k1 = Some e1 → current s !! k2 = Some e2 →
     Revision e1 = Revision e2 → k1 = k2).

Lemma Apply_numbered n s r v :
  (Z.of_nat (S n) < u64_modulus)%Z → numbered n s → numbered (S n) (Apply s r v).2.
Proof.
  intros Hn (Hc & Hr & Hu). unfold Apply, u64_succ, numbered; simpl.
  rewrite Hc, Z.mod_small by lia. split; [lia|]. split.
  - intros k e. rewrite lookup_insert_Some. intros [[_ <-]|[_ He]]; simpl; [lia|].
    specialize (Hr k e He). lia.
  - intros k1 k2 e1 e2. rewrite !lookup_insert_Some.
    intros [[<- <-]|[? He1]] [[<- <-]|[? He2]]; simpl; [done|..].
    + specialize (Hr _ _ He2). lia.
    + specialize (Hr _ _ He1). lia.
    + by apply Hu.
Qed.

Lemma Delete_numbered n s k : numbered n s → numbered n (Delete s k).2.
Proof.
  intros (Hc & Hr & Hu). unfold Delete. destruct (current s !! k) as [e0|]; [|done].
  split; [done|]. simpl. split.
  - intros k' e [_ He]%lookup_delete_Some. eauto.
  - intros k1 k2 e1 e2 [_ He1]%lookup_delete_Some [_ He2]%lookup_delete_Some. eauto.
Qed.

Lemma run_numbered ops n s :
  (Z.of_nat (n + applies ops) < u64_modulus)%Z → numbered n s →
  numbered (n + applies ops) (foldl step s ops).
Proof.
  revert n s. induction ops as [|[r v|k] ops IH]; intros n s Hn Hs; cbn [applies foldl] in *.
  - by rewrite Nat.add_0_r.
  - rewrite Nat.add_succ_r, <-Nat.add_succ_l in *.
    apply IH; [done|]. apply Apply_numbered; [lia|done].
  - apply IH; [done|]. by apply Delete_numbered.
Qed.
End CredentialStore.

(** ** Fingerprints *)
Lemma MatchesRegistry_Apply s r v registry :
  MatchesRegistry (CredentialStore.Apply s r v).1 registry = true ↔
  registryAuthenticationHash r = registryAuthenticationHash registry.
Proof.
  unfold MatchesRegistry; simpl. rewrite andb_true_iff, negb_true_iff, !bool_decide_eq_true.
  rewrite bool_decide_eq_false. split; [by intros [_ ->]|]. intros Heq. split; [|done].
  apply sha256_hex_not_empty.
Qed.

(** Two registries with one fingerprint have one document, or SHA-256 collides. *)
Definition sha256_collision : Prop := ∃ l1 l2 : bytes, l1 ≠ l2 ∧ Sum256 l1 = Sum256 l2.

Lemma registryAuthenticationHash_inj r1 r2 :
  registryAuthenticationHash r1 = registryAuthenticationHash r2 →
  authentication_document r1 = authentication_document r2 ∨ sha256_collision.
Proof.
  intros Heq. destruct (decide (authentication_document r1 = authentication_document r2)); [by left|].
  right. exists (authentication_document r1), (authentication_document r2).
  split; [done|]. by apply sha256_hex_inj.
Qed.
