(* ===== verification/CredentialCorrect.v ===== *)
(** * Correctness of the credential store (internal/credential/types.go, store.go)

    Revisions identify installations, and the fingerprint identifies the
    registry's address and AK/SK. *)
From S2P Require Import Prelude GoStrings Encoding Json JsonTheory ConfigTypes Credential.

(** ** Documents of string members *)
Definition string_members (l : list (string * string)) : list (string * bytes) :=
  (λ m, (m.1, json_string m.2)) <$> l.

Definition members_text (l : list (string * string)) : bytes :=
  join_bytes (to_bytes ",") ((λ m, json_member m.1 m.2) <$> string_members l).

Lemma members_text_cons n s l :
  ∃ rest, members_text ((n, s) :: l) = json_string n ++ to_bytes ":" ++ json_string s ++ rest ∧
    rest = match l with [] => [] | _ => to_bytes "," ++ members_text l end.
Proof.
  unfold members_text. destruct l as [|m l]; eexists; (split; [|reflexivity]).
  - by rewrite app_nil_r.
  - cbn [string_members fmap list_fmap map join_bytes fst snd]. unfold json_member at 1.
    by rewrite <-!(assoc_L (++)).
Qed.

Lemma members_text_inj l1 l2 r1 r2 :
  l1.*1 = l2.*1 → Forall (λ m, valid_utf8 m.2 = true) l1 → Forall (λ m, valid_utf8 m.2 = true) l2 →
  members_text l1 ++ r1 = members_text l2 ++ r2 → l1 = l2.
Proof.
  revert l2. induction l1 as [|[n s1] l1 IH]; intros [|[n' s2] l2]; try done.
  intros [= <- Hn] [Hs1 Hl1]%Forall_cons [Hs2 Hl2]%Forall_cons Heq.
  destruct (members_text_cons n s1 l1) as (q1 & Ht1 & Hq1).
  destruct (members_text_cons n s2 l2) as (q2 & Ht2 & Hq2).
  rewrite Ht1, Ht2, <-!(assoc_L (++)) in Heq. do 2 apply app_inv_head in Heq.
  apply json_string_inj in Heq as [-> Heq]; [|done..]. f_equal.
  destruct l1 as [|m1 l1], l2 as [|m2 l2]; try done. apply IH; [done..|].
  rewrite Hq1, Hq2, <-!(assoc_L (++)) in Heq. by apply app_inv_head in Heq.
Qed.

Lemma json_struct_inj l1 l2 :
  l1.*1 = l2.*1 → Forall (λ m, valid_utf8 m.2 = true) l1 → Forall (λ m, valid_utf8 m.2 = true) l2 →
  json_struct (string_members l1) = json_struct (string_members l2) → l1 = l2.
Proof.
  intros Hn H1 H2 Heq. unfold json_struct in Heq. apply app_inv_head in Heq.
  by eapply members_text_inj.
Qed.

(** The strings that the parser can produce: YAML scalars are valid UTF-8. *)
Definition utf8_registry (r : RegistryConfig) : Prop :=
  Forall (λ s, valid_utf8 s = true)
    [reg_RegionID r; reg_InstanceID r; AccessKeyID r; AccessKeySecret r].

Lemma authentication_document_inj r1 r2 :
  utf8_registry r1 → utf8_registry r2 → authentication_document r1 = authentication_document r2 →
  Key r1 = Key r2 ∧ AccessKeyID r1 = AccessKeyID r2 ∧ AccessKeySecret r1 = AccessKeySecret r2.
Proof.
  intros H1 H2 Heq.
  set (ms r := [("regionID", reg_RegionID r); ("instanceID", reg_InstanceID r);
    ("accessKeyID", AccessKeyID r); ("accessKeySecret", AccessKeySecret r)]).
  assert (∀ r, utf8_registry r → Forall (λ m, valid_utf8 m.2 = true) (ms r)) as Hms.
  { intros r Hr. exact (proj1 (Forall_fmap (λ m : string * string, m.2) (λ s, valid_utf8 s = true) (ms r)) Hr). }
  change (json_struct (string_members (ms r1)) = json_struct (string_members (ms r2))) in Heq.
  apply json_struct_inj in Heq; [|done|by apply Hms..].
  unfold Key. by injection Heq as -> -> -> ->.
Qed.

(** ** Properties *)

(** C36.  Whatever sequence of installations and deletions the store has seen,
    short of 2^64 installations, two keys never hold entries of one revision,
    and an installation takes a revision above every entry's; so a revision
    names one installation, which is what the published-revision bookkeeping of
    the scheduler relies on. *)
Theorem revisions_unique ops registry value :
  (Z.of_nat (S (CredentialStore.applies ops)) < u64_modulus)%Z →
  let s := foldl CredentialStore.step CredentialStore.empty ops in
  (∀ k1 k2 e1 e2, CredentialStore.Load s k1 = Some e1 → CredentialStore.Load s k2 = Some e2 →
     Revision e1 = Revision e2 → k1 = k2) ∧
  (∀ k e, CredentialStore.Load s k = Some e →
     (0 < Revision e < Revision (CredentialStore.Apply s registry value).1)%Z) ∧
  CredentialStore.Load (CredentialStore.Apply s registry value).2 (Key registry)
  = Some (CredentialStore.Apply s registry value).1.
Proof.
  intros Hn. cbv zeta.
  destruct (CredentialStore.run_numbered ops 0 CredentialStore.empty) as (Hc & Hr & Hu).
  { simpl. lia. }
  { split; [done|]. split; [done|]. done. }
  simpl in Hc, Hr. split; [done|]. split; [|apply lookup_insert_eq].
  intros k e He. specialize (Hr k e He). simpl. unfold u64_succ.
  rewrite Hc, Z.mod_small by lia. lia.
Qed.

(** A stored credential is used for a configured registry exactly as long as
    the registry it was installed for has the same fingerprint, and, SHA-256
    collisions aside, one fingerprint means one region, instance, AK and SK;
    the domains do not take part. *)
Theorem fingerprint_matches s installed value registry :
  utf8_registry installed → utf8_registry registry →
  (MatchesRegistry (CredentialStore.Apply s installed value).1 registry = true →
     (Key installed = Key registry ∧ AccessKeyID installed = AccessKeyID registry ∧
      AccessKeySecret installed = AccessKeySecret registry) ∨ sha256_collision) ∧
  (Key installed = Key registry → AccessKeyID installed = AccessKeyID registry →
     AccessKeySecret installed = AccessKeySecret registry →
     MatchesRegistry (CredentialStore.Apply s installed value).1 registry = true).
Proof.
  intros H1 H2. rewrite MatchesRegistry_Apply. split.
  - intros [Heq|Hc]%registryAuthenticationHash_inj; [left|by right].
    by apply authentication_document_inj.
  - intros [= Hr Hi] Ha Hs. unfold registryAuthenticationHash, authentication_document.
    by rewrite Hr, Hi, Ha, Hs.
Qed.

(** ** Examples *)
Module CredentialExample.
Definition a : RegistryConfig := MkRegistry "cn" "cri-1" "AKID" "SECRET" ["a.example.com"].
Definition b : RegistryConfig := MkRegistry "cn" "cri-2" "AKID" "SECRET" ["b.example.com"].
Definition a' : RegistryConfig := with_Domains a ["other.example.com"].
Definition v : Credential := MkCredential "u" "p" 0 (60 * Minute).
Definition ops : list CredentialStore.op :=
  [CredentialStore.OpApply a v; CredentialStore.OpApply b v; CredentialStore.OpDelete (Key a)].

Lemma revisions_unique_witness :
  let s := foldl CredentialStore.step CredentialStore.empty ops in
  ∃ e, CredentialStore.Load s (Key b) = Some e ∧
    (0 < Revision e < Revision (CredentialStore.Apply s a v).1)%Z.
Proof.
  cbv zeta.
  exists (CredentialStore.Apply (CredentialStore.step CredentialStore.empty (CredentialStore.OpApply a v)) b v).1.
  assert (CredentialStore.Load (foldl CredentialStore.step CredentialStore.empty ops) (Key b) =
    Some (CredentialStore.Apply (CredentialStore.step CredentialStore.empty (CredentialStore.OpApply a v)) b v).1) as He.
  { apply (bool_decide_unpack _). vm_compute. exact I. }
  split; [exact He|].
  refine (proj1 (proj2 (revisions_unique ops a v _)) (Key b) _ He). vm_compute. reflexivity.
Defined.

Lemma fingerprint_matches_witness :
  utf8_registry a ∧ MatchesRegistry (CredentialStore.Apply CredentialStore.empty a v).1 a' = true.
Proof.
  assert (utf8_registry a) as Ha by (repeat constructor).
  split; [exact Ha|].
  exact (proj2 (fingerprint_matches CredentialStore.empty a v a' Ha Ha) eq_refl eq_refl eq_refl).
Defined.
End CredentialExample.
