(* ===== verification/AcrProvider.v ===== *)
(** * The ACR token provider (internal/credential/acr_provider.go)

    The SDK's response is a tree of optional fields; its errors are what
    [errors.Is] and [errors.As] can tell of them, next to a message and data
    that must not surface.  Building the client and making the call are
    arguments: the provider decides what to do with their outcomes. *)
From S2P Require Import Prelude GoStrings ConfigTypes Encoding Credential.

(** The fields of [acr.GetAuthorizationTokenResponse] that are read. *)
Record AcrBody := MkAcrBody {
  IsSuccess : option bool;
  Code : option string;
  TempUsername : option string;
  AuthorizationToken : option string;
  ExpireTime : option Z
}.
Record AcrResponse := MkAcrResponse { StatusCode : option Z; Body : option AcrBody }.

(** An error of the SDK call, by the first test it passes. *)
Inductive context_error := ContextCanceled | ContextDeadlineExceeded.
Inductive call_error :=
| CallEnded (why : context_error) (message : string)
| CallSDKError (status : option Z) (code : option string) (message data : string)
| CallOther (message : string).

Inductive acr_error :=
| EmptyRegistryKey
| EmptyAccessKey
| CreateClientFailed
| RequestEnded (why : context_error)
| RequestFailed (status : Z) (code : string)
| RequestFailedOpaque
| EmptyResponse
| HTTPStatus (status : Z)
| EmptyBody
| Unsuccessful (code : string)
| EmptyUsername
| EmptyToken
| InvalidExpiration.

Definition authorizationTokenValidityHours : Z := 1.

(** [code := "unknown"; if p != nil && *p != "" { code = *p }] *)
Definition code_or_unknown (code : option string) : string :=
  match code with
  | Some code => if bool_decide (code = "") then "unknown" else code
  | None => "unknown"
  end.

Definition safeACRRequestError (err : call_error) : acr_error :=
  match err with
  | CallEnded why _ => RequestEnded why
  | CallSDKError status code _ _ => RequestFailed (default 0%Z status) (code_or_unknown code)
  | CallOther _ => RequestFailedOpaque
  end.

Definition tokenFromACRResponse (response : option AcrResponse) : result acr_error Token :=
  match response with
  | None => Err EmptyResponse
  | Some response =>
    let bad_status := match StatusCode response with
      | Some status => (status <? 200)%Z || (300 <=? status)%Z
      | None => false
      end in
    if bad_status then Err (HTTPStatus (default 0%Z (StatusCode response)))
    else
    match Body response with
    | None => Err EmptyBody
    | Some body =>
      if negb (bool_decide (IsSuccess body = Some true)) then Err (Unsuccessful (code_or_unknown (Code body)))
      else
      match TempUsername body with
      | Some username =>
        if bool_decide (TrimSpace username = "") then Err EmptyUsername
        else
        match AuthorizationToken body with
        | Some token =>
          if bool_decide (token = "") then Err EmptyToken
          else
          match ExpireTime body with
          | Some expire =>
            if (expire <=? 0)%Z then Err InvalidExpiration
            else Ok (MkToken username token (expire * Millisecond)%Z)
          | None => Err InvalidExpiration
          end
        | None => Err EmptyToken
        end
      | None => Err EmptyUsername
      end
    end
  end.

(** The request sent: the instance and the validity. *)
Record AcrRequest := MkAcrRequest { InstanceId : string; ExpiresInHours : Z }.

Definition ACRTokenProvider_GetAuthorizationToken (newClient : Request → result string ())
    (send : Request → AcrRequest → result call_error (option AcrResponse)) (request : Request) :
    result acr_error Token :=
  if bool_decide (RegionID (req_Key request) = "") || bool_decide (InstanceID (req_Key request) = "")
  then Err EmptyRegistryKey
  else if bool_decide (req_AccessKeyID request = "") || bool_decide (req_AccessKeySecret request = "")
  then Err EmptyAccessKey
  else
    match newClient request with
    | Err _ => Err CreateClientFailed
    | Ok _ =>
      match send request (MkAcrRequest (InstanceID (req_Key request)) authorizationTokenValidityHours) with
      | Err e => Err (safeACRRequestError e)
      | Ok response => tokenFromACRResponse response
      end
    end.

(** ** Properties *)

(** C37.  A token comes only from a successful response, whole: the request named a
    registry and carried both keys, the HTTP status, when known, was 2xx, the
    body said success, and its username (not blank), token and positive
    expiration in milliseconds are the token's. *)
Theorem provider_token_complete newClient send request token :
  ACRTokenProvider_GetAuthorizationToken newClient send request = Ok token ↔
  RegionID (req_Key request) ≠ "" ∧ InstanceID (req_Key request) ≠ "" ∧
  req_AccessKeyID request ≠ "" ∧ req_AccessKeySecret request ≠ "" ∧ newClient request = Ok tt ∧
  ∃ status body expire,
    send request (MkAcrRequest (InstanceID (req_Key request)) 1) = Ok (Some (MkAcrResponse status (Some body))) ∧
    (∀ s, status = Some s → (200 ≤ s < 300)%Z) ∧ IsSuccess body = Some true ∧
    TempUsername body = Some (tok_Username token) ∧ TrimSpace (tok_Username token) ≠ "" ∧
    AuthorizationToken body = Some (tok_Password token) ∧ tok_Password token ≠ "" ∧
    ExpireTime body = Some expire ∧ (0 < expire)%Z ∧ tok_ExpiresAt token = (expire * Millisecond)%Z.
Proof.
  unfold ACRTokenProvider_GetAuthorizationToken, authorizationTokenValidityHours.
  repeat case_bool_decide; cbn [orb]; [split; [done|tauto]..|].
  destruct (newClient request) as [[]|m]; [|split; [done|intros (_&_&_&_&[=]&_)]].
  destruct (send _ _) as [[[status body]|]|e]; cbn [tokenFromACRResponse StatusCode Body];
    [|split; [done|by intros (_&_&_&_&_&?&?&?&?&_)]..].
  destruct (match status with Some status => _ | None => _ end) eqn:Hst.
  { split; [done|]. intros (_&_&_&_&_&s&b&x&[= -> _]&Hs&_). destruct s as [s|]; [|done].
    specialize (Hs s eq_refl). destruct (Z.ltb_spec s 200), (Z.leb_spec 300 s); simpl in Hst; [lia..|done]. }
  assert (∀ s, status = Some s → (200 ≤ s < 300)%Z) as Hok.
  { intros s ->. destruct (Z.ltb_spec s 200), (Z.leb_spec 300 s); simpl in Hst; [done..|lia]. }
  destruct body as [[success code user tok expire]|]; cbn [IsSuccess TempUsername AuthorizationToken ExpireTime].
  2: { split; [done|]. by intros (_&_&_&_&_&s&b&x&[=]&_). }
  split.
  - case_bool_decide as Hsuc; cbn [negb]; [|done].
    destruct user as [user|]; [|done]. case_bool_decide; [done|].
    destruct tok as [tok|]; [|done]. case_bool_decide; [done|].
    destruct expire as [expire|]; [|done]. destruct (Z.leb_spec expire 0); [done|].
    intros [= <-]. do 5 (split; [done|]). exists status, (MkAcrBody success code (Some user) (Some tok) (Some expire)), expire.
    done.
  - intros (_&_&_&_&_&s&b&x&[= -> <-]&_&Hsuc&Hu&Hut&Ht&Htt&Hx&Hpos&Hexp). simpl in *. subst.
    rewrite !bool_decide_true, !bool_decide_false by done. cbn [negb].
    destruct (Z.leb_spec x 0); [lia|]. destruct token; simpl in *. by subst.
Qed.

(** What an error of the provider says is a function of the kind of failure,
    the HTTP status and the error code: replacing the messages and data of the
    SDK's errors, or the credentials in the request, changes nothing. *)
Theorem provider_errors_redacted newClient send1 send2 r1 r2 e1 :
  req_Key r1 = req_Key r2 →
  (req_AccessKeyID r1 = "" ↔ req_AccessKeyID r2 = "") →
  (req_AccessKeySecret r1 = "" ↔ req_AccessKeySecret r2 = "") →
  (is_ok (newClient r1) = is_ok (newClient r2)) →
  (∀ q, match send1 r1 q, send2 r2 q with
        | Ok a, Ok b => a = b
        | Err (CallEnded w1 _), Err (CallEnded w2 _) => w1 = w2
        | Err (CallSDKError s1 c1 _ _), Err (CallSDKError s2 c2 _ _) => s1 = s2 ∧ c1 = c2
        | Err (CallOther _), Err (CallOther _) => True
        | _, _ => False
        end) →
  ACRTokenProvider_GetAuthorizationToken newClient send1 r1 = Err e1 →
  ACRTokenProvider_GetAuthorizationToken newClient send2 r2 = Err e1.
Proof.
  intros Hk Ha Hs Hc Hsend. unfold ACRTokenProvider_GetAuthorizationToken. rewrite Hk.
  rewrite (bool_decide_ext _ _ Ha), (bool_decide_ext _ _ Hs).
  destruct (_ || _); [done|]. destruct (_ || _); [done|].
  destruct (newClient r1) as [[]|m1], (newClient r2) as [[]|m2]; try done.
  specialize (Hsend (MkAcrRequest (InstanceID (req_Key r2)) authorizationTokenValidityHours)).
  destruct (send1 r1 _) as [o1|[]], (send2 r2 _) as [o2|[]]; try done; simpl.
  - by subst.
  - by subst.
  - by destruct Hsend as [-> ->].
Qed.

(** ** Examples *)
Module AcrExample.
Definition request : Request := MkRequest (MkKey "cn" "cri-1") "AKID" "SECRET".
Definition other : Request := MkRequest (MkKey "cn" "cri-1") "OTHER" "KEY".
Definition new_client (_ : Request) : result string () := Ok tt.
Definition throttled (message : string) (_ : Request) (_ : AcrRequest) :
    result call_error (option AcrResponse) :=
  Err (CallSDKError (Some 429%Z) (Some "Throttling") message "data").

Example provider_token :
  ACRTokenProvider_GetAuthorizationToken new_client
    (λ _ _, Ok (Some (MkAcrResponse (Some 200%Z)
       (Some (MkAcrBody (Some true) None (Some "cr_temp_user") (Some "t") (Some 1000%Z)))))) request
  = Ok (MkToken "cr_temp_user" "t" Second).
Proof. vm_compute. reflexivity. Qed.

Lemma provider_errors_redacted_witness :
  ACRTokenProvider_GetAuthorizationToken new_client (throttled "key SECRET") request
    = Err (RequestFailed 429 "Throttling") ∧
  ACRTokenProvider_GetAuthorizationToken new_client (throttled "other") other
    = Err (RequestFailed 429 "Throttling").
Proof.
  assert (ACRTokenProvider_GetAuthorizationToken new_client (throttled "key SECRET") request
    = Err (RequestFailed 429 "Throttling")) as H by (vm_compute; reflexivity).
  split; [exact H|].
  refine (provider_errors_redacted new_client (throttled "key SECRET") (throttled "other") request other
    _ eq_refl _ _ eq_refl _ H).
  - split; discriminate.
  - split; discriminate.
  - intros q. split; reflexivity.
Defined.
End AcrExample.
