(* ===== verification/Scheduler.v ===== *)
(** * Credential scheduler (internal/credential/scheduler.go)

    One worker's [refresh] and the leader's [reconcileConfiguration] are
    programs over the calls they make: the two stores, the maps guarded by
    [stateMu], the clock, the provider, the publisher and the work queue.  The
    work queue is a library: its commands are recorded, not interpreted.
    [exec] gives each call its effect on the state of the process. *)
From S2P Require Import Prelude Prog GoStrings ConfigTypes ConfigStore Credential.

(** ** Options *)
Definition DefaultRefreshBefore : Duration := (5 * Minute)%Z.
Definition DefaultRequestTimeout : Duration := (15 * Second)%Z.
Definition DefaultWorkerCount : Z := 2.
Definition DefaultRetryBaseDelay : Duration := (5 * Second)%Z.
Definition DefaultRetryMaxDelay : Duration := (60 * Second)%Z.

Record SchedulerOptions := MkSchedulerOptions {
  RefreshBefore : Duration;
  RequestTimeout : Duration;
  WorkerCount : Z;
  RetryBaseDelay : Duration;
  RetryMaxDelay : Duration
}.

Definition default_if_zero (v d : Z) : Z := if (v =? 0)%Z then d else v.

Definition withDefaults (o : SchedulerOptions) : SchedulerOptions :=
  MkSchedulerOptions
    (default_if_zero (RefreshBefore o) DefaultRefreshBefore)
    (default_if_zero (RequestTimeout o) DefaultRequestTimeout)
    (default_if_zero (WorkerCount o) DefaultWorkerCount)
    (default_if_zero (RetryBaseDelay o) DefaultRetryBaseDelay)
    (default_if_zero (RetryMaxDelay o) DefaultRetryMaxDelay).

Inductive options_error := RefreshBeforeNotPositive | RequestTimeoutNotPositive
  | WorkerCountNotPositive | RetryDelaysInvalid.

Definition validate (o : SchedulerOptions) : result options_error () :=
  if (RefreshBefore o <=? 0)%Z then Err RefreshBeforeNotPositive
  else if (RequestTimeout o <=? 0)%Z then Err RequestTimeoutNotPositive
  else if (WorkerCount o <=? 0)%Z then Err WorkerCountNotPositive
  else if (RetryBaseDelay o <=? 0)%Z || (RetryMaxDelay o <=? 0)%Z
          || (RetryMaxDelay o <? RetryBaseDelay o)%Z then Err RetryDelaysInvalid
  else Ok tt.

(** ** Helpers *)
Inductive refresh_error :=
| GetAuthorizationTokenFailed (e : string)
| EmptyUsername
| EmptyPassword
| ExpiresInsideWindow (refreshBefore : Duration)
| PublishFailed (e : string).

Definition validateToken (token : Token) (now : Time) (refreshBefore : Duration) :
    result refresh_error () :=
  if bool_decide (tok_Username token = "") then Err EmptyUsername
  else if bool_decide (tok_Password token = "") then Err EmptyPassword
  else if negb (After (tok_ExpiresAt token) (time_Add now refreshBefore))
       then Err (ExpiresInsideWindow refreshBefore)
  else Ok tt.

Definition authenticationChanged (previous current : RegistryConfig) : bool :=
  negb (bool_decide (AccessKeyID previous = AccessKeyID current))
  || negb (bool_decide (AccessKeySecret previous = AccessKeySecret current)).

Definition cloneRegistries (source : gmap RegistryKey RegistryConfig) :
    gmap RegistryKey RegistryConfig :=
  (λ r, with_Domains r (clone_slice (Domains r))) <$> source.

(** ** The calls of the scheduler *)
Inductive schedE : Type → Type :=
| LoadConfig : schedE (ConfigurationSnapshot * bool)
| LoadCredential (key : RegistryKey) : schedE (option Entry)
| ApplyCredential (registry : RegistryConfig) (value : Credential) : schedE Entry
| DeleteCredential (key : RegistryKey) : schedE bool
| IsPublished (key : RegistryKey) (revision : Z) : schedE bool
| MarkPublished (key : RegistryKey) (revision : Z) : schedE ()
| ForgetPublished (key : RegistryKey) : schedE ()
| MarkForce (key : RegistryKey) : schedE ()
| ClearForce (key : RegistryKey) (handledRevision : Z) : schedE ()
| DeleteForce (key : RegistryKey) : schedE ()
| CurrentForce (key : RegistryKey) : schedE Z
| Now : schedE Time
| GetAuthorizationToken (request : Request) : schedE (result string Token)
| PublishAllNamespaces : schedE (result string ())
| QueueAdd (key : RegistryKey) : schedE ()
| QueueAddAfter (key : RegistryKey) (delay : Duration) : schedE ()
| QueueAddRateLimited (key : RegistryKey) : schedE ()
| QueueForget (key : RegistryKey) : schedE ()
| QueueDone (key : RegistryKey) : schedE ()
| ContextEnded : schedE bool.

Definition loadRegistry (key : RegistryKey) : prog schedE (option RegistryConfig) :=
  '(snapshot, loaded) ← call LoadConfig;
  mret (if loaded : bool then Registries snapshot !! key else None).

(** The three calls made when the key is no longer configured. *)
Definition drop_key (key : RegistryKey) : prog schedE () :=
  _ ← call (DeleteCredential key);
  _ ← call (ForgetPublished key);
  call (DeleteForce key).

Definition publishCredential (key : RegistryKey) (entry : Entry) :
    prog schedE (result refresh_error ()) :=
  published ← call (IsPublished key (Revision entry));
  if published : bool then mret (Ok tt) else
  try (call PublishAllNamespaces) (λ e, mret (Err (PublishFailed e))) (λ _,
    _ ← call (MarkPublished key (Revision entry));
    mret (Ok tt)).

(** The credential is served again, and the next refresh is scheduled. *)
Definition publish_and_schedule (key : RegistryKey) (entry : Entry) (delay : Duration) :
    prog schedE (result refresh_error ()) :=
  try (publishCredential key entry) (λ e, mret (Err e)) (λ _,
    _ ← call (QueueAddAfter key delay);
    mret (Ok tt)).

(** The second half of [refresh], from the provider call on. *)
Definition acquire (o : SchedulerOptions) (key : RegistryKey) (registry : RegistryConfig)
    (forceRefreshRevision : Z) : prog schedE (result refresh_error ()) :=
  token ← call (GetAuthorizationToken
                  (MkRequest key (AccessKeyID registry) (AccessKeySecret registry)));
  match token with
  | Err e => mret (Err (GetAuthorizationTokenFailed e))
  | Ok token =>
    current ← loadRegistry key;
    match current with
    | None => _ ← drop_key key; mret (Ok tt)
    | Some current =>
      if authenticationChanged registry current then
        _ ← call (MarkForce key);
        _ ← call (QueueAdd key);
        mret (Ok tt)
      else
        now ← call Now;
        match validateToken token now (RefreshBefore o) with
        | Err e => mret (Err e)
        | Ok _ =>
          entry ← call (ApplyCredential current
                          (MkCredential (tok_Username token) (tok_Password token) now
                             (tok_ExpiresAt token)));
          _ ← call (ClearForce key forceRefreshRevision);
          publish_and_schedule key entry
            (time_Sub (time_Add (tok_ExpiresAt token) (- RefreshBefore o)) now)
        end
    end
  end.

Definition refresh (o : SchedulerOptions) (key : RegistryKey) :
    prog schedE (result refresh_error ()) :=
  registry ← loadRegistry key;
  match registry with
  | None => _ ← drop_key key; mret (Ok tt)
  | Some registry =>
    now ← call Now;
    forceRefreshRevision ← call (CurrentForce key);
    found ← call (LoadCredential key);
    match found with
    | Some entry =>
      let refreshAt := time_Add (ExpiresAt (entry_Credential entry)) (- RefreshBefore o) in
      if MatchesRegistry entry registry && (forceRefreshRevision =? 0)%Z && After refreshAt now
      then publish_and_schedule key entry (time_Sub refreshAt now)
      else acquire o key registry forceRefreshRevision
    | None => acquire o key registry forceRefreshRevision
    end
  end.

(** The body of the loop of [runWorker], for a key the queue handed out. *)
Definition runWorker_body (o : SchedulerOptions) (key : RegistryKey) : prog schedE () :=
  err ← refresh o key;
  _ ← call (QueueDone key);
  match err with
  | Ok _ => call (QueueForget key)
  | Err _ =>
    ended ← call ContextEnded;
    if ended : bool then call (QueueForget key) else call (QueueAddRateLimited key)
  end.

Section reconcile.
Context `{RangeOrder}.

Definition schedule_configured (knownRegistries : gmap RegistryKey RegistryConfig)
    (kr : RegistryKey * RegistryConfig) : prog schedE () :=
  let '(key, registry) := kr in
  match knownRegistries !! key with
  | None => call (QueueAdd key)
  | Some previous =>
    if authenticationChanged previous registry then
      _ ← call (MarkForce key);
      call (QueueAdd key)
    else mret tt
  end.

Definition remove_unconfigured (snapshot : ConfigurationSnapshot)
    (kr : RegistryKey * RegistryConfig) : prog schedE () :=
  match Registries snapshot !! kr.1 with
  | Some _ => mret tt
  | None => _ ← drop_key kr.1; call (QueueForget kr.1)
  end.

(** [knownRegistries] belongs to the goroutine of [Start]: it is passed in and
    its new value returned. *)
Definition reconcileConfiguration (knownRegistries : gmap RegistryKey RegistryConfig) :
    prog schedE (gmap RegistryKey RegistryConfig) :=
  '(snapshot, loaded) ← call LoadConfig;
  if loaded : bool then
    _ ← for_each (range (Registries snapshot)) (schedule_configured knownRegistries);
    _ ← for_each (range knownRegistries) (remove_unconfigured snapshot);
    mret (cloneRegistries (Registries snapshot))
  else mret knownRegistries.
End reconcile.

(** ** The state of the process *)
Inductive queue_command :=
| Add (key : RegistryKey)
| AddAfter (key : RegistryKey) (delay : Duration)
| AddRateLimited (key : RegistryKey)
| Forget (key : RegistryKey)
| Done (key : RegistryKey).

Record State := MkState {
  configStore : ConfigStore.Store;
  credentialStore : CredentialStore.Store;
  publishedRevisions : gmap RegistryKey Z;
  forceRefreshRevision : gmap RegistryKey Z;
  provider_calls : list (Request * result string Token);
  publishes : list (result string ());
  queue : list queue_command;
  contextEnded : bool
}.

Definition lookup_u64 (m : gmap RegistryKey Z) (key : RegistryKey) : Z := default 0%Z (m !! key).

Definition isPublished (st : State) (key : RegistryKey) (revision : Z) : bool :=
  bool_decide (lookup_u64 (publishedRevisions st) key = revision).
Definition set_published (st : State) (m : gmap RegistryKey Z) : State :=
  MkState (configStore st) (credentialStore st) m (forceRefreshRevision st) (provider_calls st)
    (publishes st) (queue st) (contextEnded st).
Definition set_force (st : State) (m : gmap RegistryKey Z) : State :=
  MkState (configStore st) (credentialStore st) (publishedRevisions st) m (provider_calls st)
    (publishes st) (queue st) (contextEnded st).
Definition set_credentials (st : State) (c : CredentialStore.Store) : State :=
  MkState (configStore st) c (publishedRevisions st) (forceRefreshRevision st) (provider_calls st)
    (publishes st) (queue st) (contextEnded st).
Definition push_queue (st : State) (q : queue_command) : State :=
  MkState (configStore st) (credentialStore st) (publishedRevisions st) (forceRefreshRevision st)
    (provider_calls st) (publishes st) (queue st ++ [q]) (contextEnded st).
Definition push_call (st : State) (c : Request * result string Token) : State :=
  MkState (configStore st) (credentialStore st) (publishedRevisions st) (forceRefreshRevision st)
    (provider_calls st ++ [c]) (publishes st) (queue st) (contextEnded st).
Definition push_publish (st : State) (r : result string ()) : State :=
  MkState (configStore st) (credentialStore st) (publishedRevisions st) (forceRefreshRevision st)
    (provider_calls st) (publishes st ++ [r]) (queue st) (contextEnded st).

Definition markPublished (st : State) (key : RegistryKey) (revision : Z) : State :=
  set_published st (<[key := revision]> (publishedRevisions st)).
Definition forgetPublishedRevision (st : State) (key : RegistryKey) : State :=
  set_published st (delete key (publishedRevisions st)).
Definition markForceRefresh (st : State) (key : RegistryKey) : State :=
  set_force st
    (<[key := u64_succ (lookup_u64 (forceRefreshRevision st) key)]> (forceRefreshRevision st)).
Definition clearForceRefresh (st : State) (key : RegistryKey) (handledRevision : Z) : State :=
  if (lookup_u64 (forceRefreshRevision st) key =? handledRevision)%Z
  then set_force st (delete key (forceRefreshRevision st)) else st.
Definition deleteForceRefresh (st : State) (key : RegistryKey) : State :=
  set_force st (delete key (forceRefreshRevision st)).
Definition currentForceRefreshRevision (st : State) (key : RegistryKey) : Z :=
  lookup_u64 (forceRefreshRevision st) key.

(** The effect of one call.  The clock, the provider and the publisher answer
    anything. *)
Definition exec (X : Type) (e : schedE X) : State → X → State → Prop :=
  match e in schedE X return State → X → State → Prop with
  | LoadConfig => λ st x st', x = ConfigStore.Load (configStore st) ∧ st' = st
  | LoadCredential key => λ st x st', x = CredentialStore.Load (credentialStore st) key ∧ st' = st
  | ApplyCredential r v => λ st x st',
      (x, credentialStore st') = CredentialStore.Apply (credentialStore st) r v ∧
      st' = set_credentials st (credentialStore st')
  | DeleteCredential key => λ st x st',
      (x, credentialStore st') = CredentialStore.Delete (credentialStore st) key ∧
      st' = set_credentials st (credentialStore st')
  | IsPublished key rev => λ st x st', x = isPublished st key rev ∧ st' = st
  | MarkPublished key rev => λ st _ st', st' = markPublished st key rev
  | ForgetPublished key => λ st _ st', st' = forgetPublishedRevision st key
  | MarkForce key => λ st _ st', st' = markForceRefresh st key
  | ClearForce key rev => λ st _ st', st' = clearForceRefresh st key rev
  | DeleteForce key => λ st _ st', st' = deleteForceRefresh st key
  | CurrentForce key => λ st x st', x = currentForceRefreshRevision st key ∧ st' = st
  | Now => λ st _ st', st' = st
  | GetAuthorizationToken req => λ st x st', st' = push_call st (req, x)
  | PublishAllNamespaces => λ st x st', st' = push_publish st x
  | QueueAdd key => λ st _ st', st' = push_queue st (Add key)
  | QueueAddAfter key d => λ st _ st', st' = push_queue st (AddAfter key d)
  | QueueAddRateLimited key => λ st _ st', st' = push_queue st (AddRateLimited key)
  | QueueForget key => λ st _ st', st' = push_queue st (Forget key)
  | QueueDone key => λ st _ st', st' = push_queue st (Done key)
  | ContextEnded => λ st x st', x = contextEnded st ∧ st' = st
  end.

(** ** Construction

    A nil argument is [None] or [false]; the queue, the channel and the maps
    start empty. *)
Inductive new_scheduler_error := NilSchedulerArgument (what : string)
  | SchedulerOptionsInvalid (e : options_error).

Definition NewScheduler (config : option ConfigStore.Store)
    (credentials : option CredentialStore.Store) (provider publisher clock : bool)
    (options : SchedulerOptions) : result new_scheduler_error (SchedulerOptions * State) :=
  match config with
  | None => Err (NilSchedulerArgument "config store")
  | Some config =>
  match credentials with
  | None => Err (NilSchedulerArgument "credential store")
  | Some credentials =>
    if negb provider then Err (NilSchedulerArgument "token provider")
    else if negb publisher then Err (NilSchedulerArgument "Namespace event publisher")
    else if negb clock then Err (NilSchedulerArgument "clock")
    else
      let options := withDefaults options in
      match validate options with
      | Err e => Err (SchedulerOptionsInvalid e)
      | Ok _ => Ok (options, MkState config credentials ∅ ∅ [] [] [] false)
      end
  end end.
