(* ===== verification/SchedulerTheory.v ===== *)
(** * The scheduler under interference

    A worker's [refresh] runs while other workers refresh other keys, while the
    leader goroutine reconciles the configuration and while the configuration
    store changes.  The rely of a worker says what the others may do to its key,
    its guarantee what it does to the shared state. *)
From S2P Require Import Prelude Prog GoStrings ConfigTypes ConfigStore Encoding Credential Scheduler.

Definition cred (s : State) (key : RegistryKey) : option Entry :=
  CredentialStore.current (credentialStore s) !! key.
Definition call_log : Type := list (Request * result string Token).
Definition calls_for (key : RegistryKey) (s : State) : call_log :=
  filter (λ c : Request * result string Token, req_Key c.1 = key) (provider_calls s).

(** Every registry of the current snapshot is filed under its own key. *)
Definition config_wf (s : State) : Prop :=
  ∀ snapshot, ConfigStore.current (configStore s) = Some snapshot →
  ∀ k r, Registries snapshot !! k = Some r → Key r = k.

(** An entry that a logged provider call paid for, with credentials of the
    registry the entry's fingerprint names, and that was not near its end. *)
Definition sound_entry (o : SchedulerOptions) (calls : call_log) (key : RegistryKey)
    (e : Entry) : Prop :=
  ∃ r token, Key r = key ∧
    (MkRequest key (AccessKeyID r) (AccessKeySecret r), Ok token) ∈ calls ∧
    authenticationHash e = registryAuthenticationHash r ∧
    Username (entry_Credential e) = tok_Username token ∧
    Password (entry_Credential e) = tok_Password token ∧
    ExpiresAt (entry_Credential e) = tok_ExpiresAt token ∧
    tok_Username token ≠ "" ∧ tok_Password token ≠ "" ∧
    (RefreshedAt (entry_Credential e) + RefreshBefore o < ExpiresAt (entry_Credential e))%Z.

(** The logs only grow, and an ended context stays ended. *)
Definition grows (s s' : State) : Prop :=
  provider_calls s `prefix_of` provider_calls s' ∧ queue s `prefix_of` queue s' ∧
  (contextEnded s = true → contextEnded s' = true).

Definition rely (key : RegistryKey) (s s' : State) : Prop :=
  calls_for key s' = calls_for key s ∧ grows s s' ∧ (config_wf s → config_wf s') ∧
  (∀ e, cred s' key = Some e → cred s key = Some e).

Definition frame (key : RegistryKey) (s s' : State) : Prop :=
  ∀ k, k ≠ key →
    calls_for k s' = calls_for k s ∧ cred s' k = cred s k ∧
    publishedRevisions s' !! k = publishedRevisions s !! k ∧
    forceRefreshRevision s' !! k = forceRefreshRevision s !! k.

Definition guarantee (o : SchedulerOptions) (key : RegistryKey) (s s' : State) : Prop :=
  configStore s' = configStore s ∧ grows s s' ∧ frame key s s' ∧
  (∀ e, cred s' key = Some e → cred s key = Some e ∨ sound_entry o (provider_calls s') key e).

Lemma grows_refl s : grows s s.
Proof. done. Qed.
Lemma grows_trans a b c : grows a b → grows b c → grows a c.
Proof. intros (?&?&?) (?&?&?). split; [by etrans|]. split; [by etrans|auto]. Qed.

Lemma rely_refl key s : rely key s s.
Proof. split; [done|]. split; [apply grows_refl|]. by split. Qed.
Lemma rely_trans key a b c : rely key a b → rely key b c → rely key a c.
Proof.
  intros (Hc1 & Hg1 & Hw1 & He1) (Hc2 & Hg2 & Hw2 & He2).
  split; [congruence|]. split; [by eapply grows_trans|]. split; eauto.
Qed.

(** What a worker does to its own key is invisible to a worker of another. *)
Lemma guarantee_rely o k1 k2 s s' : k1 ≠ k2 → guarantee o k1 s s' → rely k2 s s'.
Proof.
  intros Hne (Hc & Hg & Hf & _). destruct (Hf k2) as (Hcalls & Hcred & _); [done|].
  split; [done|]. split; [done|]. unfold config_wf. rewrite Hc. split; [done|].
  by rewrite Hcred.
Qed.

(** A call that leaves everything but one key's bookkeeping alone. *)
Lemma guarantee_quiet o key s s' :
  configStore s' = configStore s → provider_calls s' = provider_calls s →
  queue s `prefix_of` queue s' → contextEnded s' = contextEnded s →
  (∀ k, k ≠ key → cred s' k = cred s k ∧ publishedRevisions s' !! k = publishedRevisions s !! k ∧
     forceRefreshRevision s' !! k = forceRefreshRevision s !! k) →
  (∀ e, cred s' key = Some e → cred s key = Some e) → guarantee o key s s'.
Proof.
  intros Hc Hcalls Hq Hctx Hf He. split; [done|].
  split; [split; [by rewrite Hcalls|split; [done|by rewrite Hctx]]|]. split; [|eauto].
  intros k Hk. unfold calls_for. rewrite Hcalls. split; [done|]. by apply Hf.
Qed.

Definition rescheduled (key : RegistryKey) (s s' : State) : Prop :=
  ∃ q, queue s' = queue s ++ q ∧ ∃ c, c ∈ q ∧ (c = Add key ∨ ∃ d, c = AddAfter key d).

Lemma rescheduled_grows key a b c d :
  grows a b → rescheduled key b c → grows c d → rescheduled key a d.
Proof.
  intros (_ & [q1 H1] & _) (q2 & H2 & x & Hx & Hr) (_ & [q3 H3] & _).
  exists (q1 ++ q2 ++ q3). split; [by rewrite H3, H2, H1, <-!(assoc_L (++))|].
  exists x. split; [set_solver|done].
Qed.

(** ** Single calls *)
Section calls.
Context (o : SchedulerOptions) (key : RegistryKey).

(** The calls of a worker that neither ask the provider nor install. *)
Definition quiet {X} (ev : schedE X) : Prop :=
  match ev with
  | LoadConfig | Now | ContextEnded | PublishAllNamespaces => True
  | LoadCredential k | DeleteCredential k | IsPublished k _ | MarkPublished k _
  | ForgetPublished k | MarkForce k | ClearForce k _ | DeleteForce k | CurrentForce k
  | QueueAdd k | QueueAddAfter k _ | QueueAddRateLimited k | QueueForget k | QueueDone k => k = key
  | ApplyCredential _ _ | GetAuthorizationToken _ => False
  end.

Lemma exec_quiet {X} (ev : schedE X) s x s' :
  quiet ev →
  exec X ev s x s' →
  guarantee o key s s' ∧ calls_for key s' = calls_for key s ∧
  (∀ e, cred s' key = Some e → cred s key = Some e) ∧ configStore s' = configStore s.
Proof.
  intros Hk He. assert (Hq : ∀ A (a b : list A), a `prefix_of` a ++ b) by (intros; by eexists).
  assert (guarantee o key s s' ∧ provider_calls s' = provider_calls s ∧
    (∀ e, cred s' key = Some e → cred s key = Some e) ∧ configStore s' = configStore s)
    as (Hg & Hc & Hcr & Hcfg);
    [|by unfold calls_for; rewrite Hc].
  assert (configStore s' = configStore s ∧ provider_calls s' = provider_calls s ∧
    queue s `prefix_of` queue s' ∧ contextEnded s' = contextEnded s ∧
    (∀ k, k ≠ key → cred s' k = cred s k ∧
       publishedRevisions s' !! k = publishedRevisions s !! k ∧
       forceRefreshRevision s' !! k = forceRefreshRevision s !! k) ∧
    (∀ e, cred s' key = Some e → cred s key = Some e)) as (?&?&?&?&?&?);
    [|split; [by apply guarantee_quiet|done]].
  destruct ev; simpl in He, Hk; try done; subst;
    repeat match goal with H : _ ∧ _ |- _ => destruct H end; subst; simpl; try done;
    try (split; [done|]; split; [done|]; split; [eauto|]; split; [done|]; split; [|done];
         intros k Hk; simpl; by rewrite ?lookup_insert_ne, ?lookup_delete_ne by done).
  - (* DeleteCredential *)
    unfold CredentialStore.Delete in *. destruct s' as [c1 c2 c3 c4 c5 c6 c7 c8]; simpl in *.
    match goal with H : MkState _ _ _ _ _ _ _ _ = _ |- _ => injection H as -> -> -> -> -> -> -> end.
    destruct (_ !! key) eqn:Hl in *; simplify_eq; [|done].
    unfold cred; simpl. do 4 (split; [done|]). split.
    + intros k Hk. by rewrite lookup_delete_ne.
    + intros e1. by rewrite lookup_delete_eq.
  - (* ClearForce *)
    unfold clearForceRefresh. destruct (_ =? _)%Z; [|done]. simpl. do 4 (split; [done|]).
    split; [|done]. intros k Hk. simpl. by rewrite lookup_delete_ne.
Qed.

Abbreviation spec := (rg exec (rely key) (guarantee o key)).

Lemma rg_quiet {X A} (ev : schedE X) (k : X → prog schedE A) s Φ :
  quiet ev →
  (∀ x s1 s', exec X ev s1 x s' → rely key s s1 → rely key s s' → spec (k x) s' Φ) →
  spec (Vis ev k) s Φ.
Proof.
  intros Hq Hk s1 HR x s2 He.
  destruct (exec_quiet ev s1 x s2 Hq He) as (HG & Hcalls & Hcred & Hcfg). split; [done|].
  apply (Hk x s1); [done..|]. apply (rely_trans key s s1); [done|].
  destruct HG as (_ & Hg & _). split; [done|]. split; [done|]. split; [|done].
  unfold config_wf. by rewrite Hcfg.
Qed.

Lemma rg_ret {A} (a : A) s (Φ : A → State → Prop) :
  (∀ s', rely key s s' → Φ a s') → spec (Ret a) s Φ.
Proof. done. Qed.

Lemma drop_key_rg s :
  spec (drop_key key) s (λ _ s', rely key s s' ∧ cred s' key = None).
Proof.
  apply rg_quiet; [done|]. intros x s1 s2 He HR1 HR2.
  assert (cred s2 key = None) as Hnone.
  { simpl in He. destruct He as [Hd _]. unfold CredentialStore.Delete in Hd. unfold cred.
    destruct (CredentialStore.current (credentialStore s1) !! key) eqn:Hl;
      injection Hd as _ ->; simpl; [apply lookup_delete_eq|done]. }
  apply rg_quiet; [done|]. intros ? s3 s4 _ HR3 HR4.
  apply rg_quiet; [done|]. intros ? s5 s6 _ HR5 HR6.
  apply rg_ret. intros s7 HR7. split; [by repeat (eapply rely_trans; [done|])|].
  assert (rely key s2 s7) as (_ & _ & _ & Hsub)
    by by repeat (eapply rely_trans; [done|]).
  apply eq_None_not_Some. intros [e He7%Hsub]. congruence.
Qed.

Lemma loadRegistry_rg s :
  config_wf s →
  spec (loadRegistry key) s (λ x s', rely key s s' ∧ config_wf s' ∧ ∀ r, x = Some r → Key r = key).
Proof.
  intros Hwf. apply rg_quiet; [done|]. intros [snap loaded] s1 s2 He HR1 HR2.
  apply rg_ret. intros s3 HR3. split; [by eapply rely_trans|].
  split; [by apply HR3, HR2|]. intros r Hr. simpl in He. destruct He as [He _].
  unfold ConfigStore.Load in He.
  destruct (ConfigStore.current (configStore s1)) as [cur|] eqn:Hcur; simplify_eq.
  rewrite Clone_id in Hr. destruct HR1 as (_ & _ & Hw & _). by apply (Hw Hwf cur Hcur).
Qed.

Lemma publish_and_schedule_rg s entry delay :
  spec (publish_and_schedule key entry delay) s
    (λ r s', rely key s s' ∧ (r = Ok tt → rescheduled key s s')).
Proof.
  assert (∀ s1, rely key s s1 →
    spec (_ ← call (QueueAddAfter key delay); mret (Ok tt) : prog schedE (result refresh_error ())) s1
      (λ r s', rely key s s' ∧ (r = Ok tt → rescheduled key s s'))) as Hadd.
  { intros s1 HR1. apply rg_quiet; [done|]. intros x s2 s3 He HR2 HR3. simpl in He.
    apply rg_ret. intros s4 HR4. split; [by repeat (eapply rely_trans; [done|])|].
    intros _. apply (rescheduled_grows key s s2 s3 s4).
    - apply (rely_trans key s s1 s2); done.
    - exists [AddAfter key delay]. rewrite He. split; [done|]. eexists. split; [left|eauto].
    - apply HR4. }
  apply rg_quiet; [done|]. intros published s1 s2 _ _ HR2.
  destruct published; [by apply Hadd|].
  apply rg_quiet; [done|]. intros [u|e] s3 s4 _ _ HR4.
  - apply rg_quiet; [done|]. intros ? s5 s6 _ _ HR6. apply Hadd.
    by repeat (eapply rely_trans; [done|]).
  - apply rg_ret. intros s5 HR5. split; [|done]. by repeat (eapply rely_trans; [done|]).
Qed.

Lemma queue_add_rescheduled x s s' :
  exec _ (QueueAdd key) s x s' → rescheduled key s s'.
Proof. intros ->. exists [Add key]. split; [done|]. exists (Add key). split; [left|by left]. Qed.

(** ** refresh *)

(** What a refresh of [key] started in [s0] has done when it returns [r] in [s]. *)
Definition refresh_post (s0 : State) (r : result refresh_error ()) (s : State) : Prop :=
  (calls_for key s = calls_for key s0 ∨
   ∃ ak sk x, calls_for key s = calls_for key s0 ++ [(MkRequest key ak sk, x)]) ∧
  grows s0 s ∧ config_wf s ∧ (r = Ok tt → cred s key = None ∨ rescheduled key s0 s).

(** After the provider call [c]. *)
Definition called (c : Request * result string Token) (s0 s : State) : Prop :=
  calls_for key s = calls_for key s0 ++ [c] ∧ grows s0 s ∧ config_wf s ∧ c ∈ provider_calls s.

Lemma called_stable c s0 s s' : called c s0 s → rely key s s' → called c s0 s'.
Proof.
  intros (Hc & Hg & Hw & Hin) (Hc' & Hg' & Hw' & _). split; [congruence|].
  split; [by eapply grows_trans|]. split; [auto|].
  destruct Hg' as ([l Hl] & _). rewrite Hl. set_solver.
Qed.

Lemma called_post c s0 s r :
  req_Key c.1 = key → called c s0 s →
  (r = Ok tt → cred s key = None ∨ rescheduled key s0 s) → refresh_post s0 r s.
Proof.
  destruct c as [[k ak sk] x]. simpl. intros -> (Hc & Hg & Hw & _) Hr.
  split; [right; eauto|]. by split.
Qed.

Lemma exec_provider req x s s' :
  req_Key req = key → config_wf s → exec _ (GetAuthorizationToken req) s x s' →
  guarantee o key s s' ∧ called (req, x) s s'.
Proof.
  intros Hk Hw ->. unfold push_call. simpl.
  assert (grows s (push_call s (req, x))) as Hg by (split; [by eexists|by split]).
  split.
  - split; [done|]. split; [done|]. split; [|by left].
    intros k Hne. unfold calls_for; simpl. rewrite filter_app, filter_cons_False by (simpl; congruence).
    by rewrite filter_nil, app_nil_r.
  - split; [|split; [done|split; [done|simpl; set_solver]]].
    unfold calls_for; simpl. by rewrite filter_app, filter_cons_True.
Qed.

Lemma exec_apply registry v x s s' token :
  Key registry = key → exec _ (ApplyCredential registry v) s x s' →
  (MkRequest key (AccessKeyID registry) (AccessKeySecret registry), Ok token) ∈ provider_calls s →
  Username v = tok_Username token → Password v = tok_Password token →
  ExpiresAt v = tok_ExpiresAt token →
  validateToken token (RefreshedAt v) (RefreshBefore o) = Ok tt →
  guarantee o key s s' ∧ calls_for key s' = calls_for key s ∧ grows s s' ∧
  provider_calls s' = provider_calls s ∧ configStore s' = configStore s.
Proof.
  intros Hk [Ha Hs'] Hin Hu Hp He Hv. simpl in Ha. injection Ha as -> Hstore.
  rewrite Hs', Hstore. clear Hs'. unfold set_credentials; simpl.
  split; [|done]. split; [done|]. split; [done|]. split.
  - intros k Hne. unfold cred; simpl. by rewrite Hk, lookup_insert_ne.
  - intros e. unfold cred; simpl. rewrite Hk, lookup_insert_eq. intros [= <-]. right.
    exists registry, token. simpl. do 6 (split; [done|]).
    unfold validateToken, After, time_Add in Hv. repeat case_bool_decide; try done.
    do 2 (split; [done|]). rewrite He.
    destruct (Z.ltb_spec (RefreshedAt v + RefreshBefore o) (tok_ExpiresAt token)); done.
Qed.

Lemma authenticationChanged_false r1 r2 :
  authenticationChanged r1 r2 = false ↔
  AccessKeyID r1 = AccessKeyID r2 ∧ AccessKeySecret r1 = AccessKeySecret r2.
Proof.
  unfold authenticationChanged.
  by rewrite orb_false_iff, !negb_false_iff, !bool_decide_eq_true.
Qed.

Lemma acquire_rg registry force s :
  config_wf s → Key registry = key → spec (acquire o key registry force) s (refresh_post s).
Proof.
  intros Hw Hkey. intros s1 HR1 x s2 He.
  set (req := MkRequest key (AccessKeyID registry) (AccessKeySecret registry)) in *.
  destruct (exec_provider req x s1 s2 eq_refl (proj1 (proj2 (proj2 HR1)) Hw) He) as [HG Hc].
  split; [done|].
  assert (called (req, x) s s2) as Hcalled.
  { destruct Hc as (Hc & Hg & Hw' & Hin), HR1 as (HcR & HgR & _).
    split; [by rewrite Hc, HcR|]. split; [by eapply grows_trans|]. done. }
  clear Hc He HG HR1 s1. destruct x as [token|e].
  2: { apply rg_ret. intros s3 HR3. eapply (called_post (req, _)); [done|by eapply called_stable|done]. }
  apply rg_bind; [apply rely_refl|].
  eapply rg_mono; [|apply loadRegistry_rg, Hcalled].
  intros current s3 (HR3 & Hw3 & Hcur). pose proof (called_stable _ _ _ _ Hcalled HR3) as Hc3.
  destruct current as [current|].
  2: { apply rg_bind; [apply rely_refl|]. eapply rg_mono; [|apply drop_key_rg].
       intros u s4 [HR4 Hnone]. apply rg_ret. intros s5 HR5.
       eapply (called_post (req, _)); [done|by do 2 (eapply called_stable; [|done])|]. intros _. left.
       apply eq_None_not_Some. intros [e He]. apply HR5 in He. congruence. }
  destruct (authenticationChanged registry current) eqn:Hauth.
  { apply rg_quiet; [done|]. intros ? s4 s5 _ _ HR5.
    apply rg_quiet; [done|]. intros ? s6 s7 He HR6 HR7. apply rg_ret. intros s8 HR8.
    pose proof (called_stable _ _ _ _ Hc3 HR5) as Hc5.
    eapply (called_post (req, _)); [done|by do 2 (eapply called_stable; [|done])|]. intros _. right.
    apply (rescheduled_grows key s s6 s7 s8); [|by eapply queue_add_rescheduled|apply HR8].
    apply (grows_trans s s5 s6); [apply Hc5|apply HR6]. }
  apply authenticationChanged_false in Hauth as [Hak Hsk].
  apply rg_quiet; [done|]. intros now s4 s5 _ _ HR5.
  pose proof (called_stable _ _ _ _ Hc3 HR5) as Hc5. clear HR3 HR5 Hw3 Hc3 s3 s4.
  destruct (validateToken token now (RefreshBefore o)) as [[]|e] eqn:Hv.
  2: { apply rg_ret. intros s6 HR6. eapply (called_post (req, _)); [done|by eapply called_stable|done]. }
  intros s6 HR6 entry s7 He. pose proof (called_stable _ _ _ _ Hc5 HR6) as Hc6.
  destruct (exec_apply current _ entry s6 s7 token (Hcur current eq_refl) He) as (HG & HCa & Hg & Hcalls & Hcfg);
    [rewrite <-Hak, <-Hsk; apply Hc6|done..|].
  split; [done|].
  assert (called (req, Ok token) s s7) as Hc7.
  { destruct Hc6 as (Hc & Hg6 & Hw6 & Hin). split; [by rewrite HCa|].
    split; [by eapply grows_trans|]. split; [unfold config_wf; by rewrite Hcfg|].
    by rewrite Hcalls. }
  clear HG HCa Hg Hcalls Hcfg He Hc6 HR6 Hc5.
  apply rg_quiet; [done|]. intros ? s8 s9 _ _ HR9.
  pose proof (called_stable _ _ _ _ Hc7 HR9) as Hc9.
  eapply rg_mono; [|apply publish_and_schedule_rg].
  intros r s10 [HR10 Hr]. eapply (called_post (req, _)); [done|by eapply called_stable|].
  intros ->. right. apply (rescheduled_grows key s s9 s10 s10); [apply Hc9|by apply Hr|done].
Qed.

(** [refresh] meets its contract whatever the rest of the process does. *)
Lemma refresh_rg s : config_wf s → spec (refresh o key) s (refresh_post s).
Proof.
  intros Hw. apply rg_bind; [apply rely_refl|].
  eapply rg_mono; [|apply loadRegistry_rg, Hw]. intros registry s1 (HR1 & Hw1 & Hreg).
  assert (∀ r s', rely key s s' → (r = Ok tt → cred s' key = None ∨ rescheduled key s s') →
    refresh_post s r s') as Hquiet.
  { intros r s' (Hc & Hg & Hwf & _) Hr. split; [by left|]. split; [done|]. split; auto. }
  destruct registry as [registry|].
  2: { apply rg_bind; [apply rely_refl|]. eapply rg_mono; [|apply drop_key_rg].
       intros u s2 [HR2 Hnone]. apply rg_ret. intros s3 HR3.
       apply Hquiet; [by do 2 (eapply rely_trans; [|done])|]. intros _. left.
       apply eq_None_not_Some. intros [e He]. apply HR3 in He. congruence. }
  specialize (Hreg registry eq_refl).
  apply rg_quiet; [done|]. intros now s2 s3 _ _ HR3.
  apply rg_quiet; [done|]. intros force s4 s5 _ _ HR5.
  apply rg_quiet; [done|]. intros found s6 s7 _ _ HR7.
  assert (rely key s s7) as HR by by do 3 (eapply rely_trans; [|done]).
  assert (∀ r s', refresh_post s7 r s' → refresh_post s r s') as Hpost.
  { intros r s' (Hc & Hg & Hwf & Hr). destruct HR as (HcR & HgR & _).
    split; [by rewrite <-HcR|]. split; [by eapply grows_trans|]. split; [done|].
    intros ->. destruct (Hr eq_refl) as [?|Hres]; [by left|right].
    by apply (rescheduled_grows key s s7 s' s'). }
  assert (config_wf s7) as Hw7 by by apply HR.
  assert (spec (acquire o key registry force) s7 (refresh_post s)) as Hacq.
  { eapply rg_mono; [exact Hpost|]. by apply acquire_rg. }
  destruct found as [entry|]; [|done].
  cbv zeta. match goal with |- context [if ?b then _ else _] => destruct b end; [|done].
  eapply rg_mono; [|apply publish_and_schedule_rg].
  intros r s8 [HR8 Hr]. apply Hpost. destruct HR8 as (Hc & Hg & Hwf & _).
  split; [by left|]. split; [done|]. split; auto.
Qed.

(** ** runWorker *)

(** The key is still in the queue's care, unless it lost its registry (and its
    credential with it) or the process is stopping. *)
Definition kept (s0 s : State) : Prop :=
  cred s key = None ∨ rescheduled key s0 s ∨
  (∃ q, queue s = queue s0 ++ q ∧ AddRateLimited key ∈ q) ∨ contextEnded s = true.

Definition worker_post (s0 : State) (u : unit) (s : State) : Prop :=
  (calls_for key s = calls_for key s0 ∨
   ∃ ak sk x, calls_for key s = calls_for key s0 ++ [(MkRequest key ak sk, x)]) ∧ kept s0 s.

Lemma runWorker_body_rg s : config_wf s → spec (runWorker_body o key) s (worker_post s).
Proof.
  intros Hw. apply rg_bind; [apply rely_refl|].
  eapply rg_mono; [|apply refresh_rg, Hw]. intros r s1 (Hcalls & Hg1 & Hw1 & Hr).
  apply rg_quiet; [done|]. intros _ s2 s3 _ _ HR3.
  assert (∀ s', rely key s1 s' → kept s s' → worker_post s tt s') as Hdone.
  { intros s' (Hc & _) Hk. split; [by rewrite Hc|done]. }
  destruct r as [[]|e].
  - apply rg_quiet; [done|]. intros [] s4 s5 _ _ HR5. apply rg_ret. intros s6 HR6.
    assert (rely key s1 s6) as HR by by do 2 (eapply rely_trans; [|done]).
    apply Hdone; [done|]. destruct (Hr eq_refl) as [Hnone|Hres].
    + left. apply eq_None_not_Some. intros [e He]. apply HR in He. congruence.
    + right; left. apply (rescheduled_grows key s s s1 s6); [done|done|apply HR].
  - apply rg_quiet; [done|]. intros ended s4 s5 [Hctx ->] HR4 HR5. destruct ended.
    + apply rg_quiet; [done|]. intros [] s6 s7 _ _ HR7. apply rg_ret. intros s8 HR8.
      apply Hdone; [by do 3 (eapply rely_trans; [|done])|]. do 3 right.
      apply HR8, HR7. by rewrite <-Hctx.
    + apply rg_quiet; [done|]. intros [] s6 s7 He HR6 HR7. apply rg_ret. intros s8 HR8.
      apply Hdone; [by do 3 (eapply rely_trans; [|done])|]. do 2 right. left. simpl in He.
      assert (grows s s6) as (_ & [q1 Hq1] & _).
      { apply (grows_trans s s1); [done|]. apply (grows_trans s1 s3); [apply HR3|].
        apply (grows_trans s3 s4); [apply HR4|apply HR6]. }
      destruct HR8 as (_ & (_ & [q2 Hq2] & _) & _). exists (q1 ++ [AddRateLimited key] ++ q2).
      rewrite Hq2, He; simpl. rewrite Hq1, <-!(assoc_L (++)). split; [done|]. set_solver.
Qed.
End calls.

(** ** All the workers *)

(** The rest of the process: it may replace the configuration by one whose
    registries are filed under their keys, delete credentials, change the
    bookkeeping maps, queue keys and end the context. *)
Definition environment (s s' : State) : Prop :=
  provider_calls s' = provider_calls s ∧ grows s s' ∧ (config_wf s → config_wf s') ∧
  (∀ k e, cred s' k = Some e → cred s k = Some e).

Lemma environment_rely key s s' : environment s s' → rely key s s'.
Proof.
  intros (Hc & Hg & Hw & He). split; [by unfold calls_for; rewrite Hc|].
  split; [done|]. split; [done|]. apply He.
Qed.

Definition credentials_sound (o : SchedulerOptions) (s : State) : Prop :=
  ∀ key e, cred s key = Some e → sound_entry o (provider_calls s) key e.

Lemma sound_entry_grows o calls calls' key e :
  calls `prefix_of` calls' → sound_entry o calls key e → sound_entry o calls' key e.
Proof.
  intros [l ->] (r & t & Hk & Hin & Hrest). exists r, t. split; [done|]. split; [set_solver|done].
Qed.

Lemma guarantee_sound o key s s' :
  guarantee o key s s' → credentials_sound o s → credentials_sound o s'.
Proof.
  intros (_ & (Hcalls & _) & Hf & Hown) Hs k e He. destruct (decide (k = key)) as [->|Hne].
  - destruct (Hown e He) as [Hold|?]; [|done]. by eapply sound_entry_grows, Hs.
  - destruct (Hf k Hne) as (_ & Hc & _). rewrite Hc in He. by eapply sound_entry_grows, Hs.
Qed.

Lemma environment_sound o s s' :
  environment s s' → credentials_sound o s → credentials_sound o s'.
Proof. intros (Hc & _ & _ & He) Hs k e Hk. rewrite Hc. by apply Hs, He. Qed.

(** The queue hands one key to one worker at a time. *)
Definition workers (o : SchedulerOptions) (keys : list RegistryKey) : list (prog schedE ()) :=
  runWorker_body o <$> keys.

Section workers.
Context (o : SchedulerOptions) (keys : list RegistryKey) (Hkeys : NoDup keys).

Definition worker_rely (i : nat) : State → State → Prop :=
  match keys !! i with Some key => rely key | None => λ _ _, True end.
Definition worker_guarantee (i : nat) : State → State → Prop :=
  match keys !! i with Some key => guarantee o key | None => λ _ _, False end.
Definition worker_result (s : State) (i : nat) (u : unit) (s' : State) : Prop :=
  match keys !! i with Some key => worker_post key s u s' | None => True end.

Lemma workers_reach s s' ts :
  config_wf s → rtc (pool_step exec environment) (s, workers o keys) (s', ts) →
  rtc (λ a b, environment a b ∨ ∃ key, guarantee o key a b) s s' ∧
  ∀ i key, keys !! i = Some key → ∀ u, ts !! i = Some (Ret u) → worker_post key s u s'.
Proof.
  intros Hw Hreach.
  destruct (pool_sound exec environment worker_rely worker_guarantee (worker_result s)
              s (workers o keys) s' ts) as [Hrtc Hpost]; [..|done|].
  - intros i a b c. unfold worker_rely. destruct (keys !! i); [apply rely_trans|done].
  - intros i a. unfold worker_rely. destruct (keys !! i); [apply rely_refl|done].
  - intros i j a b Hij. unfold worker_rely, worker_guarantee.
    destruct (keys !! i) as [k1|] eqn:Hi; [|done]. destruct (keys !! j) as [k2|] eqn:Hj; [|done].
    apply guarantee_rely. intros ->. by apply Hij, (NoDup_lookup keys i j k2).
  - intros i a b Henv. unfold worker_rely. destruct (keys !! i); [by apply environment_rely|done].
  - intros i p Hp. unfold workers in Hp. rewrite list_lookup_fmap in Hp.
    unfold worker_rely, worker_guarantee, worker_result.
    destruct (keys !! i) as [key|] eqn:Hi; simplify_eq/=. by apply runWorker_body_rg.
  - split.
    + eapply rtc_subrel; [|exact Hrtc]. intros a b [?|(i & _ & HG)]; [by left|right].
      unfold worker_guarantee in HG. destruct (keys !! i) as [key|]; [by exists key|done].
    + intros i key Hi u Hu. specialize (Hpost i (Ret u) Hu).
      unfold worker_rely, worker_guarantee, worker_result in Hpost. rewrite Hi in Hpost.
      apply Hpost, rely_refl.
Qed.

Lemma reach_sound s s' :
  rtc (λ a b, environment a b ∨ ∃ key, guarantee o key a b) s s' →
  credentials_sound o s → credentials_sound o s'.
Proof.
  induction 1 as [|s1 s2 s3 [Henv|[key HG]] _ IH]; intros Hs; [done|..].
  - by eapply IH, environment_sound.
  - by eapply IH, guarantee_sound.
Qed.
End workers.
