(* ===== verification/SchedulerRun.v ===== *)
(** * The scheduler without interference

    [handle] runs the calls of a program one after the other, with the answers
    of the clock, the provider and the publisher taken from a [World].  The
    lemmas compute what [refresh] and [reconcileConfiguration] leave behind. *)
From S2P Require Import Prelude Prog GoStrings ConfigTypes ConfigStore Encoding Credential.
From S2P Require Import Scheduler SchedulerTheory.

Record World := MkWorld {
  clock : Time;
  provider : Request → result string Token;
  publisher : result string ()
}.

Definition handle (w : World) (X : Type) (e : schedE X) : State → X * State :=
  match e in schedE X return State → X * State with
  | LoadConfig => λ s, (ConfigStore.Load (configStore s), s)
  | LoadCredential key => λ s, (CredentialStore.Load (credentialStore s) key, s)
  | ApplyCredential r v => λ s,
      let '(e, c) := CredentialStore.Apply (credentialStore s) r v in (e, set_credentials s c)
  | DeleteCredential key => λ s,
      let '(b, c) := CredentialStore.Delete (credentialStore s) key in (b, set_credentials s c)
  | IsPublished key rev => λ s, (isPublished s key rev, s)
  | MarkPublished key rev => λ s, (tt, markPublished s key rev)
  | ForgetPublished key => λ s, (tt, forgetPublishedRevision s key)
  | MarkForce key => λ s, (tt, markForceRefresh s key)
  | ClearForce key rev => λ s, (tt, clearForceRefresh s key rev)
  | DeleteForce key => λ s, (tt, deleteForceRefresh s key)
  | CurrentForce key => λ s, (currentForceRefreshRevision s key, s)
  | Now => λ s, (clock w, s)
  | GetAuthorizationToken req => λ s, (provider w req, push_call s (req, provider w req))
  | PublishAllNamespaces => λ s, (publisher w, push_publish s (publisher w))
  | QueueAdd key => λ s, (tt, push_queue s (Add key))
  | QueueAddAfter key d => λ s, (tt, push_queue s (AddAfter key d))
  | QueueAddRateLimited key => λ s, (tt, push_queue s (AddRateLimited key))
  | QueueForget key => λ s, (tt, push_queue s (Forget key))
  | QueueDone key => λ s, (tt, push_queue s (Done key))
  | ContextEnded => λ s, (contextEnded s, s)
  end.

Lemma handle_exec w X (e : schedE X) s : exec X e s (handle w X e s).1 (handle w X e s).2.
Proof.
  destruct e; simpl; try done.
  unfold CredentialStore.Delete. by destruct (_ !! key).
Qed.

Abbreviation run w p s := (interp (handle w) p s).

(** The registry the configuration gives for a key. *)
Definition configured (s : State) (key : RegistryKey) : option RegistryConfig :=
  cur ← ConfigStore.current (configStore s); Registries cur !! key.

Lemma run_loadRegistry w key s : run w (loadRegistry key) s = (configured s key, s).
Proof.
  unfold loadRegistry, configured. cbn -[ConfigStore.Load]. rewrite ConfigStore.Load_eq.
  by destruct (ConfigStore.current (configStore s)).
Qed.

Lemma run_drop_key w key s :
  let s' := (run w (drop_key key) s).2 in
  s' = MkState (configStore s)
         (CredentialStore.Delete (credentialStore s) key).2
         (delete key (publishedRevisions s)) (delete key (forceRefreshRevision s))
         (provider_calls s) (publishes s) (queue s) (contextEnded s).
Proof. cbn. by destruct (CredentialStore.Delete (credentialStore s) key). Qed.

Lemma run_publish_and_schedule w key entry d s :
  run w (publish_and_schedule key entry d) s =
  if isPublished s key (Revision entry) then (Ok tt, push_queue s (AddAfter key d))
  else match publisher w with
       | Ok u => (Ok tt, push_queue (markPublished (push_publish s (Ok u)) key (Revision entry))
                           (AddAfter key d))
       | Err e => (Err (PublishFailed e), push_publish s (Err e))
       end.
Proof. cbn. destruct (isPublished s key (Revision entry)); cbn; [done|]. by destruct (publisher w). Qed.

(** The entry of a key can be served until [RefreshBefore] before its end. *)
Definition fresh (o : SchedulerOptions) (s : State) (key : RegistryKey) (r : RegistryConfig)
    (e : Entry) (now : Time) : Prop :=
  configured s key = Some r ∧ cred s key = Some e ∧ MatchesRegistry e r = true ∧
  lookup_u64 (forceRefreshRevision s) key = 0%Z ∧
  (now < ExpiresAt (entry_Credential e) - RefreshBefore o)%Z.

Lemma run_fresh w o key r e s :
  fresh o s key r e (clock w) →
  run w (refresh o key) s =
  run w (publish_and_schedule key e
           (time_Sub (ExpiresAt (entry_Credential e) - RefreshBefore o) (clock w))) s.
Proof.
  intros (Hr & He & Hm & Hf & Hnow). unfold refresh. rewrite interp_bind, run_loadRegistry, Hr.
  cbn [interp]. cbn -[publish_and_schedule acquire].
  unfold CredentialStore.Load, currentForceRefreshRevision. unfold cred in He. rewrite He, Hm, Hf.
  cbn -[publish_and_schedule acquire]. unfold After, time_Add.
  destruct (Z.ltb_spec (clock w) (ExpiresAt (entry_Credential e) + - RefreshBefore o)); [done|lia].
Qed.

Lemma run_not_fresh w o key r s :
  configured s key = Some r → (∀ e, ¬ fresh o s key r e (clock w)) →
  run w (refresh o key) s
  = run w (acquire o key r (lookup_u64 (forceRefreshRevision s) key)) s.
Proof.
  intros Hr Hn. unfold refresh. rewrite interp_bind, run_loadRegistry, Hr.
  cbn -[publish_and_schedule acquire]. unfold CredentialStore.Load, currentForceRefreshRevision.
  destruct (CredentialStore.current (credentialStore s) !! key) as [e|] eqn:He;
    cbn -[publish_and_schedule acquire]; [|done].
  destruct (MatchesRegistry e r) eqn:Hm; [|done].
  destruct (Z.eqb_spec (lookup_u64 (forceRefreshRevision s) key) 0) as [Hf|]; [|done].
  cbn -[publish_and_schedule acquire]. unfold After, time_Add.
  destruct (Z.ltb_spec (clock w) (ExpiresAt (entry_Credential e) + - RefreshBefore o)); [|done].
  exfalso. apply (Hn e). do 4 (split; [done|]). lia.
Qed.

(** The state after a token was installed, before it is published. *)
Definition installed (o : SchedulerOptions) (key : RegistryKey) (r : RegistryConfig) (req : Request)
    (token : Token) (now : Time) (s : State) : Entry * State :=
  let '(e, c) := CredentialStore.Apply (credentialStore s) r
    (MkCredential (tok_Username token) (tok_Password token) now (tok_ExpiresAt token)) in
  (e, MkState (configStore s) c (publishedRevisions s) (delete key (forceRefreshRevision s))
        (provider_calls s ++ [(req, Ok token)]) (publishes s) (queue s) (contextEnded s)).

Definition valid_token (o : SchedulerOptions) (token : Token) (now : Time) : Prop :=
  tok_Username token ≠ "" ∧ tok_Password token ≠ "" ∧
  (now < tok_ExpiresAt token - RefreshBefore o)%Z.

Lemma validateToken_spec token now refreshBefore :
  validateToken token now refreshBefore = Ok tt ↔
  tok_Username token ≠ "" ∧ tok_Password token ≠ "" ∧
  (now + refreshBefore < tok_ExpiresAt token)%Z.
Proof.
  unfold validateToken, After, time_Add. repeat case_bool_decide; simpl; [intuition congruence..|].
  destruct (Z.ltb_spec (now + refreshBefore) (tok_ExpiresAt token)); simpl; [done|].
  split; [done|]. intros (_ & _ & ?). lia.
Qed.

Lemma run_acquire_valid w o key r s token :
  let req := MkRequest key (AccessKeyID r) (AccessKeySecret r) in
  configured s key = Some r → provider w req = Ok token → valid_token o token (clock w) →
  run w (acquire o key r (lookup_u64 (forceRefreshRevision s) key)) s =
  let '(e, s') := installed o key r req token (clock w) s in
  run w (publish_and_schedule key e
           (time_Sub (tok_ExpiresAt token - RefreshBefore o) (clock w))) s'.
Proof.
  intros req Hr Hp Hv. unfold acquire. cbn -[publish_and_schedule loadRegistry].
  fold req. rewrite Hp. rewrite interp_bind, run_loadRegistry.
  change (configured (push_call s (req, Ok token)) key) with (configured s key). rewrite Hr.
  assert (authenticationChanged r r = false) as -> by by apply authenticationChanged_false.
  cbn -[publish_and_schedule validateToken].
  assert (validateToken token (clock w) (RefreshBefore o) = Ok tt) as ->.
  { apply validateToken_spec. destruct Hv as (?&?&?). split; [done|]. split; [done|lia]. }
  cbn -[publish_and_schedule]. unfold clearForceRefresh; simpl. rewrite Z.eqb_refl. done.
Qed.
