(* ===== verification/SchedulerCorrect.v ===== *)
(** * Correctness of the scheduler

    The reconciliation of the known registries, and the scheduler's properties
    with their witnesses. *)
From S2P Require Import Prelude Prog GoStrings ConfigTypes ConfigStore Encoding Credential.
From S2P Require Import Scheduler SchedulerTheory SchedulerRun.

(** ** Options *)
Definition valid_options (o : SchedulerOptions) : Prop :=
  (0 < RefreshBefore o)%Z ∧ (0 < RequestTimeout o)%Z ∧ (0 < WorkerCount o)%Z ∧
  (0 < RetryBaseDelay o ≤ RetryMaxDelay o)%Z.

Lemma validate_spec o : validate o = Ok tt ↔ valid_options o.
Proof.
  unfold validate, valid_options.
  destruct (Z.leb_spec (RefreshBefore o) 0), (Z.leb_spec (RequestTimeout o) 0),
    (Z.leb_spec (WorkerCount o) 0), (Z.leb_spec (RetryBaseDelay o) 0),
    (Z.leb_spec (RetryMaxDelay o) 0), (Z.ltb_spec (RetryMaxDelay o) (RetryBaseDelay o));
    simpl; (split; [try done; lia|]); intros; try done; lia.
Qed.

(** ** Reconciliation of the known registries *)
Section reconcile.
Context (w : World) (known : gmap RegistryKey RegistryConfig) (cur : ConfigurationSnapshot).

(** A key whose credential must be acquired: new, or with other AK/SK. *)
Definition changed (k : RegistryKey) (r : RegistryConfig) : bool :=
  from_option (λ p, authenticationChanged p r) false (known !! k).
Definition needs_acquisition (kr : RegistryKey * RegistryConfig) : bool :=
  from_option (λ p, authenticationChanged p kr.2) true (known !! kr.1).
Definition unconfigured (kr : RegistryKey * RegistryConfig) : bool :=
  negb (bool_decide (is_Some (Registries cur !! kr.1))).

Definition schedule_step (s : State) (kr : RegistryKey * RegistryConfig) : State :=
  (run w (schedule_configured known kr) s).2.
Definition remove_step (s : State) (kr : RegistryKey * RegistryConfig) : State :=
  (run w (remove_unconfigured cur kr) s).2.

Lemma schedule_step_eq s k r :
  schedule_step s (k, r) =
  if needs_acquisition (k, r)
  then push_queue (if changed k r then markForceRefresh s k else s) (Add k) else s.
Proof.
  unfold schedule_step, needs_acquisition, changed, schedule_configured. simpl.
  destruct (known !! k) as [p|]; simpl; [|done]. by destruct (authenticationChanged p r).
Qed.

Lemma remove_step_eq s k r :
  remove_step s (k, r) =
  if unconfigured (k, r)
  then MkState (configStore s) (CredentialStore.Delete (credentialStore s) k).2
         (delete k (publishedRevisions s)) (delete k (forceRefreshRevision s))
         (provider_calls s) (publishes s) (queue s ++ [Forget k]) (contextEnded s)
  else s.
Proof.
  unfold remove_step, unconfigured, remove_unconfigured. simpl.
  destruct (Registries cur !! k); [done|].
  rewrite bool_decide_false by (by intros []). cbn.
  by destruct (CredentialStore.Delete (credentialStore s) k).
Qed.

(** The first loop: force marks for changed keys, one [Add] per acquisition. *)
Lemma schedule_loop l s :
  NoDup l.*1 →
  let s' := foldl schedule_step s l in
  configStore s' = configStore s ∧ credentialStore s' = credentialStore s ∧
  publishedRevisions s' = publishedRevisions s ∧ provider_calls s' = provider_calls s ∧
  publishes s' = publishes s ∧
  queue s' = queue s ++ (Add <$> (filter needs_acquisition l).*1) ∧
  (∀ k, k ∉ l.*1 → forceRefreshRevision s' !! k = forceRefreshRevision s !! k) ∧
  (∀ k r, (k, r) ∈ l → forceRefreshRevision s' !! k =
     if changed k r then Some (u64_succ (lookup_u64 (forceRefreshRevision s) k))
     else forceRefreshRevision s !! k).
Proof.
  revert s. induction l as [|[k r] l IH]; intros s Hnd; simpl.
  { rewrite app_nil_r. do 6 (split; [done|]). split; [done|]. intros k r Hin.
    by apply not_elem_of_nil in Hin. }
  apply NoDup_cons in Hnd as [Hk Hnd]. rewrite schedule_step_eq.
  specialize (IH (if needs_acquisition (k, r)
    then push_queue (if changed k r then markForceRefresh s k else s) (Add k) else s) Hnd).
  cbv zeta in IH. destruct IH as (Hcfg & Hcr & Hpub & Hcalls & Hps & Hq & Hout & Hin).
  rewrite Hcfg, Hcr, Hpub, Hcalls, Hps, Hq.
  assert (changed k r = true → needs_acquisition (k, r) = true) as Himp.
  { unfold changed, needs_acquisition. simpl. by destruct (known !! k). }
  split; [by destruct (needs_acquisition (k, r)), (changed k r)|].
  split; [by destruct (needs_acquisition (k, r)), (changed k r)|].
  split; [by destruct (needs_acquisition (k, r)), (changed k r)|].
  split; [by destruct (needs_acquisition (k, r)), (changed k r)|].
  split; [by destruct (needs_acquisition (k, r)), (changed k r)|]. split; [|split].
  - destruct (needs_acquisition (k, r)) eqn:Hn.
    + rewrite filter_cons_True by (by rewrite Hn). destruct (changed k r); simpl;
        by rewrite <-(assoc_L (++)).
    + rewrite filter_cons_False by (rewrite Hn; by intros []). done.
  - intros k' [Hne Hk']%not_elem_of_cons. rewrite Hout by done.
    destruct (needs_acquisition (k, r)), (changed k r); simpl; try done.
    by rewrite lookup_insert_ne.
  - intros k' r' [[= -> ->]|Hin']%elem_of_cons.
    + rewrite Hout by done. destruct (changed k r) eqn:Hc.
      * rewrite Himp by done. simpl. by rewrite lookup_insert_eq.
      * by destruct (needs_acquisition (k, r)).
    + rewrite (Hin k' r' Hin').
      assert (k' ≠ k) as Hne. { intros ->. apply Hk, list_elem_of_fmap. by exists (k, r'). }
      unfold lookup_u64.
      destruct (needs_acquisition (k, r)), (changed k r); simpl; try done.
      by rewrite lookup_insert_ne.
Qed.

(** The second loop: removed keys lose their credential and their bookkeeping. *)
Lemma remove_loop l s :
  let s' := foldl remove_step s l in
  configStore s' = configStore s ∧ provider_calls s' = provider_calls s ∧
  publishes s' = publishes s ∧
  queue s' = queue s ++ (Forget <$> (filter unconfigured l).*1) ∧
  ∀ k, if decide (k ∈ (filter unconfigured l).*1)
       then cred s' k = None ∧ publishedRevisions s' !! k = None ∧ forceRefreshRevision s' !! k = None
       else cred s' k = cred s k ∧ publishedRevisions s' !! k = publishedRevisions s !! k ∧
            forceRefreshRevision s' !! k = forceRefreshRevision s !! k.
Proof.
  revert s. induction l as [|[k r] l IH]; intros s; simpl.
  { rewrite app_nil_r. done. }
  rewrite remove_step_eq.
  destruct (unconfigured (k, r)) eqn:Hu.
  2: { rewrite filter_cons_False by (rewrite Hu; by intros []). apply IH. }
  rewrite filter_cons_True by (by rewrite Hu).
  set (s1 := MkState _ _ _ _ _ _ _ _).
  destruct (IH s1) as (Hcfg & Hcalls & Hps & Hq & Hall). rewrite Hcfg, Hcalls, Hps, Hq.
  do 3 (split; [done|]). split; [simpl; by rewrite <-(assoc_L (++))|].
  intros k'. specialize (Hall k'). rewrite fmap_cons. simpl.
  assert (cred s1 k = None ∧ publishedRevisions s1 !! k = None ∧ forceRefreshRevision s1 !! k = None)
    as Hk.
  { unfold s1, cred, CredentialStore.Delete; simpl. rewrite !lookup_delete_eq.
    destruct (CredentialStore.current (credentialStore s) !! k) eqn:He; simpl; [|done].
    by rewrite lookup_delete_eq. }
  destruct (decide (k' ∈ (filter unconfigured l).*1)).
  - rewrite decide_True by (by right). done.
  - destruct (decide (k' = k)) as [->|Hne].
    + rewrite decide_True by left. destruct Hall as (-> & -> & ->). done.
    + rewrite decide_False by (by rewrite not_elem_of_cons). destruct Hall as (-> & -> & ->).
      unfold s1, cred, CredentialStore.Delete; simpl. rewrite !lookup_delete_ne by done.
      destruct (CredentialStore.current (credentialStore s) !! k) eqn:He; simpl; [|done].
      by rewrite lookup_delete_ne.
Qed.
End reconcile.

Lemma elem_of_filter_fst (P : RegistryKey * RegistryConfig → bool) `{RangeOrder}
    (m : gmap RegistryKey RegistryConfig) k :
  k ∈ (filter P (range m)).*1 ↔ ∃ r, m !! k = Some r ∧ P (k, r) = true.
Proof.
  rewrite list_elem_of_fmap. split.
  - intros ([k' r] & -> & [HP%Is_true_true Hin%elem_of_range]%list_elem_of_filter). by exists r.
  - intros (r & Hm & HP). exists (k, r). split; [done|].
    apply list_elem_of_filter. split; [by apply Is_true_true|by apply elem_of_range].
Qed.

Lemma unconfigured_spec cur k r : unconfigured cur (k, r) = true ↔ Registries cur !! k = None.
Proof.
  unfold unconfigured. rewrite negb_true_iff, bool_decide_eq_false, eq_None_not_Some. done.
Qed.

Lemma cloneRegistries_id m : cloneRegistries m = m.
Proof.
  unfold cloneRegistries, clone_slice. simpl. rewrite <-(map_fmap_id m) at 2.
  apply map_fmap_ext. by intros i [].
Qed.

Lemma run_reconcile `{RangeOrder} w known cur s :
  ConfigStore.current (configStore s) = Some cur →
  run w (reconcileConfiguration known) s =
  (Registries cur, foldl (remove_step w cur) (foldl (schedule_step w known) s (range (Registries cur)))
                     (range known)).
Proof.
  intros Hcur. unfold reconcileConfiguration.
  cbn -[ConfigStore.Load for_each]. rewrite ConfigStore.Load_eq, Hcur.
  rewrite interp_bind. destruct (interp _ _ s) as [u s1] eqn:H1'.
  pose proof (interp_for_each (handle w) (range (Registries cur)) (schedule_configured known) s) as Hf.
  rewrite H1' in Hf. simpl in Hf. subst s1.
  rewrite interp_bind. destruct (interp _ _ (foldl _ s _)) as [u' s2] eqn:H2'.
  pose proof (interp_for_each (handle w) (range known) (remove_unconfigured cur)
    (foldl (λ s x, (run w (schedule_configured known x) s).2) s (range (Registries cur)))) as Hf.
  rewrite H2' in Hf. simpl in Hf. subst s2. simpl. f_equal.
  apply cloneRegistries_id.
Qed.

(** ** The leader loop of [Start] *)

(** [configurationChanges] is a channel of capacity one: full or empty. *)
Definition NotifyConfigurationChanged (full : bool) : bool := true.

Inductive loop_state :=
| Waiting
| Woken
| Reconciling (loaded : ConfigurationSnapshot * bool).

Record Leader := MkLeader {
  l_config : ConfigStore.Store;
  to_notify : bool;  (** a business change was applied and not notified yet *)
  channel : bool;
  loop : loop_state;
  known : gmap RegistryKey RegistryConfig
}.

Definition known_after (known : gmap RegistryKey RegistryConfig)
    (loaded : ConfigurationSnapshot * bool) : gmap RegistryKey RegistryConfig :=
  if loaded.2 then cloneRegistries (Registries loaded.1) else known.

Inductive leader_step : Leader → Leader → Prop :=
| ls_apply c l :
    to_notify l = false →
    leader_step l (MkLeader (ConfigStore.Apply (l_config l) c).2
                     (ConfigStore.BusinessChanged (ConfigStore.Apply (l_config l) c).1)
                     (channel l) (loop l) (known l))
| ls_notify l :
    to_notify l = true →
    leader_step l (MkLeader (l_config l) false (NotifyConfigurationChanged (channel l)) (loop l) (known l))
| ls_receive l :
    loop l = Waiting → channel l = true →
    leader_step l (MkLeader (l_config l) (to_notify l) false Woken (known l))
| ls_load l :
    loop l = Woken →
    leader_step l (MkLeader (l_config l) (to_notify l) (channel l)
                     (Reconciling (ConfigStore.Load (l_config l))) (known l))
| ls_finish l loaded :
    loop l = Reconciling loaded →
    leader_step l (MkLeader (l_config l) (to_notify l) (channel l) Waiting
                     (known_after (known l) loaded)).

(** [Start] reconciles before it enters the loop. *)
Definition leader_init (c : ConfigStore.Store) (known : gmap RegistryKey RegistryConfig) : Leader :=
  MkLeader c false false Woken known.

Definition in_sync (l : Leader) : Prop :=
  ∀ cur, ConfigStore.current (l_config l) = Some cur → known l = Registries cur.
(** The loaded snapshot is still the one in force, but for the tuning. *)
Definition up_to_date (l : Leader) (loaded : ConfigurationSnapshot * bool) : Prop :=
  ∀ cur, ConfigStore.current (l_config l) = Some cur →
    loaded.2 = true ∧ Registries loaded.1 = Registries cur.
Definition leader_inv (l : Leader) : Prop :=
  to_notify l = true ∨ channel l = true ∨ loop l = Woken ∨
  (∃ loaded, loop l = Reconciling loaded ∧ up_to_date l loaded) ∨ (loop l = Waiting ∧ in_sync l).

Lemma leader_step_inv l l' : leader_step l l' → leader_inv l → leader_inv l'.
Proof.
  unfold leader_inv. destruct 1 as [c l Hn|l Hn|l Hl Hc|l Hl|l loaded Hl]; simpl.
  - rewrite Hn. destruct (ConfigStore.BusinessChanged _) eqn:Hb; [by left|].
    destruct (ConfigStore.Apply_quiet _ _ Hb) as (old & cur & Hold & Hcur & Hr).
    intros [?|[?|[?|[(loaded & Hl & Hup)|[Hl Hs]]]]]; [done|by right; left|by do 2 right; left|..].
    + do 3 right. left. exists loaded. split; [done|]. intros cur' Hcur'. simpl in Hcur'.
      destruct (Hup old Hold) as [? ->]. split; [done|]. congruence.
    + do 4 right. split; [done|]. intros cur' Hcur'. simpl in *. rewrite (Hs old Hold). congruence.
  - intros _. right. by left.
  - intros _. do 2 right. by left.
  - intros _. do 3 right. left. eexists. split; [done|]. intros cur Hcur. simpl in *.
    rewrite ConfigStore.Load_eq. by rewrite Hcur.
  - rewrite Hl. intros [?|[?|[?|[(loaded' & [= <-] & Hup)|[? _]]]]]; [by left|by right; left|done| |done].
    do 4 right. split; [done|]. intros cur Hcur. simpl in *. destruct (Hup cur Hcur) as [H2 H1].
    unfold known_after. rewrite H2, H1. apply cloneRegistries_id.
Qed.

Lemma installed_spec o key r req token now s e s' :
  Key r = key → installed o key r req token now s = (e, s') →
  cred s' key = Some e ∧ MatchesRegistry e r = true ∧
  ExpiresAt (entry_Credential e) = tok_ExpiresAt token ∧
  lookup_u64 (forceRefreshRevision s') key = 0%Z ∧ configStore s' = configStore s ∧
  provider_calls s' = provider_calls s ++ [(req, Ok token)] ∧
  publishedRevisions s' = publishedRevisions s ∧ queue s' = queue s ∧
  credentialStore s' = (CredentialStore.Apply (credentialStore s) r
    (MkCredential (tok_Username token) (tok_Password token) now (tok_ExpiresAt token))).2.
Proof.
  intros Hk. unfold installed. simpl. intros [= <- <-]. unfold cred; simpl.
  rewrite Hk, lookup_insert_eq. split; [done|].
  split; [by apply (MatchesRegistry_Apply (credentialStore s) r)|]. split; [done|].
  unfold lookup_u64. by rewrite lookup_delete_eq.
Qed.

(** What serving an entry does: at most one publication, no provider call, and
    the next refresh is queued unless the publication failed. *)
Lemma publish_and_schedule_spec w key e d s :
  let '(res, s') := run w (publish_and_schedule key e d) s in
  provider_calls s' = provider_calls s ∧ credentialStore s' = credentialStore s ∧
  configStore s' = configStore s ∧ forceRefreshRevision s' = forceRefreshRevision s ∧
  match res with
  | Ok _ => isPublished s' key (Revision e) = true ∧ queue s' = queue s ++ [AddAfter key d] ∧
            publishes s' = publishes s ++ (if isPublished s key (Revision e) then [] else [Ok tt])
  | Err err => isPublished s key (Revision e) = false ∧ publishedRevisions s' = publishedRevisions s ∧
               queue s' = queue s ∧ publisher w ≠ Ok tt
  end.
Proof.
  rewrite run_publish_and_schedule. destruct (isPublished s key (Revision e)) eqn:Hp.
  - simpl. rewrite app_nil_r. done.
  - destruct (publisher w) as [[]|err] eqn:Hw; simpl; [|done].
    do 4 (split; [done|]). split; [|done].
    unfold isPublished; simpl. unfold lookup_u64. rewrite lookup_insert_eq. by apply bool_decide_eq_true.
Qed.

(** From any state the loop returns to its select, and then drains the channel. *)
Lemma leader_wait l :
  ∃ l', rtc leader_step l l' ∧ l_config l' = l_config l ∧ loop l' = Waiting.
Proof.
  destruct (loop l) as [| |loaded] eqn:Hl.
  - by exists l.
  - eexists. split; [eapply rtc_l; [by apply ls_load|]; 
      eapply rtc_l; [by apply ls_finish|]; constructor|by split].
  - eexists. split; [eapply rtc_l; [by apply ls_finish|]; constructor|by split].
Qed.

Definition settled (l l' : Leader) : Prop :=
  rtc leader_step l l' ∧ l_config l' = l_config l ∧
  to_notify l' = false ∧ channel l' = false ∧ loop l' = Waiting ∧ in_sync l'.

Lemma leader_receive l :
  loop l = Waiting → to_notify l = false → channel l = true → ∃ l', settled l l'.
Proof.
  intros Hl Hn Hc. eexists. split.
  - eapply rtc_l; [by apply ls_receive|]. eapply rtc_l; [by apply ls_load|].
    eapply rtc_l; [by apply ls_finish|]. constructor.
  - simpl. do 4 (split; [done|]). intros cur Hcur. simpl in *.
    unfold known_after. rewrite ConfigStore.Load_eq, Hcur. simpl. apply cloneRegistries_id.
Qed.

Lemma leader_drain l : loop l = Waiting → leader_inv l → ∃ l', settled l l'.
Proof.
  intros Hl Hinv. destruct (to_notify l) eqn:Hn.
  - destruct (leader_receive (MkLeader (l_config l) false (NotifyConfigurationChanged (channel l))
                                (loop l) (known l))) as (l' & Hs & Hrest); [done..|].
    exists l'. split; [|done]. eapply rtc_l; [by apply ls_notify|done].
  - destruct (channel l) eqn:Hc; [by apply leader_receive|].
    exists l. split; [constructor|]. do 4 (split; [done|]).
    destruct Hinv as [?|[?|[?|[(? & ? & _)|[_ ?]]]]]; [congruence..|done].
Qed.

(** ** Properties *)

(** C5.  Under any interleaving of workers on distinct keys with each other and
    with the rest of the process: a credential in the store always comes from a
    successful provider call for its own key, made with the AccessKey pair its
    fingerprint names, with a username and a password and more than
    [RefreshBefore] to live when it was installed; and a worker that finished
    its key made at most one provider call, and left the key rescheduled (Add,
    AddAfter or AddRateLimited) unless the registry was removed or the process
    is stopping. *)
Theorem workers_safe o keys s s' ts :
  NoDup keys → config_wf s → credentials_sound o s →
  rtc (pool_step exec environment) (s, workers o keys) (s', ts) →
  credentials_sound o s' ∧
  ∀ i key u, keys !! i = Some key → ts !! i = Some (Ret u) → worker_post key s u s'.
Proof.
  intros Hnd Hw Hs Hreach. destruct (workers_reach o keys Hnd s s' ts Hw Hreach) as [Hrtc Hpost].
  split; [by eapply reach_sound|]. intros i key u Hi. by apply (Hpost i key).
Qed.

(** While a credential is fresh, [refresh] never calls the provider: it
    publishes the Namespace events if this revision was not published yet, and
    queues the key for [RefreshBefore] before the expiry; when publishing fails
    it fails without queueing, and the credential stays. *)
Theorem refresh_fresh w o key r e s :
  fresh o s key r e (clock w) →
  let '(res, s') := run w (refresh o key) s in
  provider_calls s' = provider_calls s ∧ cred s' key = Some e ∧
  match res with
  | Ok _ => isPublished s' key (Revision e) = true ∧
      publishes s' = publishes s ++ (if isPublished s key (Revision e) then [] else [Ok tt]) ∧
      queue s' = queue s ++
        [AddAfter key (time_Sub (ExpiresAt (entry_Credential e) - RefreshBefore o) (clock w))]
  | Err _ => isPublished s key (Revision e) = false ∧ publisher w ≠ Ok tt ∧ queue s' = queue s
  end.
Proof.
  intros Hf. rewrite (run_fresh w o key r e s Hf).
  pose proof (publish_and_schedule_spec w key e
    (time_Sub (ExpiresAt (entry_Credential e) - RefreshBefore o) (clock w)) s) as Hp.
  destruct (run w _ s) as [[u|err] s']; destruct Hp as (? & Hc & _ & _ & Hp);
    unfold cred; rewrite Hc; (split; [done|]); (split; [apply Hf|]); tauto.
Qed.

(** When the credential is not fresh and the provider returns a valid
    token, one [refresh] makes exactly one provider call with the configured
    AccessKey pair and leaves the key fresh, whatever the publisher answers;
    so a later refresh inside the window only publishes and queues, and makes
    no provider call. *)
Theorem refresh_converges w w' o key r s token :
  let req := MkRequest key (AccessKeyID r) (AccessKeySecret r) in
  configured s key = Some r → Key r = key → (∀ e, ¬ fresh o s key r e (clock w)) →
  provider w req = Ok token → valid_token o token (clock w) →
  (clock w' < tok_ExpiresAt token - RefreshBefore o)%Z → publisher w' = Ok tt →
  let s1 := (run w (refresh o key) s).2 in
  let '(res, s2) := run w' (refresh o key) s1 in
  provider_calls s1 = provider_calls s ++ [(req, Ok token)] ∧
  provider_calls s2 = provider_calls s1 ∧ res = Ok tt ∧
  ∃ e, fresh o s1 key r e (clock w') ∧ cred s2 key = Some e ∧
    isPublished s2 key (Revision e) = true ∧
    queue s2 = queue s1 ++ [AddAfter key (time_Sub (tok_ExpiresAt token - RefreshBefore o) (clock w'))].
Proof.
  intros req Hr Hk Hn Hp Hv Hw' Hpub. cbv zeta.
  rewrite (run_not_fresh w o key r s Hr Hn), (run_acquire_valid w o key r s token Hr Hp Hv).
  fold req. destruct (installed o key r req token (clock w) s) as [e s0] eqn:Hi.
  destruct (installed_spec _ _ _ _ _ _ _ _ _ Hk Hi)
    as (Hcred & Hm & Hexp & Hforce & Hcfg & Hcalls & _).
  pose proof (publish_and_schedule_spec w key e
    (time_Sub (tok_ExpiresAt token - RefreshBefore o) (clock w)) s0) as Hs1.
  destruct (run w (publish_and_schedule key e _) s0) as [res1 s1]. cbn [snd].
  destruct Hs1 as (Hcalls1 & Hcr1 & Hcfg1 & Hf1 & _).
  assert (fresh o s1 key r e (clock w')) as Hfresh.
  { unfold fresh, configured, cred. rewrite Hcfg1, Hcr1, Hf1, Hcfg, Hexp. done. }
  rewrite (run_fresh w' o key r e s1 Hfresh), Hexp.
  pose proof (publish_and_schedule_spec w' key e
    (time_Sub (tok_ExpiresAt token - RefreshBefore o) (clock w')) s1) as Hs2.
  destruct (run w' _ s1) as [res2 s2]. destruct Hs2 as (Hcalls2 & Hcr2 & _ & _ & Hs2).
  split; [by rewrite Hcalls1|]. split; [done|].
  destruct res2 as [[]|err]; [|destruct Hs2 as (_ & _ & _ & ?); done].
  split; [done|]. exists e. destruct Hs2 as (? & ? & _). split; [done|].
  unfold cred. rewrite Hcr2. split; [apply Hfresh|done].
Qed.

(** C19.  [reconcileConfiguration], for every order in which Go ranges over the
    two maps: it records the snapshot's registries, queues exactly the keys that
    are new or whose AccessKey pair changed, forces a refresh of exactly the
    changed ones, and for exactly the keys that left the configuration it
    deletes the credential and the bookkeeping and forgets the queue's retries;
    without a loaded configuration it does nothing. *)
Theorem reconcileConfiguration_correct `{RangeOrder} w known s :
  let '(known', s') := run w (reconcileConfiguration known) s in
  match ConfigStore.current (configStore s) with
  | None => known' = known ∧ s' = s
  | Some cur =>
    known' = Registries cur ∧ provider_calls s' = provider_calls s ∧ publishes s' = publishes s ∧
    (∃ adds forgets, queue s' = queue s ++ (Add <$> adds) ++ (Forget <$> forgets) ∧
       (∀ k, k ∈ adds ↔ ∃ r, Registries cur !! k = Some r ∧ needs_acquisition known (k, r) = true) ∧
       (∀ k, k ∈ forgets ↔ is_Some (known !! k) ∧ Registries cur !! k = None)) ∧
    ∀ k, match Registries cur !! k with
         | Some r => cred s' k = cred s k ∧
             publishedRevisions s' !! k = publishedRevisions s !! k ∧
             forceRefreshRevision s' !! k =
               if changed known k r then Some (u64_succ (lookup_u64 (forceRefreshRevision s) k))
               else forceRefreshRevision s !! k
         | None =>
             match known !! k with
             | Some _ => cred s' k = None ∧ publishedRevisions s' !! k = None ∧
                         forceRefreshRevision s' !! k = None
             | None => cred s' k = cred s k ∧
                       publishedRevisions s' !! k = publishedRevisions s !! k ∧
                       forceRefreshRevision s' !! k = forceRefreshRevision s !! k
             end
         end
  end.
Proof.
  destruct (ConfigStore.current (configStore s)) as [cur|] eqn:Hcur.
  2: { unfold reconcileConfiguration. cbn -[ConfigStore.Load for_each].
       by rewrite ConfigStore.Load_eq, Hcur. }
  rewrite (run_reconcile w known cur s Hcur).
  destruct (schedule_loop w known (range (Registries cur)) s) as
    (Hcfg1 & Hcr1 & Hpub1 & Hcalls1 & Hps1 & Hq1 & Hout & Hin); [apply NoDup_range_fst|].
  set (s1 := foldl (schedule_step w known) s (range (Registries cur))) in *.
  destruct (remove_loop w cur (range known) s1) as (Hcfg2 & Hcalls2 & Hps2 & Hq2 & Hall).
  split; [done|]. rewrite Hcalls2, Hps2. split; [done|]. split; [done|]. split.
  - exists ((filter (needs_acquisition known) (range (Registries cur))).*1),
      ((filter (unconfigured cur) (range known)).*1).
    split; [by rewrite Hq2, Hq1, <-(assoc_L (++))|]. split.
    + intros k. apply elem_of_filter_fst.
    + intros k. rewrite elem_of_filter_fst. setoid_rewrite unconfigured_spec.
      split; [intros (r & Hr & Hn); by rewrite Hr|]. intros [[r Hr] Hn]. by exists r.
  - intros k. specialize (Hall k).
    assert (k ∈ (filter (unconfigured cur) (range known)).*1 ↔
            is_Some (known !! k) ∧ Registries cur !! k = None) as Hiff.
    { rewrite elem_of_filter_fst. setoid_rewrite unconfigured_spec.
      split; [intros (r & Hr & Hn); by rewrite Hr|]. intros [[r Hr] Hn]. by exists r. }
    assert (cred s1 k = cred s k) as Hc by (unfold cred; by rewrite Hcr1).
    destruct (Registries cur !! k) as [r|] eqn:Hr.
    + rewrite decide_False in Hall by (rewrite Hiff; by intros []).
      destruct Hall as (-> & -> & ->). rewrite Hc, Hpub1. do 2 (split; [done|]).
      apply Hin. by apply elem_of_range.
    + destruct (known !! k) as [p|] eqn:Hp.
      * rewrite decide_True in Hall by (rewrite Hiff; eauto). done.
      * rewrite decide_False in Hall by (rewrite Hiff; by intros [[] _]).
        destruct Hall as (-> & -> & ->). rewrite Hc, Hpub1, Hout; [done|].
        rewrite list_elem_of_fmap. intros ([k' r'] & -> & Hin'%elem_of_range). simpl in Hr. congruence.
Qed.

(** Notifications coalesce, and the last change still reaches the leader: in every
    state the leader loop can reach, if no change waits to be notified, the channel is
    empty and the loop waits, then the known registries are those of the
    current configuration; and the loop can always reach such a state by its
    own steps, without dropping the current configuration. *)
Theorem leader_in_sync c0 known0 l :
  rtc leader_step (leader_init c0 known0) l →
  (to_notify l = false → channel l = false → loop l = Waiting → in_sync l) ∧
  ∃ l', settled l l'.
Proof.
  intros Hreach.
  assert (leader_inv l) as Hinv.
  { refine (rtc_invariant _ _ _ _ leader_step_inv _ Hreach). do 2 right. by left. }
  split.
  { intros Hn Hc Hl. destruct Hinv as [?|[?|[?|[(? & ? & _)|[_ ?]]]]]; [congruence..|done]. }
  destruct (leader_wait l) as (l1 & Hs1 & Hcfg1 & Hl1).
  assert (leader_inv l1) as Hinv1
    by by refine (rtc_invariant _ _ _ _ leader_step_inv Hinv Hs1).
  destruct (leader_drain l1 Hl1 Hinv1) as (l' & Hs & Hcfg & Hrest).
  exists l'. split; [by etrans|]. by rewrite Hcfg, Hcfg1.
Qed.

Lemma run_acquire_calls w o key r force s :
  let req := MkRequest key (AccessKeyID r) (AccessKeySecret r) in
  provider_calls (run w (acquire o key r force) s).2 = provider_calls s ++ [(req, provider w req)].
Proof.
  intros req. unfold acquire. cbn -[loadRegistry publish_and_schedule drop_key]. fold req.
  destruct (provider w req) as [token|err]; [|done].
  rewrite interp_bind, run_loadRegistry.
  destruct (configured _ key) as [current|].
  2: { rewrite interp_bind. pose proof (run_drop_key w key (push_call s (req, Ok token))) as Hd.
       destruct (run w (drop_key key) _) as [u s']. simpl in Hd |- *. by rewrite Hd. }
  destruct (authenticationChanged r current); [done|].
  cbn -[publish_and_schedule validateToken].
  destruct (validateToken token (clock w) (RefreshBefore o)); [|done].
  cbn -[publish_and_schedule].
  match goal with |- context [interp _ (publish_and_schedule key ?e ?d) ?s0] =>
    pose proof (publish_and_schedule_spec w key e d s0) as Hp end.
  destruct (interp _ (publish_and_schedule _ _ _) _) as [res s']. destruct Hp as (Hc & _).
  simpl. rewrite Hc. unfold clearForceRefresh. by destruct (_ =? _)%Z.
Qed.

(** C20.  Rotating an AccessKey pair always reaches the provider, without relying
    on the fingerprint: after the leader reconciled a snapshot in which the pair
    of a known key changed, the next [refresh] of the key asks the provider with
    the new pair, however fresh the old credential is. *)
Theorem rotation_reacquires `{RangeOrder} w w' o known s cur key old r :
  ConfigStore.current (configStore s) = Some cur → Registries cur !! key = Some r →
  known !! key = Some old → authenticationChanged old r = true →
  (0 ≤ lookup_u64 (forceRefreshRevision s) key < u64_modulus - 1)%Z →
  let s1 := (run w (reconcileConfiguration known) s).2 in
  let req := MkRequest key (AccessKeyID r) (AccessKeySecret r) in
  provider_calls (run w' (refresh o key) s1).2 = provider_calls s ++ [(req, provider w' req)].
Proof.
  intros Hcur Hr Hold Hch Hf. cbv zeta. rewrite (run_reconcile w known cur s Hcur). cbn [snd].
  destruct (schedule_loop w known (range (Registries cur)) s) as
    (Hcfg1 & _ & _ & Hcalls1 & _ & _ & _ & Hin); [apply NoDup_range_fst|].
  set (s1 := foldl (schedule_step w known) s (range (Registries cur))) in *.
  destruct (remove_loop w cur (range known) s1) as (Hcfg2 & Hcalls2 & _ & _ & Hall).
  set (s2 := foldl (remove_step w cur) s1 (range known)) in *.
  assert (configured s2 key = Some r) as Hconf.
  { unfold configured. rewrite Hcfg2, Hcfg1, Hcur. done. }
  assert (forceRefreshRevision s2 !! key
          = Some (u64_succ (lookup_u64 (forceRefreshRevision s) key))) as Hforce.
  { specialize (Hall key). rewrite decide_False in Hall.
    - destruct Hall as (_ & _ & ->). rewrite (Hin key r) by by apply elem_of_range.
      unfold changed. rewrite Hold. simpl. by rewrite Hch.
    - rewrite elem_of_filter_fst. setoid_rewrite unconfigured_spec. intros (? & _ & ?). congruence. }
  rewrite (run_not_fresh w' o key r s2 Hconf).
  - rewrite run_acquire_calls, Hcalls2, Hcalls1. done.
  - intros e (_ & _ & _ & Hz & _). unfold lookup_u64 at 1 in Hz. rewrite Hforce in Hz.
    cbn [default from_option id] in Hz. unfold u64_succ in Hz.
    rewrite Z.mod_small in Hz by lia. lia.
Qed.

(** The options [NewScheduler] runs with: absent values take the defaults,
    the defaults are valid, an option set is accepted exactly when every given
    value is positive and the effective base delay does not exceed the effective
    maximum, and a scheduler is made exactly when, besides, no argument is nil;
    it starts with the completed options and nothing published, forced or
    queued. *)
Theorem scheduler_options_correct o config credentials provider publisher clock :
  let o' := withDefaults o in
  withDefaults o' = o' ∧
  validate (withDefaults (MkSchedulerOptions 0 0 0 0 0)) = Ok tt ∧
  (validate o' = Ok tt ↔
     (0 ≤ RefreshBefore o)%Z ∧ (0 ≤ RequestTimeout o)%Z ∧ (0 ≤ WorkerCount o)%Z ∧
     (0 ≤ RetryBaseDelay o)%Z ∧ (0 ≤ RetryMaxDelay o)%Z ∧
     (RetryBaseDelay o' ≤ RetryMaxDelay o')%Z) ∧
  ∀ made, NewScheduler config credentials provider publisher clock o = Ok made ↔
    ∃ c k, config = Some c ∧ credentials = Some k ∧ provider = true ∧ publisher = true ∧
      clock = true ∧ validate o' = Ok tt ∧ made = (o', MkState c k ∅ ∅ [] [] [] false).
Proof.
  assert (∀ v d, (0 < d)%Z → (0 < default_if_zero v d ↔ 0 ≤ v)%Z) as Hpos.
  { intros v d Hd. unfold default_if_zero. destruct (Z.eqb_spec v 0); lia. }
  assert (∀ v d, default_if_zero (default_if_zero v d) d = default_if_zero v d) as Hidem.
  { intros v d. unfold default_if_zero. by destruct (Z.eqb_spec v 0) as [|Hn]; [destruct (d =? 0)%Z|apply Z.eqb_neq in Hn as ->]. }
  cbv zeta. split; [|split; [done|split]].
  - unfold withDefaults; simpl. by rewrite !Hidem.
  - rewrite validate_spec. unfold valid_options; simpl. rewrite !Hpos by done.
    pose proof (Hpos (RetryMaxDelay o) DefaultRetryMaxDelay eq_refl).
    pose proof (Hpos (RetryBaseDelay o) DefaultRetryBaseDelay eq_refl). lia.
  - intros made. unfold NewScheduler. split.
    + destruct config as [c|]; [|done]. destruct credentials as [k|]; [|done].
      destruct provider, publisher, clock; cbn [negb]; try done.
      destruct (validate (withDefaults o)) as [[]|e]; [|done]. intros [= <-]. by exists c, k.
    + intros (c & k & -> & -> & -> & -> & -> & -> & ->). done.
Qed.

(** ** A concrete scheduler *)
Module SchedulerExample.
Definition r : RegistryConfig := MkRegistry "cn-hangzhou" "cri-1" "AKID" "SECRET" ["a.example.com"].
Definition key : RegistryKey := Key r.
Definition old : RegistryConfig := MkRegistry "cn-hangzhou" "cri-1" "OLDID" "SECRET" ["a.example.com"].
Definition options : SchedulerOptions := withDefaults (MkSchedulerOptions 0 0 0 0 0).
Definition token : Token := MkToken "cr_temp_user" "password" (60 * Minute)%Z.
Definition w : World := MkWorld 0 (λ _, Ok token) (Ok tt).
Definition w_later : World := MkWorld Minute (λ _, Err "throttled") (Ok tt).
Definition snapshot : ConfigurationSnapshot :=
  MkSnapshot 1 (MkSelector true []) [] (MkSelector true []) {[ key := r ]} zero_runtime.
Definition s0 : State :=
  MkState (ConfigStore.MkStore (Some snapshot) true) CredentialStore.empty ∅ ∅ [] [] [] false.
Definition s1 : State := (run w (refresh options key) s0).2.
Definition e1 : Entry := MkEntry (MkCredential "cr_temp_user" "password" 0 (60 * Minute)) 1
  (registryAuthenticationHash r).

Lemma s0_wf : config_wf s0.
Proof.
  intros snap [= <-] k r'. simpl. intros [<- <-]%lookup_singleton_Some. done.
Qed.
Lemma s0_configured : configured s0 key = Some r.
Proof. done. Qed.
Lemma s0_not_fresh e now : ¬ fresh options s0 key r e now.
Proof. intros (_ & He & _). done. Qed.
Lemma token_valid : valid_token options token 0.
Proof. split; [done|]. split; [done|]. vm_compute. done. Qed.

Lemma workers_safe_witness :
  let '(u, s') := run w (runWorker_body options key) s0 in
  credentials_sound options s' ∧
  ∀ i k u', [key] !! i = Some k → [Ret u : prog schedE ()] !! i = Some (Ret u') →
    worker_post k s0 u' s'.
Proof.
  pose proof (workers_safe options [key] s0 (run w (runWorker_body options key) s0).2
    [Ret (run w (runWorker_body options key) s0).1]) as H.
  destruct (run w (runWorker_body options key) s0) as [u s'] eqn:Hrun. apply H.
  - apply NoDup_singleton.
  - exact s0_wf.
  - intros k e He. done.
  - pose proof (pool_run exec environment (handle w) (runWorker_body options key) s0
      (workers options [key]) 0 (handle_exec w) eq_refl) as Hp.
    rewrite Hrun in Hp. exact Hp.
Defined.

Lemma refresh_converges_witness :
  let s1 := (run w (refresh options key) s0).2 in
  let '(res, s2) := run w_later (refresh options key) s1 in
  provider_calls s1 = [(MkRequest key "AKID" "SECRET", Ok token)] ∧
  provider_calls s2 = provider_calls s1 ∧ res = Ok tt ∧
  ∃ e, fresh options s1 key r e Minute ∧ cred s2 key = Some e ∧
    isPublished s2 key (Revision e) = true ∧
    queue s2 = queue s1 ++ [AddAfter key (time_Sub (60 * Minute - RefreshBefore options) Minute)].
Proof.
  exact (refresh_converges w w_later options key r s0 token s0_configured eq_refl
    (λ e, s0_not_fresh e 0) eq_refl token_valid eq_refl eq_refl).
Defined.

Lemma refresh_fresh_witness :
  fresh options s1 key r e1 Minute ∧
  let '(res, s') := run w_later (refresh options key) s1 in
  provider_calls s' = provider_calls s1 ∧ cred s' key = Some e1.
Proof.
  assert (fresh options s1 key r e1 Minute) as Hf.
  { split; [vm_compute; reflexivity|]. split; [vm_compute; reflexivity|].
    split; [vm_compute; reflexivity|]. split; vm_compute; reflexivity. }
  split; [exact Hf|].
  pose proof (refresh_fresh w_later options key r e1 s1 Hf) as H.
  destruct (run w_later (refresh options key) s1) as [res s'].
  destruct H as (H1 & H2 & _). exact (conj H1 H2).
Defined.

Lemma rotation_reacquires_witness :
  let s2 := (run w (reconcileConfiguration (H := range_forward) {[ key := old ]}) s0).2 in
  provider_calls (run w (refresh options key) s2).2
  = provider_calls s0 ++ [(MkRequest key "AKID" "SECRET", Ok token)].
Proof.
  refine (rotation_reacquires (H := range_forward) w w options {[ key := old ]} s0 snapshot key old r
    eq_refl eq_refl eq_refl eq_refl _).
  vm_compute. split; [discriminate|reflexivity].
Defined.

Lemma leader_in_sync_witness :
  let l := MkLeader (configStore s0) false false (Reconciling (ConfigStore.Load (configStore s0))) ∅ in
  (to_notify l = false → channel l = false → loop l = Waiting → in_sync l) ∧ ∃ l', settled l l'.
Proof.
  apply (leader_in_sync (configStore s0) ∅).
  eapply rtc_l; [by apply ls_load|]. apply rtc_refl.
Defined.
End SchedulerExample.
