(* ===== verification/WorkQueue.v ===== *)
(** * The delayed, rate-limited work queue the scheduler runs on

    The queue is client-go's: the scheduler only sees its interface.
    [WorkQueue] has the commands the scheduler gives it ([queue_command]), the
    handing out of a key to a worker and the passing of time; [WorkQueueLaws]
    states the documented behaviour the scheduler relies on.  [SimpleQueue] is
    a queue that behaves this way, for the concrete runs. *)
From S2P Require Import Prelude ConfigTypes Credential Scheduler.

Class WorkQueue (Q : Type) := {
  wq_run : Time → queue_command → Q → Q;
  wq_get : Q → RegistryKey → Q → Prop;
  wq_elapse : Time → Q → Q → Prop;
  (** The key waits in the queue, or a delay for it ends by the time. *)
  due : Q → RegistryKey → Time → Prop;
  (** The key was handed out and is not done. *)
  processing : Q → RegistryKey → Prop
}.

(** A command never takes a key out of the queue; only [Get] does, which hands
    out one key to one worker until its [Done]; a key added while it is
    processed waits for its [Done].  [AddAfter] waits at most its delay,
    [AddRateLimited] at most the largest backoff. *)
Class WorkQueueLaws (Q : Type) `{WorkQueue Q} (maxDelay : Duration) := {
  due_le q k t t' : due q k t → (t ≤ t')%Z → due q k t';
  due_run now c q k t : due q k t → due (wq_run now c q) k t;
  due_add now q k t : due (wq_run now (Add k) q) k t;
  due_add_after now d q k t : (now + d ≤ t)%Z → due (wq_run now (AddAfter k d) q) k t;
  due_add_rate_limited now q k t :
    (now + maxDelay ≤ t)%Z → due (wq_run now (AddRateLimited k) q) k t;
  due_get q k q' k' t : wq_get q k q' → k' ≠ k → due q k' t → due q' k' t;
  due_elapse now q q' k t : wq_elapse now q q' → due q k t → due q' k t;
  processing_run now c q k : processing (wq_run now c q) k ↔ processing q k ∧ c ≠ Done k;
  processing_get q k q' k' : wq_get q k q' → processing q' k' ↔ k' = k ∨ processing q k';
  processing_elapse now q q' k : wq_elapse now q q' → processing q' k ↔ processing q k;
  get_free q k q' : wq_get q k q' → ¬ processing q k
}.

(** ** A queue with these laws *)
Record SimpleQueue := MkSimpleQueue {
  waiting : gset RegistryKey;
  handed_out : gset RegistryKey;
  delays : gmap RegistryKey Time;  (** the earliest end of a delay of the key *)
  failures : gmap RegistryKey nat
}.

Section simple.
Context (baseDelay maxDelay : Duration).

Definition sq_add (k : RegistryKey) (q : SimpleQueue) : SimpleQueue :=
  MkSimpleQueue ({[ k ]} ∪ waiting q) (handed_out q) (delays q) (failures q).
Definition sq_add_after (now : Time) (k : RegistryKey) (d : Duration) (q : SimpleQueue) : SimpleQueue :=
  if (d <=? 0)%Z then sq_add k q
  else
    let ready := match delays q !! k with Some u => Z.min u (now + d) | None => (now + d)%Z end in
    MkSimpleQueue (waiting q) (handed_out q) (<[k := ready]> (delays q)) (failures q).

(** The exponential backoff of a key: [baseDelay * 2^failures], capped. *)
Definition backoff (q : SimpleQueue) (k : RegistryKey) : Duration :=
  Z.min (baseDelay * 2 ^ Z.of_nat (default 0 (failures q !! k))) maxDelay.

Definition sq_run (now : Time) (c : queue_command) (q : SimpleQueue) : SimpleQueue :=
  match c with
  | Add k => sq_add k q
  | AddAfter k d => sq_add_after now k d q
  | AddRateLimited k =>
    sq_add_after now k (backoff q k)
      (MkSimpleQueue (waiting q) (handed_out q) (delays q)
         (<[k := S (default 0 (failures q !! k))]> (failures q)))
  | Forget k => MkSimpleQueue (waiting q) (handed_out q) (delays q) (delete k (failures q))
  | Done k => MkSimpleQueue (waiting q) (handed_out q ∖ {[ k ]}) (delays q) (failures q)
  end.

Definition sq_get (q : SimpleQueue) (k : RegistryKey) (q' : SimpleQueue) : Prop :=
  k ∈ waiting q ∧ k ∉ handed_out q ∧
  q' = MkSimpleQueue (waiting q ∖ {[ k ]}) ({[ k ]} ∪ handed_out q) (delays q) (failures q).
Definition sq_elapse (now : Time) (q q' : SimpleQueue) : Prop :=
  ∃ k u, delays q !! k = Some u ∧ (u ≤ now)%Z ∧
    q' = MkSimpleQueue ({[ k ]} ∪ waiting q) (handed_out q) (delete k (delays q)) (failures q).
Definition sq_due (q : SimpleQueue) (k : RegistryKey) (t : Time) : Prop :=
  k ∈ waiting q ∨ ∃ u, delays q !! k = Some u ∧ (u ≤ t)%Z.

#[export] Instance simple_queue : WorkQueue SimpleQueue :=
  { wq_run := sq_run; wq_get := sq_get; wq_elapse := sq_elapse; due := sq_due;
    processing q k := k ∈ handed_out q }.

Lemma sq_due_add_after now d q k k' t :
  (k' = k ∧ now + d ≤ t)%Z ∨ sq_due q k' t → sq_due (sq_add_after now k d q) k' t.
Proof.
  unfold sq_add_after, sq_add, sq_due. intros H.
  destruct (Z.leb_spec d 0); simpl; [set_solver|].
  destruct (decide (k' = k)) as [->|Hne]; [rewrite lookup_insert_eq|rewrite lookup_insert_ne by done].
  - destruct H as [[_ Ht]|[?|(u & Hu & Hle)]]; [right|by left|right].
    + eexists. split; [done|]. destruct (delays q !! k); lia.
    + rewrite Hu. eexists. split; [done|lia].
  - destruct H as [[? _]|?]; done.
Qed.

#[export] Instance simple_queue_laws : WorkQueueLaws SimpleQueue maxDelay.
Proof.
  split; simpl.
  - intros q k t t' [?|(u & ? & ?)] ?; [by left|right]. exists u. split; [done|lia].
  - intros now [j|j d|j|j|j] q k t Hd; simpl; try exact Hd.
    + destruct Hd; [left; simpl; set_solver|by right].
    + apply sq_due_add_after. by right.
    + apply sq_due_add_after. by right.
  - intros now q k t. left. simpl. set_solver.
  - intros now d q k t ?. apply sq_due_add_after. by left.
  - intros now q k t ?. apply sq_due_add_after. left. split; [done|]. unfold backoff. lia.
  - intros q k q' k' t (_ & _ & ->) Hne [?|?]; [left|by right]. simpl. set_solver.
  - intros now q q' k t (j & u & Hj & Hu & ->) [?|(v & Hv & ?)]; [left; simpl; set_solver|].
    destruct (decide (k = j)) as [->|Hne]; [left; simpl; set_solver|right].
    exists v. simpl. by rewrite lookup_delete_ne.
  - intros now [j|j d|j|j|j] q k; simpl; unfold sq_add_after;
      repeat case_match; simpl; try (split; [by intros ?|by intros []]).
    rewrite elem_of_difference, elem_of_singleton. split; intros [? ?]; split; try done; congruence.
  - intros q k q' k' (_ & _ & ->). simpl. set_solver.
  - intros now q q' k (j & u & _ & _ & ->). done.
  - intros q k q' (_ & ? & _). done.
Qed.
End simple.
