(* ===== verification/SchedulerSystem.v ===== *)
(** * The running scheduler

    [Start] as a whole: the leader goroutine with its channel, the workers of
    [runWorker], the work queue between them, the clock, and the configuration
    that changes beside them.  Every call of every goroutine is one step; the
    programs are those of Scheduler.v. *)
From S2P Require Import Prelude Prog GoStrings ConfigTypes ConfigStore Encoding Credential.
From S2P Require Import Scheduler SchedulerTheory SchedulerCorrect WorkQueue.

(** ** What the goroutines share *)
Record Shared (Q : Type) := MkShared {
  process : State;
  time : Time;
  work : Q
}.
Arguments MkShared {Q} _ _ _.
Arguments process {Q} _.
Arguments time {Q} _.
Arguments work {Q} _.

(** A worker that took a key out of the queue at [since]. *)
Record Job := MkJob {
  job_key : RegistryKey;
  since : Time;
  rest : prog schedE ()
}.

Record Running (Q : Type) := MkRunning {
  shared : Shared Q;
  jobs : gmap nat Job;
  knownRegistries : gmap RegistryKey RegistryConfig;
  (** [reconcileConfiguration] in progress; [None] at the select. *)
  leading : option (prog schedE (gmap RegistryKey RegistryConfig));
  configurationChanges : bool;
  notifying : bool  (** a business change was applied and not notified yet *)
}.
Arguments MkRunning {Q} _ _ _ _ _ _.
Arguments shared {Q} _.
Arguments jobs {Q} _.
Arguments knownRegistries {Q} _.
Arguments leading {Q} _.
Arguments configurationChanges {Q} _.
Arguments notifying {Q} _.

(** The command a call gives to the queue. *)
Definition command {X} (ev : schedE X) : option queue_command :=
  match ev with
  | QueueAdd k => Some (Add k)
  | QueueAddAfter k d => Some (AddAfter k d)
  | QueueAddRateLimited k => Some (AddRateLimited k)
  | QueueForget k => Some (Forget k)
  | QueueDone k => Some (Done k)
  | _ => None
  end.
Definition reads_clock {X} (ev : schedE X) : Time → X → Prop :=
  match ev in schedE X return Time → X → Prop with
  | Now => λ t x, x = t
  | _ => λ _ _, True
  end.

Section system.
Context {Q : Type} `{WorkQueue Q}.

(** One call, with the queue and the clock at work. *)
Definition exec_shared (X : Type) (ev : schedE X) (s : Shared Q) (x : X) (s' : Shared Q) : Prop :=
  exec X ev (process s) x (process s') ∧ reads_clock ev (time s) x ∧ time s' = time s ∧
  work s' = from_option (λ c, wq_run (time s) c (work s)) (work s) (command ev).

Definition with_configuration (s : Shared Q) (c : ConfigStore.Store) : Shared Q :=
  MkShared (MkState c (credentialStore (process s)) (publishedRevisions (process s))
              (forceRefreshRevision (process s)) (provider_calls (process s))
              (publishes (process s)) (queue (process s)) (contextEnded (process s)))
    (time s) (work s).
Definition end_context (s : Shared Q) : Shared Q :=
  MkShared (MkState (configStore (process s)) (credentialStore (process s))
              (publishedRevisions (process s)) (forceRefreshRevision (process s))
              (provider_calls (process s)) (publishes (process s)) (queue (process s)) true)
    (time s) (work s).
Definition with_shared (p : Running Q) (s : Shared Q) : Running Q :=
  MkRunning s (jobs p) (knownRegistries p) (leading p) (configurationChanges p) (notifying p).
Definition with_jobs (p : Running Q) (s : Shared Q) (js : gmap nat Job) : Running Q :=
  MkRunning s js (knownRegistries p) (leading p) (configurationChanges p) (notifying p).

(** The configuration reconciler: it notifies what is a business change. *)
Definition apply_configuration (p : Running Q) (c : ConfigurationSnapshot) : Running Q :=
  let '(r, store) := ConfigStore.Apply (configStore (process (shared p))) c in
  MkRunning (with_configuration (shared p) store) (jobs p) (knownRegistries p) (leading p)
    (configurationChanges p) (ConfigStore.BusinessChanged r).

Context `{RangeOrder} (o : SchedulerOptions).
(** No worker holds a key longer than [handling]. *)
Context (handling : Duration).
(** The snapshots that are applied during the run. *)
Context (allowed : ConfigurationSnapshot → Prop).

Definition in_time (p : Running Q) (t : Time) : Prop :=
  ∀ i j, jobs p !! i = Some j → (t ≤ since j + handling)%Z.

Inductive sched_step : Running Q → Running Q → Prop :=
(** the configuration reconciler, which applies first and notifies next *)
| sched_apply p c :
    allowed c → notifying p = false →
    sched_step p (apply_configuration p c)
| sched_notify p :
    notifying p = true →
    sched_step p (MkRunning (shared p) (jobs p) (knownRegistries p) (leading p)
                    (NotifyConfigurationChanged (configurationChanges p)) false)
(** time *)
| sched_tick p t :
    (time (shared p) ≤ t)%Z → in_time p t →
    sched_step p (with_shared p (MkShared (process (shared p)) t (work (shared p))))
| sched_elapse p q :
    wq_elapse (time (shared p)) (work (shared p)) q →
    sched_step p (with_shared p (MkShared (process (shared p)) (time (shared p)) q))
| sched_end p : sched_step p (with_shared p (end_context (shared p)))
(** the leader goroutine *)
| sched_receive p :
    leading p = None → configurationChanges p = true →
    sched_step p (MkRunning (shared p) (jobs p) (knownRegistries p)
                    (Some (reconcileConfiguration (knownRegistries p))) false (notifying p))
| sched_lead p X (ev : schedE X) k x s :
    leading p = Some (Vis ev k) → exec_shared X ev (shared p) x s →
    sched_step p (MkRunning s (jobs p) (knownRegistries p) (Some (k x))
                    (configurationChanges p) (notifying p))
| sched_led p known :
    leading p = Some (Ret known) →
    sched_step p (MkRunning (shared p) (jobs p) known None (configurationChanges p) (notifying p))
(** the workers *)
| sched_get p i key q :
    (i < Z.to_nat (WorkerCount o))%nat → jobs p !! i = None → wq_get (work (shared p)) key q →
    sched_step p (with_jobs p (MkShared (process (shared p)) (time (shared p)) q)
                    (<[i := MkJob key (time (shared p)) (runWorker_body o key)]> (jobs p)))
| sched_work p i key t X (ev : schedE X) k x s :
    jobs p !! i = Some (MkJob key t (Vis ev k)) → exec_shared X ev (shared p) x s →
    sched_step p (with_jobs p s (<[i := MkJob key t (k x)]> (jobs p)))
| sched_return p i key t u :
    jobs p !! i = Some (MkJob key t (Ret u)) →
    sched_step p (with_jobs p (shared p) (delete i (jobs p))).

(** [Start]: the leader reconciles before it enters the loop. *)
Definition start (st : State) (now : Time) (q : Q) : Running Q :=
  MkRunning (MkShared st now q) ∅ ∅ (Some (reconcileConfiguration ∅)) false false.
End system.
