(* ===== verification/SchedulerSystemTheory.v ===== *)
(** * Following one registry through the running scheduler

    A key that stays configured is followed through the run: whatever the other
    goroutines do, it is always either with a worker or due in the queue, in
    time for the end of the credential being served. *)
From S2P Require Import Prelude Prog GoStrings ConfigTypes ConfigStore Encoding Credential.
From S2P Require Import Scheduler SchedulerTheory SchedulerRun SchedulerCorrect WorkQueue SchedulerSystem.

Section followed.
Context {Q : Type} `{WorkQueue Q} (o : SchedulerOptions) `{!WorkQueueLaws Q (RetryMaxDelay o)}.
Context `{RangeOrder} (handling : Duration) (key : RegistryKey) (base : list queue_command).

(** ** What is kept *)
Definition config_good (s : Shared Q) : Prop :=
  config_wf (process s) ∧ is_Some (configured (process s) key) ∧
  base `prefix_of` queue (process s).
(** The key was added to the queue since the commands [base]. *)
Definition adopted (s : Shared Q) : Prop :=
  ∃ l, queue (process s) = base ++ l ∧ Add key ∈ l.
(** The key is due again: within the largest backoff, or by the refresh time of
    the credential it serves. *)
Definition covered (s : Shared Q) : Prop :=
  ∃ t, due (work s) key t ∧
    ((t ≤ time s + RetryMaxDelay o)%Z ∨
     ∃ e, cred (process s) key = Some e ∧
       (t ≤ ExpiresAt (entry_Credential e) - RefreshBefore o + handling)%Z).

(** A step that leaves the configuration, the clock and the queue's promises
    alone, ... *)
Definition still (s s' : Shared Q) : Prop :=
  configStore (process s') = configStore (process s) ∧ time s' = time s ∧
  queue (process s) `prefix_of` queue (process s') ∧
  contextEnded (process s') = contextEnded (process s) ∧
  (∀ k t, due (work s) k t → due (work s') k t) ∧
  (∀ k, processing (work s') k ↔ processing (work s) k) ∧
  (adopted s' → adopted s ∨ covered s').
(** ... and the key's credential. *)
Definition calm (s s' : Shared Q) : Prop :=
  still s s' ∧ cred (process s') key = cred (process s) key.

(** What a worker that took [k] at [t0] relies on, and what it does. *)
Definition job_rely (k : RegistryKey) (t0 : Time) (s s' : Shared Q) : Prop :=
  (time s ≤ time s')%Z ∧ ((time s ≤ t0 + handling)%Z → (time s' ≤ t0 + handling)%Z) ∧
  (config_wf (process s) → config_wf (process s')) ∧
  (k = key → (is_Some (configured (process s) key) → is_Some (configured (process s') key)) ∧
             cred (process s') key = cred (process s) key ∧
             ∀ t, due (work s) key t → due (work s') key t).
Definition job_guarantee (k : RegistryKey) (s s' : Shared Q) : Prop :=
  still s s' ∧ (k ≠ key → cred (process s') key = cred (process s) key).

#[export] Instance job_rely_preorder k t0 : PreOrder (job_rely k t0).
Proof.
  split.
  - intros s. split; [lia|]. by do 2 (split; [done|]).
  - intros s1 s2 s3 (Ht1 & Hb1 & Hg1 & Hk1) (Ht2 & Hb2 & Hg2 & Hk2).
    split; [lia|]. split; [auto|]. split; [auto|].
    intros Hk. destruct (Hk1 Hk) as (Ho1 & Hc1 & Hd1), (Hk2 Hk) as (Ho2 & Hc2 & Hd2).
    split; [auto|]. split; [congruence|auto].
Qed.

Lemma still_good s s' : still s s' → config_good s → config_good s'.
Proof.
  intros (Hc & _ & Hq & _). unfold config_good, config_wf, configured. rewrite Hc.
  intros (? & ? & ?). split; [done|]. split; [done|]. by etrans.
Qed.

Lemma guarantee_job_rely k k' t0 s s' :
  k ≠ key ∨ k' ≠ key → job_guarantee k s s' → job_rely k' t0 s s'.
Proof.
  intros Hne [Hs Hcr]. destruct Hs as (Hc & Ht & Hq & _ & Hd & _). unfold job_rely, config_wf, configured.
  rewrite Hc. split; [lia|]. split; [lia|]. split; [done|]. split; [done|].
  destruct Hne as [Hne|]; [|done]. split; [by apply Hcr|apply Hd].
Qed.
Lemma calm_job_rely k t0 s s' : calm s s' → job_rely k t0 s s'.
Proof.
  intros [Hs Hcr]. destruct Hs as (Hc & Ht & Hq & _ & Hd & _). unfold job_rely, config_wf, configured.
  rewrite Hc. split; [lia|]. split; [lia|]. split; [done|]. intros _. split; [done|]. split; [done|apply Hd].
Qed.
Lemma calm_guarantee k s s' : calm s s' → job_guarantee k s s'.
Proof. by intros [??]. Qed.

Lemma covered_job_rely k t0 s s' : k = key → job_rely k t0 s s' → covered s → covered s'.
Proof.
  intros Heq (Ht & _ & _ & Hk) (t & Hd & Hb). destruct (Hk Heq) as (_ & Hc & Hdue). exists t.
  split; [by apply Hdue|]. rewrite Hc. destruct Hb as [?|?]; [left; lia|by right].
Qed.
Lemma covered_now s : (0 ≤ RetryMaxDelay o)%Z → due (work s) key (time s) → covered s.
Proof. intros Hpos Hd. exists (time s). split; [done|left; lia]. Qed.

(** ** Single calls *)
Definition plain {X} (ev : schedE X) : Prop :=
  match ev with
  | DeleteCredential k => k ≠ key
  | ApplyCredential r _ => Key r ≠ key
  | QueueDone _ => False
  | _ => True
  end.

Hypothesis Hmax : (0 ≤ RetryMaxDelay o)%Z.

(** What a call that is not a [Done] does, but for the key's credential. *)
Lemma exec_still {X} (ev : schedE X) s x s' :
  (∀ k, command ev ≠ Some (Done k)) → exec_shared X ev s x s' → still s s'.
Proof.
  intros Hdone (He & _ & Ht & Hw).
  assert (configStore (process s') = configStore (process s) ∧
    contextEnded (process s') = contextEnded (process s) ∧
    queue (process s') = queue (process s) ++ from_option (λ c, [c]) [] (command ev))
    as (Hc & Hctx & Hq).
  { destruct ev; simpl in He |- *; rewrite ?app_nil_r;
      repeat match goal with Hx : _ ∧ _ |- _ => destruct Hx end;
      try match goal with Hx : process s' = _ |- _ => rewrite Hx; clear Hx end; try done.
    unfold clearForceRefresh. by destruct (_ =? _)%Z. }
  split; [done|]. split; [done|]. split; [rewrite Hq; by eexists|]. split; [done|].
  split; [|split].
  - intros k t Hd. rewrite Hw. destruct (command ev); [by apply due_run|done].
  - intros k. rewrite Hw. destruct (command ev) as [c|] eqn:Hcmd; [|done]. simpl.
    rewrite processing_run. split; [by intros []|]. intros ?. split; [done|].
    intros ->. by apply (Hdone k).
  - intros (l & Hl & Hin). rewrite Hq in Hl. destruct (command ev) as [c|] eqn:Hcmd; simpl in Hl.
    2: { left. exists l. by rewrite app_nil_r in Hl. }
    destruct l as [|c' l _] using rev_ind; [by apply not_elem_of_nil in Hin|].
    rewrite (assoc_L (++)) in Hl. apply app_inj_tail in Hl as [Hl <-].
    apply elem_of_app in Hin as [Hin|Hin]; [left; by exists l|right].
    apply list_elem_of_singleton in Hin as <-. apply covered_now; [done|]. rewrite Hw. apply due_add.
Qed.

Lemma exec_plain {X} (ev : schedE X) s x s' : plain ev → exec_shared X ev s x s' → calm s s'.
Proof.
  intros Hp He. split.
  { apply (exec_still ev s x); [|done]. intros k Hk. by destruct ev; simplify_eq/=. }
  destruct He as (He & _). unfold cred.
  destruct ev; simpl in He, Hp; try done;
    repeat match goal with Hx : _ ∧ _ |- _ => destruct Hx end;
    try match goal with Hx : process s' = _ |- _ => rewrite Hx; clear Hx end; try done.
  - match goal with Hx : (_, credentialStore _) = _ |- _ => injection Hx as _ -> end. simpl.
    by rewrite lookup_insert_ne.
  - match goal with Hx : (_, credentialStore _) = _ |- _ => revert Hx end.
    unfold CredentialStore.Delete. case_match; intros [= _ ->]; simpl; [|done].
    by rewrite lookup_delete_ne.
  - unfold clearForceRefresh. by destruct (_ =? _)%Z.
Qed.
(** ** refresh *)
Section job.
Context (k : RegistryKey) (t0 : Time).
Abbreviation spec := (rg exec_shared (job_rely k t0) (job_guarantee k)).

(** The worker took the key at [t0] and is within its time. *)
Definition on_time (s : Shared Q) : Prop :=
  config_wf (process s) ∧ (k = key → is_Some (configured (process s) key)) ∧
  (t0 ≤ time s ≤ t0 + handling)%Z.
Definition refreshed (r : result refresh_error ()) (s : Shared Q) : Prop :=
  k = key → r = Ok tt → covered s.

Lemma on_time_rely s s' : job_rely k t0 s s' → on_time s → on_time s'.
Proof.
  intros (Ht & Hb & Hg & Hk) (? & Ho & ? & ?). split; [auto|]. split; [|split; [lia|auto]].
  intros Heq. by apply Hk, Ho.
Qed.

Lemma rg_plain {X A} (ev : schedE X) (c : X → prog schedE A) s Φ :
  plain ev →
  (∀ x s1 s2, job_rely k t0 s s1 → exec_shared X ev s1 x s2 → job_rely k t0 s s2 →
     spec (c x) s2 Φ) →
  spec (Vis ev c) s Φ.
Proof.
  intros Hp Hk s1 HR x s2 He. pose proof (exec_plain ev s1 x s2 Hp He) as Hc.
  split; [by apply calm_guarantee|]. apply (Hk x s1); [done..|].
  etrans; [done|]. by apply calm_job_rely.
Qed.

Lemma rg_drop_key s : k ≠ key → spec (drop_key k) s (λ _ _, True).
Proof.
  intros Hne. apply rg_plain; [done|]. intros _ ? ? _ _ _. apply rg_plain; [done|].
  intros _ ? ? _ _ _. apply rg_plain; [done|]. by intros _ ? ? _ _ _ ? _.
Qed.

Lemma rg_loadRegistry s :
  on_time s →
  spec (loadRegistry k) s (λ x s', job_rely k t0 s s' ∧ on_time s' ∧
    (∀ r, x = Some r → Key r = k) ∧ (x = None → k ≠ key)).
Proof.
  intros Hs. apply rg_plain; [done|]. intros [snap loaded] s1 s2 HR1 He HR2 s3 HR3.
  assert (job_rely k t0 s s3) as HR by (by etrans). split; [done|].
  split; [by eapply on_time_rely|].
  destruct (on_time_rely s s1 HR1 Hs) as (Hwf & Ho & _).
  destruct He as ([Hload _] & _). rewrite ConfigStore.Load_eq in Hload.
  unfold config_wf, configured in *. destruct (ConfigStore.current _) as [cur|] eqn:Hcur;
    injection Hload as -> ->; simpl in *.
  - split; [intros r; by apply Hwf|]. intros Hn Hk. destruct (Ho Hk) as [r0 Hr0]. congruence.
  - split; [done|]. intros _ Hk. by destruct (Ho Hk).
Qed.

(** The delay was computed from a clock reading [now] of this worker. *)
Lemma rg_publish_and_schedule s e now :
  on_time s → (t0 ≤ now)%Z → (k = key → cred (process s) key = Some e) →
  let refreshAt := (ExpiresAt (entry_Credential e) - RefreshBefore o)%Z in (now < refreshAt)%Z →
  spec (publish_and_schedule k e (time_Sub refreshAt now)) s refreshed.
Proof.
  intros Hs Hnow Hcred refreshAt Hlt.
  assert (∀ s1, job_rely k t0 s s1 →
    spec (_ ← call (QueueAddAfter k (time_Sub refreshAt now)); mret (Ok tt) : prog schedE (result refresh_error ()))
      s1 refreshed) as Hadd.
  { intros s1 HR1. apply rg_plain; [done|]. intros [] s2 s3 HR2 He HR3 s4 HR4 Hk _.
    apply (covered_job_rely k t0 s3); [done..|]. exists (refreshAt + handling)%Z.
    destruct He as (_ & _ & Ht3 & Hw3). rewrite Hw3.
    assert (job_rely k t0 s s2) as HR by (by transitivity s1).
    destruct (on_time_rely s s2 HR Hs) as (_ & _ & _ & Hle). split.
    - rewrite <-Hk. apply due_add_after. unfold time_Sub, min_int64, max_int64. lia.
    - right. exists e. split; [|unfold refreshAt; lia]. rewrite <-(Hcred Hk).
      assert (job_rely k t0 s s3) as (_ & _ & _ & Hown)
        by (by transitivity s1). by apply Hown. }
  apply rg_plain; [done|]. intros published s1 s2 HR1 _ HR2. destruct published; [by apply Hadd|].
  apply rg_plain; [done|]. intros [u|err] s3 s4 HR3 _ HR4.
  - apply rg_plain; [done|]. intros _ s5 s6 _ _ HR6. apply Hadd. by do 2 (etrans; [done|]).
  - by intros s5 _ _.
Qed.

Lemma rg_acquire s r force : on_time s → Key r = k → spec (acquire o k r force) s refreshed.
Proof.
  intros Hs Hkey. apply rg_plain; [done|]. intros token s1 s2 HR1 _ HR2.
  pose proof (on_time_rely _ _ HR2 Hs) as Hs2. destruct token as [token|err]; [|by intros ? _ _].
  apply rg_bind; [reflexivity|]. eapply rg_mono; [|by apply rg_loadRegistry].
  intros current s3 (HR3 & Hs3 & Hcur & Hnone). destruct current as [current|].
  2: { apply rg_bind; [reflexivity|]. eapply rg_mono; [|by apply rg_drop_key, Hnone].
       intros _ s4 _ s5 _ Hk. by destruct (Hnone eq_refl). }
  destruct (authenticationChanged r current).
  { apply rg_plain; [done|]. intros _ s4 s5 _ _ HR5. apply rg_plain; [done|].
    intros [] s6 s7 _ (_ & _ & _ & Hw) _ s8 HR8 Hk _.
    apply (covered_job_rely k t0 s7); [done..|]. apply covered_now; [done|].
    rewrite Hw, <-Hk. apply due_add. }
  apply rg_plain; [done|]. intros now s4 s5 HR4 (_ & -> & Ht5 & _) HR5.
  pose proof (on_time_rely _ _ HR5 Hs3) as Hs5. rewrite <-Ht5.
  destruct (validateToken token (time s5) (RefreshBefore o)) as [[]|err] eqn:Hv; [|by intros ? _ _].
  apply validateToken_spec in Hv as (_ & _ & Hexp).
  intros s6 HR6 entry s7 He. assert (still s6 s7) as Hstill by (by eapply exec_still; [|exact He]).
  destruct He as ([Happly _] & _). injection Happly as Hentry Hstore.
  assert (job_guarantee k s6 s7) as HG.
  { split; [done|]. intros Hne. unfold cred. rewrite Hstore, (Hcur current eq_refl). simpl.
    by rewrite lookup_insert_ne. }
  split; [done|].
  assert (on_time s7) as Hs7.
  { pose proof (on_time_rely _ _ HR6 Hs5) as Hs6. destruct Hstill as (Hc & Ht & _).
    unfold on_time, config_wf, configured in *. by rewrite Hc, Ht. }
  assert (k = key → cred (process s7) key = Some entry) as Hcred.
  { intros Hk. unfold cred. rewrite Hstore, (Hcur current eq_refl), Hk, Hentry. apply lookup_insert_eq. }
  apply rg_plain; [done|]. intros _ s8 s9 HR8 _ HR9.
  assert (ExpiresAt (entry_Credential entry) = tok_ExpiresAt token) as Hend by by rewrite Hentry.
  unfold time_Add. rewrite Z.add_opp_r, <-Hend. apply rg_publish_and_schedule.
  - by eapply on_time_rely.
  - apply Hs5.
  - intros Hk. rewrite <-(Hcred Hk). by apply HR9.
  - lia.
Qed.

Lemma rg_refresh s : on_time s → spec (refresh o k) s refreshed.
Proof.
  intros Hs. apply rg_bind; [reflexivity|]. eapply rg_mono; [|by apply rg_loadRegistry].
  intros registry s1 (HR1 & Hs1 & Hreg & Hnone). destruct registry as [r|].
  2: { apply rg_bind; [reflexivity|]. eapply rg_mono; [|by apply rg_drop_key, Hnone].
       intros _ s2 _ s3 _ Hk. by destruct (Hnone eq_refl). }
  apply rg_plain; [done|]. intros now s2 s3 HR2 (_ & -> & Ht3 & _) HR3.
  pose proof (on_time_rely _ _ HR3 Hs1) as Hs3.
  apply rg_plain; [done|]. intros force s4 s5 _ _ HR5. pose proof (on_time_rely _ _ HR5 Hs3) as Hs5.
  apply rg_plain; [done|]. intros found s6 s7 HR6 He HR7. pose proof (on_time_rely _ _ HR7 Hs5) as Hs7.
  destruct found as [e|]; [|by apply rg_acquire, Hreg].
  cbv zeta. destruct (_ && _ && After _ _) eqn:Hb; [|by apply rg_acquire, Hreg].
  apply andb_true_iff in Hb as [_ Hafter]. unfold After, time_Add in Hafter. apply Z.ltb_lt in Hafter.
  unfold time_Add. rewrite Z.add_opp_r in *. apply rg_publish_and_schedule; [done| |..].
  - rewrite <-Ht3. apply Hs3.
  - intros Hk. destruct He as ([Hload Hp] & _). rewrite Hp. unfold cred. by rewrite Hload, <-Hk.
  - done.
Qed.
End job.
(** ** The leader *)
Definition leader_rely (s s' : Shared Q) : Prop :=
  (config_good s → config_good s') ∧ queue (process s) `prefix_of` queue (process s').

Lemma leader_rely_refl s : leader_rely s s.
Proof. done. Qed.
Lemma adopted_prefix s s' :
  queue (process s) `prefix_of` queue (process s') → adopted s → adopted s'.
Proof. intros [l Hl] (l1 & Hl1 & ?). exists (l1 ++ l). rewrite Hl, Hl1, (assoc_L (++)). split; [done|set_solver]. Qed.

Abbreviation lspec := (rg exec_shared leader_rely calm).

Lemma rg_leader_plain {X A} (ev : schedE X) (c : X → prog schedE A) s Φ :
  plain ev →
  (∀ x s1 s2, leader_rely s s1 → exec_shared X ev s1 x s2 → leader_rely s s2 → lspec (c x) s2 Φ) →
  lspec (Vis ev c) s Φ.
Proof.
  intros Hp Hk s1 HR x s2 He. pose proof (exec_plain ev s1 x s2 Hp He) as Hc. split; [done|].
  apply (Hk x s1); [done..|]. destruct HR as [Hg Hq], Hc as [Hs _].
  split; [intros ?; by eapply still_good, Hg|]. etrans; [done|]. apply Hs.
Qed.

Lemma rg_leader_ret {A} (a : A) s (Φ : A → Shared Q → Prop) :
  (∀ s', leader_rely s s' → Φ a s') → lspec (Ret a) s Φ.
Proof. done. Qed.

Lemma rg_queue_add s Φ :
  config_good s → (∀ s', leader_rely s s' → Φ tt s') → (∀ k, lspec (call (QueueAdd k)) s (λ _ s', Φ tt s' ∧ (k = key → adopted s'))).
Proof.
  intros Hg HΦ k. apply rg_leader_plain; [done|]. intros [] s1 s2 [Hg1 _] (He & _) HR.
  apply rg_leader_ret. intros s3 HR3. split.
  - apply HΦ. split; [intros ?; by apply HR3, HR|]. etrans; [apply HR|apply HR3].
  - intros <-. eapply adopted_prefix; [apply HR3|]. simpl in He. unfold adopted. rewrite He.
    destruct (Hg1 Hg) as (_ & _ & l & Hl). exists (l ++ [Add k]). simpl. rewrite Hl, (assoc_L (++)).
    split; [done|set_solver].
Qed.

Lemma rg_schedule_configured known kr s :
  config_good s → (is_Some (known !! key) → adopted s) →
  lspec (schedule_configured known kr) s
    (λ _ s', config_good s' ∧ (is_Some (known !! key) → adopted s') ∧ (adopted s → adopted s') ∧
             (kr.1 = key → adopted s')).
Proof.
  intros Hg Hknown. destruct kr as [k r]. unfold schedule_configured. simpl.
  assert (∀ s1, leader_rely s s1 →
    lspec (call (QueueAdd k)) s1 (λ _ s', (config_good s' ∧ (is_Some (known !! key) → adopted s') ∧
      (adopted s → adopted s')) ∧ (k = key → adopted s'))) as Hadd.
  { intros s1 HR1. apply (rg_queue_add s1 (λ _ s', config_good s' ∧
      (is_Some (known !! key) → adopted s') ∧ (adopted s → adopted s'))); [by apply HR1|].
    intros s2 HR2. split; [by apply HR2, HR1|].
    assert (queue (process s) `prefix_of` queue (process s2)) by (etrans; [apply HR1|apply HR2]).
    split; [intros ?; eapply adopted_prefix; [done|auto]|by apply adopted_prefix]. }
  destruct (known !! k) as [previous|] eqn:Hk.
  - destruct (authenticationChanged previous r).
    + apply rg_leader_plain; [done|]. intros _ s1 s2 _ _ HR2.
      eapply rg_mono; [|by apply Hadd]. by intros _ s3 [(? & ? & ?) ?].
    + apply rg_leader_ret. intros s1 [Hg1 Hq]. split; [auto|]. split; [intros ?; eapply adopted_prefix; [done|auto]|].
      split; [by apply adopted_prefix|]. intros ->. eapply adopted_prefix; [done|].
      apply Hknown. by rewrite Hk.
  - eapply rg_mono; [|by apply Hadd]. by intros _ s3 [(? & ? & ?) ?].
Qed.

Lemma rg_leader_drop k s : k ≠ key → lspec (drop_key k) s (λ _ s', leader_rely s s').
Proof.
  intros Hne. apply rg_leader_plain; [done|]. intros _ s1 s2 _ _ HR2.
  apply rg_leader_plain; [done|]. intros _ s3 s4 _ _ HR4.
  apply rg_leader_plain; [done|]. intros u s5 s6 _ _ HR6. apply rg_leader_ret. intros s7 HR7.
  split; [intros ?; by apply HR7, HR6, HR4, HR2|].
  etrans; [apply HR2|]. etrans; [apply HR4|]. etrans; [apply HR6|apply HR7].
Qed.

Lemma rg_reconcileConfiguration known s :
  config_good s → (is_Some (known !! key) → adopted s) →
  lspec (reconcileConfiguration known) s (λ known' s', is_Some (known' !! key) → adopted s').
Proof.
  intros Hg Hknown. apply rg_leader_plain; [done|]. intros [snap loaded] s1 s2 HR1 He HR2.
  assert (config_good s1) as (_ & [r Hr] & _) by by apply HR1.
  assert (config_good s2) as Hg2 by by apply HR2.
  destruct He as ([Hload _] & _). rewrite ConfigStore.Load_eq in Hload. unfold configured in Hr.
  destruct (ConfigStore.current _) as [cur|]; [|done]. injection Hload as -> ->. simpl in Hr.
  assert (is_Some (known !! key) → adopted s2) as Hknown2.
  { intros ?. eapply adopted_prefix; [apply HR2|auto]. }
  apply rg_bind; [apply leader_rely_refl|].
  eapply rg_mono; [|apply (rg_for_each exec_shared leader_rely calm (λ done s',
    (config_good s' ∧ (is_Some (known !! key) → adopted s')) ∧
    ∀ kr, kr ∈ done → kr.1 = key → adopted s'))].
  - intros _ s3 [_ Hin]. assert (adopted s3) as Had.
    { apply (Hin (key, r)); [by apply elem_of_range|done]. }
    apply rg_bind; [apply leader_rely_refl|].
    eapply rg_mono; [|apply (rg_for_each exec_shared leader_rely calm (λ _ s', adopted s'))].
    + intros ? s4 Hs4. apply rg_leader_ret. intros s5 [_ Hq] _. by eapply adopted_prefix.
    + done.
    + intros ? a b [_ Hq]. by apply adopted_prefix.
    + done.
    + intros ? [k' r'] s4 Hs4 _. unfold remove_unconfigured. cbn [fst].
      destruct (Registries cur !! k') as [r1|] eqn:Hk'.
      * apply rg_leader_ret. intros s5 [_ Hq]. by eapply adopted_prefix.
      * apply rg_bind; [apply leader_rely_refl|]. eapply rg_mono; [|apply rg_leader_drop; congruence].
        intros _ s5 [_ Hq5]. apply rg_leader_plain; [done|]. intros u s6 s7 _ _ [_ Hq7].
        apply rg_leader_ret. intros s8 [_ Hq8]. by do 3 (eapply adopted_prefix; [done|]).
  - done.
  - intros ? a b [Hgab Hq] [[Hga HI] Hin]. split.
    { split; [auto|]. intros ?. eapply adopted_prefix; [done|auto]. }
    intros kr ? ?. eapply adopted_prefix; [done|eauto].
  - split; [done|]. intros kr ?%not_elem_of_nil. done.
  - intros ? kr s3 [[Hg3 HI] Hin] _. eapply rg_mono; [|by apply rg_schedule_configured].
    intros _ s4 (Hg4 & HI4 & Hkeep & Hnew). split; [done|].
    intros kr' [Hin'| ->%list_elem_of_singleton]%elem_of_app ?; [|by apply Hnew]. eauto.
Qed.
(** ** Workers between two calls *)
Definition after_done (k : RegistryKey) (err : result refresh_error ()) : prog schedE () :=
  match err with
  | Ok _ => call (QueueForget k)
  | Err _ =>
    ended ← call ContextEnded;
    if ended : bool then call (QueueForget k) else call (QueueAddRateLimited k)
  end.
Definition finish (k : RegistryKey) (err : result refresh_error ()) : prog schedE () :=
  _ ← call (QueueDone k); after_done k err.

Lemma runWorker_body_eq k : runWorker_body o k = refresh o k ≫= finish k.
Proof. done. Qed.

(** The worker is still refreshing its key, ... *)
Definition handling_job (s : Shared Q) (j : Job) : Prop :=
  ∃ p, rest j = p ≫= finish (job_key j) ∧
    rg exec_shared (job_rely (job_key j) (since j)) (job_guarantee (job_key j)) p s (refreshed (job_key j)).
(** ... or it gave the key back and is about to queue it again, ... *)
Definition retrying (k : RegistryKey) (p : prog schedE ()) : Prop :=
  (∃ e, p = after_done k (Err e)) ∨ p = call (QueueAddRateLimited k).
(** ... or it has nothing to do but to forget the key's failures. *)
Definition idle (k : RegistryKey) (p : prog schedE ()) : Prop :=
  retrying k p ∨ p = call (QueueForget k) ∨ p = Ret tt.
Definition job_ok (s : Shared Q) (j : Job) : Prop :=
  handling_job s j ∨ idle (job_key j) (rest j).

(** What the next call of a program does, whatever its answer. *)
Definition next {A} (s : Shared Q) (Φ : prog schedE A → Shared Q → Prop) (p : prog schedE A) : Prop :=
  match p with
  | Ret _ => False
  | Vis ev c => ∀ x s', exec_shared _ ev s x s' → Φ (c x) s'
  end.

(** [Done] gives the key back. *)
Definition gives_back (k : RegistryKey) (s s' : Shared Q) : Prop :=
  configStore (process s') = configStore (process s) ∧ time s' = time s ∧
  queue (process s) `prefix_of` queue (process s') ∧
  contextEnded (process s') = contextEnded (process s) ∧
  (∀ k t, due (work s) k t → due (work s') k t) ∧
  (∀ k', processing (work s') k' ↔ processing (work s) k' ∧ k' ≠ k) ∧
  (adopted s' → adopted s) ∧ cred (process s') key = cred (process s) key.

Lemma exec_done k s u s' : exec_shared _ (QueueDone k) s u s' → gives_back k s s'.
Proof.
  intros (He & _ & Ht & Hw). simpl in He, Hw. unfold gives_back, adopted, cred. rewrite He, Hw. simpl.
  split; [done|]. split; [done|]. split; [by eexists|]. split; [done|].
  split; [intros ? ?; apply due_run|]. split; [|split; [|done]].
  - intros k'. rewrite processing_run. split; intros [? ?]; split; try done; congruence.
  - intros (l & Hl & Hin). destruct l as [|c l _] using rev_ind; [by apply not_elem_of_nil in Hin|].
    rewrite (assoc_L (++)) in Hl. apply app_inj_tail in Hl as [Hl <-]. exists l. split; [done|].
    apply elem_of_app in Hin as [?|Hin]; [done|]. by apply list_elem_of_singleton in Hin.
Qed.

Lemma handling_next s k t0 p :
  rg exec_shared (job_rely k t0) (job_guarantee k) p s (refreshed k) →
  next s (λ p' s',
    (job_guarantee k s s' ∧ handling_job s' (MkJob k t0 p')) ∨
    (∃ r, p' = after_done k r ∧ refreshed k r s ∧ gives_back k s s')) (p ≫= finish k).
Proof.
  destruct p as [r|X ev c]; simpl; intros Hrg x s' He.
  - right. exists r. split; [done|]. split; [by apply Hrg|]. by apply (exec_done k s x).
  - left. destruct (Hrg s (reflexivity s) x s' He) as [HG Hk]. split; [done|].
    by exists (c x).
Qed.

Lemma next_plain {X} (ev : schedE X) c s (Φ : prog schedE () → Prop) :
  plain ev → (∀ x, Φ (c x)) → next s (λ p' s', calm s s' ∧ Φ p') (Vis ev c).
Proof. intros Hp HΦ x s' He. split; [by eapply exec_plain|done]. Qed.

Lemma idle_next s k p : idle k p → p = Ret tt ∨ next s (λ p' s', calm s s' ∧ idle k p') p.
Proof.
  intros [[[e ->]| ->]|[-> | ->]]; [right..|by left]; apply next_plain; try done.
  - intros []; [by right; left|by left; right].
  - intros []. by right; right.
  - intros []. by right; right.
Qed.

Lemma retrying_next s k p :
  retrying k p →
  next s (λ p' s', retrying k p' ∨ contextEnded (process s') = true ∨ (k = key → covered s')) p.
Proof.
  intros [[e ->]| ->] x s' He.
  - destruct He as ([Hctx Hp] & _). destruct x; [right; left; by rewrite Hp|by left; right].
  - do 2 right. intros Hk. destruct He as (_ & _ & Ht & Hw).
    exists (time s' + RetryMaxDelay o)%Z. split; [|left; lia].
    rewrite Hw, Ht, <-Hk. by apply due_add_rate_limited.
Qed.
(** ** All the jobs *)
Hypothesis Hhandling : (0 ≤ handling)%Z.

Lemma handling_rely s s' j :
  job_rely (job_key j) (since j) s s' → handling_job s j → handling_job s' j.
Proof.
  intros HR (p & Hp & Hrg). exists p. split; [done|]. eapply rg_stable; [|done..].
  intros a b c. by transitivity b.
Qed.
Lemma job_ok_rely s s' j : job_rely (job_key j) (since j) s s' → job_ok s j → job_ok s' j.
Proof. intros HR [Hj|?]; [left; by eapply handling_rely|by right]. Qed.

Lemma after_done_idle k r : idle k (after_done k r).
Proof. destruct r as [u|e]; [by right; left|left; left; by exists e]. Qed.

Lemma new_job_handling s k :
  config_wf (process s) → (k = key → is_Some (configured (process s) key)) →
  handling_job s (MkJob k (time s) (runWorker_body o k)).
Proof.
  intros Hwf Ho. exists (refresh o k). split; [done|]. apply rg_refresh.
  split; [done|]. split; [done|]. simpl; lia.
Qed.

Lemma gives_back_rely k k' t0 s s' : gives_back k s s' → job_rely k' t0 s s'.
Proof.
  intros (Hc & Ht & _ & _ & Hd & _ & _ & Hcr). unfold job_rely, config_wf, configured. rewrite Hc.
  split; [lia|]. split; [lia|]. split; [done|]. intros _. split; [done|]. split; [done|apply Hd].
Qed.

(** One call of a job keeps it in order, and is one the others can stand. *)
Lemma job_next s k t0 p :
  job_ok s (MkJob k t0 p) → p = Ret tt ∨
  next s (λ p' s', job_ok s' (MkJob k t0 p') ∧ (job_guarantee k s s' ∨ gives_back k s s')) p.
Proof.
  intros [(p1 & Hp & Hrg)|Hidle]; simpl in *.
  - right. subst p. pose proof (handling_next s k t0 p1 Hrg) as Hn.
    destruct (p1 ≫= finish k); [done|]. intros x s' He.
    destruct (Hn x s' He) as [[? ?]|(r & -> & _ & ?)]; (split; [|by auto]).
    + by left.
    + right. apply after_done_idle.
  - destruct (idle_next s k p Hidle) as [?|Hn]; [by left|right].
    destruct p; [done|]. intros x s' He. destruct (Hn x s' He) as [Hc ?].
    split; [by right|]. left. by apply calm_guarantee.
Qed.

(** Another key only needs the configuration to be well formed. *)
Lemma other_rely k t0 s s' :
  k ≠ key → configStore (process s') = configStore (process s) → time s' = time s →
  job_rely k t0 s s'.
Proof.
  intros Hk Hc Ht. unfold job_rely, config_wf. rewrite Hc. split; [lia|]. split; [lia|]. split; [done|].
  by intros ->.
Qed.
Lemma exec_same_configuration {X} (ev : schedE X) s x s' :
  exec_shared X ev s x s' → configStore (process s') = configStore (process s) ∧ time s' = time s.
Proof.
  intros (He & _ & Ht & _). split; [|done].
  destruct ev; simpl in He; repeat match goal with Hx : _ ∧ _ |- _ => destruct Hx end;
    match goal with Hx : process s' = _ |- _ => rewrite Hx end; try done.
  unfold clearForceRefresh. by destruct (_ =? _)%Z.
Qed.

Definition registries_wf (c : ConfigurationSnapshot) : Prop :=
  ∀ k r, Registries c !! k = Some r → Key r = k.
Lemma Apply_registries store c cur :
  ConfigStore.current (ConfigStore.Apply store c).2 = Some cur →
  ConfigStore.current store = Some cur ∨ Registries cur = Registries c.
Proof.
  unfold ConfigStore.Apply. rewrite ConfigTypes.Clone_id.
  destruct (ConfigStore.current store) as [old|]; [destruct (Equal old c)|]; simpl;
    intros [= <-]; [by left|by right..].
Qed.

Definition others_ok (p : Running Q) : Prop :=
  config_wf (process (shared p)) ∧
  ∀ i j, jobs p !! i = Some j → job_key j ≠ key → job_ok (shared p) j.

(** Whatever happens to [key], the jobs of the other keys stay in order. *)
Lemma others_ok_step allowed p p' :
  (∀ c, allowed c → registries_wf c) → sched_step o handling allowed p p' →
  others_ok p → others_ok p'.
Proof.
  intros Hall Hstep [Hwf Hjobs].
  assert (∀ s', (∀ i j, jobs p !! i = Some j → job_key j ≠ key →
      job_rely (job_key j) (since j) (shared p) s') →
    ∀ i j, jobs p !! i = Some j → job_key j ≠ key → job_ok s' j) as Hkeep.
  { intros s' HR i j Hj Hk. eapply job_ok_rely; [by eapply HR|by eapply Hjobs]. }
  assert (∀ X (ev : schedE X) x s', exec_shared X ev (shared p) x s' →
    config_wf (process s') ∧
    ∀ i j, jobs p !! i = Some j → job_key j ≠ key → job_ok s' j) as Hexec.
  { intros X ev x s' [Hc Ht]%exec_same_configuration. split; [unfold config_wf; by rewrite Hc|].
    apply Hkeep. intros i j _ Hk. by apply other_rely. }
  unfold others_ok in *.
  destruct Hstep as [p c Hc Hn|p|p t Ht Hin|p q Hq|p|p|p X ev c x s Hl Hev|p known|p i k q Hi Hj Hq
                    |p i k t X ev c x s Hj Hev|p i k t u Hj]; simpl in *.
  - unfold apply_configuration.
    assert (config_wf (process (with_configuration (shared p)
      (ConfigStore.Apply (configStore (process (shared p))) c).2))) as Hwf'.
    { intros cur Hcur k r Hr. simpl in Hcur. apply Apply_registries in Hcur as [Hcur|Heq].
      - by apply (Hwf cur).
      - rewrite Heq in Hr. by apply (Hall c). }
    destruct (ConfigStore.Apply _ c) as [r store]. split; [done|]. apply Hkeep. intros i j _ Hk. split; [simpl; lia|]. split; [simpl; lia|].
    split; [done|]. by intros ?.
  - done.
  - split; [done|]. apply Hkeep. intros i j Hj Hk. split; [simpl; lia|].
    split; [intros _; by eapply (Hin i j)|]. split; [done|]. by intros ?.
  - split; [done|]. apply Hkeep. intros i j _ Hk. by apply other_rely.
  - split; [done|]. apply Hkeep. intros i j _ Hk. by apply other_rely.
  - done.
  - by eapply Hexec.
  - done.
  - split; [done|]. intros i' j [[<- <-]|[_ Hj']]%lookup_insert_Some Hk.
    + left. by apply (new_job_handling (MkShared (process (shared p)) (time (shared p)) q)).
    + revert i' j Hj' Hk. apply Hkeep. intros i' j _ Hk. by apply other_rely.
  - destruct (Hexec _ _ _ _ Hev) as [Hwf' Hok]. split; [done|]. intros i' j [[<- <-]|[_ Hj']]%lookup_insert_Some Hk; [|by eapply Hok].
    destruct (job_next _ _ _ _ (Hjobs i _ Hj Hk)) as [?|Hnext]; [done|]. by apply (Hnext x s Hev).
  - split; [done|]. intros i' j [_ Hj']%lookup_delete_Some. by apply Hjobs with i'.
Qed.
(** ** The key while it stays configured *)

(** [holder] is the worker refreshing the key: there is at most one, because the
    queue hands a key out once.  The key is owed a refresh from its adoption on. *)
Definition owed (s : Shared Q) (js : gmap nat Job) (holder : option nat) : Prop :=
  contextEnded (process s) = true ∨ is_Some holder ∨
  (∃ i j, js !! i = Some j ∧ job_key j = key ∧ retrying key (rest j)) ∨ covered s.
Definition held (s : Shared Q) (js : gmap nat Job) (holder : option nat) : Prop :=
  (∀ i, holder = Some i → processing (work s) key ∧
     ∃ j, js !! i = Some j ∧ job_key j = key ∧ handling_job s j) ∧
  (∀ i j, js !! i = Some j → job_key j = key → holder = Some i ∨ idle key (rest j)).
Definition workers_inv (s : Shared Q) (js : gmap nat Job) : Prop :=
  config_good s ∧ (∀ i j, js !! i = Some j → job_ok s j) ∧
  ∃ holder, held s js holder ∧ (adopted s → owed s js holder).
Definition leader_part (s : Shared Q) (known : gmap RegistryKey RegistryConfig)
    (leading : option (prog schedE (gmap RegistryKey RegistryConfig))) : Prop :=
  (is_Some (known !! key) → adopted s) ∧
  match leading with
  | None => True
  | Some p => lspec p s (λ known' s', is_Some (known' !! key) → adopted s')
  end.
Definition followed (p : Running Q) : Prop :=
  workers_inv (shared p) (jobs p) ∧ leader_part (shared p) (knownRegistries p) (leading p).

Lemma covered_calm s s' : calm s s' → covered s → covered s'.
Proof. intros Hc. by apply (covered_job_rely key 0), calm_job_rely. Qed.

(** A step that does not concern the jobs of the key. *)
Lemma workers_inv_change s s' js js' :
  workers_inv s js → config_good s' →
  (∀ i j, js !! i = Some j → job_key j = key → job_rely key (since j) s s') →
  (covered s → covered s') → (contextEnded (process s) = true → contextEnded (process s') = true) →
  (processing (work s) key → processing (work s') key) →
  (adopted s' → adopted s ∨ covered s') →
  (∀ i j, js' !! i = Some j → job_ok s' j) →
  (∀ i j, job_key j = key → js' !! i = Some j ↔ js !! i = Some j) → workers_inv s' js'.
Proof.
  intros (_ & _ & holder & [Hh Hidle] & Howed) Hg HR Hcov Hctx Hpr Had Hok Hjs.
  split; [done|]. split; [done|]. exists holder. split; [split|].
  - intros i (Hp & j & Hj & Hk & Hjob)%Hh. split; [by apply Hpr|]. exists j.
    split; [by apply Hjs|]. split; [done|]. eapply handling_rely; [|done]. rewrite Hk. by eapply HR.
  - intros i j Hj Hk. by apply Hidle, Hk; apply Hjs.
  - intros [Ha|Hc]%Had; [|by do 3 right].
    destruct (Howed Ha) as [?|[?|[(i & j & Hj & Hk & Hr)|?]]].
    + by left; apply Hctx.
    + by right; left.
    + right; right; left. exists i, j. by rewrite Hjs.
    + by do 3 right; apply Hcov.
Qed.

(** Every job moved along its rely. *)
Lemma workers_inv_rely s s' js :
  workers_inv s js → config_good s' →
  (∀ i j, js !! i = Some j → job_rely (job_key j) (since j) s s') →
  (covered s → covered s') → (contextEnded (process s) = true → contextEnded (process s') = true) →
  (processing (work s) key → processing (work s') key) →
  (adopted s' → adopted s ∨ covered s') → workers_inv s' js.
Proof.
  intros Hinv Hg HR ? ? ? ?. apply (workers_inv_change s s' js js); try done.
  - intros i j Hj <-. by eapply HR.
  - intros i j Hj. eapply job_ok_rely; [by eapply HR|]. by eapply Hinv.
Qed.

Lemma workers_inv_calm s s' js : workers_inv s js → calm s s' → workers_inv s' js.
Proof.
  intros Hinv Hc. pose proof Hc as [(Hcfg & Ht & Hq & Hctx & Hd & Hp & Ha) Hcr].
  apply (workers_inv_rely s s' js); try done.
  - eapply still_good; [apply Hc|apply Hinv].
  - intros i j _. by apply calm_job_rely.
  - by apply covered_calm.
  - by rewrite Hctx.
  - apply Hp.
Qed.
Lemma gives_back_good k s s' : gives_back k s s' → config_good s → config_good s'.
Proof.
  intros (Hc & _ & Hq & _). unfold config_good, config_wf, configured. rewrite Hc.
  intros (? & ? & ?). split; [done|]. split; [done|]. by etrans.
Qed.
Lemma gives_back_covered k s s' : gives_back k s s' → covered s → covered s'.
Proof. intros Hb. by apply (covered_job_rely key 0), (gives_back_rely k). Qed.

(** A call of a job of another key. *)
Lemma workers_inv_other s s' js i k t0 X (ev : schedE X) c x :
  k ≠ key → workers_inv s js → js !! i = Some (MkJob k t0 (Vis ev c)) →
  exec_shared X ev s x s' → workers_inv s' (<[i := MkJob k t0 (c x)]> js).
Proof.
  intros Hk Hinv Hi He. destruct (job_next s k t0 (Vis ev c)) as [?|Hn]; [by eapply Hinv|done|].
  destruct (Hn x s' He) as [Hok Hmove].
  assert (workers_inv s' js) as Hinv'.
  { destruct Hmove as [[Hst Hcr]|Hb]; [apply (workers_inv_calm s s'); [done|by split; auto]|].
    apply (workers_inv_rely s s' js Hinv).
    - eapply gives_back_good; [done|apply Hinv].
    - intros i' j' _. by apply (gives_back_rely k).
    - by apply (gives_back_covered k).
    - destruct Hb as (_ & _ & _ & -> & _). done.
    - destruct Hb as (_ & _ & _ & _ & _ & Hp & _). intros ?. apply Hp. split; [done|congruence].
    - destruct Hb as (_ & _ & _ & _ & _ & _ & Ha & _). auto. }
  apply (workers_inv_change s' s' js); try done; [apply Hinv'|auto|..].
  - intros i' j [[<- <-]|[_ Hj]]%lookup_insert_Some; [done|by eapply Hinv'].
  - intros i' j Hj. rewrite lookup_insert_Some. split; [|intros Hj'].
    + intros [[_ <-]|[_ ?]]; [by simpl in Hj|done].
    + right. split; [|done]. intros <-. rewrite Hi in Hj'. by simplify_eq/=.
Qed.

(** A call of the worker that refreshes the key. *)
Lemma workers_inv_holder s s' js i t0 X (ev : schedE X) c x :
  workers_inv s js → js !! i = Some (MkJob key t0 (Vis ev c)) →
  held s js (Some i) → exec_shared X ev s x s' → workers_inv s' (<[i := MkJob key t0 (c x)]> js).
Proof.
  intros Hinv Hi Hheld He. pose proof Hheld as [Hh Hidle].
  destruct (Hh i eq_refl) as (Hp & j & Hj & _ & (p & Hrest & Hrg)). rewrite Hi in Hj. injection Hj as <-.
  simpl in Hrest, Hrg. pose proof (handling_next s key t0 p Hrg) as Hn. rewrite <-Hrest in Hn.
  assert (∀ i' j', i' ≠ i → js !! i' = Some j' → job_key j' = key → idle key (rest j')) as Hothers.
  { intros i' j' Hne Hj' Hk. destruct (Hidle i' j' Hj' Hk) as [[= ->]|?]; done. }
  assert (∀ j', job_ok s' j' → (∀ i' j1, js !! i' = Some j1 → job_key j1 ≠ key → job_ok s' j1) →
    ∀ i' j1, <[i := j']> js !! i' = Some j1 → job_ok s' j1) as Hjobs.
  { intros j' Hj' Hrely i' j1 [[<- <-]|[Hne Hj1]]%lookup_insert_Some; [done|].
    destruct (decide (job_key j1 = key)) as [Hk|Hk]; [|by eapply Hrely].
    right. rewrite Hk. by eapply Hothers. }
  assert (∀ i' j1, i ≠ i' → <[i := MkJob key t0 (c x)]> js !! i' = Some j1 → job_key j1 = key →
    idle key (rest j1)) as Hothers'.
  { intros i' j1 Hne Hj1 Hk. rewrite lookup_insert_ne in Hj1 by done. by eapply Hothers. }
  assert (∀ i' j1, js !! i' = Some j1 → job_ok s j1) as Hall by apply Hinv.
  destruct (Hn x s' He) as [[HG Hok]|(r & Hc & Hr & Hb)].
  - split; [eapply still_good; [apply HG|apply Hinv]|]. split.
    { apply Hjobs; [by left|]. intros i' j1 Hj1 Hk. eapply job_ok_rely; [|by eapply Hall].
      apply (guarantee_job_rely key); [by right|done]. }
    exists (Some i). split; [split|].
    + intros i' [= <-]. split; [apply HG, Hp|]. exists (MkJob key t0 (c x)).
      by rewrite lookup_insert_eq.
    + intros i' j1 Hj1 Hk. destruct (decide (i = i')) as [->|Hne]; [by left|right]. by eapply Hothers'.
    + intros _. right. by left.
  - split; [eapply gives_back_good; [done|apply Hinv]|]. split.
    { apply Hjobs; [right; simpl; rewrite Hc; apply after_done_idle|]. intros i' j1 Hj1 Hk.
      eapply job_ok_rely; [by apply (gives_back_rely key)|by eapply Hall]. }
    exists None. split; [split; [done|]|].
    + intros i' j1 Hj1 Hk. right. destruct (decide (i = i')) as [<-|Hne]; [|by eapply Hothers'].
      rewrite lookup_insert_eq in Hj1. injection Hj1 as <-. simpl. rewrite Hc. apply after_done_idle.
    + intros _. destruct r as [[]|e].
      * do 3 right. apply (gives_back_covered key s); [done|]. by apply Hr.
      * right; right; left. exists i, (MkJob key t0 (c x)). rewrite lookup_insert_eq. split; [done|].
        split; [done|]. left. by exists e.
Qed.

(** A call of a worker that gave the key back. *)
Lemma workers_inv_idle s s' js holder i t0 X (ev : schedE X) c x :
  workers_inv s js → js !! i = Some (MkJob key t0 (Vis ev c)) →
  held s js holder → (adopted s → owed s js holder) → holder ≠ Some i →
  exec_shared X ev s x s' → workers_inv s' (<[i := MkJob key t0 (c x)]> js).
Proof.
  intros Hinv Hi [Hh Hidle] Howed Hne He.
  destruct (Hidle i _ Hi eq_refl) as [?|Hid]; [done|]. simpl in Hid.
  destruct (idle_next s key (Vis ev c) Hid) as [?|Hn]; [done|].
  destruct (Hn x s' He) as [Hcalm Hid'].
  pose proof (workers_inv_calm s s' js Hinv Hcalm) as (Hg' & Hok' & _).
  pose proof Hcalm as [(_ & _ & _ & Hctx & _ & Hpr & Ha) _].
  split; [done|]. split.
  { intros i' j [[<- <-]|[_ Hj]]%lookup_insert_Some; [by right|by eapply Hok']. }
  exists holder. split; [split|].
  - intros i' Hi'. destruct (Hh i' Hi') as (Hp & j & Hj & Hk & Hjob). split; [by apply Hpr|].
    exists j. rewrite lookup_insert_ne by congruence. split; [done|]. split; [done|].
    eapply handling_rely; [by apply calm_job_rely|done].
  - intros i' j [[<- <-]|[_ Hj]]%lookup_insert_Some Hk; [by right|by apply Hidle].
  - intros [Had|?]%Ha; [|by do 3 right].
    destruct (Howed Had) as [?|[?|[(i' & j & Hj & Hk & Hr)|?]]].
    + left. by rewrite Hctx.
    + by right; left.
    + destruct (decide (i = i')) as [<-|Hne'].
      * rewrite Hi in Hj. injection Hj as <-. simpl in Hr.
        destruct (retrying_next s key (Vis ev c) Hr x s' He) as [?|[?|Hcov]].
        -- right; right; left. exists i, (MkJob key t0 (c x)). by rewrite lookup_insert_eq.
        -- by left.
        -- do 3 right. by apply Hcov.
      * right; right; left. exists i', j. by rewrite lookup_insert_ne.
    + do 3 right. by eapply covered_calm.
Qed.
Definition keeps (c : ConfigurationSnapshot) : Prop :=
  registries_wf c ∧ is_Some (Registries c !! key).

Lemma leader_part_rely s s' known lead :
  leader_rely s s' → leader_part s known lead → leader_part s' known lead.
Proof.
  intros HR [Hk Hl]. split; [intros ?; eapply adopted_prefix; [apply HR|auto]|].
  destruct lead as [p|]; [|done]. eapply rg_stable; [|done..].
  intros a b c [Hg1 Hq1] [Hg2 Hq2]. split; [auto|by etrans].
Qed.

Lemma applied_good s c :
  keeps c → config_good s →
  config_good (with_configuration s (ConfigStore.Apply (configStore (process s)) c).2).
Proof.
  intros [Hc [rc Hrc]] (Hwf & [r Hr] & Hb). unfold configured in Hr.
  split; [|split; [|done]].
  - intros cur Hcur k r' Hr'. simpl in Hcur. apply Apply_registries in Hcur as [Hcur|Heq].
    + by apply (Hwf cur).
    + rewrite Heq in Hr'. by apply Hc.
  - unfold configured. simpl.
    assert (is_Some (ConfigStore.current (ConfigStore.Apply (configStore (process s)) c).2)) as [cur Hcur].
    { unfold ConfigStore.Apply. by repeat case_match; eexists. }
    rewrite Hcur. simpl. destruct (Apply_registries _ _ _ Hcur) as [Hold| ->]; [|by exists rc].
    rewrite Hold in Hr. by exists r.
Qed.

(** Steps that leave the configuration and the logs alone. *)
Lemma followed_quiet p s :
  followed p → configStore (process s) = configStore (process (shared p)) →
  credentialStore (process s) = credentialStore (process (shared p)) →
  queue (process s) = queue (process (shared p)) →
  (contextEnded (process (shared p)) = true → contextEnded (process s) = true) →
  (time (shared p) ≤ time s)%Z →
  (∀ i j, jobs p !! i = Some j → (time (shared p) ≤ since j + handling → time s ≤ since j + handling)%Z) →
  (∀ t, due (work (shared p)) key t → due (work s) key t) →
  (processing (work (shared p)) key → processing (work s) key) →
  followed (with_shared p s).
Proof.
  intros [Hw Hl] Hc Hcr Hq Hctx Ht Hb Hd Hp.
  assert (config_good s) as Hg.
  { destruct Hw as ((Hwf & Ho & Hbase) & _). unfold config_good, config_wf, configured.
    rewrite Hc, Hq. done. }
  split; simpl.
  - apply (workers_inv_rely (shared p)); try done.
    + intros i j Hj. unfold job_rely, config_wf, configured, cred. rewrite Hc, Hcr.
      split; [done|]. split; [by eapply Hb|]. done.
    + intros (t & Ht' & Hbound). exists t. split; [by apply Hd|]. unfold cred in *. rewrite Hcr.
      destruct Hbound as [?|?]; [left; lia|by right].
    + unfold adopted. rewrite Hq. by left.
  - eapply leader_part_rely; [|done]. split; [done|]. by rewrite Hq.
Qed.

Lemma followed_get p i k q :
  followed p → jobs p !! i = None → wq_get (work (shared p)) k q →
  followed (with_jobs p (MkShared (process (shared p)) (time (shared p)) q)
              (<[i := MkJob k (time (shared p)) (runWorker_body o k)]> (jobs p))).
Proof.
  intros [Hw Hl] Hi Hq. set (s' := MkShared (process (shared p)) (time (shared p)) q).
  pose proof Hw as (Hg & Hok & holder & [Hh Hidle] & Howed).
  assert (handling_job s' (MkJob k (time (shared p)) (runWorker_body o k))) as Hnew.
  { apply (new_job_handling s'); [apply Hg|intros _; apply Hg]. }
  assert (∀ k' t0, k' ≠ k → job_rely k' t0 (shared p) s') as Hrely.
  { intros k' t0 Hne. split; [simpl; lia|]. split; [done|]. split; [done|]. intros ->.
    split; [done|]. split; [done|]. intros t. by eapply due_get. }
  split; simpl; [|eapply leader_part_rely; [|done]; by split].
  destruct (decide (k = key)) as [->|Hne].
  - assert (holder = None) as ->.
    { destruct holder as [i'|]; [|done]. destruct (Hh i' eq_refl) as [Hp _]. by destruct (get_free _ _ _ Hq). }
    split; [done|]. split.
    { intros i' j [[<- <-]|[_ Hj]]%lookup_insert_Some; [by left|].
      destruct (decide (job_key j = key)) as [Hk|Hk]; [|by eapply job_ok_rely; [apply Hrely|apply (Hok i')]].
      right. rewrite Hk. by destruct (Hidle i' j Hj Hk). }
    exists (Some i). split; [split|].
    + intros i' [= <-]. split; [by apply (processing_get _ _ _ key Hq); left|].
      eexists. rewrite lookup_insert_eq. by split.
    + intros i' j [[<- <-]|[_ Hj]]%lookup_insert_Some Hk; [by left|right]. by destruct (Hidle i' j Hj Hk).
    + intros _. right. by left.
  - apply (workers_inv_change (shared p) s' (jobs p)); try done.
    + intros i' j _ _. by apply Hrely.
    + intros (t & Hd & Hb). exists t. split; [by eapply due_get|done].
    + intros ?. apply (processing_get _ _ _ key Hq). by right.
    + by left.
    + intros i' j [[<- <-]|[_ Hj]]%lookup_insert_Some; [by left|].
      destruct (decide (job_key j = k)) as [Hk|Hk]; [|by eapply job_ok_rely; [apply Hrely|apply (Hok i')]].
      eapply job_ok_rely; [|by apply (Hok i')]. apply other_rely; [congruence|done..].
    + intros i' j Hk. rewrite lookup_insert_Some. split; [|intros Hj].
      * intros [[_ <-]|[_ ?]]; [by simpl in Hk|done].
      * right. split; [congruence|done].
Qed.
Lemma followed_work p i k t0 X (ev : schedE X) c x s :
  followed p → jobs p !! i = Some (MkJob k t0 (Vis ev c)) → exec_shared X ev (shared p) x s →
  followed (with_jobs p s (<[i := MkJob k t0 (c x)]> (jobs p))).
Proof.
  intros [Hw Hl] Hi He. assert (workers_inv s (<[i := MkJob k t0 (c x)]> (jobs p))) as Hw'.
  { destruct (decide (k = key)) as [->|Hne]; [|by eapply workers_inv_other].
    pose proof Hw as (_ & _ & holder & Hheld & Howed).
    destruct (decide (holder = Some i)) as [->|Hne]; [by eapply workers_inv_holder|].
    by eapply workers_inv_idle. }
  split; [done|]. eapply leader_part_rely; [|done]. split; [intros _; apply Hw'|].
  destruct (job_next (shared p) k t0 (Vis ev c)) as [?|Hn]; [by apply (proj1 (proj2 Hw) i)|done|].
  by destruct (Hn x s He) as [_ [[(_ & _ & ? & _) _]|(_ & _ & ? & _)]].
Qed.

Lemma followed_return p i k t0 u :
  followed p → jobs p !! i = Some (MkJob k t0 (Ret u)) →
  followed (with_jobs p (shared p) (delete i (jobs p))).
Proof.
  intros [Hw Hl] Hi. split; [|done]. simpl. pose proof Hw as (Hg & Hok & holder & [Hh Hidle] & Howed).
  split; [done|]. split; [by intros i' j [_ Hj]%lookup_delete_Some; eapply Hok|].
  exists holder. split; [split|].
  - intros i' Hi'. destruct (Hh i' Hi') as (Hp & j & Hj & Hk & Hjob). split; [done|]. exists j.
    rewrite lookup_delete_ne; [done|]. intros <-. rewrite Hi in Hj. injection Hj as <-.
    destruct Hjob as ([r|Y e cc] & [=] & _).
  - intros i' j [_ Hj]%lookup_delete_Some. by apply Hidle.
  - intros [?|[?|[(i' & j & Hj & Hk & Hr)|?]]]%Howed; [by left|by right; left| |by do 3 right].
    right; right; left. exists i', j. rewrite lookup_delete_ne; [done|]. intros <-.
    rewrite Hi in Hj. injection Hj as <-. destruct Hr as [[e [=]]|[=]].
Qed.

Lemma followed_step p p' : sched_step o handling keeps p p' → followed p → followed p'.
Proof.
  intros Hstep Hf. pose proof Hf as [Hw [Hknown Hlead]].
  destruct Hstep as [p c Hc Hn|p|p t Ht Hin|p q Hq|p|p Hl|p X ev c x s Hl Hev|p known Hl|p i k q Hi Hj Hq
                    |p i k t X ev c x s Hj Hev|p i k t u Hj].
  - pose proof (applied_good (shared p) c Hc (proj1 Hw)) as Hg. unfold apply_configuration.
    destruct (ConfigStore.Apply _ c) as [r store]. split; simpl in *.
    + apply (workers_inv_rely (shared p)); try done; [|by left].
      intros i j Hj. split; [simpl; lia|]. split; [done|]. split; [intros _; apply Hg|].
      intros _. split; [intros _; apply Hg|done].
    + by apply (leader_part_rely (shared p)).
  - done.
  - apply followed_quiet; try done. intros i j Hj _. by eapply Hin.
  - apply followed_quiet; try done; simpl.
    + intros t. by eapply due_elapse.
    + intros ?. by apply (processing_elapse _ _ _ key Hq).
  - by apply followed_quiet.
  - split; [done|]. split; [done|]. by apply rg_reconcileConfiguration; [apply Hw|].
  - simpl in Hlead. rewrite Hl in Hlead. destruct (Hlead (shared p) (leader_rely_refl _) x s Hev) as [Hcalm Hc].
    assert (queue (process (shared p)) `prefix_of` queue (process s)) as Hq by apply Hcalm.
    split; [by apply (workers_inv_calm (shared p))|]. split; [|done]. simpl.
    intros ?. eapply adopted_prefix; [done|auto].
  - split; [done|]. rewrite Hl in Hlead. split; [|done]. by apply Hlead.
  - by apply followed_get.
  - by apply followed_work with ev.
  - by eapply followed_return.
Qed.

(** From a state in which no worker and not the leader knows the key. *)
Lemma followed_fresh p :
  others_ok p → is_Some (configured (process (shared p)) key) → queue (process (shared p)) = base →
  knownRegistries p !! key = None → (∀ i j, jobs p !! i = Some j → job_key j ≠ key) →
  leading p = None ∨ leading p = Some (reconcileConfiguration (knownRegistries p)) → followed p.
Proof.
  intros [Hwf Hjobs] Ho Hq Hknown Hno Hlead.
  assert (config_good (shared p)) as Hg by by unfold config_good; rewrite Hq.
  assert (is_Some (knownRegistries p !! key) → adopted (shared p)) as Hk.
  { rewrite Hknown. by intros [? ?]. }
  split.
  - split; [done|]. split; [intros i j Hj; by apply (Hjobs i), (Hno i)|].
    exists None. split; [split; [done|]|].
    + intros i j Hj Hk'. by destruct (Hno i j Hj).
    + intros (l & Hl & Hin). rewrite Hq in Hl.
      assert (l = []) as -> by (apply (app_inv_head base); by rewrite app_nil_r).
      by apply not_elem_of_nil in Hin.
  - split; [done|]. destruct Hlead as [-> | ->]; [done|]. by apply rg_reconcileConfiguration.
Qed.

(** What [followed] promises once the leader knows the key. *)
Lemma followed_known p :
  followed p → is_Some (knownRegistries p !! key) →
  contextEnded (process (shared p)) = true ∨
  (∃ i j, jobs p !! i = Some j ∧ job_key j = key) ∨ covered (shared p).
Proof.
  intros [(_ & _ & holder & [Hh _] & Howed) [Hk _]] Had%Hk.
  destruct (Howed Had) as [?|[[i Hi]|[(i & j & Hj & ? & _)|?]]]; [by left|right; left..|by do 2 right].
  - destruct (Hh i Hi) as (_ & j & ? & ? & _). by exists i, j.
  - by exists i, j.
Qed.
End followed.
