(* ===== verification/SchedulerSystemCorrect.v ===== *)
(** * The running scheduler never forgets a registry

    ... that stays configured: whatever the goroutines do in whatever order, a
    registry the leader took up is with a worker or due in the queue, in time
    for the end of the credential it serves.  A registry that is removed and
    configured again between two readings of the leader can be forgotten. *)
From S2P Require Import Prelude Prog GoStrings ConfigTypes ConfigStore Encoding Credential.
From S2P Require Import Scheduler SchedulerTheory SchedulerRun SchedulerCorrect WorkQueue.
From S2P Require Import SchedulerSystem SchedulerSystemTheory.

(** ** Runs *)
Section runs.
Context {Q : Type} `{WorkQueue Q} `{RangeOrder} (o : SchedulerOptions) (handling : Duration)
  (allowed : ConfigurationSnapshot → Prop).

(** The calls answered by a [World], at the time of the clock. *)
Definition handle_shared (w : World) (X : Type) (ev : schedE X) (s : Shared Q) : X * Shared Q :=
  let '(x, st) := handle (MkWorld (time s) (provider w) (publisher w)) X ev (process s) in
  (x, MkShared st (time s) (from_option (λ c, wq_run (time s) c (work s)) (work s) (command ev))).

Lemma handle_shared_exec w X (ev : schedE X) s :
  exec_shared X ev s (handle_shared w X ev s).1 (handle_shared w X ev s).2.
Proof.
  unfold handle_shared. pose proof (handle_exec (MkWorld (time s) (provider w) (publisher w)) X ev (process s)) as He.
  destruct (handle _ X ev (process s)) as [x st] eqn:Heq.
  split; [done|]. split; [|by split]. destruct ev; try done. by injection Heq as <- _.
Qed.

(** The leader, or the job of one worker, run to its end. *)
Lemma run_leading w prog p :
  leading p = Some prog →
  rtc (sched_step o handling allowed) p
    (let '(known, s) := interp (handle_shared w) prog (shared p) in
     MkRunning s (jobs p) known None (configurationChanges p) (notifying p)).
Proof.
  revert p. induction prog as [known|X ev c IH]; intros p Hp; simpl.
  - eapply rtc_l; [by apply sched_led|]. by destruct p.
  - pose proof (handle_shared_exec w X ev (shared p)) as He.
    destruct (handle_shared w X ev (shared p)) as [x s].
    eapply rtc_l; [by eapply sched_lead|]. by apply (IH x (MkRunning s (jobs p) (knownRegistries p)
      (Some (c x)) (configurationChanges p) (notifying p))).
Qed.
Lemma run_job w prog p i key t :
  jobs p !! i = Some (MkJob key t prog) →
  rtc (sched_step o handling allowed) p
    (with_jobs p (interp (handle_shared w) prog (shared p)).2 (delete i (jobs p))).
Proof.
  revert p. induction prog as [u|X ev c IH]; intros p Hp; simpl.
  - eapply rtc_l; [by eapply sched_return|]. done.
  - pose proof (handle_shared_exec w X ev (shared p)) as He.
    destruct (handle_shared w X ev (shared p)) as [x s] eqn:Hx.
    eapply rtc_l; [by eapply sched_work|].
    specialize (IH x (with_jobs p s (<[i := MkJob key t (c x)]> (jobs p)))). simpl in IH.
    rewrite delete_insert_eq in IH. apply IH, lookup_insert_eq.
Qed.
End runs.

(** ** The leader *)
Section leader.
Context {Q : Type} `{WorkQueue Q} `{RangeOrder} (o : SchedulerOptions) (handling : Duration).

(** All the values a program can return. *)
Fixpoint returns {A} (P : A → Prop) (p : prog schedE A) : Prop :=
  match p with Ret a => P a | Vis _ c => ∀ x, returns P (c x) end.
Lemma returns_bind {A B} (P : B → Prop) (p : prog schedE A) (f : A → prog schedE B) :
  (∀ a, returns P (f a)) → returns P (p ≫= f).
Proof. intros Hf. induction p as [a|X ev c IH]; simpl; eauto. Qed.

(** The leader goroutine as the loop of SchedulerCorrect: it loads the
    configuration in one step and knows its registries in a later one. *)
Definition leads (p : Running Q) (l : loop_state) : Prop :=
  match l with
  | Waiting => leading p = None
  | Woken => leading p = Some (reconcileConfiguration (knownRegistries p))
  | Reconciling loaded => ∃ prog, leading p = Some prog ∧
      returns (λ known, known = known_after (knownRegistries p) loaded) prog
  end.
Definition abstracts (p : Running Q) (l : Leader) : Prop :=
  l_config l = configStore (process (shared p)) ∧ to_notify l = notifying p ∧
  channel l = configurationChanges p ∧ known l = knownRegistries p ∧ leads p (loop l).

Lemma reconcile_next known (s : Shared Q) :
  next s (λ p' s', configStore (process s') = configStore (process s) ∧
    returns (λ k, k = known_after known (ConfigStore.Load (configStore (process s)))) p')
    (reconcileConfiguration known).
Proof.
  intros [snap loaded] s' ([Hload Hp] & _). rewrite Hp. split; [done|]. rewrite <-Hload.
  destruct loaded; [|done]. by do 2 (apply returns_bind; intros _).
Qed.

Lemma abstracts_step allowed p p' l :
  sched_step o handling allowed p p' → abstracts p l →
  ∃ l', rtc leader_step l l' ∧ abstracts p' l'.
Proof.
  intros Hstep (Hc & Hn & Hch & Hk & Hl).
  assert (∀ s, configStore (process s) = configStore (process (shared p)) →
    abstracts (with_shared p s) l) as Hsame by (intros s Hs; by rewrite <-Hs in Hc).
  assert (∀ s js, configStore (process s) = configStore (process (shared p)) →
    abstracts (with_jobs p s js) l) as Hjobs by (intros s js Hs; by rewrite <-Hs in Hc).
  destruct Hstep as [p c _ Hno|p Hno|p t _ _|p q _|p|p Hw Hfull|p X ev c x s Hlead He|p kn Hlead
                    |p i k q _ _ _|p i k t X ev c x s _ He|p i k t u _].
  - eexists. split; [apply rtc_once, (ls_apply c); congruence|]. unfold apply_configuration. rewrite Hc.
    by destruct (ConfigStore.Apply _ c).
  - eexists. split; [apply rtc_once, ls_notify; congruence|]. by rewrite Hch.
  - exists l. split; [done|]. by apply Hsame.
  - exists l. split; [done|]. by apply Hsame.
  - exists l. split; [done|]. by apply Hsame.
  - assert (loop l = Waiting) as Hwait.
    { destruct (loop l) as [| |loaded]; [done|..]; simpl in Hl; [congruence|].
      destruct Hl as (prog & ? & _). congruence. }
    eexists. split; [apply rtc_once, ls_receive; congruence|]. by rewrite Hk.
  - destruct (exec_same_configuration _ _ _ _ He) as [Hcfg _].
    destruct (loop l) as [| |loaded] eqn:Hloop; simpl in Hl; [congruence|..].
    + eexists. split; [by apply rtc_once, ls_load|].
      assert (Vis ev c = reconcileConfiguration (knownRegistries p)) as Heq by congruence.
      pose proof (reconcile_next (knownRegistries p) (shared p)) as Hnext. rewrite <-Heq in Hnext.
      destruct (Hnext x s He) as [_ Hret]. unfold abstracts. simpl. rewrite Hcfg, Hc. by eauto 10.
    + destruct Hl as (prog & Hprog & Hret). rewrite Hlead in Hprog. injection Hprog as <-.
      exists l. split; [done|]. unfold abstracts. rewrite Hloop. simpl. rewrite Hcfg. by eauto 10.
  - destruct (loop l) as [| |loaded] eqn:Hloop; simpl in Hl; [congruence|..].
    + rewrite Hlead in Hl. by injection Hl.
    + destruct Hl as (prog & Hprog & Hret). rewrite Hlead in Hprog. injection Hprog as <-.
      eexists. split; [by apply rtc_once, ls_finish|]. simpl in Hret. subst kn. by rewrite Hk.
  - exists l. split; [done|]. by apply Hjobs.
  - exists l. split; [done|]. apply Hjobs. by destruct (exec_same_configuration _ _ _ _ He).
  - exists l. split; [done|]. by apply Hjobs.
Qed.

Lemma abstracts_reach allowed p p' l :
  rtc (sched_step o handling allowed) p p' → abstracts p l →
  ∃ l', rtc leader_step l l' ∧ abstracts p' l'.
Proof.
  intros Hr. revert l. induction Hr as [p|p p1 p2 Hstep _ IH]; intros l Ha; [by exists l|].
  destruct (abstracts_step _ _ _ _ Hstep Ha) as (l1 & Hl1 & Ha1).
  destruct (IH l1 Ha1) as (l2 & Hl2 & Ha2). exists l2. split; [by etrans|done].
Qed.

(** Waiting, with nothing to hear. *)
Definition at_rest (p : Running Q) : Prop :=
  leading p = None ∧ configurationChanges p = false ∧ notifying p = false.
Definition synced (p : Running Q) : Prop :=
  ∀ cur, ConfigStore.current (configStore (process (shared p))) = Some cur →
    knownRegistries p = Registries cur.

Lemma rest_synced c known p l :
  rtc leader_step (leader_init c known) l → abstracts p l → at_rest p → synced p.
Proof.
  intros Hl (Hc & Hn & Hch & Hk & Hlead) (Hwait & Hch1 & Hn1) cur Hcur.
  rewrite <-Hk. destruct (leader_in_sync _ _ _ Hl) as [Hsync _]. apply Hsync; [congruence..| |congruence].
  destruct (loop l) as [| |loaded]; [done|simpl in Hlead; congruence|].
  destruct Hlead as (prog & ? & _). congruence.
Qed.

Definition catches_up (p p' : Running Q) : Prop :=
  rtc (sched_step o handling (λ _, False)) p p' ∧
  configStore (process (shared p')) = configStore (process (shared p)) ∧ jobs p' = jobs p.

Lemma catches_up_trans p1 p2 p3 : catches_up p1 p2 → catches_up p2 p3 → catches_up p1 p3.
Proof. intros (? & ? & ?) (? & ? & ?). split; [by etrans|]. split; congruence. Qed.

(** The leader finishes a reconciliation by its own steps. *)
Lemma leading_finishes p :
  ∃ p', catches_up p p' ∧ leading p' = None ∧
    configurationChanges p' = configurationChanges p ∧ notifying p' = notifying p.
Proof.
  destruct (leading p) as [prog|] eqn:Hl; [|by exists p].
  set (w := MkWorld 0 (λ _, Err "") (Ok tt)).
  pose proof (run_leading o handling (λ _, False) w prog p Hl) as Hrun.
  assert (configStore (process (interp (handle_shared w) prog (shared p)).2)
          = configStore (process (shared p))) as Hc.
  { clear. generalize (shared p) as s. induction prog as [a|X ev c IH]; intros s; simpl; [done|].
    pose proof (handle_shared_exec w X ev s) as [He _]%exec_same_configuration.
    destruct (handle_shared w X ev s) as [x s']. by rewrite IH. }
  destruct (interp (handle_shared w) prog (shared p)) as [known s]. eexists. by split.
Qed.

Lemma leader_catches_up p : ∃ p', catches_up p p' ∧ at_rest p'.
Proof.
  destruct (leading_finishes p) as (p1 & Hc1 & Hl1 & _).
  assert (∃ p2, catches_up p1 p2 ∧ leading p2 = None ∧ notifying p2 = false) as (p2 & Hc2 & Hl2 & Hn2).
  { destruct (notifying p1) eqn:Hn; [|by exists p1].
    eexists. split; [split; [by apply rtc_once, sched_notify|done]|done]. }
  destruct (configurationChanges p2) eqn:Hch.
  - destruct (leading_finishes (MkRunning (shared p2) (jobs p2) (knownRegistries p2)
      (Some (reconcileConfiguration (knownRegistries p2))) false (notifying p2)))
      as (p3 & (Hr & Hcfg & Hj) & Hl3 & Hch3 & Hn3).
    exists p3. split; [|by rewrite Hn2 in Hn3].
    apply (catches_up_trans _ p1); [done|]. apply (catches_up_trans _ p2); [done|].
    split; [|done]. eapply rtc_l; [by apply sched_receive|done].
  - exists p2. split; [by eapply catches_up_trans|done].
Qed.
End leader.

(** ** Properties *)
(** C7.  The scheduler follows the configuration: every run of it, with its
    workers, is a run of the abstract leader loop, which loads the configuration
    in one step and remembers it in a later one; a leader that waits with nothing
    to hear knows exactly the registries in force, with their keys, so the last of
    any number of coalesced changes always reaches it; and in every reachable
    state the leader can come to such a rest by its own steps, with no help from
    the workers.  A configuration that was replaced before the leader read it
    leaves no trace there ([registry_forgotten] shows what this can cost). *)
Theorem scheduler_follows_configuration {Q} `{WorkQueue Q} `{RangeOrder} (o : SchedulerOptions)
    handling allowed st now (q : Q) p :
  rtc (sched_step o handling allowed) (start st now q) p →
  (∃ l, rtc leader_step (leader_init (configStore st) ∅) l ∧ abstracts p l) ∧
  (at_rest p → synced p) ∧
  ∃ p', catches_up o handling p p' ∧ at_rest p' ∧ synced p'.
Proof.
  intros Hreach.
  assert (abstracts (start st now q) (leader_init (configStore st) ∅)) as Ha0 by done.
  destruct (abstracts_reach o handling allowed _ _ _ Hreach Ha0) as (l & Hl & Ha).
  split; [by exists l|]. split; [by eapply rest_synced|].
  destruct (leader_catches_up o handling p) as (p' & Hcatch & Hrest).
  exists p'. split; [done|]. split; [done|].
  destruct (abstracts_reach o handling _ _ _ _ (proj1 Hcatch) Ha) as (l' & Hl' & Ha').
  eapply rest_synced; [|done..]. by etrans.
Qed.

(** C6.  No registry is forgotten: from a state in which a newly configured
    registry is known neither to the leader nor to a worker, and while it stays
    configured (its keys, its domains and everything else may change), in every
    state the scheduler can reach once the leader knows the registry, unless the
    process is stopping, a worker has it in hand or the queue hands it out
    within the largest backoff or at the latest [handling], the longest a worker
    holds a key, after the refresh time of the credential it serves: before that
    credential ends, when [handling] is below the refresh window. *)
Theorem registry_never_forgotten {Q} `{WorkQueue Q} (o : SchedulerOptions)
    `{!WorkQueueLaws Q (RetryMaxDelay o)} `{RangeOrder} handling key st now (q : Q) p0 p :
  valid_options o → (0 ≤ handling)%Z → config_wf st →
  rtc (sched_step o handling registries_wf) (start st now q) p0 →
  is_Some (configured (process (shared p0)) key) →
  knownRegistries p0 !! key = None → (∀ i j, jobs p0 !! i = Some j → job_key j ≠ key) →
  leading p0 = None ∨ leading p0 = Some (reconcileConfiguration (knownRegistries p0)) →
  rtc (sched_step o handling (keeps key)) p0 p → is_Some (knownRegistries p !! key) →
  contextEnded (process (shared p)) = true ∨
  (∃ i j, jobs p !! i = Some j ∧ job_key j = key) ∨
  ∃ t, due (work (shared p)) key t ∧
    ((t ≤ time (shared p) + RetryMaxDelay o)%Z ∨
     ∃ e, cred (process (shared p)) key = Some e ∧
       (t ≤ ExpiresAt (entry_Credential e) - RefreshBefore o + handling)%Z).
Proof.
  intros (_ & _ & _ & Hdelay) Hh Hwf Hreach0 Hconf Hknown Hjobs Hlead Hreach Hp.
  assert (0 ≤ RetryMaxDelay o)%Z as Hmax by lia.
  assert (others_ok o handling key (queue (process (shared p0))) p0) as Hothers.
  { refine (rtc_invariant _ _ _ _ _ _ Hreach0); [|by split].
    intros p1 p2 Hstep. by apply (others_ok_step o handling key _ Hmax Hh registries_wf). }
  apply (followed_known o handling key (queue (process (shared p0)))); [|done].
  refine (rtc_invariant _ _ _ _ _ _ Hreach); [|by eapply followed_fresh].
  intros p1 p2. by apply followed_step.
Qed.

(** ** A registry that is removed and configured again *)
Module SystemExample.
Import SchedulerExample.
#[local] Existing Instance range_forward.

Definition snapshot_of (rs : list RegistryConfig) : ConfigurationSnapshot :=
  MkSnapshot 1 (MkSelector true []) [] (MkSelector true [])
    (list_to_map ((λ r, (Key r, r)) <$> rs)) zero_runtime.
Definition other : RegistryConfig := MkRegistry "cn-beijing" "cri-2" "AKID" "SECRET" ["b.example.com"].
Definition st : State :=
  MkState (ConfigStore.MkStore (Some (snapshot_of [r])) true) CredentialStore.empty ∅ ∅ [] [] [] false.
Definition q0 : SimpleQueue := MkSimpleQueue ∅ ∅ ∅ ∅.
#[local] Instance queue : WorkQueue SimpleQueue :=
  simple_queue (RetryBaseDelay options) (RetryMaxDelay options).
#[local] Instance queue_laws : WorkQueueLaws SimpleQueue (RetryMaxDelay options) :=
  simple_queue_laws (RetryBaseDelay options) (RetryMaxDelay options).

Definition led (p : Running SimpleQueue) prog : Running SimpleQueue :=
  let '(known, s) := interp (handle_shared w) prog (shared p) in
  MkRunning s (jobs p) known None (configurationChanges p) (notifying p).
Definition notified (p : Running SimpleQueue) : Running SimpleQueue :=
  MkRunning (shared p) (jobs p) (knownRegistries p) (leading p)
    (NotifyConfigurationChanged (configurationChanges p)) false.

Definition p0 : Running SimpleQueue := start st 0 q0.
Definition p1 : Running SimpleQueue := led p0 (reconcileConfiguration ∅).
(** the registry is replaced by another, while a worker takes its key *)
Definition p2 : Running SimpleQueue := notified (apply_configuration p1 (snapshot_of [other])).
Definition q1 : SimpleQueue := MkSimpleQueue ∅ {[ key ]} ∅ ∅.
Definition p3 : Running SimpleQueue :=
  with_jobs p2 (MkShared (process (shared p2)) 0 q1) {[ 0 := MkJob key 0 (runWorker_body options key) ]}.
Definition p4 : Running SimpleQueue :=
  with_jobs p3 (interp (handle_shared w) (runWorker_body options key) (shared p3)).2 ∅.
(** the registry comes back before the leader read the notification *)
Definition p5 : Running SimpleQueue := notified (apply_configuration p4 (snapshot_of [r])).
Definition p6 : Running SimpleQueue :=
  MkRunning (shared p5) (jobs p5) (knownRegistries p5)
    (Some (reconcileConfiguration (knownRegistries p5))) false false.
Definition p7 : Running SimpleQueue := led p6 (reconcileConfiguration (knownRegistries p5)).

Lemma snapshot_wf r1 : registries_wf (snapshot_of [r1]).
Proof. intros k r2. simpl. intros [[<- <-]|[_ Hl]]%lookup_insert_Some; [done|by rewrite lookup_empty in Hl]. Qed.
Lemma st_wf : config_wf st.
Proof. intros snap [= <-]. apply snapshot_wf. Qed.

Lemma reach_p1 allowed : rtc (sched_step options 0 allowed) p0 p1.
Proof. by apply (run_leading options 0 allowed w (reconcileConfiguration ∅) p0). Qed.

Abbreviation run p p' := (rtc (sched_step options 0 registries_wf) p p').
Lemma reach_change p r1 : notifying p = false → run p (apply_configuration p (snapshot_of [r1])).
Proof. intros Hn. apply rtc_once, sched_apply; [apply snapshot_wf|done]. Qed.
Lemma reach_notified p : notifying p = true → run p (notified p).
Proof. intros Hn. by apply rtc_once, sched_notify. Qed.

Lemma reach_p7 : run p0 p7.
Proof.
  etrans; [apply reach_p1|]. etrans; [by apply (reach_change p1 other)|].
  etrans; [apply reach_notified; vm_compute; reflexivity|]. change (run p2 p7).
  eapply rtc_l; [apply (sched_get options 0 registries_wf p2 0 key q1)|];
    [vm_compute; lia|done|by vm_compute|]. change (run p3 p7).
  etrans; [apply (run_job options 0 registries_wf w (runWorker_body options key) p3 0 key 0); done|].
  change (run p4 p7). etrans; [by apply (reach_change p4 r)|].
  etrans; [apply reach_notified; vm_compute; reflexivity|]. change (run p5 p7).
  eapply rtc_l; [by apply (sched_receive options 0 registries_wf p5)|]. change (run p6 p7).
  by apply (run_leading options 0 registries_wf w (reconcileConfiguration (knownRegistries p5)) p6).
Qed.

(** Nothing is left that could wake the registry. *)
Definition asleep (p : Running SimpleQueue) : Prop :=
  leading p = None ∧ configurationChanges p = false ∧ notifying p = false ∧ jobs p = ∅ ∧
  waiting (work (shared p)) = ∅ ∧ delays (work (shared p)) = ∅ ∧
  cred (process (shared p)) key = None ∧ configured (process (shared p)) key = Some r.

Lemma asleep_step p p' : sched_step options 0 (λ _, False) p p' → asleep p → asleep p'.
Proof.
  intros Hstep (Hl & Hc & Hn & Hj & Hw & Hd & Hcr & Hconf).
  destruct Hstep as [p c []|p Hn'|p t ? ?|p q Hq|p|p ?|p X ev k x s ?|p kn ?|p i k q _ _ Hq|p i k t X ev c x s Hi
                    |p i k t u Hi];
    try done; try congruence; unfold asleep; simpl.
  - destruct Hq as (k & u & Hk & _). by rewrite Hd in Hk.
  - destruct Hq as (Hk & _). rewrite Hw in Hk. by apply not_elem_of_empty in Hk.
  - by rewrite Hj in Hi.
  - by rewrite Hj in Hi.
Qed.

(** The scheduler can forget a registry that is removed and configured again
    before the leader reads the configuration in between: a worker that takes
    the key then drops it without queueing it again, and the leader, comparing
    the snapshots before and after, sees no difference.  In the state reached the
    leader waits in sync with the configuration, which names the registry; and
    until the next change of the configuration, the registry never gets a
    credential, however long the scheduler runs. *)
Theorem registry_forgotten :
  ∃ p, rtc (sched_step options 0 registries_wf) (start st 0 q0) p ∧
    (∀ cur, ConfigStore.current (configStore (process (shared p))) = Some cur →
       knownRegistries p = Registries cur ∧ Registries cur !! key = Some r) ∧
    leading p = None ∧ configurationChanges p = false ∧ notifying p = false ∧
    ∀ p', rtc (sched_step options 0 (λ _, False)) p p' →
      configured (process (shared p')) key = Some r ∧ cred (process (shared p')) key = None ∧
      jobs p' = ∅ ∧ ∀ t, ¬ due (work (shared p')) key t.
Proof.
  exists p7. split; [apply reach_p7|]. split.
  { intros cur Hcur. vm_compute in Hcur. injection Hcur as <-. split; vm_compute; reflexivity. }
  do 3 (split; [vm_compute; reflexivity|]). intros p' Hp'.
  assert (asleep p') as (_ & _ & _ & Hj & Hw & Hd & Hcr & Hconf).
  { refine (rtc_invariant _ _ _ _ asleep_step _ Hp'). repeat split; vm_compute; reflexivity. }
  do 3 (split; [done|]). intros t [Hin|(u & Hu & _)]; [|by rewrite Hd in Hu].
  rewrite Hw in Hin. by apply not_elem_of_empty in Hin.
Qed.

Lemma registry_never_forgotten_witness :
  is_Some (knownRegistries p1 !! key) ∧
  (contextEnded (process (shared p1)) = true ∨
   (∃ i j, jobs p1 !! i = Some j ∧ job_key j = key) ∨
   ∃ t, due (work (shared p1)) key t ∧
     ((t ≤ time (shared p1) + RetryMaxDelay options)%Z ∨
      ∃ e, cred (process (shared p1)) key = Some e ∧
        (t ≤ ExpiresAt (entry_Credential e) - RefreshBefore options + 0)%Z)).
Proof.
  assert (is_Some (knownRegistries p1 !! key)) as Hk by (vm_compute; by eexists).
  split; [exact Hk|].
  apply (registry_never_forgotten options 0 key st 0 q0 p0 p1); [..|exact (reach_p1 _)|exact Hk].
  - apply validate_spec. reflexivity.
  - lia.
  - exact st_wf.
  - apply rtc_refl.
  - vm_compute. by eexists.
  - reflexivity.
  - intros i j Hj. by vm_compute in Hj.
  - right. reflexivity.
Defined.

Lemma scheduler_follows_configuration_witness :
  (at_rest p7 → synced p7) ∧ ∃ p', catches_up options 0 p7 p' ∧ at_rest p' ∧ synced p'.
Proof. exact (proj2 (scheduler_follows_configuration options 0 registries_wf st 0 q0 p7 reach_p7)). Defined.
End SystemExample.
