(* ===== verification/SecretCodec.v ===== *)
(** * The documents of the managed Secret (internal/registrysecret/builder.go)

    The Docker config and the persisted state: their data, the text
    [json.Marshal] writes for them, and what [json.Unmarshal] reads into the
    struct types the package declares (fields matched case-insensitively,
    unknown fields ignored, null leaving a field alone, a type error recorded
    while decoding goes on, an invalid time ending it). *)
From S2P Require Import Prelude GoStrings Encoding Rfc3339 Json.
From Stdlib Require Import Ascii.

Definition StateVersion : Z := 1.
Definition StateAnnotationKey : string := "registry-secret-controller.io/state".
Definition ApplicationNameLabelKey : string := "app.kubernetes.io/name".
Definition ManagedByLabelKey : string := "app.kubernetes.io/managed-by".
Definition ControllerIdentity : string := "kubernetes-registry-secret-controller".
(** corev1.DockerConfigJsonKey, corev1.SecretTypeDockerConfigJson *)
Definition DockerConfigJsonKey : string := ".dockerconfigjson".
Definition SecretTypeDockerConfigJson : string := "kubernetes.io/dockerconfigjson".

Record DockerAuth := MkAuth {
  auth_Username : string;
  auth_Password : string;
  auth_Auth : string
}.
#[export] Instance DockerAuth_eq_dec : EqDecision DockerAuth.
Proof. solve_decision. Defined.
Definition zero_auth : DockerAuth := MkAuth "" "" "".

Abbreviation DockerConfig := (gmap string DockerAuth).

Record RegistryState := MkRegistryState {
  st_RefreshedAt : GoTime;
  st_ExpiresAt : GoTime;
  st_StateHash : string
}.
#[export] Instance RegistryState_eq_dec : EqDecision RegistryState.
Proof. solve_decision. Defined.
Definition zero_state : RegistryState := MkRegistryState zero_time zero_time "".

(** [PersistedState]; the version is always [StateVersion] when it is written *)
Abbreviation PersistedState := (gmap string RegistryState).

(** ** json.Marshal *)

(** Map keys are written in increasing order. *)
Definition sorted_bindings {A} (m : gmap string A) : list (string * A) :=
  omap (λ k, (λ v, (k, v)) <$> m !! k) (sort_Strings (map_to_list m).*1).

Definition raw_string (s : string) : bytes := json_escape 0 0 (to_bytes s).
Definition field (name : string) (v : json) : bytes * json := (raw_string name, v).

Definition auth_value (a : DockerAuth) : json :=
  JObject [field "username" (jstring (auth_Username a));
           field "password" (jstring (auth_Password a));
           field "auth" (jstring (auth_Auth a))].
Definition docker_value (m : DockerConfig) : json :=
  JObject [field "auths" (JObject ((λ kv, field kv.1 (auth_value kv.2)) <$> sorted_bindings m))].

(** The text of a time holds no character the encoder would escape. *)
Definition state_entry_value (s : RegistryState) : option json :=
  r ← marshal_time (st_RefreshedAt s);
  e ← marshal_time (st_ExpiresAt s);
  Some (JObject [field "refreshedAt" (JString r); field "expiresAt" (JString e);
                 field "stateHash" (jstring (st_StateHash s))]).
Definition state_value (m : PersistedState) : option json :=
  entries ← mapM (λ kv, v ← state_entry_value kv.2; Some (field kv.1 v)) (sorted_bindings m);
  Some (JObject [field "version" (JNumber (to_bytes "1")); field "registries" (JObject entries)]).

Definition marshal_docker (m : DockerConfig) : bytes := print (docker_value m).
Definition marshal_state (m : PersistedState) : option bytes := print <$> state_value m.

(** ** json.Unmarshal *)

(** The folding of field names: ASCII letters, and the two other runes that
    fold to one (U+017F and U+212A). *)
Definition upper_ascii (c : ascii) : ascii :=
  if in_range 97 122 (code c) then chr (code c - 32) else c.
Fixpoint fold_name (l : bytes) : bytes :=
  match l with
  | [] => []
  | a :: l1 =>
    match l1 with
    | b :: l2 =>
      if (code a =? 197)%N && (code b =? 191)%N then "S"%char :: fold_name l2 else
      match l2 with
      | c :: l3 =>
        if (code a =? 226)%N && (code b =? 132)%N && (code c =? 170)%N
        then "K"%char :: fold_name l3 else upper_ascii a :: fold_name l1
      | [] => upper_ascii a :: fold_name l1
      end
    | [] => [upper_ascii a]
    end
  end.
Definition is_field (name : string) (raw_key : bytes) : bool :=
  bool_decide (fold_name (unquote 0 raw_key) = fold_name (to_bytes name)).

(** A field's new value, and whether no type error was recorded. *)
Definition decode_string (cur : string) (v : json) : string * bool :=
  match v with JString raw => (Unquote raw, true) | JNull => (cur, true) | _ => (cur, false) end.
Definition decode_int (cur : Z) (v : json) : Z * bool :=
  match v with
  | JNumber lit => match Atoi (of_bytes lit) with Some n => (n, true) | None => (cur, false) end
  | JNull => (cur, true)
  | _ => (cur, false)
  end.
(** [map[string]json.RawMessage]: a raw message is kept as its value. *)
Abbreviation raw_map := (option (gmap string json)).
Definition decode_raw_map (cur : raw_map) (v : json) : raw_map * bool :=
  match v with
  | JNull => (None, true)
  | JObject ms => (Some (foldl (λ m kv, <[Unquote kv.1 := kv.2]> m) (default ∅ cur) ms), true)
  | _ => (cur, false)
  end.
(** [time.Time.UnmarshalJSON]; [None] is its error *)
Definition decode_time (cur : GoTime) (v : json) : option GoTime :=
  match v with JString raw => parse_strict raw | JNull => Some cur | _ => None end.

(** A document decoded into a struct: members in order, [step] per member. *)
Definition decode_struct {S} (step : S * bool → bytes * json → S * bool) (zero : S)
    (v : option json) : S * bool :=
  match v with
  | Some (JObject ms) => foldl step (zero, true) ms
  | Some JNull => (zero, true)
  | _ => (zero, false)
  end.

Definition docker_step (st : raw_map * bool) (m : bytes * json) : raw_map * bool :=
  if is_field "auths" m.1 then
    let '(a, ok) := decode_raw_map st.1 m.2 in (a, st.2 && ok)
  else st.
Definition unmarshal_docker (l : bytes) : raw_map * bool :=
  decode_struct docker_step None (parse_json l).

Definition state_step (st : (Z * raw_map) * bool) (m : bytes * json) : (Z * raw_map) * bool :=
  let '((version, registries), ok) := st in
  if is_field "version" m.1 then
    let '(v, o) := decode_int version m.2 in ((v, registries), ok && o)
  else if is_field "registries" m.1 then
    let '(r, o) := decode_raw_map registries m.2 in ((version, r), ok && o)
  else st.
Definition unmarshal_state (l : bytes) : (Z * raw_map) * bool :=
  decode_struct state_step (0%Z, None) (parse_json l).

Definition auth_step (st : DockerAuth * bool) (m : bytes * json) : DockerAuth * bool :=
  let '(a, ok) := st in
  if is_field "username" m.1 then
    let '(s, o) := decode_string (auth_Username a) m.2 in
    (MkAuth s (auth_Password a) (auth_Auth a), ok && o)
  else if is_field "password" m.1 then
    let '(s, o) := decode_string (auth_Password a) m.2 in
    (MkAuth (auth_Username a) s (auth_Auth a), ok && o)
  else if is_field "auth" m.1 then
    let '(s, o) := decode_string (auth_Auth a) m.2 in
    (MkAuth (auth_Username a) (auth_Password a) s, ok && o)
  else st.
(** [json.Unmarshal(raw, &auth)]; a missing raw message is an empty document *)
Definition unmarshal_auth (raw : option json) : DockerAuth * bool :=
  decode_struct auth_step zero_auth raw.

(** The third component says that an invalid time ended the decoding. *)
Definition entry_step (st : (RegistryState * bool) * bool) (m : bytes * json) :
    (RegistryState * bool) * bool :=
  let '((s, stopped), ok) := st in
  if stopped : bool then st
  else if is_field "refreshedAt" m.1 then
    match decode_time (st_RefreshedAt s) m.2 with
    | Some t => ((MkRegistryState t (st_ExpiresAt s) (st_StateHash s), false), ok)
    | None => ((s, true), false)
    end
  else if is_field "expiresAt" m.1 then
    match decode_time (st_ExpiresAt s) m.2 with
    | Some t => ((MkRegistryState (st_RefreshedAt s) t (st_StateHash s), false), ok)
    | None => ((s, true), false)
    end
  else if is_field "stateHash" m.1 then
    let '(h, o) := decode_string (st_StateHash s) m.2 in
    ((MkRegistryState (st_RefreshedAt s) (st_ExpiresAt s) h, false), ok && o)
  else st.
Definition unmarshal_entry (raw : option json) : RegistryState * bool :=
  let '((s, _), ok) := decode_struct entry_step (zero_state, false) raw in (s, ok).
