(* ===== verification/SecretCodecTheory.v ===== *)
(** * The Secret's documents read back

    What the package writes, it decodes to the same maps, for valid UTF-8
    strings and times that RFC 3339 can carry. *)
From S2P Require Import Prelude GoStrings Encoding Rfc3339 Json JsonTheory SecretCodec.
From Stdlib Require Import Ascii.

Section bindings.
Context {A : Type}.
Implicit Type m : gmap string A.

Lemma elem_of_sorted_bindings m k v : (k, v) ∈ sorted_bindings m ↔ m !! k = Some v.
Proof.
  unfold sorted_bindings. rewrite list_elem_of_omap. split.
  - intros (k' & _ & Heq). destruct (m !! k') eqn:Hm; simplify_eq/=. done.
  - intros Hm. exists k. rewrite Hm. split; [|done].
    unfold sort_Strings. rewrite merge_sort_Permutation, list_elem_of_fmap.
    exists (k, v). by rewrite elem_of_map_to_list.
Qed.

Lemma sorted_bindings_fst m : (sorted_bindings m).*1 = sort_Strings (map_to_list m).*1.
Proof.
  unfold sorted_bindings.
  assert (∀ k, k ∈ sort_Strings (map_to_list m).*1 → is_Some (m !! k)) as Hall.
  { intros k. unfold sort_Strings. rewrite merge_sort_Permutation, list_elem_of_fmap.
    intros ([k' v] & -> & Hv%elem_of_map_to_list). by exists v. }
  induction (sort_Strings _) as [|k l IH]; [done|]. cbn [omap list_omap].
  destruct (Hall k) as [v Hv]; [left|]. rewrite Hv. simpl. f_equal. apply IH.
  intros k' Hk'. apply Hall. by right.
Qed.

Lemma NoDup_sorted_bindings m : NoDup (sorted_bindings m).*1.
Proof.
  rewrite sorted_bindings_fst. unfold sort_Strings. rewrite merge_sort_Permutation.
  apply NoDup_fst_map_to_list.
Qed.

Lemma decode_raw_map_bindings (f : A → json) m :
  (∀ k v, m !! k = Some v → valid_utf8 k = true) →
  decode_raw_map None (JObject ((λ kv, field kv.1 (f kv.2)) <$> sorted_bindings m))
  = (Some (f <$> m), true).
Proof.
  intros Hk. unfold decode_raw_map. do 2 f_equal. simpl.
  assert (∀ l (m0 : gmap string json), (∀ k v, (k, v) ∈ l → valid_utf8 k = true) →
    foldl (λ acc kv, <[Unquote kv.1 := kv.2]> acc) m0 ((λ kv : string * A, field kv.1 (f kv.2)) <$> l)
    = foldl (λ acc kv, <[kv.1 := kv.2]> acc) m0 (prod_map id f <$> l)) as Hfold.
  { induction l as [|[k v] l IH]; intros m0 Hl; [done|].
    rewrite !fmap_cons. cbn [foldl]. rewrite IH by (intros k' v' Hin; apply (Hl k' v'); by right).
    f_equal. unfold field, raw_string; cbn [fst snd prod_map id].
    by rewrite Unquote_jstring by (apply (Hl k v); left). }
  rewrite Hfold by (intros k v Hin; by apply (Hk k v), elem_of_sorted_bindings).
  apply foldl_insert_bindings.
  - rewrite <-list_fmap_compose. apply NoDup_sorted_bindings.
  - intros k v. rewrite lookup_fmap, fmap_Some, list_elem_of_fmap. split.
    + intros ([k' a] & [= -> ->] & Hin). exists a. by rewrite <-elem_of_sorted_bindings.
    + intros (a & Hm & ->). exists (k, a). by rewrite elem_of_sorted_bindings.
Qed.
End bindings.

(** ** Docker config *)
Definition valid_auth (a : DockerAuth) : Prop :=
  valid_utf8 (auth_Username a) = true ∧ valid_utf8 (auth_Password a) = true ∧
  valid_utf8 (auth_Auth a) = true.
Definition valid_docker (m : DockerConfig) : Prop :=
  ∀ d a, m !! d = Some a → valid_utf8 d = true ∧ valid_auth a.

Lemma unmarshal_auth_value a : valid_auth a → unmarshal_auth (Some (auth_value a)) = (a, true).
Proof.
  intros (Hu & Hp & Ha). destruct a as [u p au]; simpl in *.
  unfold unmarshal_auth, auth_value, decode_struct. cbn [foldl].
  cbn -[Unquote]. by rewrite !Unquote_jstring.
Qed.

Lemma printable_jstring s : printable (jstring s).
Proof. apply raw_ok_escape. Qed.

Lemma printable_auth a : printable (auth_value a).
Proof.
  apply printable_object. unfold field, raw_string.
  repeat constructor; simpl; eauto using raw_ok_escape.
Qed.

Lemma printable_docker m : printable (docker_value m).
Proof.
  apply printable_object. constructor; [|done]. split; [apply raw_ok_escape|].
  apply printable_object, Forall_fmap, Forall_forall. intros [k a] _.
  split; [apply raw_ok_escape|apply printable_auth].
Qed.

Lemma nesting_docker m : nesting (docker_value m) ≤ 3.
Proof.
  apply nesting_object. constructor; [|done]. apply nesting_object, Forall_fmap, Forall_forall.
  intros [k a] _. simpl. lia.
Qed.

Lemma small_depth : 3 ≤ max_depth.
Proof. unfold max_depth. apply Nat2Z.inj_le. rewrite Z2Nat.id; lia. Qed.

Lemma unmarshal_docker_marshal m :
  valid_docker m → unmarshal_docker (marshal_docker m) = (Some (auth_value <$> m), true).
Proof.
  intros Hm. unfold unmarshal_docker, marshal_docker.
  rewrite parse_print; [|apply printable_docker|etrans; [apply nesting_docker|apply small_depth]].
  unfold docker_value, decode_struct. cbn [foldl]. unfold docker_step. cbn [fst snd field].
  assert (is_field "auths" (raw_string "auths") = true) as -> by reflexivity.
  by rewrite (decode_raw_map_bindings auth_value) by (intros k v Hk; apply (Hm k v Hk)).
Qed.

(** ** Persisted state *)
Definition valid_time (t : GoTime) : Prop :=
  (0 <= year t <= 9999)%Z ∧ (-86400 < offset t < 86400)%Z ∧ (offset t mod 60 = 0)%Z.
Definition valid_entry (s : RegistryState) : Prop :=
  valid_time (st_RefreshedAt s) ∧ valid_time (st_ExpiresAt s) ∧ valid_utf8 (st_StateHash s) = true.
Definition valid_state (m : PersistedState) : Prop :=
  ∀ k s, m !! k = Some s → valid_utf8 k = true ∧ valid_entry s.

(** A byte that stands for itself in a quoted string. *)
Definition plain (c : ascii) : bool :=
  negb ((code c =? 34)%N || (code c =? 92)%N || (code c <? 32)%N).

Lemma raw_ok_plain l : Forall (λ c, plain c = true) l → raw_ok l.
Proof.
  intros Hl r. induction Hl as [|c l Hc _ IH]; [done|]. cbn [app scan_string].
  unfold plain in Hc. rewrite negb_true_iff, !orb_false_iff in Hc. destruct Hc as [[Hq Hb] Hlt].
  rewrite decide_False by (intros ->; done). rewrite decide_False by (intros ->; done).
  by rewrite Hlt, IH.
Qed.

Lemma plain_digit d : (0 <= d < 10)%Z → plain (digit d) = true.
Proof.
  intros Hd. unfold plain, digit, byteZ, code, chr. rewrite N_ascii_embedding by lia.
  rewrite negb_true_iff, !orb_false_iff, !N.eqb_neq, N.ltb_ge. lia.
Qed.
Lemma plain_pad2 n : (0 <= n < 100)%Z → Forall (λ c, plain c = true) (pad2 n).
Proof. intros Hn. repeat constructor; apply plain_digit; Z.to_euclidean_division_equations; lia. Qed.
Lemma plain_pad4 n : (0 <= n < 10000)%Z → Forall (λ c, plain c = true) (pad4 n).
Proof.
  intros Hn. unfold pad4. apply Forall_app. split; apply plain_pad2;
    Z.to_euclidean_division_equations; lia.
Qed.
Lemma plain_frac ns : (0 <= ns < nano)%Z → Forall (λ c, plain c = true) (format_frac ns).
Proof.
  intros Hns. unfold format_frac.
  pose proof (trim_zeros_range _ (frac_digits_range ns Hns)) as Hr.
  destruct (trim_zeros (frac_digits ns)) as [|d ds]; [done|].
  apply Forall_app. split; [by repeat constructor|].
  apply Forall_fmap. eapply Forall_impl; [exact Hr|]. apply plain_digit.
Qed.
Lemma plain_zone off :
  (-86400 < off < 86400)%Z → Forall (λ c, plain c = true) (format_zone off).
Proof.
  intros Ho. unfold format_zone. destruct (off =? 0)%Z; [by repeat constructor|].
  apply Forall_app. split; [destruct (off <? 0)%Z; by repeat constructor|].
  apply Forall_app. split; [apply plain_pad2; Z.to_euclidean_division_equations; lia|].
  apply Forall_app. split; [by repeat constructor|].
  apply plain_pad2; Z.to_euclidean_division_equations; lia.
Qed.

Lemma plain_format t : valid_time t → Forall (λ c, plain c = true) (format_nano t).
Proof.
  intros (Hy & Ho & _). unfold format_nano, year in *.
  pose proof (civil_from_days_spec (local_seconds t / 86400)) as Hciv.
  destruct (civil_from_days (local_seconds t / 86400)) as [[y m] d]. simpl in Hy.
  destruct Hciv as (_ & Hm & Hd). cbv zeta.
  assert (month_days (is_leap y) m <= 31)%Z as Hmd.
  { unfold month_days. destruct (is_leap y); repeat case_match; lia. }
  pose proof (Z.mod_pos_bound (local_seconds t) 86400 ltac:(lia)) as Hs.
  unfold format_year. destruct (Z.ltb_spec y 0); [lia|].
  rewrite Z.abs_eq by lia. destruct (Z.ltb_spec y 10000); [|lia].
  cbn [app]. apply Forall_app_2; [apply plain_pad4; lia|].
  assert (0 <= local_seconds t mod 86400 / 3600 < 100 ∧
          0 <= local_seconds t mod 86400 mod 3600 / 60 < 100 ∧
          0 <= local_seconds t mod 86400 mod 60 < 100)%Z as (Hh & Hmi & Hse).
  { Z.to_euclidean_division_equations. lia. }
  repeat (apply Forall_app_2; [first [apply plain_pad2; lia | by repeat constructor
    | apply plain_frac, Z.mod_pos_bound; done]|]).
  by apply plain_zone.
Qed.

Definition entry_value (s : RegistryState) : json :=
  JObject [field "refreshedAt" (JString (format_nano (st_RefreshedAt s)));
           field "expiresAt" (JString (format_nano (st_ExpiresAt s)));
           field "stateHash" (jstring (st_StateHash s))].

Lemma marshal_valid_time t : valid_time t → marshal_time t = Some (format_nano t).
Proof.
  intros (Hy & _). unfold marshal_time.
  destruct (Z.leb_spec 0 (year t)), (Z.leb_spec (year t) 9999); simpl; first [done|lia].
Qed.

Lemma state_entry_value_valid s : valid_entry s → state_entry_value s = Some (entry_value s).
Proof.
  intros (Hr & He & _). unfold state_entry_value. by rewrite !marshal_valid_time.
Qed.

Lemma state_value_valid m :
  valid_state m →
  state_value m = Some (JObject [field "version" (JNumber (to_bytes "1"));
    field "registries" (JObject ((λ kv, field kv.1 (entry_value kv.2)) <$> sorted_bindings m))]).
Proof.
  intros Hm. unfold state_value.
  assert (∀ l, (∀ k s, (k, s) ∈ l → valid_entry s) →
    mapM (λ kv : string * RegistryState, v ← state_entry_value kv.2; Some (field kv.1 v)) l
    = Some ((λ kv, field kv.1 (entry_value kv.2)) <$> l)) as ->; [|done|].
  - induction l as [|[k s] l IH]; intros Hl; [done|].
    cbn [mapM]. simpl. rewrite state_entry_value_valid by (apply (Hl k); left). simpl.
    rewrite IH; [done|]. intros k' s' Hin. apply (Hl k'). by right.
  - intros k s Hin%elem_of_sorted_bindings. by apply (Hm k).
Qed.

Lemma unmarshal_entry_value s : valid_entry s → unmarshal_entry (Some (entry_value s)) = (s, true).
Proof.
  intros ((?&?&?) & (?&?&?) & Hh). destruct s as [r e h]; simpl in *.
  unfold unmarshal_entry, entry_value, decode_struct. cbn [foldl fst snd].
  unfold entry_step at 3. cbn [fst snd field].
  change (is_field "refreshedAt" (raw_string "refreshedAt")) with true. cbn [decode_time].
  rewrite parse_format by done. unfold entry_step at 2. cbn [fst snd field].
  change (is_field "refreshedAt" (raw_string "expiresAt")) with false.
  change (is_field "expiresAt" (raw_string "expiresAt")) with true. cbn [decode_time].
  rewrite parse_format by done. unfold entry_step. cbn [fst snd field].
  change (is_field "refreshedAt" (raw_string "stateHash")) with false.
  change (is_field "expiresAt" (raw_string "stateHash")) with false.
  change (is_field "stateHash" (raw_string "stateHash")) with true.
  unfold jstring, decode_string. by rewrite Unquote_jstring.
Qed.

Lemma unmarshal_state_marshal m :
  valid_state m →
  ∃ text, marshal_state m = Some text ∧
    unmarshal_state text = ((StateVersion, Some (entry_value <$> m)), true).
Proof.
  intros Hm. unfold marshal_state. rewrite state_value_valid by done. eexists. split; [done|].
  unfold unmarshal_state. rewrite parse_print.
  - unfold decode_struct. cbn [foldl]. unfold state_step at 2. cbn [fst snd field].
    change (is_field "version" (raw_string "version")) with true.
    change (decode_int 0 (JNumber (to_bytes "1"))) with (1%Z, true). cbv beta iota zeta.
    unfold state_step. cbn [fst snd field].
    change (is_field "version" (raw_string "registries")) with false.
    change (is_field "registries" (raw_string "registries")) with true.
    by rewrite (decode_raw_map_bindings entry_value) by (intros k v Hk; apply (Hm k v Hk)).
  - apply printable_object. repeat constructor; try apply raw_ok_escape; [apply number_ok_1..|].
    apply printable_object, Forall_fmap, Forall_forall. intros [k s] Hin%elem_of_sorted_bindings.
    split; [apply raw_ok_escape|]. destruct (Hm k s Hin) as [_ (Hr & He & _)].
    apply printable_object. unfold field.
    repeat constructor; try apply raw_ok_escape; by apply raw_ok_plain, plain_format.
  - apply (Nat.le_trans _ 3); [|apply small_depth]. apply (nesting_object _ 2).
    apply Forall_cons. split; [simpl; lia|]. apply Forall_cons. split; [|done].
    apply (nesting_object _ 1), Forall_fmap, Forall_forall. intros [k s] _. simpl. lia.
Qed.
