(* ===== verification/RegistrySecret.v ===== *)
(** * The managed Secret (internal/registrysecret/builder.go, inspection.go)

    [Build] renders the Docker config and the state annotation from one
    configuration snapshot and one credential snapshot, retaining what the
    existing Secret still holds for pending registries.  [RegistryStatus]
    classifies what a Secret holds for one registry. *)
From S2P Require Import Prelude GoStrings Encoding Rfc3339 Json SecretCodec ConfigTypes Credential.
From Stdlib Require Import Ascii.

(** The fields of [corev1.Secret] the controller reads or writes; a nil map and
    an empty one read alike. *)
Record Secret := MkSecret {
  sec_Namespace : string;
  sec_Name : string;
  UID : string;
  ResourceVersion : string;
  DeletionTimestamp : option Time;
  sec_Type : string;
  Data : gmap string bytes;
  Labels : gmap string string;
  Annotations : gmap string string
}.

Record Content := MkContent { DockerJSON : bytes; StateJSON : string; hasAuth : bool }.
#[export] Instance Content_eq_dec : EqDecision Content.
Proof. solve_decision. Defined.
Definition zero_content : Content := MkContent [] "" false.
Definition HasAuth (c : Content) : bool := hasAuth c.

Inductive build_error :=
| DockerConfigInvalid
| AuthEntryInvalid
| StateInvalid
| StateEntryInvalid
| AuthWithoutState (key : RegistryKey)
| IncompleteState (key : RegistryKey)
| InvalidAuth (key : RegistryKey) (domain : string)
| MarshalStateFailed.
#[export] Instance build_error_eq_dec : EqDecision build_error.
Proof. solve_decision. Defined.

(** ** Rendering one credential *)
Definition encodedAuth (username password : string) : string :=
  of_bytes (base64_encode (to_bytes (username +:+ ":" +:+ password))).

(** A nil slice is written as null. *)
Definition json_string_slice (l : list string) : bytes :=
  match l with [] => to_bytes "null" | _ => json_strings l end.

Definition state_document (registry : RegistryConfig) (value : Credential) : bytes :=
  json_struct [
    ("regionID", json_string (reg_RegionID registry));
    ("instanceID", json_string (reg_InstanceID registry));
    ("accessKeyID", json_string (AccessKeyID registry));
    ("accessKeySecret", json_string (AccessKeySecret registry));
    ("domains", json_string_slice (Domains registry));
    ("username", json_string (Username value));
    ("password", json_string (Password value));
    ("refreshedAt", json_string (of_bytes (format_nano (UTC (RefreshedAt value)))));
    ("expiresAt", json_string (of_bytes (format_nano (UTC (ExpiresAt value)))))].

Definition stateHash (registry : RegistryConfig) (value : Credential) : string :=
  "sha256:" +:+ sha256_hex (state_document registry value).
#[global] Arguments stateHash : simpl never.

Definition auth_of (value : Credential) : DockerAuth :=
  MkAuth (Username value) (Password value) (encodedAuth (Username value) (Password value)).
#[global] Arguments auth_of : simpl never.
Definition state_of (registry : RegistryConfig) (value : Credential) : RegistryState :=
  MkRegistryState (UTC (RefreshedAt value)) (UTC (ExpiresAt value)) (stateHash registry value).

Abbreviation documents := (DockerConfig * PersistedState)%type.

Definition addCredential (docs : documents) (registry : RegistryConfig) (value : Credential) :
    documents :=
  (foldl (λ auths domain, <[domain := auth_of value]> auths) docs.1 (Domains registry),
   <[RegistryKey_String (Key registry) := state_of registry value]> docs.2).

(** ** What the existing Secret holds *)
Section range.
Context `{RangeOrder}.

Definition add_auth (st : DockerConfig * list build_error) (kv : string * json) :
    DockerConfig * list build_error :=
  match unmarshal_auth (Some kv.2) with
  | (auth, true) => (<[kv.1 := auth]> st.1, st.2)
  | (_, false) => (st.1, st.2 ++ [AuthEntryInvalid])
  end.
Definition add_entry (st : PersistedState * list build_error) (kv : string * json) :
    PersistedState * list build_error :=
  match unmarshal_entry (Some kv.2) with
  | (value, true) => (<[kv.1 := value]> st.1, st.2)
  | (_, false) => (st.1, st.2 ++ [StateEntryInvalid])
  end.

Definition existing_docker (l : bytes) : DockerConfig * list build_error :=
  match unmarshal_docker l with
  | (Some auths, true) => foldl add_auth (∅, []) (range auths)
  | _ => (∅, [DockerConfigInvalid])
  end.
Definition existing_state (l : bytes) : PersistedState * list build_error :=
  match unmarshal_state l with
  | ((version, Some registries), true) =>
    if (version =? StateVersion)%Z then foldl add_entry (∅, []) (range registries)
    else (∅, [StateInvalid])
  | _ => (∅, [StateInvalid])
  end.

(** [None]: the Secret has neither document. *)
Definition parseExisting (secret : Secret) : option documents * list build_error :=
  let dockerJSON := Data secret !! DockerConfigJsonKey in
  let stateJSON := Annotations secret !! StateAnnotationKey in
  if bool_decide (dockerJSON = None) && bool_decide (stateJSON = None) then (None, [])
  else
    let '(docker, problems1) := existing_docker (default [] dockerJSON) in
    let '(state, problems2) := existing_state (to_bytes (default "" stateJSON)) in
    (Some (docker, state), problems1 ++ problems2).

(** ** Pending registries *)
Definition usable_auth (a : DockerAuth) : bool :=
  negb (bool_decide (auth_Username a = "")) && negb (bool_decide (auth_Password a = ""))
  && bool_decide (auth_Auth a = encodedAuth (auth_Username a) (auth_Password a)).
#[global] Arguments usable_auth : simpl never.

Definition complete_state (s : RegistryState) : bool :=
  negb (IsZero (st_RefreshedAt s))
  && (unix_nano (st_RefreshedAt s) <? unix_nano (st_ExpiresAt s))%Z
  && negb (bool_decide (st_StateHash s = "")).

(** The loop over the domains: the auths kept so far, whether any was kept, and
    the problems. *)
Definition retain_domain (key : RegistryKey) (existing : DockerConfig)
    (st : (DockerConfig * bool) * list build_error) (domain : string) :
    (DockerConfig * bool) * list build_error :=
  let '((auths, retained), problems) := st in
  match existing !! domain with
  | None => st
  | Some auth =>
    if usable_auth auth then ((<[domain := auth]> auths, true), problems)
    else ((auths, retained), problems ++ [InvalidAuth key domain])
  end.

Definition retainPending (docs : documents) (registry : RegistryConfig) (existing : documents) :
    documents * list build_error :=
  let key := Key registry in
  let hasAnyAuth := existsb (λ d, bool_decide (is_Some (existing.1 !! d))) (Domains registry) in
  match existing.2 !! RegistryKey_String key with
  | None => if hasAnyAuth then (docs, [AuthWithoutState key]) else (docs, [])
  | Some registryState =>
    if complete_state registryState then
      let '((auths, retained), problems) :=
        foldl (retain_domain key existing.1) ((docs.1, false), []) (Domains registry) in
      ((auths, if retained : bool then <[RegistryKey_String key := registryState]> docs.2 else docs.2),
       problems)
    else (docs, [IncompleteState key])
  end.

(** ** Build *)
Definition build_step (credentials : gmap RegistryKey Entry)
    (st : documents * list RegistryConfig) (kr : RegistryKey * RegistryConfig) :
    documents * list RegistryConfig :=
  let '(docs, pending) := st in
  match credentials !! kr.1 with
  | Some entry =>
    if MatchesRegistry entry kr.2 then (addCredential docs kr.2 (entry_Credential entry), pending)
    else (docs, pending ++ [kr.2])
  | None => (docs, pending ++ [kr.2])
  end.
Definition retain_step (existing : documents) (st : documents * list build_error)
    (registry : RegistryConfig) : documents * list build_error :=
  let '(docs, problems) := retainPending st.1 registry existing in (docs, st.2 ++ problems).

Definition build_documents (snapshot : ConfigurationSnapshot)
    (credentials : gmap RegistryKey Entry) (existing : option Secret) :
    documents * list build_error :=
  let '(docs, pending) := foldl (build_step credentials) ((∅, ∅), []) (range (Registries snapshot)) in
  match pending, existing with
  | _ :: _, Some secret =>
    match parseExisting secret with
    | (Some old, problems) => foldl (retain_step old) (docs, problems) pending
    | (None, problems) => (docs, problems)
    end
  | _, _ => (docs, [])
  end.

(** The second component is the error: nil exactly when the list is empty. *)
Definition Build (snapshot : ConfigurationSnapshot) (credentials : gmap RegistryKey Entry)
    (existing : option Secret) : Content * list build_error :=
  let '((docker, state), problems) := build_documents snapshot credentials existing in
  match marshal_state state with
  | None => (zero_content, [MarshalStateFailed])
  | Some text =>
    (MkContent (marshal_docker docker) (of_bytes text) (negb (bool_decide (docker = ∅))), problems)
  end.
End range.

(** ** Management marks (syncer.go) *)
Definition label_is (m : gmap string string) (key value : string) : bool :=
  bool_decide (default "" (m !! key) = value).

Definition IsManaged (secret : option Secret) : bool :=
  match secret with
  | None => false
  | Some s => label_is (Labels s) ApplicationNameLabelKey ControllerIdentity
              && label_is (Labels s) ManagedByLabelKey ControllerIdentity
  end.

Definition IsUsableForServiceAccount (secret : option Secret) : bool :=
  IsManaged secret &&
  match secret with
  | None => false
  | Some s => bool_decide (DeletionTimestamp s = None)
              && bool_decide (sec_Type s = SecretTypeDockerConfigJson)
              && negb (bool_decide (default [] (Data s !! DockerConfigJsonKey) = []))
  end.

(** [cloneStringMap] is an independent copy: the same map here. *)
Definition applyContent (secret : Secret) (content : Content) : Secret :=
  MkSecret (sec_Namespace secret) (sec_Name secret) (UID secret) (ResourceVersion secret)
    (DeletionTimestamp secret) SecretTypeDockerConfigJson
    {[ DockerConfigJsonKey := DockerJSON content ]}
    (<[ManagedByLabelKey := ControllerIdentity]>
       (<[ApplicationNameLabelKey := ControllerIdentity]> (Labels secret)))
    (<[StateAnnotationKey := StateJSON content]> (Annotations secret)).

Definition newSecret (namespace name : string) (content : Content) : Secret :=
  applyContent (MkSecret namespace name "" "" None "" ∅ ∅ ∅) content.

Definition secretMatches (secret : Secret) (content : Content) : bool :=
  bool_decide (sec_Type secret = SecretTypeDockerConfigJson)
  && bool_decide (size (Data secret) = 1)
  && bool_decide (default [] (Data secret !! DockerConfigJsonKey) = DockerJSON content)
  && label_is (Labels secret) ApplicationNameLabelKey ControllerIdentity
  && label_is (Labels secret) ManagedByLabelKey ControllerIdentity
  && label_is (Annotations secret) StateAnnotationKey (StateJSON content).

(** ** Inspection *)
Record Inspection := MkInspection {
  ins_secret : option Secret;
  auths : raw_map;
  states : raw_map;
  ins_valid : bool
}.

Definition Inspect (secret : option Secret) : Inspection :=
  match secret with
  | None => MkInspection None None None false
  | Some s =>
    let '(docker, docker_ok) := unmarshal_docker (default [] (Data s !! DockerConfigJsonKey)) in
    let '((version, registries), state_ok) :=
      unmarshal_state (to_bytes (default "" (Annotations s !! StateAnnotationKey))) in
    MkInspection secret docker registries
      (bool_decide (sec_Type s = SecretTypeDockerConfigJson) && docker_ok && state_ok
       && bool_decide (is_Some docker) && bool_decide (is_Some registries)
       && (version =? StateVersion)%Z)
  end.

Inductive registry_status := Pending | Conflict | Invalid | Expired | Synced.
#[export] Instance registry_status_eq_dec : EqDecision registry_status.
Proof. solve_decision. Defined.

Definition raw_lookup (m : raw_map) (key : string) : option json := m ≫= λ m, m !! key.

(** The loop over the domains; [None] is the return of "invalid". *)
Fixpoint domains_status (i expected : Inspection) (hasState : bool) (matches foundAuth : bool)
    (domains : list string) : option (bool * bool) :=
  match domains with
  | [] => Some (matches, foundAuth)
  | domain :: domains =>
    match raw_lookup (auths i) domain with
    | None => domains_status i expected hasState false foundAuth domains
    | Some raw =>
      let '(auth, ok) := unmarshal_auth (Some raw) in
      if negb ok || negb (usable_auth auth) || negb hasState then None
      else
        let '(desired, desired_ok) := unmarshal_auth (raw_lookup (auths expected) domain) in
        domains_status i expected hasState
          (matches && desired_ok && bool_decide (auth = desired)) true domains
    end
  end.

Definition RegistryStatus (i : Inspection) (registry : RegistryConfig) (expected : Inspection)
    (now : Time) : registry_status * GoTime :=
  match ins_secret i with
  | None => (Pending, zero_time)
  | Some secret =>
    if negb (IsManaged (Some secret)) then (Conflict, zero_time)
    else if bool_decide (is_Some (DeletionTimestamp secret)) then (Pending, zero_time)
    else if negb (ins_valid i) then (Invalid, zero_time)
    else
      let key := RegistryKey_String (Key registry) in
      let rawState := raw_lookup (states i) key in
      let hasState := bool_decide (is_Some rawState) in
      let '(state, state_ok) :=
        if hasState then unmarshal_entry rawState else (zero_state, true) in
      if hasState && (negb state_ok || negb (complete_state state)) then (Invalid, zero_time)
      else
        let rawExpected := raw_lookup (states expected) key in
        let expectedState := (unmarshal_entry rawExpected).1 in
        let matches := bool_decide (is_Some rawExpected) && hasState
          && bool_decide (st_StateHash state = st_StateHash expectedState)
          && (unix_nano (st_RefreshedAt state) =? unix_nano (st_RefreshedAt expectedState))%Z
          && (unix_nano (st_ExpiresAt state) =? unix_nano (st_ExpiresAt expectedState))%Z in
        match domains_status i expected hasState matches false (Domains registry) with
        | None => (Invalid, zero_time)
        | Some (_, false) => (Pending, zero_time)
        | Some (matches, true) =>
          if negb (now <? unix_nano (st_ExpiresAt state))%Z then (Expired, st_ExpiresAt state)
          else if matches : bool then (Synced, st_ExpiresAt state)
          else (Pending, st_ExpiresAt state)
        end
  end.
