(* ===== verification/RegistrySecretTheory.v ===== *)
(** * What Build renders

    Each configured registry contributes auths and a state, from its credential
    or from the existing Secret; the rendered documents are the union of the
    contributions. *)
From S2P Require Import Prelude GoStrings Encoding Rfc3339 Json JsonTheory SecretCodec SecretCodecTheory.
From S2P Require Import ConfigTypes Credential RegistrySecret.
From Stdlib Require Import Ascii.

(** ** Unions of maps that agree *)
Section unions.
Context {V A : Type} (f : A → gmap string V).

Definition unions (l : list A) (m0 : gmap string V) : gmap string V :=
  foldl (λ acc x, f x ∪ acc) m0 l.

Lemma unions_lookup l m0 d v :
  (∀ x y u w, x ∈ l → y ∈ l → f x !! d = Some u → f y !! d = Some w → u = w) →
  unions l m0 !! d = Some v ↔
  (∃ x, x ∈ l ∧ f x !! d = Some v) ∨ (m0 !! d = Some v ∧ ∀ x, x ∈ l → f x !! d = None).
Proof.
  unfold unions. revert m0. induction l as [|x l IH]; intros m0 Hagree; simpl.
  { split; [intros; right; split; [done|set_solver]|].
    intros [(x & Hx & _)|[? _]]; [by apply not_elem_of_nil in Hx|done]. }
  rewrite IH by (intros y z u w Hy Hz; apply Hagree; by right). split.
  - intros [(y & Hy & Hv)|[Hv Hn]]; [left; exists y; split; [by right|done]|].
    apply lookup_union_Some_raw in Hv as [Hv|[Hx Hv]].
    + left. exists x. split; [left|done].
    + right. split; [done|]. intros y [->|Hy]%elem_of_cons; [done|by apply Hn].
  - intros [(y & [->|Hy]%elem_of_cons & Hv)|[Hv Hn]].
    + destruct (decide (Forall (λ z, f z !! d = None) l)) as [Hn|Hn].
      * right. rewrite Forall_forall in Hn. split; [|done]. by apply lookup_union_Some_l.
      * left. apply not_Forall_Exists in Hn; [|apply _].
        apply Exists_exists in Hn as (z & Hz & Hfz). simpl in Hfz.
        exists z. split; [done|]. destruct (f z !! d) as [w|] eqn:Hw; [|done].
        f_equal. apply (Hagree z x w v); [by right|left|done..].
    + left. by exists y.
    + right. split; [|intros y Hy; apply Hn; by right].
      apply lookup_union_Some_raw. right. split; [apply Hn; left|done].
Qed.
End unions.

(** ** Contributions *)
Lemma foldl_insert_const {V} (a : V) ds (m : gmap string V) d :
  foldl (λ acc x, <[x := a]> acc) m ds !! d = if decide (d ∈ ds) then Some a else m !! d.
Proof.
  revert m. induction ds as [|x ds IH]; intros m; simpl; [done|].
  rewrite IH. destruct (decide (d ∈ ds)) as [Hd|Hd].
  - rewrite decide_True by (by right). done.
  - destruct (decide (x = d)) as [->|Hne].
    + rewrite lookup_insert_eq, decide_True by left. done.
    + rewrite lookup_insert_ne by done. rewrite decide_False; [done|].
      intros [?|?]%elem_of_cons; [congruence|done].
Qed.

Definition cred_docs (r : RegistryConfig) (v : Credential) : documents := addCredential (∅, ∅) r v.

Lemma cred_docs_auths r v d :
  (cred_docs r v).1 !! d = if decide (d ∈ Domains r) then Some (auth_of v) else None.
Proof. unfold cred_docs, addCredential. cbn [fst]. by rewrite (foldl_insert_const (auth_of v)). Qed.

Lemma cred_docs_states r v s :
  (cred_docs r v).2 !! s
  = if decide (s = RegistryKey_String (Key r)) then Some (state_of r v) else None.
Proof.
  unfold cred_docs, addCredential. cbn [snd]. destruct (decide _) as [->|Hne].
  - apply lookup_insert_eq.
  - by rewrite lookup_insert_ne by done.
Qed.

Lemma addCredential_union docs r v :
  addCredential docs r v = ((cred_docs r v).1 ∪ docs.1, (cred_docs r v).2 ∪ docs.2).
Proof.
  unfold addCredential. f_equal; apply map_eq; intros d; rewrite lookup_union.
  - rewrite (foldl_insert_const (auth_of v)), cred_docs_auths.
    destruct (decide (d ∈ Domains r)); destruct (docs.1 !! d); done.
  - rewrite cred_docs_states. destruct (decide _) as [->|Hne].
    + rewrite lookup_insert_eq. by destruct (docs.2 !! _).
    + rewrite lookup_insert_ne by done. by destruct (docs.2 !! d).
Qed.

(** The auth a pending registry keeps for a domain. *)
Definition kept (existing : DockerConfig) (d : string) : option DockerAuth :=
  match existing !! d with
  | Some a => if usable_auth a then Some a else None
  | None => None
  end.
Definition domain_errors (key : RegistryKey) (existing : DockerConfig) (d : string) :
    list build_error :=
  match existing !! d with
  | Some a => if usable_auth a then [] else [InvalidAuth key d]
  | None => []
  end.

Lemma retain_domains key existing ds auths b ps :
  let st := foldl (retain_domain key existing) ((auths, b), ps) ds in
  (∀ d, st.1.1 !! d = if decide (d ∈ ds) then kept existing d ∪ auths !! d else auths !! d) ∧
  st.1.2 = (b || existsb (λ d, bool_decide (is_Some (kept existing d))) ds) ∧
  st.2 = ps ++ (ds ≫= domain_errors key existing).
Proof.
  revert auths b ps. induction ds as [|x ds IH]; intros auths b ps.
  { simpl. split; [done|]. rewrite orb_false_r, app_nil_r. done. }
  cbv zeta. cbn [foldl existsb]. rewrite bind_cons.
  set (auths1 := match existing !! x with
    | Some a => if usable_auth a then <[x := a]> auths else auths | None => auths end).
  set (b1 := match existing !! x with
    | Some a => if usable_auth a then true else b | None => b end).
  set (ps1 := match existing !! x with
    | Some a => if usable_auth a then ps else ps ++ [InvalidAuth key x] | None => ps end).
  assert (retain_domain key existing ((auths, b), ps) x = ((auths1, b1), ps1)) as ->.
  { unfold retain_domain, auths1, b1, ps1.
    destruct (existing !! x) as [a|]; [by destruct (usable_auth a)|done]. }
  destruct (IH auths1 b1 ps1) as (Ha & Hb & Hp). split; [|split].
  - intros d. rewrite Ha. unfold auths1. destruct (decide (d ∈ ds)) as [Hd|Hd].
    + rewrite decide_True by (by right). unfold kept.
      destruct (existing !! x) as [a|] eqn:Hx; [|done]. destruct (usable_auth a) eqn:Hu; [|done].
      destruct (decide (x = d)) as [->|Hne]; [|by rewrite lookup_insert_ne].
      rewrite Hx, Hu, lookup_insert_eq. by destruct (auths !! d).
    + destruct (decide (d = x)) as [->|Hne].
      * rewrite decide_True by left. unfold kept. destruct (existing !! x) as [a|].
        -- destruct (usable_auth a); [|by destruct (auths !! x)].
           rewrite lookup_insert_eq. by destruct (auths !! x).
        -- by destruct (auths !! x).
      * rewrite decide_False by (rewrite not_elem_of_cons; done).
        destruct (existing !! x) as [a|]; [|done]. destruct (usable_auth a); [|done].
        by rewrite lookup_insert_ne.
  - rewrite Hb, (orb_assoc b). f_equal. unfold b1, kept.
    destruct (existing !! x) as [a|]; [destruct (usable_auth a)|].
    + rewrite bool_decide_true by done. by rewrite orb_true_r.
    + rewrite bool_decide_false by (by intros []). by rewrite orb_false_r.
    + rewrite bool_decide_false by (by intros []). by rewrite orb_false_r.
  - rewrite Hp. unfold ps1, domain_errors at 2.
    destruct (existing !! x) as [a|]; [destruct (usable_auth a)|]; simpl.
    + done.
    + by rewrite <-(assoc_L (++)).
    + done.
Qed.

Definition ret_docs (r : RegistryConfig) (old : documents) : documents :=
  (retainPending (∅, ∅) r old).1.
Definition ret_errors (r : RegistryConfig) (old : documents) : list build_error :=
  (retainPending (∅, ∅) r old).2.

(** A pending registry with a complete state in the existing Secret. *)
Definition old_state (old : documents) (r : RegistryConfig) : option RegistryState :=
  match old.2 !! RegistryKey_String (Key r) with
  | Some s => if complete_state s then Some s else None
  | None => None
  end.

Definition keeps_any (old : documents) (r : RegistryConfig) : bool :=
  existsb (λ d, bool_decide (is_Some (kept old.1 d))) (Domains r).

Lemma keeps_any_spec old r :
  keeps_any old r = true ↔ ∃ d a, d ∈ Domains r ∧ kept old.1 d = Some a.
Proof.
  unfold keeps_any. rewrite existsb_exists. split.
  - intros (d & Hin%list_elem_of_In & [a Ha]%bool_decide_eq_true). by exists d, a.
  - intros (d & a & Hin & Ha). exists d. rewrite <-list_elem_of_In, bool_decide_eq_true. by rewrite Ha.
Qed.

Lemma retainPending_spec docs r old :
  let '(docs', errs) := retainPending docs r old in
  (∀ d, docs'.1 !! d = match old_state old r with
     | Some _ => if decide (d ∈ Domains r) then kept old.1 d ∪ docs.1 !! d else docs.1 !! d
     | None => docs.1 !! d end) ∧
  (∀ s, docs'.2 !! s = match old_state old r with
     | Some v => if bool_decide (s = RegistryKey_String (Key r)) && keeps_any old r
                 then Some v else docs.2 !! s
     | None => docs.2 !! s end) ∧
  errs = ret_errors r old.
Proof.
  unfold ret_errors, retainPending, old_state.
  destruct (old.2 !! RegistryKey_String (Key r)) as [v|]; [|by destruct (existsb _ _)].
  destruct (complete_state v); [|done].
  pose proof (retain_domains (Key r) old.1 (Domains r) docs.1 false []) as (Ha & Hb & Hp).
  pose proof (retain_domains (Key r) old.1 (Domains r) ∅ false []) as (_ & _ & Hp').
  simpl in Hp'. simpl.
  destruct (foldl _ ((docs.1, false), []) (Domains r)) as [[auths b] ps]; simpl in *.
  destruct (foldl _ ((∅, false), []) (Domains r)) as [[auths' b'] ps']; simpl in *.
  split; [done|]. split; [|congruence]. subst b. intros s. fold (keeps_any old r).
  destruct (keeps_any old r); [|by rewrite andb_false_r].
  rewrite andb_true_r. case_bool_decide as Hs; [subst s; apply lookup_insert_eq|].
  by rewrite lookup_insert_ne by done.
Qed.

Lemma retainPending_union docs r old :
  retainPending docs r old =
  (((ret_docs r old).1 ∪ docs.1, (ret_docs r old).2 ∪ docs.2), ret_errors r old).
Proof.
  pose proof (retainPending_spec docs r old) as H1. pose proof (retainPending_spec (∅, ∅) r old) as H2.
  unfold ret_docs. destruct (retainPending docs r old) as [[a1 s1] e1].
  destruct (retainPending (∅, ∅) r old) as [[a2 s2] e2]. cbn [fst snd] in *.
  destruct H1 as (Ha1 & Hs1 & ->), H2 as (Ha2 & Hs2 & _). f_equal. f_equal;
    apply map_eq; intros d; rewrite lookup_union.
  - rewrite Ha1, Ha2. destruct (old_state old r); [|by rewrite lookup_empty, (left_id_L None _)].
    rewrite lookup_empty. destruct (decide (d ∈ Domains r)).
    + by rewrite (right_id_L None _).
    + by rewrite (left_id_L None _).
  - rewrite Hs1, Hs2. destruct (old_state old r) as [v|]; [|by rewrite lookup_empty, (left_id_L None _)].
    rewrite lookup_empty. destruct (_ && _); [by destruct (docs.2 !! d)|by rewrite (left_id_L None _)].
Qed.

Lemma ret_docs_auths r old d a :
  (ret_docs r old).1 !! d = Some a ↔
  is_Some (old_state old r) ∧ d ∈ Domains r ∧ kept old.1 d = Some a.
Proof.
  pose proof (retainPending_spec (∅, ∅) r old) as H. unfold ret_docs.
  destruct (retainPending (∅, ∅) r old) as [[a2 s2] e2]. destruct H as (Ha & _ & _).
  cbn [fst snd] in *. rewrite Ha, lookup_empty, (right_id_L None _).
  destruct (old_state old r) as [v|]; [|split; [done|by intros [[] _]]].
  destruct (decide (d ∈ Domains r)); [|split; [done|tauto]]. split; [eauto|tauto].
Qed.

Lemma ret_docs_states r old s v :
  (ret_docs r old).2 !! s = Some v ↔
  s = RegistryKey_String (Key r) ∧ old_state old r = Some v ∧ keeps_any old r = true.
Proof.
  pose proof (retainPending_spec (∅, ∅) r old) as H. unfold ret_docs.
  destruct (retainPending (∅, ∅) r old) as [[a2 s2] e2]. destruct H as (_ & Hs & _).
  cbn [fst snd] in *. rewrite Hs, lookup_empty.
  destruct (old_state old r) as [w|]; [|split; [done|by intros (_ & ? & _)]].
  case_bool_decide; destruct (keeps_any old r); simpl; split; try done; try tauto; try naive_solver.
Qed.

Section build.
Context (creds : gmap RegistryKey Entry).

(** The credential a registry is rendered from, if it is the registry's own. *)
Definition ready (kr : RegistryKey * RegistryConfig) : option Credential :=
  match creds !! kr.1 with
  | Some e => if MatchesRegistry e kr.2 then Some (entry_Credential e) else None
  | None => None
  end.
Definition is_pending (kr : RegistryKey * RegistryConfig) : bool := bool_decide (ready kr = None).
Definition ready_docs (kr : RegistryKey * RegistryConfig) : documents :=
  match ready kr with Some v => cred_docs kr.2 v | None => (∅, ∅) end.

Lemma build_step_eq docs pending kr :
  build_step creds (docs, pending) kr =
  (((ready_docs kr).1 ∪ docs.1, (ready_docs kr).2 ∪ docs.2),
   pending ++ (if is_pending kr then [kr.2] else [])).
Proof.
  unfold build_step, is_pending, ready_docs, ready. destruct docs as [d s].
  destruct (creds !! kr.1) as [e|]; [destruct (MatchesRegistry e kr.2)|].
  - rewrite addCredential_union, bool_decide_false by done. by rewrite app_nil_r.
  - rewrite bool_decide_true by done. cbn [fst snd]. by rewrite !(left_id_L ∅ (∪)).
  - rewrite bool_decide_true by done. cbn [fst snd]. by rewrite !(left_id_L ∅ (∪)).
Qed.

Lemma build_loop l docs pending :
  foldl (build_step creds) (docs, pending) l =
  ((unions (λ kr, (ready_docs kr).1) l docs.1, unions (λ kr, (ready_docs kr).2) l docs.2),
   pending ++ (filter is_pending l).*2).
Proof.
  revert docs pending. induction l as [|kr l IH]; intros docs pending; cbn [foldl].
  - destruct docs. by rewrite app_nil_r.
  - rewrite build_step_eq, IH. cbn [fst snd unions foldl]. f_equal. rewrite <-(assoc_L (++)). f_equal.
    destruct (is_pending kr) eqn:Hp.
    + by rewrite filter_cons_True by (by rewrite Hp).
    + by rewrite filter_cons_False by (rewrite Hp; by intros []).
Qed.
End build.

Lemma retain_loop old l docs ps :
  foldl (retain_step old) (docs, ps) l =
  ((unions (λ r, (ret_docs r old).1) l docs.1, unions (λ r, (ret_docs r old).2) l docs.2),
   ps ++ (l ≫= λ r, ret_errors r old)).
Proof.
  revert docs ps. induction l as [|r l IH]; intros docs ps; cbn [foldl].
  - destruct docs. by rewrite app_nil_r.
  - unfold retain_step at 2. cbn [fst snd]. rewrite retainPending_union, IH.
    cbn [fst snd unions foldl]. by rewrite bind_cons, (assoc_L (++)).
Qed.

(** Registries filed under their keys, sharing neither a domain nor the text of
    their key. *)
Definition distinct_registries (m : gmap RegistryKey RegistryConfig) : Prop :=
  (∀ k r, m !! k = Some r → Key r = k) ∧
  (∀ k1 k2 r1 r2 d, m !! k1 = Some r1 → m !! k2 = Some r2 →
     d ∈ Domains r1 → d ∈ Domains r2 → k1 = k2) ∧
  (∀ k1 k2, is_Some (m !! k1) → is_Some (m !! k2) →
     RegistryKey_String k1 = RegistryKey_String k2 → k1 = k2).

Section build_documents.
Context `{RangeOrder} (snapshot : ConfigurationSnapshot) (creds : gmap RegistryKey Entry)
  (existing : option Secret).

Definition old_docs : option documents := secret ← existing; (parseExisting secret).1.
Definition pending_registries : list RegistryConfig :=
  (filter (is_pending creds) (range (Registries snapshot))).*2.
Definition kept_docs (r : RegistryConfig) : documents :=
  match old_docs with Some o => ret_docs r o | None => (∅, ∅) end.
Definition contribution (kr : RegistryKey * RegistryConfig) : documents :=
  match ready creds kr with Some v => cred_docs kr.2 v | None => kept_docs kr.2 end.

Lemma unions_empty {V A} (l : list A) (m : gmap string V) : unions (λ _, ∅) l m = m.
Proof. unfold unions. induction l as [|x l IH]; simpl; [done|]. by rewrite (left_id_L ∅ (∪)). Qed.

Lemma build_documents_eq :
  (build_documents snapshot creds existing).1 =
  (unions (λ r, (kept_docs r).1) pending_registries
     (unions (λ kr, (ready_docs creds kr).1) (range (Registries snapshot)) ∅),
   unions (λ r, (kept_docs r).2) pending_registries
     (unions (λ kr, (ready_docs creds kr).2) (range (Registries snapshot)) ∅)).
Proof.
  unfold build_documents, kept_docs, old_docs. rewrite build_loop. cbn [app fst snd].
  fold pending_registries. set (d0 := unions _ _ ∅). set (s0 := unions _ _ ∅).
  destruct pending_registries as [|r pend]; [done|].
  destruct existing as [secret|]; cbn [mbind option_bind].
  - destruct (parseExisting secret) as [[old|] ps]; cbn [fst].
    + by rewrite retain_loop.
    + cbn [fst snd]. by rewrite !unions_empty.
  - cbn [fst snd]. by rewrite !unions_empty.
Qed.

Lemma elem_of_pending r :
  r ∈ pending_registries ↔ ∃ k, Registries snapshot !! k = Some r ∧ ready creds (k, r) = None.
Proof.
  unfold pending_registries. rewrite list_elem_of_fmap. split.
  - intros ([k r'] & -> & [Hp Hin%elem_of_range]%list_elem_of_filter). exists k. split; [done|].
    apply Is_true_true in Hp. by apply bool_decide_eq_true in Hp.
  - intros (k & Hk & Hr). exists (k, r). split; [done|]. apply list_elem_of_filter.
    split; [apply Is_true_true; by apply bool_decide_eq_true|by apply elem_of_range].
Qed.

Lemma ready_docs_domain kr d a : (ready_docs creds kr).1 !! d = Some a → d ∈ Domains kr.2.
Proof.
  unfold ready_docs. destruct (ready creds kr) as [v|]; [|done].
  rewrite cred_docs_auths. by destruct (decide (d ∈ Domains kr.2)).
Qed.
Lemma kept_docs_domain r d a : (kept_docs r).1 !! d = Some a → d ∈ Domains r.
Proof. unfold kept_docs. destruct old_docs; [|done]. by intros (_ & ? & _)%ret_docs_auths. Qed.
Lemma ready_docs_key kr s v :
  (ready_docs creds kr).2 !! s = Some v → s = RegistryKey_String (Key kr.2).
Proof.
  unfold ready_docs. destruct (ready creds kr); [|done]. rewrite cred_docs_states.
  by destruct (decide (s = RegistryKey_String (Key kr.2))).
Qed.
Lemma kept_docs_key r s v : (kept_docs r).2 !! s = Some v → s = RegistryKey_String (Key r).
Proof. unfold kept_docs. destruct old_docs; [|done]. by intros (? & _)%ret_docs_states. Qed.

(** The two phases of [Build] collect every registry's contribution, when what a
    contribution claims identifies the registry. *)
Lemma collect {V} (fr : RegistryKey * RegistryConfig → gmap string V)
    (fk : RegistryConfig → gmap string V) x v :
  (∀ k r w, Registries snapshot !! k = Some r → ready creds (k, r) = None → fr (k, r) !! x = Some w → False) →
  (∀ k1 k2 r1 r2, Registries snapshot !! k1 = Some r1 → Registries snapshot !! k2 = Some r2 →
     is_Some (fr (k1, r1) !! x) ∨ is_Some (fk r1 !! x) →
     is_Some (fr (k2, r2) !! x) ∨ is_Some (fk r2 !! x) → k1 = k2) →
  unions fk pending_registries (unions fr (range (Registries snapshot)) ∅) !! x = Some v ↔
  ∃ k r, Registries snapshot !! k = Some r ∧
    match ready creds (k, r) with Some _ => fr (k, r) !! x = Some v | None => fk r !! x = Some v end.
Proof.
  intros Hpend Huniq. rewrite unions_lookup.
  2: { intros r1 r2 u w (k1 & Hk1 & _)%elem_of_pending (k2 & Hk2 & _)%elem_of_pending H1 H2.
       assert (k1 = k2) as -> by (apply (Huniq k1 k2 r1 r2); rewrite ?H1, ?H2; eauto).
       simplify_eq. done. }
  rewrite unions_lookup.
  2: { intros [k1 r1] [k2 r2] u w Hk1%elem_of_range Hk2%elem_of_range H1 H2.
       assert (k1 = k2) as -> by (apply (Huniq k1 k2 r1 r2); rewrite ?H1, ?H2; eauto).
       simplify_eq. done. }
  rewrite lookup_empty. split.
  - intros [(r & (k & Hk & Hr)%elem_of_pending & Hv)|[[([k r] & Hk%elem_of_range & Hv)|[? _]] _]];
      [| |done]; exists k, r; (split; [done|]); [by rewrite Hr|].
    destruct (ready creds (k, r)) eqn:Hr; [done|]. by destruct (Hpend k r v Hk Hr Hv).
  - intros (k & r & Hk & Hv). destruct (ready creds (k, r)) as [c|] eqn:Hr.
    + right. split; [left; exists (k, r); by rewrite elem_of_range|].
      intros r' (k' & Hk' & Hr')%elem_of_pending. destruct (fk r' !! x) as [w|] eqn:Hw; [|done].
      assert (k = k') as <- by (apply (Huniq k k' r r'); rewrite ?Hv, ?Hw; eauto).
      simplify_eq.
    + left. exists r. split; [apply elem_of_pending; by exists k|done].
Qed.

Lemma build_auths d a :
  distinct_registries (Registries snapshot) →
  (build_documents snapshot creds existing).1.1 !! d = Some a ↔
  ∃ k r, Registries snapshot !! k = Some r ∧ (contribution (k, r)).1 !! d = Some a.
Proof.
  intros (Hkey & Hdom & _). rewrite build_documents_eq. cbn [fst]. rewrite collect.
  - unfold contribution, ready_docs.
    split; intros (k & r & Hk & Hv); exists k, r; (split; [done|]); by destruct (ready creds (k, r)).
  - intros k r w Hk Hr. unfold ready_docs. by rewrite Hr.
  - intros k1 k2 r1 r2 Hk1 Hk2 H1 H2. apply (Hdom k1 k2 r1 r2 d); [done|done|..].
    + destruct H1 as [[? Hx]|[? Hx]]; [by apply ready_docs_domain in Hx|by apply kept_docs_domain in Hx].
    + destruct H2 as [[? Hx]|[? Hx]]; [by apply ready_docs_domain in Hx|by apply kept_docs_domain in Hx].
Qed.

Lemma build_states s v :
  distinct_registries (Registries snapshot) →
  (build_documents snapshot creds existing).1.2 !! s = Some v ↔
  ∃ k r, Registries snapshot !! k = Some r ∧ (contribution (k, r)).2 !! s = Some v.
Proof.
  intros (Hkey & _ & Hstr). rewrite build_documents_eq. cbn [snd]. rewrite collect.
  - unfold contribution, ready_docs.
    split; intros (k & r & Hk & Hv); exists k, r; (split; [done|]); by destruct (ready creds (k, r)).
  - intros k r w Hk Hr. unfold ready_docs. by rewrite Hr.
  - intros k1 k2 r1 r2 Hk1 Hk2 H1 H2. apply Hstr; [by eexists..|].
    rewrite <-(Hkey k1 r1 Hk1), <-(Hkey k2 r2 Hk2). transitivity s; [symmetry|].
    + destruct H1 as [[? Hx]|[? Hx]]; [by apply ready_docs_key in Hx|by apply kept_docs_key in Hx].
    + destruct H2 as [[? Hx]|[? Hx]]; [by apply ready_docs_key in Hx|by apply kept_docs_key in Hx].
Qed.
End build_documents.

(** ** The existing documents do not depend on the map order *)
Section existing.
Context {V : Type} (dec : json → V * bool) (err : build_error).

Definition decoded (kv : string * json) : gmap string V :=
  if (dec kv.2).2 then {[ kv.1 := (dec kv.2).1 ]} else ∅.
Definition decode_errors (kv : string * json) : list build_error :=
  if (dec kv.2).2 then [] else [err].

Lemma decode_loop (step : gmap string V * list build_error → string * json → gmap string V * list build_error) l m ps :
  (∀ m ps kv, step (m, ps) kv = (decoded kv ∪ m, ps ++ decode_errors kv)) →
  foldl step (m, ps) l = (unions decoded l m, ps ++ (l ≫= decode_errors)).
Proof.
  intros Hstep. revert m ps. induction l as [|kv l IH]; intros m ps; cbn [foldl].
  - by rewrite app_nil_r.
  - rewrite Hstep, IH, bind_cons, (assoc_L (++)). done.
Qed.

Lemma decoded_lookup `{RangeOrder} (raw : gmap string json) k v :
  unions decoded (range raw) ∅ !! k = Some v ↔ ∃ j, raw !! k = Some j ∧ dec j = (v, true).
Proof.
  assert (∀ kv x w, decoded kv !! x = Some w ↔ x = kv.1 ∧ dec kv.2 = (w, true)) as Hd.
  { intros [k' j] x w. unfold decoded. cbn [fst snd]. destruct (dec j) as [u [|]]; cbn [fst snd].
    - rewrite lookup_singleton_Some. naive_solver.
    - rewrite lookup_empty. naive_solver. }
  rewrite unions_lookup.
  - rewrite lookup_empty. setoid_rewrite Hd. split.
    + intros [([k' j] & Hin%elem_of_range & -> & Hj)|[? _]]; [by exists j|done].
    + intros (j & Hj & Hdec). left. exists (k, j). by rewrite elem_of_range.
  - intros [k1 j1] [k2 j2] u w Hin1%elem_of_range Hin2%elem_of_range
      [Heq1 Hu]%Hd [Heq2 Hw]%Hd. simpl in *. subst. congruence.
Qed.
End existing.

Lemma add_auth_eq m ps kv :
  add_auth (m, ps) kv
  = (decoded (λ j, unmarshal_auth (Some j)) kv ∪ m,
     ps ++ decode_errors (λ j, unmarshal_auth (Some j)) AuthEntryInvalid kv).
Proof.
  unfold add_auth, decoded, decode_errors. destruct (unmarshal_auth (Some kv.2)) as [a [|]]; simpl.
  - by rewrite insert_union_singleton_l, app_nil_r.
  - by rewrite (left_id_L ∅ (∪)).
Qed.
Lemma add_entry_eq m ps kv :
  add_entry (m, ps) kv
  = (decoded (λ j, unmarshal_entry (Some j)) kv ∪ m,
     ps ++ decode_errors (λ j, unmarshal_entry (Some j)) StateEntryInvalid kv).
Proof.
  unfold add_entry, decoded, decode_errors. destruct (unmarshal_entry (Some kv.2)) as [a [|]]; simpl.
  - by rewrite insert_union_singleton_l, app_nil_r.
  - by rewrite (left_id_L ∅ (∪)).
Qed.

Lemma decode_order {V} (dec : json → V * bool) err (R1 R2 : RangeOrder) (raw : gmap string json) :
  unions (decoded dec) (range (RangeOrder := R1) raw) ∅ = unions (decoded dec) (range (RangeOrder := R2) raw) ∅ ∧
  (range (RangeOrder := R1) raw ≫= decode_errors dec err)
    ≡ₚ (range (RangeOrder := R2) raw ≫= decode_errors dec err).
Proof.
  split.
  - apply map_eq. intros k. apply option_eq. intros v. by rewrite !decoded_lookup.
  - by rewrite (@range_perm R1), (@range_perm R2).
Qed.

Lemma existing_docker_order (R1 R2 : RangeOrder) l :
  (existing_docker (H := R1) l).1 = (existing_docker (H := R2) l).1 ∧
  (existing_docker (H := R1) l).2 ≡ₚ (existing_docker (H := R2) l).2.
Proof.
  unfold existing_docker. destruct (unmarshal_docker l) as [[raw|] [|]]; try done.
  rewrite !(decode_loop _ AuthEntryInvalid add_auth _ _ _ add_auth_eq). apply decode_order.
Qed.
Lemma existing_state_order (R1 R2 : RangeOrder) l :
  (existing_state (H := R1) l).1 = (existing_state (H := R2) l).1 ∧
  (existing_state (H := R1) l).2 ≡ₚ (existing_state (H := R2) l).2.
Proof.
  unfold existing_state. destruct (unmarshal_state l) as [[v [raw|]] [|]]; try done.
  destruct (v =? StateVersion)%Z; [|done].
  rewrite !(decode_loop _ StateEntryInvalid add_entry _ _ _ add_entry_eq). apply decode_order.
Qed.

Lemma parseExisting_order (R1 R2 : RangeOrder) secret :
  (parseExisting (H := R1) secret).1 = (parseExisting (H := R2) secret).1 ∧
  (parseExisting (H := R1) secret).2 ≡ₚ (parseExisting (H := R2) secret).2.
Proof.
  unfold parseExisting. destruct (_ && _); [done|].
  destruct (existing_docker_order R1 R2 (default [] (Data secret !! DockerConfigJsonKey))) as [Hd1 Hd2].
  destruct (existing_state_order R1 R2
    (to_bytes (default "" (Annotations secret !! StateAnnotationKey)))) as [Hs1 Hs2].
  destruct (existing_docker (H := R1) _), (existing_docker (H := R2) _),
    (existing_state (H := R1) _), (existing_state (H := R2) _). simpl in *. subst.
  split; [done|]. by rewrite Hd2, Hs2.
Qed.

(** The problems of [Build]: those of the existing documents, if a registry is
    pending, then those of the pending registries. *)
Lemma build_problems_eq `{RangeOrder} snapshot creds existing :
  (build_documents snapshot creds existing).2 =
  match pending_registries snapshot creds, existing with
  | _ :: _, Some secret =>
    (parseExisting secret).2 ++
    (pending_registries snapshot creds ≫= λ r,
       match (parseExisting secret).1 with Some o => ret_errors r o | None => [] end)
  | _, _ => []
  end.
Proof.
  unfold build_documents. rewrite build_loop. cbn [app fst snd]. fold (pending_registries snapshot creds).
  destruct (pending_registries snapshot creds) as [|r pend]; [done|].
  destruct existing as [secret|]; [|done].
  destruct (parseExisting secret) as [[old|] ps]; cbn [fst snd].
  - by rewrite retain_loop.
  - assert (∀ l : list RegistryConfig, (l ≫= λ _, [] : list build_error) = []) as ->.
    { intros l. by induction l. } by rewrite app_nil_r.
Qed.

Lemma build_documents_order (R1 R2 : RangeOrder) snapshot creds existing :
  distinct_registries (Registries snapshot) →
  (build_documents (H := R1) snapshot creds existing).1
    = (build_documents (H := R2) snapshot creds existing).1 ∧
  (build_documents (H := R1) snapshot creds existing).2
    ≡ₚ (build_documents (H := R2) snapshot creds existing).2.
Proof.
  intros Hd.
  assert (old_docs (H := R1) existing = old_docs (H := R2) existing) as Hold.
  { unfold old_docs. destruct existing as [secret|]; [|done]. apply parseExisting_order. }
  assert (∀ kr, contribution (H := R1) creds existing kr = contribution (H := R2) creds existing kr)
    as Hc. { intros kr. unfold contribution, kept_docs. by rewrite Hold. }
  split.
  - apply injective_projections; apply map_eq; intros d; apply option_eq; intros v.
    + rewrite !build_auths by done. by setoid_rewrite Hc.
    + rewrite !build_states by done. by setoid_rewrite Hc.
  - rewrite !build_problems_eq.
    assert (pending_registries (H := R1) snapshot creds
            ≡ₚ pending_registries (H := R2) snapshot creds) as Hp.
    { unfold pending_registries. by rewrite (@range_perm R1), (@range_perm R2). }
    destruct existing as [secret|].
    2: { by destruct (pending_registries (H := R1) _ _), (pending_registries (H := R2) _ _). }
    destruct (parseExisting_order R1 R2 secret) as [Hp1 Hp2]. rewrite Hp1.
    assert (∀ l1 l2 : list RegistryConfig, l1 ≡ₚ l2 → ∀ (a1 a2 : list RegistryConfig → list build_error),
      (∀ x y, x ≡ₚ y → a1 x ≡ₚ a2 y) →
      match l1 with [] => [] | _ :: _ => a1 l1 end ≡ₚ match l2 with [] => [] | _ :: _ => a2 l2 end)
      as Hmatch.
    { intros l1 l2 Hl a1 a2 Ha. destruct l1, l2; [done| | |by apply Ha].
      - by apply Permutation_nil_cons in Hl.
      - symmetry in Hl. by apply Permutation_nil_cons in Hl. }
    apply (Hmatch _ _ Hp (λ l, (parseExisting (H := R1) secret).2 ++ (l ≫= _))
                         (λ l, (parseExisting (H := R2) secret).2 ++ (l ≫= _))).
    intros x y Hxy. by rewrite Hp2, Hxy.
Qed.

(** ** A Secret that carries rendered documents *)
Lemma bind_nil {A B} (f : A → list B) l : (∀ x, x ∈ l → f x = []) → l ≫= f = [].
Proof.
  intros Hf. induction l as [|x l IH]; [done|]. rewrite bind_cons, Hf by left. apply IH.
  intros y Hy. apply Hf. by right.
Qed.

Lemma decode_encoded `{RangeOrder} {V} (dec : json → V * bool) (enc : V → json) err (m : gmap string V) :
  (∀ k v, m !! k = Some v → dec (enc v) = (v, true)) →
  unions (decoded dec) (range (enc <$> m)) ∅ = m ∧
  (range (enc <$> m) ≫= decode_errors dec err) = [].
Proof.
  intros Henc. split.
  - apply map_eq. intros k. apply option_eq. intros v. rewrite decoded_lookup. split.
    + intros (j & Hj & Hd). rewrite lookup_fmap, fmap_Some in Hj. destruct Hj as (w & Hw & ->).
      rewrite (Henc k w Hw) in Hd. by simplify_eq.
    + intros Hv. exists (enc v). rewrite lookup_fmap, Hv. split; [done|by apply (Henc k)].
  - apply bind_nil. intros [k j] Hin%elem_of_range.
    rewrite lookup_fmap, fmap_Some in Hin. destruct Hin as (v & Hv & ->).
    unfold decode_errors. cbn [snd]. by rewrite (Henc k v Hv).
Qed.

Definition valid_documents (docs : documents) : Prop := valid_docker docs.1 ∧ valid_state docs.2.

(** The Secret's two documents are those of [docs]. *)
Definition carries (secret : Secret) (docs : documents) : Prop :=
  Data secret !! DockerConfigJsonKey = Some (marshal_docker docs.1) ∧
  ∃ text, marshal_state docs.2 = Some text ∧
    Annotations secret !! StateAnnotationKey = Some (of_bytes text).

Lemma parseExisting_carries `{RangeOrder} secret docs :
  valid_documents docs → carries secret docs → parseExisting secret = (Some docs, []).
Proof.
  intros [Hd Hs] (Hdata & text & Htext & Hann). unfold parseExisting. rewrite Hdata, Hann.
  cbn [default from_option id]. rewrite bool_decide_false by done. cbn [andb].
  unfold existing_docker. rewrite unmarshal_docker_marshal by done.
  rewrite (decode_loop _ AuthEntryInvalid add_auth _ _ _ add_auth_eq).
  destruct (decode_encoded (λ j, unmarshal_auth (Some j)) auth_value AuthEntryInvalid docs.1) as [-> ->].
  { intros k v Hv. by apply unmarshal_auth_value, (Hd k v). }
  destruct (unmarshal_state_marshal docs.2 Hs) as (text' & Htext' & Hun).
  rewrite Htext in Htext'. injection Htext' as <-.
  unfold existing_state. rewrite to_of_bytes, Hun. cbn [Z.eqb].
  change (StateVersion =? StateVersion)%Z with true.
  rewrite (decode_loop _ StateEntryInvalid add_entry _ _ _ add_entry_eq).
  destruct (decode_encoded (λ j, unmarshal_entry (Some j)) entry_value StateEntryInvalid docs.2) as [-> ->].
  { intros k v Hv. by apply unmarshal_entry_value, (Hs k v). }
  cbn [app]. by destruct docs.
Qed.

Lemma Build_marshals `{RangeOrder} snapshot creds existing :
  valid_documents (build_documents snapshot creds existing).1 →
  ∃ text, marshal_state (build_documents snapshot creds existing).1.2 = Some text ∧
    Build snapshot creds existing =
    (MkContent (marshal_docker (build_documents snapshot creds existing).1.1) (of_bytes text)
       (negb (bool_decide ((build_documents snapshot creds existing).1.1 = ∅))),
     (build_documents snapshot creds existing).2).
Proof.
  intros [_ Hs]. destruct (unmarshal_state_marshal _ Hs) as (text & Htext & _). exists text.
  split; [done|]. unfold Build. destruct (build_documents snapshot creds existing) as [[d s] ps].
  simpl in *. by rewrite Htext.
Qed.

Lemma applyContent_carries `{RangeOrder} snapshot creds existing secret :
  valid_documents (build_documents snapshot creds existing).1 →
  carries (applyContent secret (Build snapshot creds existing).1)
    (build_documents snapshot creds existing).1.
Proof.
  intros Hv. destruct (Build_marshals _ _ _ Hv) as (text & Htext & ->).
  split; [apply lookup_singleton_eq|]. exists text. split; [done|]. apply lookup_insert_eq.
Qed.

(** ** Building again from one's own output *)
Section rebuild.
Context `{RangeOrder} (snapshot : ConfigurationSnapshot) (creds : gmap RegistryKey Entry)
  (existing : option Secret).
Hypothesis Hdist : distinct_registries (Registries snapshot).
Abbreviation docs := (build_documents snapshot creds existing).1.

(** Only the registry that configures a domain contributes to it. *)
Lemma contribution_owner k k' r r' d a :
  Registries snapshot !! k = Some r → Registries snapshot !! k' = Some r' → d ∈ Domains r →
  (contribution creds existing (k', r')).1 !! d = Some a → k = k'.
Proof.
  intros Hk Hk' Hd Hc. destruct Hdist as (_ & Hdom & _). apply (Hdom k k' r r' d); [done..|].
  unfold contribution in Hc. destruct (ready creds (k', r')) as [v|].
  - rewrite cred_docs_auths in Hc. simpl in Hc.
    destruct (decide (d ∈ Domains r')); [done|discriminate Hc].
  - by apply kept_docs_domain in Hc.
Qed.

(** A pending registry finds in [docs] what it contributed to them. *)
Lemma docs_kept k r d :
  Registries snapshot !! k = Some r → ready creds (k, r) = None → d ∈ Domains r →
  kept docs.1 d = (kept_docs existing r).1 !! d.
Proof.
  intros Hk Hr Hd. apply option_eq. intros a. unfold kept.
  assert (docs.1 !! d = Some a ↔ (kept_docs existing r).1 !! d = Some a) as Hiff.
  { rewrite build_auths by done. split.
    - intros (k' & r' & Hk' & Hc).
      assert (k = k') as <- by by apply (contribution_owner k k' r r' d a).
      simplify_eq. unfold contribution in Hc. by rewrite Hr in Hc.
    - intros Hc. exists k, r. split; [done|]. unfold contribution. by rewrite Hr. }
  split.
  - destruct (docs.1 !! d) as [b|] eqn:Hb; [|done]. destruct (usable_auth b); [|done].
    intros [= ->]. by apply Hiff.
  - intros Hc. pose proof (proj2 Hiff Hc) as Hb. rewrite Hb.
    unfold kept_docs in Hc. destruct (old_docs existing) as [o|]; [|done].
    apply ret_docs_auths in Hc as (_ & _ & Hc). unfold kept in Hc.
    destruct (o.1 !! d) as [b|]; [|done]. destruct (usable_auth b) eqn:Hu; [|done].
    injection Hc as <-. by rewrite Hu.
Qed.

Lemma docs_state k r v :
  Registries snapshot !! k = Some r → ready creds (k, r) = None →
  docs.2 !! RegistryKey_String (Key r) = Some v ↔
  (kept_docs existing r).2 !! RegistryKey_String (Key r) = Some v.
Proof.
  intros Hk Hr. rewrite build_states by done. unfold contribution. split.
  - intros (k' & r' & Hk' & Hc). destruct Hdist as (Hkey & _ & Hstr).
    assert (k = k') as <-.
    { apply Hstr; [by eexists..|]. rewrite <-(Hkey k r Hk), <-(Hkey k' r' Hk').
      destruct (ready creds (k', r')) as [w|].
      - rewrite cred_docs_states in Hc. destruct (decide _) as [He|]; [exact He|done].
      - by apply kept_docs_key in Hc. }
    simplify_eq. by rewrite Hr in Hc.
  - intros Hc. exists k, r. split; [done|]. by rewrite Hr.
Qed.
End rebuild.
