(* ===== verification/ExistingSecret.v ===== *)
(** * Whatever an existing Secret holds

    The documents decoded from a Secret found in the cluster can be written
    again, whoever wrote them: decoded strings are valid UTF-8 and decoded times
    are years that JSON can carry.  So the content of the cluster is never a
    reason for [Build] to fail: it is enough that the configured registries and
    their current credentials are presentable. *)
From S2P Require Import Prelude GoStrings Encoding Rfc3339 Json JsonTheory SecretCodec SecretCodecTheory.
From S2P Require Import ConfigTypes Credential RegistrySecret RegistrySecretTheory.
From Stdlib Require Import Ascii.

(** ** Decoded strings *)
Definition whole (p : bytes) : Prop := ∀ q, utf8_from 0 (p ++ q) = utf8_from 0 q.

Lemma utf8_from_app p q : utf8_from (length p) (p ++ q) = utf8_from 0 q.
Proof. by induction p. Qed.

Lemma whole_rune a l n :
  rune_length (a :: l) = S n → high a → whole (a :: take n l).
Proof.
  intros Hn Ha q. destruct (rune_length_spec a l n Hn Ha) as (Hlen & _ & Hext).
  cbn [app utf8_from]. rewrite Hext.
  replace n with (length (take n l)) at 1 by (rewrite length_take; lia). apply utf8_from_app.
Qed.
Lemma whole_ascii a : (code a <? 128)%N = true → whole [a].
Proof. intros Ha q. cbn [app utf8_from rune_length]. by rewrite Ha. Qed.
Lemma whole_replacement : whole replacement.
Proof. by intros q. Qed.

Lemma code_chr n : (n < 256)%N → code (chr n) = n.
Proof. intros Hn. unfold code, chr. by apply N_ascii_embedding. Qed.

(** The bytes of an encoded rune. *)
Lemma in_range_chr lo hi n : (n < 256)%N → in_range lo hi (code (chr n)) = bool_decide (lo <= n <= hi)%N.
Proof.
  intros Hn. rewrite code_chr by done. apply eq_true_iff_eq.
  by rewrite in_range_spec, bool_decide_eq_true.
Qed.
Lemma cont_chr n : (n < 64)%N → cont (chr (128 + n)) = true.
Proof.
  intros Hn. unfold cont. rewrite in_range_chr by lia. apply bool_decide_eq_true. lia.
Qed.
Lemma below_64 n : (n mod 64 < 64)%N.
Proof. by apply N.mod_lt. Qed.
Lemma high_chr n : (128 <= n < 256)%N → (code (chr n) <? 128)%N = false.
Proof. intros Hn. rewrite code_chr by lia. apply N.ltb_ge. lia. Qed.

Lemma whole_two x y : (2 <= x < 32)%N → (y < 64)%N → whole [chr (192 + x); chr (128 + y)].
Proof.
  intros Hx Hy q. cbn [app utf8_from]. unfold rune_length.
  rewrite high_chr, in_range_chr, cont_chr by lia. rewrite bool_decide_true by lia. done.
Qed.
Lemma whole_three x y z :
  (x < 16)%N → (y < 64)%N → (z < 64)%N → (x = 0 → 32 <= y)%N → (x = 13 → y < 32)%N →
  whole [chr (224 + x); chr (128 + y); chr (128 + z)].
Proof.
  intros Hx Hy Hz H0 H13 q. cbn [app utf8_from]. unfold rune_length.
  rewrite high_chr by lia. rewrite (in_range_chr 194), bool_decide_false by lia. cbn [andb].
  rewrite (in_range_chr 224 239), bool_decide_true by lia. rewrite (cont_chr z) by done.
  assert (second_ok (chr (224 + x)) (chr (128 + y)) = true) as ->; [|done].
  unfold second_ok. rewrite (code_chr (224 + x)) by lia.
  destruct (N.eqb_spec (224 + x) 224); [rewrite in_range_chr by lia; apply bool_decide_eq_true; lia|].
  destruct (N.eqb_spec (224 + x) 237); [rewrite in_range_chr by lia; apply bool_decide_eq_true; lia|].
  destruct (N.eqb_spec (224 + x) 240); [lia|]. destruct (N.eqb_spec (224 + x) 244); [lia|].
  by apply cont_chr.
Qed.
Lemma whole_four x y z w :
  (x < 5)%N → (y < 64)%N → (z < 64)%N → (w < 64)%N → (x = 0 → 16 <= y)%N → (x = 4 → y < 16)%N →
  whole [chr (240 + x); chr (128 + y); chr (128 + z); chr (128 + w)].
Proof.
  intros Hx Hy Hz Hw H0 H4 q. cbn [app utf8_from]. unfold rune_length.
  rewrite high_chr by lia. rewrite (in_range_chr 194), bool_decide_false by lia. cbn [andb].
  rewrite (in_range_chr 224 239), bool_decide_false by lia. cbn [andb].
  rewrite (in_range_chr 240 244), bool_decide_true by lia. rewrite (cont_chr z), (cont_chr w) by done.
  assert (second_ok (chr (240 + x)) (chr (128 + y)) = true) as ->; [|done].
  unfold second_ok. rewrite (code_chr (240 + x)) by lia.
  destruct (N.eqb_spec (240 + x) 224); [lia|]. destruct (N.eqb_spec (240 + x) 237); [lia|].
  destruct (N.eqb_spec (240 + x) 240); [rewrite in_range_chr by lia; apply bool_decide_eq_true; lia|].
  destruct (N.eqb_spec (240 + x) 244); [rewrite in_range_chr by lia; apply bool_decide_eq_true; lia|].
  by apply cont_chr.
Qed.

(** The encoder writes one rune, for every scalar value. *)
Lemma whole_encode_rune r :
  (r < 1114112)%N → in_range 55296 57343 r = false → whole (encode_rune r).
Proof.
  intros Hr Hs.
  assert (¬ (55296 <= r <= 57343)%N) as Hns by (rewrite <-in_range_spec, Hs; done).
  unfold encode_rune. destruct (N.ltb_spec r 128) as [H1|H1].
  { apply whole_ascii. rewrite code_chr by lia. by apply N.ltb_lt. }
  destruct (N.ltb_spec r 2048) as [H2|H2]; [|destruct (N.ltb_spec r 65536) as [H3|H3]].
  - apply whole_two; [|apply below_64]. zify; Z.to_euclidean_division_equations; lia.
  - apply whole_three; [|apply below_64..| |]; zify; Z.to_euclidean_division_equations; lia.
  - apply whole_four; [|apply below_64..| |]; zify; Z.to_euclidean_division_equations; lia.
Qed.

Lemma hex4_bound a b c d : (default 0 (hex4 a b c d) < 65536)%N.
Proof.
  assert (∀ x v, hex_val x = Some v → (v < 16)%N) as Hv.
  { intros x v. unfold hex_val, in_range. repeat case_match; intros; simplify_eq.
    all: repeat match goal with H : _ && _ = true |- _ => apply andb_true_iff in H as [?%N.leb_le ?%N.leb_le] end; lia. }
  unfold hex4. destruct (hex_val a) as [va|] eqn:Ha; [|done]. destruct (hex_val b) as [vb|] eqn:Hb; [|done].
  destruct (hex_val c) as [vc|] eqn:Hc; [|done]. destruct (hex_val d) as [vd|] eqn:Hd; [|done].
  apply Hv in Ha, Hb, Hc, Hd. cbn. lia.
Qed.

Lemma simple_escape_ascii e c : simple_escape e = Some c → (code c <? 128)%N = true.
Proof.
  unfold simple_escape. set (n := code e). intros He.
  destruct ((n =? 34)%N || (n =? 92)%N || (n =? 47)%N) eqn:Hn.
  - injection He as <-. fold n. rewrite !orb_true_iff, !N.eqb_eq in Hn. apply N.ltb_lt. lia.
  - repeat case_match; simplify_eq; reflexivity.
Qed.

(** What a literal denotes is valid UTF-8, whatever its bytes. *)
Lemma unquote_valid l : utf8_from 0 (unquote 0 l) = true.
Proof.
  remember (length l) as k eqn:Hk. assert (length l ≤ k) as Hle by lia. clear Hk.
  revert l Hle. induction k as [|k IH]; intros [|a l] Hle; simpl in Hle; [done|lia|done|].
  cbn [unquote]. case_decide as Hb.
  - destruct l as [|e l2]; [done|]. simpl in Hle. case_decide as Hu.
    + destruct l2 as [|h1 [|h2 [|h3 [|h4 l3]]]]; try done. simpl in Hle.
      pose proof (hex4_bound h1 h2 h3 h4) as Hr. set (r := default 0%N (hex4 h1 h2 h3 h4)) in *.
      destruct (in_range 55296 57343 r) eqn:Hs.
      2: { rewrite whole_encode_rune by first [done|lia]. apply IH. lia. }
      assert (utf8_from 0 (replacement ++ unquote 0 l3) = true) as Hrep
        by (rewrite whole_replacement; apply IH; lia).
      destruct l3 as [|b [|u [|g1 [|g2 [|g3 [|g4 l4]]]]]]; try exact Hrep.
      destruct (_ && _) eqn:Hc; [|exact Hrep]. simpl in Hle.
      apply andb_true_iff in Hc as [[[_ _]%andb_true_iff Hhi%in_range_spec]%andb_true_iff Hlo%in_range_spec].
      rewrite whole_encode_rune; [apply IH; lia|lia|].
      apply not_true_iff_false. rewrite in_range_spec. lia.
    + destruct (simple_escape e) as [c|] eqn:He; [|done].
      change (c :: unquote 0 l2) with ([c] ++ unquote 0 l2).
      rewrite whole_ascii by (by eapply simple_escape_ascii). apply IH. lia.
  - destruct (code a <? 128)%N eqn:Ha.
    + change (a :: unquote 0 l) with ([a] ++ unquote 0 l). rewrite whole_ascii by done. apply IH. lia.
    + destruct (rune_length (a :: l)) as [|n] eqn:Hn.
      * rewrite whole_replacement. apply IH. lia.
      * rewrite unquote_copy. change (a :: take n l ++ unquote 0 (drop n l)) with ((a :: take n l) ++ unquote 0 (drop n l)).
        rewrite whole_rune by first [done|by apply N.ltb_ge]. apply IH. rewrite length_drop. lia.
Qed.
Lemma Unquote_valid raw : valid_utf8 (Unquote raw) = true.
Proof. unfold valid_utf8, Unquote. rewrite to_of_bytes. apply unquote_valid. Qed.

(** ** Decoded times *)
Section times.
#[local] Open Scope Z_scope.

Lemma digit_val_range c d : digit_val c = Some d → 0 <= d <= 9.
Proof.
  unfold digit_val. destruct (_ && _) eqn:Hc; [|done]. intros [= <-].
  apply andb_true_iff in Hc as [?%Z.leb_le ?%Z.leb_le]. lia.
Qed.
Lemma p2_range l n r : p2 l = Some (n, r) → 0 <= n <= 99.
Proof.
  destruct l as [|a [|b l]]; try done. simpl.
  destruct (digit_val a) as [x|] eqn:Ha; [|done]. destruct (digit_val b) as [y|] eqn:Hb; [|done].
  apply digit_val_range in Ha, Hb. simpl. intros [= <- _]. lia.
Qed.
Lemma p4_range l n r : p4 l = Some (n, r) → 0 <= n <= 9999.
Proof.
  unfold p4. destruct (p2 l) as [[a l1]|] eqn:Ha; [|done]. simpl.
  destruct (p2 l1) as [[b l2]|] eqn:Hb; [|done]. apply p2_range in Ha, Hb. simpl. intros [= <- _]. lia.
Qed.
Lemma within_range lo hi v w : within lo hi v = Some w → w = v ∧ lo <= v <= hi.
Proof.
  unfold within. destruct (_ && _) eqn:Hc; [|done]. intros [= <-].
  apply andb_true_iff in Hc as [?%Z.leb_le ?%Z.leb_le]. done.
Qed.

Lemma frac_value_range k ds :
  (length ds <= S k)%nat → Forall (λ d, 0 <= d <= 9) ds →
  0 <= frac_value (10 ^ Z.of_nat k) ds < 10 ^ (Z.of_nat k + 1).
Proof.
  revert ds. induction k as [|k IH]; intros [|d ds] Hlen Hds; simpl in Hlen.
  - cbn. lia.
  - apply Forall_cons in Hds as [Hd _]. destruct ds; [|simpl in Hlen; lia]. cbn. lia.
  - cbn [frac_value]. split; [lia|]. apply Z.pow_pos_nonneg; lia.
  - apply Forall_cons in Hds as [Hd Hds]. cbn [frac_value].
    assert (10 ^ Z.of_nat (S k) / 10 = 10 ^ Z.of_nat k) as ->.
    { rewrite Nat2Z.inj_succ, Z.pow_succ_r, Z.mul_comm by lia. by apply Z.div_mul. }
    specialize (IH ds ltac:(lia) Hds). rewrite Nat2Z.inj_succ.
    rewrite <-Z.add_1_r, (Z.pow_add_r 10 (Z.of_nat k + 1) 1) by lia. change (10 ^ 1) with 10. nia.
Qed.
Lemma span_digits_range l : Forall (λ d, 0 <= d <= 9) (span_digits l).1.
Proof.
  induction l as [|c l IH]; simpl; [done|]. destruct (digit_val c) as [d|] eqn:Hd; [|done].
  destruct (span_digits l). constructor; [by apply digit_val_range in Hd|done].
Qed.
Lemma parse_frac_range l : 0 <= (parse_frac l).1 < nano.
Proof.
  assert (0 <= 0 < nano) as Hzero by (unfold nano; lia).
  destruct l as [|c l]; [done|]. cbn [parse_frac]. case_decide; [|done].
  pose proof (span_digits_range l) as Hds. destruct (span_digits l) as [[|d ds] r]; [done|]. cbn [fst] in *.
  apply (frac_value_range 8); [rewrite length_take; lia|by apply Forall_take].
Qed.

Lemma parse_offset_range sign l off :
  sign = 1 ∨ sign = -1 → parse_offset sign l = Some off → -86400 < off < 86400 ∧ off mod 60 = 0.
Proof.
  intros Hsign. unfold parse_offset. destruct (p2 l) as [[h l1]|]; [|done]. cbn [mbind option_bind].
  destruct (within 0 23 h) as [h'|] eqn:Hh; [|done]. cbn [mbind option_bind].
  destruct (expect ":" l1) as [l2|]; [|done]. cbn [mbind option_bind].
  destruct (p2 l2) as [[m l3]|]; [|done]. cbn [mbind option_bind].
  destruct (within 0 59 m) as [m'|] eqn:Hm; [|done]. cbn [mbind option_bind].
  destruct l3; [|done]. intros [= <-]. apply within_range in Hh as [-> Hh], Hm as [-> Hm].
  destruct Hsign as [-> | ->]; (split; [lia|]).
  - replace (1 * (h * 3600 + m * 60)) with ((h * 60 + m) * 60) by lia. by apply Z.mod_mul.
  - replace (-1 * (h * 3600 + m * 60)) with (- (h * 60 + m) * 60) by lia. by apply Z.mod_mul.
Qed.
Lemma parse_zone_range l off : parse_zone l = Some off → -86400 < off < 86400 ∧ off mod 60 = 0.
Proof.
  destruct l as [|c l]; [done|]. cbn [parse_zone]. case_decide; [by destruct l; intros [= <-]|].
  case_decide; [apply parse_offset_range; by left|].
  case_decide; [apply parse_offset_range; by right|done].
Qed.

(** A civil date lies in its year. *)
Lemma day_of_year_range leap m d :
  1 <= m <= 12 → 1 <= d <= month_days leap m →
  0 <= month_start leap m + (d - 1) < (if leap : bool then 366 else 365).
Proof.
  intros Hm Hd. assert (m = 1 ∨ m = 2 ∨ m = 3 ∨ m = 4 ∨ m = 5 ∨ m = 6 ∨ m = 7 ∨ m = 8 ∨ m = 9 ∨ m = 10
    ∨ m = 11 ∨ m = 12) as Hcases by lia.
  destruct leap; repeat destruct Hcases as [->|Hcases]; subst;
    match goal with |- context [month_start ?l ?k] =>
      let v := eval vm_compute in (month_start l k) in change (month_start l k) with v end;
    cbn in Hd; lia.
Qed.
Lemma year_start_le a b : a <= b → year_start a <= year_start b.
Proof.
  intros Hab. replace b with (a + Z.of_nat (Z.to_nat (b - a))) by lia.
  induction (Z.to_nat (b - a)) as [|k IH]; [by rewrite Z.add_0_r|].
  pose proof (year_start_succ (a + Z.of_nat k)) as Hs. rewrite Nat2Z.inj_succ, <-Z.add_1_r, Z.add_assoc.
  destruct (is_leap (a + Z.of_nat k)); lia.
Qed.
Lemma year_of_civil y m d :
  1 <= m <= 12 → 1 <= d <= month_days (is_leap y) m → (civil_from_days (days_from_civil y m d)).1.1 = y.
Proof.
  intros Hm Hd. unfold civil_from_days, days_from_civil. cbv zeta. cbn [fst].
  pose proof (day_of_year_range (is_leap y) m d Hm Hd) as Hr. pose proof (year_start_succ y) as Hs.
  rewrite Z.sub_add, <-Z.add_assoc. set (k := month_start (is_leap y) m + (d - 1)) in *.
  assert (year_start y <= year_start y + k < year_start (y + 1)) as Hn by (destruct (is_leap y); lia).
  pose proof (year_of_spec (year_start y + k)) as Hy. generalize dependent (year_start y + k). intros n Hn Hy.
  destruct (Z.lt_trichotomy (year_of n) y) as [Hlt|[Heq|Hgt]]; [|exact Heq|]; exfalso.
  - pose proof (year_start_le (year_of n + 1) y ltac:(lia)). lia.
  - pose proof (year_start_le (y + 1) (year_of n) ltac:(lia)). lia.
Qed.

(** What a strict RFC 3339 text denotes can be written as one. *)
Lemma parse_strict_valid l t : parse_strict l = Some t → valid_time t.
Proof.
  unfold parse_strict. intros H.
  destruct (p4 l) as [[y l1]|] eqn:Hy; [|done]. cbn [mbind option_bind] in H.
  destruct (expect "-" l1) as [l2|]; [|done]. cbn [mbind option_bind] in H.
  destruct (p2 l2) as [[mo l3]|]; [|done]. cbn [mbind option_bind] in H.
  destruct (within 1 12 mo) as [mo'|] eqn:Hmo; [|done]. cbn [mbind option_bind] in H.
  destruct (expect "-" l3) as [l4|]; [|done]. cbn [mbind option_bind] in H.
  destruct (p2 l4) as [[d l5]|]; [|done]. cbn [mbind option_bind] in H.
  destruct (within 1 _ d) as [d'|] eqn:Hd; [|done]. cbn [mbind option_bind] in H.
  destruct (expect "T" l5) as [l6|]; [|done]. cbn [mbind option_bind] in H.
  destruct (p2 l6) as [[h l7]|]; [|done]. cbn [mbind option_bind] in H.
  destruct (within 0 23 h) as [h'|] eqn:Hh; [|done]. cbn [mbind option_bind] in H.
  destruct (expect ":" l7) as [l8|]; [|done]. cbn [mbind option_bind] in H.
  destruct (p2 l8) as [[mi l9]|]; [|done]. cbn [mbind option_bind] in H.
  destruct (within 0 59 mi) as [mi'|] eqn:Hmi; [|done]. cbn [mbind option_bind] in H.
  destruct (expect ":" l9) as [l10|]; [|done]. cbn [mbind option_bind] in H.
  destruct (p2 l10) as [[s l11]|]; [|done]. cbn [mbind option_bind] in H.
  destruct (within 0 59 s) as [s'|] eqn:Hs; [|done]. cbn [mbind option_bind] in H.
  pose proof (parse_frac_range l11) as Hns. destruct (parse_frac l11) as [ns l12]. cbn [fst] in Hns.
  destruct (parse_zone l12) as [off|] eqn:Hz; [|done]. cbn [mbind option_bind] in H. injection H as <-.
  apply within_range in Hmo as [-> Hmo], Hd as [-> Hd], Hh as [-> Hh], Hmi as [-> Hmi], Hs as [-> Hs].
  apply p4_range in Hy. apply parse_zone_range in Hz. unfold valid_time. cbn [offset].
  split; [|done]. unfold year, local_seconds. cbn [unix_nano offset].
  set (days := days_from_civil y mo d). set (hms := h * 3600 + mi * 60 + s).
  assert (((days * 86400 + h * 3600 + mi * 60 + s - off) * nano + ns) / nano + off = days * 86400 + hms) as ->.
  { rewrite Z.div_add_l, Z.div_small by (unfold nano in *; lia). unfold hms. lia. }
  assert ((days * 86400 + hms) / 86400 = days) as -> by (rewrite Z.div_add_l, Z.div_small by (unfold hms; lia); lia).
  unfold days. by rewrite year_of_civil.
Qed.
End times.

(** ** Decoded entries *)
Lemma decode_string_valid cur v : valid_utf8 cur = true → valid_utf8 (decode_string cur v).1 = true.
Proof. destruct v; try done. intros _. apply Unquote_valid. Qed.
Lemma decode_time_valid cur v t : valid_time cur → decode_time cur v = Some t → valid_time t.
Proof. destruct v; try done; simpl; [by intros ? [= <-]|]. intros _. apply parse_strict_valid. Qed.

(** An invariant of the members' steps holds of the decoded struct. *)
Lemma decode_struct_inv {S} (step : S * bool → bytes * json → S * bool) (P : S → Prop) zero v :
  P zero → (∀ s ok m, P s → P (step (s, ok) m).1) → P (decode_struct step zero v).1.
Proof.
  intros Hz Hstep. destruct v as [[]|]; try exact Hz. unfold decode_struct.
  assert (∀ st, P st.1 → P (foldl step st members).1) as Hf; [|by apply Hf].
  induction members as [|m ms IH]; intros [s ok] Hs; [done|]. cbn [foldl]. apply IH. by apply Hstep.
Qed.

Lemma unmarshal_auth_valid raw : valid_auth (unmarshal_auth raw).1.
Proof.
  apply (decode_struct_inv auth_step valid_auth); [done|]. intros [u p a] ok m (Hu & Hp & Ha). unfold auth_step. cbn in Hu, Hp, Ha |- *.
  pose proof (decode_string_valid u m.2 Hu). pose proof (decode_string_valid p m.2 Hp).
  pose proof (decode_string_valid a m.2 Ha).
  repeat case_match; simplify_eq/=; done.
Qed.

Lemma zero_valid : valid_time zero_time.
Proof. split; [vm_compute; split; discriminate|]. done. Qed.
Lemma unmarshal_entry_valid raw : valid_entry (unmarshal_entry raw).1.
Proof.
  unfold unmarshal_entry.
  pose proof (decode_struct_inv entry_step (λ st, valid_entry st.1) (zero_state, false) raw) as Hinv.
  destruct (decode_struct entry_step (zero_state, false) raw) as [[s stopped] ok]. cbn [fst] in *.
  apply Hinv; [exact (conj zero_valid (conj zero_valid eq_refl))|].
  clear. intros [[r e h] stopped] ok m (Hr & He & Hh). unfold entry_step. cbn in Hr, He, Hh |- *.
  destruct stopped; [done|]. pose proof (decode_string_valid h m.2 Hh) as Hs.
  destruct (is_field "refreshedAt" m.1).
  { destruct (decode_time r m.2) as [t|] eqn:Ht; [|done].
    exact (conj (decode_time_valid _ _ _ Hr Ht) (conj He Hh)). }
  destruct (is_field "expiresAt" m.1).
  { destruct (decode_time e m.2) as [t|] eqn:Ht; [|done].
    exact (conj Hr (conj (decode_time_valid _ _ _ He Ht) Hh)). }
  destruct (is_field "stateHash" m.1); [|done]. by destruct (decode_string h m.2).
Qed.

(** ** The documents of the existing Secret *)
Definition text_keys (m : raw_map) : Prop := ∀ ms k j, m = Some ms → ms !! k = Some j → valid_utf8 k = true.

Lemma decode_raw_map_keys cur v : text_keys cur → text_keys (decode_raw_map cur v).1.
Proof.
  intros Hcur. destruct v as [| | | | |l]; try done. intros ms k j [= <-]. revert k j.
  assert (∀ m : gmap string json, (∀ k j, m !! k = Some j → valid_utf8 k = true) → ∀ k j,
    foldl (λ m kv, <[Unquote kv.1 := kv.2]> m) m l !! k = Some j → valid_utf8 k = true) as Hf.
  { induction l as [|[raw v] l IH]; intros m Hm k j; cbn [foldl]; [apply Hm|]. apply IH.
    intros k' j' [[<- _]|[_ Hk]]%lookup_insert_Some; [apply Unquote_valid|by eapply Hm]. }
  apply Hf. intros k j. destruct cur as [m|]; [by apply Hcur|done].
Qed.
Lemma unmarshal_docker_keys l : text_keys (unmarshal_docker l).1.
Proof.
  apply (decode_struct_inv docker_step text_keys); [done|]. intros m ok [raw v] Hm. unfold docker_step.
  destruct (is_field _ _); [|done]. pose proof (decode_raw_map_keys m v Hm). cbn [fst snd].
  by destruct (decode_raw_map m v).
Qed.
Lemma unmarshal_state_keys l : text_keys (unmarshal_state l).1.2.
Proof.
  apply (decode_struct_inv state_step (λ st, text_keys st.2)); [done|].
  intros [version m] ok [raw v] Hm. unfold state_step. cbn [fst snd] in *.
  destruct (is_field "version" raw); [by destruct (decode_int version v)|].
  destruct (is_field "registries" raw); [|done]. pose proof (decode_raw_map_keys m v Hm).
  by destruct (decode_raw_map m v).
Qed.

Section documents.
Context `{RangeOrder}.

Lemma existing_docker_valid l : valid_docker (existing_docker l).1.
Proof.
  unfold existing_docker. pose proof (unmarshal_docker_keys l) as Hk.
  destruct (unmarshal_docker l) as [[auths|] [|]]; try done. cbn [fst] in Hk.
  rewrite (decode_loop (λ j, unmarshal_auth (Some j)) AuthEntryInvalid) by (intros; apply add_auth_eq).
  intros d a (j & Hj & Ha)%decoded_lookup. split; [by eapply Hk|].
  pose proof (unmarshal_auth_valid (Some j)) as Hv. by rewrite Ha in Hv.
Qed.
Lemma existing_state_valid l : valid_state (existing_state l).1.
Proof.
  unfold existing_state. pose proof (unmarshal_state_keys l) as Hk.
  destruct (unmarshal_state l) as [[version [registries|]] [|]]; try done. cbn [fst snd] in Hk.
  destruct (version =? StateVersion)%Z; [|done].
  rewrite (decode_loop (λ j, unmarshal_entry (Some j)) StateEntryInvalid) by (intros; apply add_entry_eq).
  intros k s (j & Hj & Hs)%decoded_lookup. split; [by eapply Hk|].
  pose proof (unmarshal_entry_valid (Some j)) as Hv. by rewrite Hs in Hv.
Qed.
Lemma parseExisting_valid secret old : (parseExisting secret).1 = Some old → valid_documents old.
Proof.
  unfold parseExisting. destruct (_ && _); [done|].
  pose proof (existing_docker_valid (default [] (Data secret !! DockerConfigJsonKey))) as Hd.
  pose proof (existing_state_valid (to_bytes (default "" (Annotations secret !! StateAnnotationKey)))) as Hs.
  destruct (existing_docker _), (existing_state _). by intros [= <-].
Qed.

(** A registry whose current credential can be written: its names are valid
    UTF-8 and the times lie in the years 0 to 9999. *)
Definition presentable_credential (r : RegistryConfig) (v : Credential) : Prop :=
  valid_utf8 (RegistryKey_String (Key r)) = true ∧ Forall (λ d, valid_utf8 d = true) (Domains r) ∧
  valid_utf8 (Username v) = true ∧ valid_utf8 (Password v) = true ∧
  (0 <= year (UTC (RefreshedAt v)) <= 9999)%Z ∧ (0 <= year (UTC (ExpiresAt v)) <= 9999)%Z.
Definition presentable (snapshot : ConfigurationSnapshot) (creds : gmap RegistryKey Entry) : Prop :=
  ∀ k r v, Registries snapshot !! k = Some r → ready creds (k, r) = Some v → presentable_credential r v.
End documents.

(** ** What [Build] writes *)
Definition ascii_bytes (l : bytes) : Prop := Forall (λ c, (code c <? 128)%N = true) l.

Lemma ascii_bytes_valid l : ascii_bytes l → utf8_from 0 l = true.
Proof.
  induction 1 as [|a l Ha _ IH]; [done|]. change (a :: l) with ([a] ++ l). by rewrite whole_ascii.
Qed.
Lemma base64_char_ascii n : (code (base64_char n) <? 128)%N = true.
Proof.
  unfold base64_char, byteZ. apply N.ltb_lt.
  destruct (Z.ltb_spec n 26); [rewrite code_chr; lia|]. destruct (Z.ltb_spec n 52); [rewrite code_chr; lia|].
  destruct (Z.ltb_spec n 62); [rewrite code_chr; lia|]. by destruct (n =? 62)%Z.
Qed.
Lemma base64_ascii l : ascii_bytes (base64_encode l).
Proof.
  remember (length l) as k eqn:Hk. assert (length l ≤ k) as Hle by lia. clear Hk. revert l Hle.
  induction k as [|k IH]; intros [|a [|b [|c l]]] Hle; simpl in Hle; try lia;
    repeat (constructor; [first [apply base64_char_ascii|done]|]); try by constructor. apply IH. lia.
Qed.
Lemma hex_digit_ascii n : (n < 16)%N → (code (hex_digit n) <? 128)%N = true.
Proof.
  intros Hn. unfold hex_digit. apply N.ltb_lt. destruct (n <? 10)%N; rewrite code_chr; lia.
Qed.
Lemma hex_ascii l : ascii_bytes (hex_encode l).
Proof.
  induction l as [|c l IH]; [constructor|]. pose proof (code_lt c).
  repeat (constructor; [apply hex_digit_ascii|]); [|by apply N.mod_lt|exact IH].
  apply N.Div0.div_lt_upper_bound. lia.
Qed.
Lemma encodedAuth_valid u p : valid_utf8 (encodedAuth u p) = true.
Proof. unfold valid_utf8, encodedAuth. rewrite to_of_bytes. apply ascii_bytes_valid, base64_ascii. Qed.
Lemma stateHash_valid r v : valid_utf8 (stateHash r v) = true.
Proof.
  unfold stateHash, sha256_hex. generalize (Sum256 (state_document r v)). intros l.
  unfold valid_utf8. change (utf8_from 0 (to_bytes "sha256:" ++ to_bytes (of_bytes (hex_encode l))) = true).
  rewrite to_of_bytes. apply ascii_bytes_valid, Forall_app. split; [by repeat constructor|apply hex_ascii].
Qed.

Lemma utc_valid t : (0 <= year (UTC t) <= 9999)%Z → valid_time (UTC t).
Proof. done. Qed.

Section presentable.
Context `{RangeOrder}.

Lemma cred_docs_valid r v : presentable_credential r v → valid_documents (cred_docs r v).
Proof.
  intros (Hk & Hd & Hu & Hp & Hr & He). rewrite Forall_forall in Hd. split.
  - intros d a. rewrite cred_docs_auths. destruct (decide (d ∈ Domains r)); [|done]. intros [= <-].
    split; [by apply Hd|]. split; [done|]. split; [done|]. apply encodedAuth_valid.
  - intros k s. rewrite cred_docs_states. destruct (decide (k = _)) as [->|]; [|done]. intros [= <-].
    split; [done|]. exact (conj (utc_valid _ Hr) (conj (utc_valid _ He) (stateHash_valid r v))).
Qed.
Lemma kept_docs_valid existing r : valid_documents (kept_docs existing r).
Proof.
  unfold kept_docs. destruct (old_docs existing) as [old|] eqn:Hold; [|done].
  assert (valid_documents old) as [Hd Hs].
  { unfold old_docs in Hold. destruct existing as [secret|]; [|done]. by apply parseExisting_valid in Hold. }
  split.
  - intros d a (_ & _ & Ha)%ret_docs_auths. unfold kept in Ha.
    destruct (old.1 !! d) as [b|] eqn:Hb; [|done]. destruct (usable_auth b); [|done].
    injection Ha as <-. by apply Hd.
  - intros k s (-> & Ho & _)%ret_docs_states. unfold old_state in Ho.
    destruct (old.2 !! RegistryKey_String (Key r)) as [w|] eqn:Hw; [|done].
    destruct (complete_state w); [|done]. injection Ho as <-. by apply Hs.
Qed.

(** [Build] always writes its documents, whatever the existing Secret holds. *)
Lemma presentable_documents snapshot creds existing :
  distinct_registries (Registries snapshot) → presentable snapshot creds →
  valid_documents (build_documents snapshot creds existing).1.
Proof.
  intros Hdist Hp.
  assert (∀ k r, Registries snapshot !! k = Some r → valid_documents (contribution creds existing (k, r))) as Hc.
  { intros k r Hk. unfold contribution. destruct (ready creds (k, r)) as [v|] eqn:Hv; cbn [snd].
    - apply cred_docs_valid. by eapply Hp.
    - apply kept_docs_valid. }
  split.
  - intros d a (k & r & Hk & Ha)%build_auths; [|done]. by apply (proj1 (Hc k r Hk)).
  - intros s v (k & r & Hk & Ha)%build_states; [|done]. by apply (proj2 (Hc k r Hk)).
Qed.
End presentable.

#[export] Instance presentable_credential_dec r v : Decision (presentable_credential r v).
Proof. unfold presentable_credential. exact _. Defined.
Definition presentable_check (snapshot : ConfigurationSnapshot) (creds : gmap RegistryKey Entry) : bool :=
  bool_decide (map_Forall (λ k r, from_option (λ v, bool_decide (presentable_credential r v)) true
    (ready creds (k, r)) = true) (Registries snapshot)).
Lemma presentable_check_sound snapshot creds : presentable_check snapshot creds = true → presentable snapshot creds.
Proof.
  intros Hc%bool_decide_eq_true k r v Hk Hv. specialize (Hc k r Hk). cbn in Hc. rewrite Hv in Hc.
  by apply bool_decide_eq_true in Hc.
Qed.
