(* ===== verification/RegistrySecretCorrect.v ===== *)
(** * Correctness of the rendered Secret

    The properties of [Build] and of [RegistryStatus], with their witnesses. *)
From S2P Require Import Prelude GoStrings Encoding Rfc3339 Json JsonTheory SecretCodec SecretCodecTheory.
From S2P Require Import ConfigTypes Credential RegistrySecret RegistrySecretTheory ExistingSecret.
From Stdlib Require Import Ascii.

Section rebuild.
Context `{RangeOrder} (snapshot : ConfigurationSnapshot) (creds : gmap RegistryKey Entry)
  (existing : option Secret) (secret : Secret).
Hypothesis Hdist : distinct_registries (Registries snapshot).
Abbreviation docs := (build_documents snapshot creds existing).1.
Hypothesis Hvalid : valid_documents docs.
Hypothesis Hcarries : carries secret docs.

Lemma old_docs_carries : old_docs (Some secret) = Some docs.
Proof. unfold old_docs. cbn [mbind option_bind]. by rewrite parseExisting_carries with (docs := docs). Qed.

(** What a pending registry kept, it keeps again. *)
Lemma pending_states k r v :
  Registries snapshot !! k = Some r → ready creds (k, r) = None →
  docs.2 !! RegistryKey_String (Key r) = Some v ↔
  old_state docs r = Some v ∧ keeps_any docs r = true.
Proof.
  intros Hk Hr. rewrite (docs_state snapshot creds existing Hdist k r v Hk Hr).
  unfold old_state. destruct (docs.2 !! RegistryKey_String (Key r)) as [w|] eqn:Hw.
  2: { split; [|by intros [? _]]. intros Hc.
       by apply (docs_state snapshot creds existing Hdist k r v Hk Hr) in Hc; congruence. }
  pose proof Hw as Hk2. rewrite (docs_state snapshot creds existing Hdist k r w Hk Hr) in Hk2.
  assert (complete_state w = true ∧ keeps_any docs r = true) as [-> Hany].
  { unfold kept_docs in Hk2. destruct (old_docs existing) as [o|] eqn:Ho; [|done].
    apply ret_docs_states in Hk2 as (_ & Hos & Hany). split.
    - unfold old_state in Hos. destruct (o.2 !! _) as [u|]; [|done].
      destruct (complete_state u) eqn:Hu; [|done]. by injection Hos as <-.
    - apply keeps_any_spec in Hany as (d & a & Hin & Ha). apply keeps_any_spec. exists d, a.
      split; [done|]. rewrite (docs_kept snapshot creds existing Hdist k r d Hk Hr Hin).
      unfold kept_docs. rewrite Ho. apply ret_docs_auths. by rewrite Hos. }
  rewrite Hk2. tauto.
Qed.

Lemma kept_docs_again k r :
  Registries snapshot !! k = Some r → ready creds (k, r) = None →
  kept_docs (Some secret) r = kept_docs existing r.
Proof.
  intros Hk Hr. unfold kept_docs at 1. rewrite old_docs_carries.
  apply injective_projections; apply map_eq; intros x; apply option_eq; intros v.
  - rewrite ret_docs_auths. split.
    + intros (_ & Hin & Ha). by rewrite (docs_kept snapshot creds existing Hdist k r x Hk Hr Hin) in Ha.
    + intros Ha. pose proof (kept_docs_domain _ _ _ _ Ha) as Hin.
      assert (kept docs.1 x = Some v) as Hkept
        by by rewrite (docs_kept snapshot creds existing Hdist k r x Hk Hr Hin).
      split; [|done].
      assert (∃ w, (kept_docs existing r).2 !! RegistryKey_String (Key r) = Some w) as [w Hw].
      { unfold kept_docs in *. destruct (old_docs existing) as [o|]; [|done].
        apply ret_docs_auths in Ha as ([w Hw] & _ & Ha). exists w. apply ret_docs_states.
        split; [done|]. split; [done|]. apply keeps_any_spec. eauto. }
      apply (docs_state snapshot creds existing Hdist k r w Hk Hr) in Hw.
      apply (pending_states k r w Hk Hr) in Hw as [-> _]. done.
  - rewrite ret_docs_states. split.
    + intros (-> & Hos & Hany). apply (docs_state snapshot creds existing Hdist k r v Hk Hr).
      by apply (pending_states k r v Hk Hr).
    + intros Hv. pose proof (kept_docs_key _ _ _ _ Hv) as ->. split; [done|].
      apply (pending_states k r v Hk Hr).
      by apply (docs_state snapshot creds existing Hdist k r v Hk Hr).
Qed.

Lemma no_errors_again k r :
  Registries snapshot !! k = Some r → ready creds (k, r) = None → ret_errors r docs = [].
Proof.
  intros Hk Hr. unfold ret_errors, retainPending.
  destruct (docs.2 !! RegistryKey_String (Key r)) as [v|] eqn:Hv.
  - apply (pending_states k r v Hk Hr) in Hv as Hv'. destruct Hv' as [Hos _].
    unfold old_state in Hos. rewrite Hv in Hos. destruct (complete_state v); [|done].
    pose proof (retain_domains (Key r) docs.1 (Domains r) ∅ false []) as (_ & _ & Hp).
    cbn [fst snd]. cbv zeta in Hp.
    destruct (foldl _ _ (Domains r)) as [[auths b] ps]. cbn [snd] in *. rewrite Hp. cbn [app].
    apply bind_nil. intros d Hin. unfold domain_errors.
    destruct (docs.1 !! d) as [a|] eqn:Ha; [|done]. destruct (usable_auth a) eqn:Hu; [done|].
    exfalso. pose proof (docs_kept snapshot creds existing Hdist k r d Hk Hr Hin) as Hkd.
    unfold kept in Hkd. rewrite Ha, Hu in Hkd. symmetry in Hkd.
    apply (build_auths snapshot creds existing d a Hdist) in Ha as (k' & r' & Hk' & Hc).
    assert (k = k') as <-
      by by apply (contribution_owner snapshot creds existing Hdist k k' r r' d a).
    simplify_eq. unfold contribution in Hc. rewrite Hr in Hc. simpl in Hc. congruence.
  - destruct (existsb _ (Domains r)) eqn:He; [|done].
    apply existsb_exists in He as (d & Hin%list_elem_of_In & [a Ha]%bool_decide_eq_true).
    exfalso. cbn [fst] in Ha.
    pose proof Ha as Hb. apply (build_auths snapshot creds existing d a Hdist) in Hb as (k' & r' & Hk' & Hc).
    assert (k = k') as <-
      by by apply (contribution_owner snapshot creds existing Hdist k k' r r' d a).
    simplify_eq. unfold contribution in Hc. rewrite Hr in Hc. simpl in Hc.
    rewrite <-(kept_docs_again k r Hk Hr) in Hc. unfold kept_docs in Hc.
    rewrite old_docs_carries in Hc. apply ret_docs_auths in Hc as ([v Hos] & _ & _).
    unfold old_state in Hos. by rewrite Hv in Hos.
Qed.

Lemma rebuild : build_documents snapshot creds (Some secret) = (docs, []).
Proof.
  apply injective_projections; cbn [fst snd].
  - apply injective_projections; apply map_eq; intros x; apply option_eq; intros v.
    + rewrite !build_auths by done. unfold contribution.
      split; intros (k & r & Hk & Hc); exists k, r; (split; [done|]);
        destruct (ready creds (k, r)) eqn:Hr; try done; cbn [snd] in *;
        [by rewrite <-(kept_docs_again k r Hk Hr)|by rewrite (kept_docs_again k r Hk Hr)].
    + rewrite !build_states by done. unfold contribution.
      split; intros (k & r & Hk & Hc); exists k, r; (split; [done|]);
        destruct (ready creds (k, r)) eqn:Hr; try done; cbn [snd] in *;
        [by rewrite <-(kept_docs_again k r Hk Hr)|by rewrite (kept_docs_again k r Hk Hr)].
  - rewrite build_problems_eq. destruct (pending_registries snapshot creds) as [|r0 l] eqn:Hp; [done|].
    rewrite <-Hp. rewrite parseExisting_carries with (docs := docs) by done. cbn [fst snd app].
    apply bind_nil. intros r (k & Hk & Hr)%elem_of_pending. by apply (no_errors_again k r).
Qed.
End rebuild.

(** ** Inspection of a rendered Secret *)
Lemma Inspect_carries secret docs :
  valid_documents docs → carries secret docs → sec_Type secret = SecretTypeDockerConfigJson →
  Inspect (Some secret) =
  MkInspection (Some secret) (Some (auth_value <$> docs.1)) (Some (entry_value <$> docs.2)) true.
Proof.
  intros [Hd Hs] (Hdata & text & Htext & Hann) Htype. unfold Inspect. rewrite Hdata, Hann.
  cbn [default from_option id]. rewrite unmarshal_docker_marshal by done.
  destruct (unmarshal_state_marshal docs.2 Hs) as (text' & Htext' & Hun).
  rewrite Htext in Htext'. injection Htext' as <-. rewrite to_of_bytes, Hun, Htype.
  rewrite !bool_decide_true by done. done.
Qed.

Lemma domains_status_match i expected (docs docs' : documents) ds matches found :
  auths i = Some (auth_value <$> docs.1) → auths expected = Some (auth_value <$> docs'.1) →
  valid_docker docs.1 →
  (∀ d, d ∈ ds → ∃ a, docs.1 !! d = Some a ∧ docs'.1 !! d = Some a ∧ usable_auth a = true) →
  domains_status i expected true matches found ds = Some (matches, found || negb (bool_decide (ds = []))).
Proof.
  intros Hi He Hv. revert matches found.
  induction ds as [|d ds IH]; intros matches found Hall; [by rewrite orb_false_r|].
  destruct (Hall d) as (a & Ha & Ha' & Hu); [left|]. cbn [domains_status].
  rewrite Hi, He. unfold raw_lookup. cbn [mbind option_bind]. rewrite !lookup_fmap, Ha, Ha'. cbn [fmap option_fmap option_map].
  rewrite unmarshal_auth_value by (by apply (Hv d)). rewrite Hu, !bool_decide_true by done. cbn [negb orb].
  rewrite andb_true_r, andb_true_r, IH by (intros d' Hd'; apply Hall; by right).
  cbn [orb]. by rewrite orb_true_r.
Qed.


Lemma applied_managed secret content : IsManaged (Some (applyContent secret content)) = true.
Proof.
  unfold IsManaged, applyContent, label_is; cbn [Labels].
  rewrite lookup_insert_ne, !lookup_insert_eq by done. by rewrite !bool_decide_true.
Qed.

Lemma applied_matches secret content : secretMatches (applyContent secret content) content = true.
Proof.
  unfold secretMatches, applyContent, label_is; cbn [Labels Annotations Data sec_Type].
  rewrite !lookup_insert_eq, (lookup_insert_ne _ ManagedByLabelKey), lookup_insert_eq by done.
  rewrite map_size_singleton, lookup_singleton_eq. by rewrite !bool_decide_true.
Qed.




(** ** Properties *)

(** C1.  What [Build] renders, for registries that share neither a domain nor
    the text of their key: a domain's auth is the current credential of the
    registry that configures it, or, while that registry is pending, the usable
    auth that the existing Secret holds for the domain next to a complete state
    of the registry; nothing else appears, so removed registries and domains
    vanish. *)
Theorem Build_renders `{RangeOrder} snapshot creds existing d a :
  distinct_registries (Registries snapshot) →
  (build_documents snapshot creds existing).1.1 !! d = Some a ↔
  ∃ k r, Registries snapshot !! k = Some r ∧ d ∈ Domains r ∧
    match ready creds (k, r) with
    | Some v => a = auth_of v
    | None => ∃ old, old_docs existing = Some old ∧ is_Some (old_state old r) ∧
                old.1 !! d = Some a ∧ usable_auth a = true
    end.
Proof.
  intros Hd. rewrite build_auths by done. unfold contribution.
  split; intros (k & r & Hk & Hc); exists k, r; (split; [done|]);
    destruct (ready creds (k, r)) as [v|]; cbn [snd] in *.
  - rewrite cred_docs_auths in Hc. destruct (decide (d ∈ Domains r)); [|discriminate Hc].
    by injection Hc as <-.
  - unfold kept_docs in Hc. destruct (old_docs existing) as [old|]; [|done].
    apply ret_docs_auths in Hc as (Hos & Hin & Hkept). split; [done|]. exists old.
    unfold kept in Hkept. destruct (old.1 !! d) as [b|] eqn:Hb; [|done].
    destruct (usable_auth b) eqn:Hu; [|done]. by injection Hkept as <-.
  - destruct Hc as [Hin ->]. rewrite cred_docs_auths. by rewrite decide_True.
  - destruct Hc as (Hin & old & Hold & Hos & Ha & Hu). unfold kept_docs. rewrite Hold.
    apply ret_docs_auths. split; [done|]. split; [done|]. unfold kept. by rewrite Ha, Hu.
Qed.

(** [Build] is deterministic: the content it returns does not depend on the
    order in which Go ranges over the configured registries and over the decoded
    documents, and the joined errors are the same up to their order. *)
Theorem Build_deterministic (R1 R2 : RangeOrder) snapshot creds existing :
  distinct_registries (Registries snapshot) →
  (Build (H := R1) snapshot creds existing).1 = (Build (H := R2) snapshot creds existing).1 ∧
  (Build (H := R1) snapshot creds existing).2 ≡ₚ (Build (H := R2) snapshot creds existing).2.
Proof.
  intros Hd. destruct (build_documents_order R1 R2 snapshot creds existing Hd) as [H1 H2].
  unfold Build. destruct (build_documents (H := R1) _ _ _) as [[d1 s1] p1].
  destruct (build_documents (H := R2) _ _ _) as [[d2 s2] p2]. cbn [fst snd] in *.
  injection H1 as -> ->. by destruct (marshal_state s2).
Qed.

(** C14.  Rendering is stable, whatever the Secret held before: building again from
    a Secret that carries the rendered content, with the same configuration and
    credentials, returns the same content and no error, and the Secret needs no
    update; so a reconcile that found the Secret in place writes nothing. *)
Theorem Build_stable `{RangeOrder} snapshot creds existing secret :
  distinct_registries (Registries snapshot) →
  presentable snapshot creds →
  let content := (Build snapshot creds existing).1 in
  let written := applyContent secret content in
  Build snapshot creds (Some written) = (content, []) ∧ secretMatches written content = true.
Proof.
  intros Hd Hv%(presentable_documents _ _ existing Hd). cbv zeta. split; [|apply applied_matches].
  pose proof (applyContent_carries snapshot creds existing secret Hv) as Hc.
  pose proof (rebuild snapshot creds existing _ Hd Hv Hc) as Hre.
  destruct (Build_marshals snapshot creds existing Hv) as (text & Htext & Heq).
  rewrite Heq in Hre |- *. cbn [fst] in *. unfold Build. rewrite Hre.
  destruct (build_documents snapshot creds existing).1 as [d s]. cbn [snd] in Htext.
  by rewrite Htext.
Qed.

(** A Secret whose documents hold a registry's current credential is reported
    "synced" against any expected documents that hold it too. *)
Definition holds_credential (docs : documents) (r : RegistryConfig) (v : Credential) : Prop :=
  docs.2 !! RegistryKey_String (Key r) = Some (state_of r v) ∧
  ∀ d, d ∈ Domains r → docs.1 !! d = Some (auth_of v).

Lemma build_holds `{RangeOrder} snapshot creds existing k r v :
  distinct_registries (Registries snapshot) →
  Registries snapshot !! k = Some r → ready creds (k, r) = Some v →
  holds_credential (build_documents snapshot creds existing).1 r v.
Proof.
  intros Hd Hk Hr. split.
  - apply (build_states snapshot creds existing); [done|]. exists k, r. split; [done|].
    unfold contribution. rewrite Hr, cred_docs_states. by rewrite decide_True.
  - intros d Hin. apply (build_auths snapshot creds existing); [done|]. exists k, r. split; [done|].
    unfold contribution. rewrite Hr, cred_docs_auths. by rewrite decide_True.
Qed.

Lemma documents_synced secret expected docs docs' r v now :
  valid_documents docs → valid_documents docs' → carries secret docs →
  sec_Type secret = SecretTypeDockerConfigJson → IsManaged (Some secret) = true → DeletionTimestamp secret = None →
  auths expected = Some (auth_value <$> docs'.1) → states expected = Some (entry_value <$> docs'.2) →
  holds_credential docs r v → holds_credential docs' r v → Domains r ≠ [] →
  usable_auth (auth_of v) = true → complete_state (state_of r v) = true →
  RegistryStatus (Inspect (Some secret)) r expected now
  = (if (now <? ExpiresAt v)%Z then Synced else Expired, UTC (ExpiresAt v)).
Proof.
  intros Hv Hv' Hc Ht Hm Hdel Hea Hes [Hst Hau] [Hst' Hau'] Hne Hu Hcs.
  rewrite (Inspect_carries _ docs Hv Hc Ht).
  assert (valid_entry (state_of r v)) as Hve by by eapply (proj2 Hv).
  unfold RegistryStatus. cbn [ins_secret]. rewrite Hm. cbn [negb].
  rewrite bool_decide_false by (rewrite Hdel; by intros []). cbn [ins_valid negb states].
  rewrite Hes. unfold raw_lookup. cbn [mbind option_bind]. rewrite !lookup_fmap, Hst, Hst'.
  cbn [fmap option_fmap option_map].
  rewrite !(bool_decide_true (is_Some _)) by done.
  rewrite unmarshal_entry_value by done. rewrite Hcs. cbn [negb orb andb fst].
  rewrite bool_decide_true, !Z.eqb_refl by done. cbn [andb].
  rewrite (domains_status_match _ _ docs docs'); [|done|done|apply Hv|].
  - rewrite bool_decide_false by done. cbn [orb negb]. cbn [st_ExpiresAt state_of UTC unix_nano].
    by destruct (now <? ExpiresAt v)%Z.
  - intros d Hin. exists (auth_of v). split; [by apply Hau|]. split; [by apply Hau'|done].
Qed.

(** A Secret carrying the rendered content is reported "synced" for every
    registry whose credential is current, until the credential expires, and
    "expired" afterwards. *)
Theorem rendered_is_synced `{RangeOrder} snapshot creds existing s1 s2 k r v now :
  distinct_registries (Registries snapshot) →
  presentable snapshot creds →
  Registries snapshot !! k = Some r → ready creds (k, r) = Some v → Domains r ≠ [] →
  usable_auth (auth_of v) = true → complete_state (state_of r v) = true →
  DeletionTimestamp s1 = None →
  let content := (Build snapshot creds existing).1 in
  RegistryStatus (Inspect (Some (applyContent s1 content))) r
    (Inspect (Some (applyContent s2 content))) now
  = (if (now <? ExpiresAt v)%Z then Synced else Expired, UTC (ExpiresAt v)).
Proof.
  intros Hd Hp Hk Hr Hne Hu Hcs Hdel. cbv zeta.
  pose proof (presentable_documents _ _ existing Hd Hp) as Hv.
  pose proof (applyContent_carries snapshot creds existing s1 Hv) as Hc1.
  pose proof (applyContent_carries snapshot creds existing s2 Hv) as Hc2.
  pose proof (build_holds snapshot creds existing k r v Hd Hk Hr) as Hh.
  rewrite (Inspect_carries (applyContent s2 _) _ Hv Hc2 eq_refl).
  by apply (documents_synced _ _ _ _ r v now Hv Hv Hc1); first [done|apply applied_managed].
Qed.


(** ** Deciding the hypotheses *)
Definition distinct_check (m : gmap RegistryKey RegistryConfig) : bool :=
  bool_decide (map_Forall (λ k1 r1, Key r1 = k1 ∧ map_Forall (λ k2 r2, k1 = k2 ∨
    (Forall (.∉ Domains r2) (Domains r1) ∧ RegistryKey_String k1 ≠ RegistryKey_String k2)) m) m).
Lemma distinct_check_sound m : distinct_check m = true → distinct_registries m.
Proof.
  intros Hm%bool_decide_eq_true. split; [|split].
  - intros k r Hk. apply (Hm k r Hk).
  - intros k1 k2 r1 r2 d H1 H2 Hd1 Hd2. destruct (proj2 (Hm k1 r1 H1) k2 r2 H2) as [|[Hf _]]; [done|].
    by destruct (proj1 (Forall_forall _ _) Hf d Hd1).
  - intros k1 k2 [r1 H1] [r2 H2] Heq. by destruct (proj2 (Hm k1 r1 H1) k2 r2 H2) as [|[_ Hf]].
Qed.

(** ** A concrete Secret: one registry with a credential, one pending registry
    whose credential the existing Secret still holds *)
Module RegistrySecretExample.
#[local] Existing Instance range_forward.
Definition r : RegistryConfig := MkRegistry "cn-hangzhou" "cri-1" "AKID" "SECRET" ["a.example.com"].
Definition p : RegistryConfig := MkRegistry "cn-beijing" "cri-2" "AKID2" "SECRET2" ["b.example.com"].
Definition vr : Credential := MkCredential "cr_user" "one" 0 (60 * Minute).
Definition vp : Credential := MkCredential "cr_user" "two" Second (30 * Minute).
Definition registries : gmap RegistryKey RegistryConfig := <[Key r := r]> {[ Key p := p ]}.
Definition snapshot : ConfigurationSnapshot :=
  MkSnapshot 1 (MkSelector true []) [] (MkSelector true []) registries zero_runtime.
Definition entry_of (reg : RegistryConfig) (v : Credential) (rev : Z) : Entry :=
  MkEntry v rev (registryAuthenticationHash reg).
Definition creds_old : gmap RegistryKey Entry := {[ Key p := entry_of p vp 1 ]}.
Definition creds : gmap RegistryKey Entry := {[ Key r := entry_of r vr 2 ]}.
Definition existing : Secret :=
  newSecret "team-a" "acr" (Build snapshot creds_old None).1.
Definition written : Secret := applyContent existing (Build snapshot creds (Some existing)).1.

Lemma distinct : distinct_registries (Registries snapshot).
Proof. apply distinct_check_sound. vm_compute. reflexivity. Qed.
Lemma valid : presentable snapshot creds.
Proof. apply presentable_check_sound. vm_compute. reflexivity. Qed.
Lemma vr_ready : ready creds (Key r, r) = Some vr.
Proof. apply (bool_decide_unpack _). vm_compute. exact I. Qed.

Lemma Build_renders_witness :
  distinct_registries (Registries snapshot) ∧
  (build_documents snapshot creds (Some existing)).1.1 !! "b.example.com" = Some (auth_of vp).
Proof.
  split; [exact distinct|].
  apply (proj2 (Build_renders snapshot creds (Some existing) "b.example.com" (auth_of vp) distinct)).
  exists (Key p), p. split; [reflexivity|]. split; [left|].
  assert (ready creds (Key p, p) = None) as ->.
  { apply (bool_decide_unpack _). vm_compute. exact I. }
  exists (default (∅, ∅) (old_docs (Some existing))).
  split; [apply (bool_decide_unpack _); vm_compute; exact I|].
  split; [apply (bool_decide_unpack _); vm_compute; exact I|].
  split; [apply (bool_decide_unpack _); vm_compute; exact I|].
  vm_compute. reflexivity.
Defined.

Lemma Build_deterministic_witness :
  distinct_registries (Registries snapshot) ∧
  (Build (H := range_forward) snapshot creds (Some existing)).1
  = (Build (H := range_backward) snapshot creds (Some existing)).1.
Proof.
  split; [exact distinct|].
  exact (proj1 (Build_deterministic range_forward range_backward snapshot creds (Some existing) distinct)).
Defined.

Lemma Build_stable_witness :
  Build snapshot creds (Some written) = ((Build snapshot creds (Some existing)).1, []).
Proof. exact (proj1 (Build_stable snapshot creds (Some existing) existing distinct valid)). Defined.

Lemma rendered_is_synced_witness :
  RegistryStatus (Inspect (Some written)) r (Inspect (Some written)) Minute
  = (Synced, UTC (60 * Minute)%Z).
Proof.
  exact (rendered_is_synced snapshot creds (Some existing) existing existing (Key r) r vr Minute
    distinct valid eq_refl vr_ready ltac:(discriminate) ltac:(vm_compute; reflexivity)
    ltac:(vm_compute; reflexivity) eq_refl).
Defined.


End RegistrySecretExample.
