(* ===== verification/RenderedConfiguration.v ===== *)
(** * From the ConfigMap to the Secret

    The hypothesis of the properties of [Build], that registries share neither a
    domain nor the text of their key, is what the parser establishes as long as
    no region contains a slash; with one, the text of a key is ambiguous and the
    state annotation depends on the order in which Go ranges over a map. *)
From S2P Require Import Prelude GoStrings Encoding Rfc3339 Json SecretCodec ConfigTypes Credential.
From S2P Require Import Validation ConfigParser ConfigParserTheory ConfigParserCorrect.
From S2P Require Import RegistrySecret RegistrySecretTheory RegistrySecretCorrect.
From Stdlib Require Import Ascii.

Lemma app_sep_inj {A} (x : A) l1 l2 r1 r2 :
  x ∉ l1 → x ∉ l2 → l1 ++ x :: r1 = l2 ++ x :: r2 → l1 = l2 ∧ r1 = r2.
Proof.
  revert l2. induction l1 as [|a l1 IH]; intros [|b l2] H1 H2 Heq; simpl in Heq.
  - by injection Heq.
  - injection Heq as -> _. destruct H2. left.
  - injection Heq as <- _. destruct H1. left.
  - rewrite !not_elem_of_cons in *. injection Heq as -> Heq.
    destruct (IH l2) as [-> ->]; tauto.
Qed.

Lemma to_bytes_append s1 s2 : to_bytes (s1 +:+ s2) = to_bytes s1 ++ to_bytes s2.
Proof.
  unfold to_bytes. induction s1 as [|c s1 IH]; [done|].
  change (c :: String.list_ascii_of_string (s1 +:+ s2) = c :: (String.list_ascii_of_string s1 ++ String.list_ascii_of_string s2)).
  by rewrite IH.
Qed.

Definition slash : ascii := chr 47.
Definition plain_region (k : RegistryKey) : Prop := slash ∉ to_bytes (RegionID k).

Lemma RegistryKey_String_inj k1 k2 :
  plain_region k1 → plain_region k2 → RegistryKey_String k1 = RegistryKey_String k2 → k1 = k2.
Proof.
  intros H1 H2 Heq%(f_equal to_bytes). destruct k1 as [r1 i1], k2 as [r2 i2].
  unfold RegistryKey_String in Heq. rewrite !to_bytes_append in Heq. simpl in *.
  apply app_sep_inj in Heq as [Hr Hi]; [|done|done].
  by rewrite <-(of_to_bytes r1), <-(of_to_bytes i1), Hr, Hi, !of_to_bytes.
Qed.

Lemma wf_distinct `{DNSValidation} (m : gmap RegistryKey RegistryConfig) :
  wf_registries m → (∀ k, is_Some (m !! k) → plain_region k) → distinct_registries m.
Proof.
  intros [Hkey Hdom] Hplain. split; [|split].
  - intros k r Hk. by apply Hkey.
  - exact Hdom.
  - intros k1 k2 H1 H2. apply RegistryKey_String_inj; by apply Hplain.
Qed.

(** C15.  A ConfigMap that [Parse] accepts and whose regions contain no slash
    configures registries that share neither a domain nor the text of their key,
    which is what [Build] relies on; so it renders the same Secret in whichever
    order Go ranges over its maps. *)
Theorem parsed_registries_render (R1 R2 : RangeOrder) `{D : DNSValidation} `{!DNSValidationLaws D} `{YAML} `{FloatParser}
    data s creds existing :
  Parse (H := R1) data = Ok s → (∀ k, is_Some (Registries s !! k) → plain_region k) →
  distinct_registries (Registries s) ∧
  (Build (H := R1) s creds existing).1 = (Build (H := R2) s creds existing).1.
Proof.
  intros (_ & _ & _ & _ & [Hwf _]%parseRegistries_wf & _)%Parse_spec Hplain.
  assert (distinct_registries (Registries s)) as Hd by by eapply wf_distinct.
  split; [done|].
  destruct (build_documents_order R1 R2 s creds existing Hd) as [Heq _].
  unfold Build. destruct (build_documents (H := R1) _ _ _) as [[d1 s1] p1].
  destruct (build_documents (H := R2) _ _ _) as [[d2 s2] p2]. cbn [fst snd] in *.
  injection Heq as -> ->. by destruct (marshal_state s2).
Qed.

(** ** Examples *)
Module RenderedExample.
Import ParserExample.

Lemma parsed_registries_render_witness :
  Parse data = Ok snapshot ∧
  (Build (H := range_forward) snapshot ∅ None).1 = (Build (H := range_backward) snapshot ∅ None).1.
Proof.
  split; [exact parse_data|].
  refine (proj2 (parsed_registries_render range_forward range_backward data snapshot ∅ None parse_data _)).
  intros k [r Hr]. change (Registries snapshot) with
    (<[Key reg_b := reg_b]> {[ Key merged_a := merged_a ]} : gmap RegistryKey RegistryConfig) in Hr.
  apply lookup_insert_Some in Hr as [[<- _]|[_ [<- _]%lookup_singleton_Some]];
    apply (bool_decide_unpack _); vm_compute; exact I.
Defined.

(** Two registries whose keys have one text: region [cn/a] with instance [b],
    and region [cn] with instance [a/b]. *)
Definition c1 : RegistryConfig := MkRegistry "cn/a" "b" "AKID" "SECRET" ["a.example.com"].
Definition c2 : RegistryConfig := MkRegistry "cn" "a/b" "AKID" "SECRET" ["b.example.com"].
Definition collision : ConfigurationSnapshot :=
  MkSnapshot 1 (MkSelector true []) [] (MkSelector true [])
    (<[Key c1 := c1]> {[ Key c2 := c2 ]}) zero_runtime.
Definition collision_creds : gmap RegistryKey Entry :=
  <[Key c1 := MkEntry (MkCredential "u" "one" 0 (60 * Minute)) 1 (registryAuthenticationHash c1)]>
  {[ Key c2 := MkEntry (MkCredential "u" "two" 0 (30 * Minute)) 2 (registryAuthenticationHash c2) ]}.
Definition collision_yaml : YAML := {| UnmarshalStrict _ := Ok [c1; c2] |}.

(** Without the hypothesis on regions the rendering is ambiguous: the
    parser accepts these two registries, and the Secret that [Build] renders for
    them depends on Go's map order. *)
Example Build_collision :
  parseRegistries (H0 := dns1123) (H1 := collision_yaml) "registries" = Ok (Registries collision) ∧
  (Build (H := range_forward) collision collision_creds None).1
  ≠ (Build (H := range_backward) collision collision_creds None).1.
Proof.
  split; [apply (bool_decide_unpack _); vm_compute; exact I|].
  intros Heq%(f_equal StateJSON). revert Heq. apply (bool_decide_unpack _). vm_compute. exact I.
Qed.
End RenderedExample.
