(* ===== verification/Kube.v ===== *)
(** * The Kubernetes API as the controller sees it

    The client, its cache and the API server are not code of the repository:
    they are an interface, [ApiServer], whose laws state the documented
    behaviour the controller relies on.  Reads may be stale, but a resource
    version names one version of an object; a write that carries the resource
    version it was computed from succeeds only against that version.  [History]
    is one implementation of the laws, used by the examples. *)
From S2P Require Import Prelude.
From stdpp Require Import pretty.

(** What the controller distinguishes of an error returned by the client. *)
Inductive api_error := NotFound | Canceled | Failed (message : string).
#[export] Instance api_error_eq_dec : EqDecision api_error.
Proof. solve_decision. Defined.

(** [apierrors.IsNotFound(err)] and [errors.Is(err, context.Canceled)] *)
Definition IsNotFound {A} (r : result api_error A) : bool :=
  match r with Err NotFound => true | _ => false end.
Definition is_canceled (e : api_error) : bool :=
  match e with Canceled => true | _ => false end.

(** An object: its namespaced name, its identity and version, and the part of it
    that the controller writes. *)
Class KubeObject (O : Type) := {
  obj_key : O → string * string;
  obj_UID : O → string;
  obj_RV : O → string;
  payload_type : Type;
  payload : O → payload_type;
  deleting : O → bool
}.

(** [K] is the state of the API server and of the client's cache. *)
Class ApiServer (O : Type) `{KubeObject O} (K : Type) := {
  live : K → string * string → option O;
  seen : K → O → Prop;
  read : string * string → K → result api_error O → Prop;
  create : O → K → result api_error () → K → Prop;
  update : O → K → result api_error () → K → Prop;
  remove : O → string → string → K → result api_error () → K → Prop;
  others : K → K → Prop
}.

Section laws.
Context {O : Type} `{KubeObject O}.

(** Everything but the object under [key] is as it was. *)
Definition frame `{!ApiServer O K} (key : string * string) (k k' : K) : Prop :=
  ∀ key', key' ≠ key → live k' key' = live k key'.

Class ApiServerLaws (K : Type) `{!ApiServer O K} : Prop := {
  live_key k key o : live k key = Some o → obj_key o = key;
  live_seen k key o : live k key = Some o → seen k o;
  (** A resource version names one version of an object. *)
  version_unique k o l :
    seen k o → live k (obj_key o) = Some l → obj_UID o = obj_UID l → obj_RV o = obj_RV l → o = l;
  read_seen key k o : read key k (Ok o) → seen k o ∧ obj_key o = key;
  seen_others k k' o : others k k' → seen k o → seen k' o;
  create_ok o k k' : create o k (Ok tt) k' →
    live k (obj_key o) = None ∧ frame (obj_key o) k k' ∧
    ∃ o', live k' (obj_key o) = Some o' ∧ payload o' = payload o ∧ deleting o' = false;
  create_err o k e k' : create o k (Err e) k' → live k' = live k;
  update_ok o k k' : update o k (Ok tt) k' →
    ∃ l, live k (obj_key o) = Some l ∧ obj_UID l = obj_UID o ∧ obj_RV l = obj_RV o ∧
      frame (obj_key o) k k' ∧
      ∃ o', live k' (obj_key o) = Some o' ∧ payload o' = payload o ∧ deleting o' = deleting l;
  update_err o k e k' : update o k (Err e) k' → live k' = live k;
  (** A deletion removes the object, or marks it when finalizers hold it. *)
  remove_ok o uid rv k k' : remove o uid rv k (Ok tt) k' →
    ∃ l, live k (obj_key o) = Some l ∧ obj_UID l = uid ∧ obj_RV l = rv ∧
      frame (obj_key o) k k' ∧
      (live k' (obj_key o) = None ∨
       ∃ o', live k' (obj_key o) = Some o' ∧ payload o' = payload l ∧ deleting o' = true);
  remove_err o uid rv k e k' : remove o uid rv k (Err e) k' → live k' = live k;
  remove_absent o uid rv k k' : remove o uid rv k (Err NotFound) k' → live k (obj_key o) = None
}.

(** A read that the cache has caught up with: it answers the live object, or
    fails for another reason than its absence. *)
Class FreshReads (K : Type) `{!ApiServer O K} : Prop :=
  read_fresh key k r : read key k r →
    match r with
    | Ok o => live k key = Some o
    | Err NotFound => live k key = None
    | Err _ => True
    end.
End laws.

(** ** An implementation: the log of all writes *)
Module History.
Section history.
Context {O : Type} `{KubeObject O} (set_version : O → string → O).
Hypothesis set_key : ∀ o v, obj_key (set_version o v) = obj_key o.
Hypothesis set_RV : ∀ o v, obj_RV (set_version o v) = v.
Hypothesis set_payload : ∀ o v, payload (set_version o v) = payload o.
Hypothesis set_deleting : ∀ o v, deleting (set_version o v) = deleting o.

Inductive entry := Put (o : O) | Del (key : string * string).
Definition entry_key (e : entry) : string * string :=
  match e with Put o => obj_key o | Del key => key end.

(** The version of the [n]-th write is [n]; the newest write of a key is live. *)
Fixpoint lookup_live (log : list entry) (key : string * string) : option O :=
  match log with
  | [] => None
  | e :: log =>
    if decide (entry_key e = key) then
      match e with Put o => Some (set_version o (pretty (length log))) | Del _ => None end
    else lookup_live log key
  end.
Fixpoint versions (log : list entry) : list O :=
  match log with
  | [] => []
  | Put o :: log => set_version o (pretty (length log)) :: versions log
  | Del _ :: log => versions log
  end.

Definition locked (log : list entry) (key : string * string) (uid rv : string) : bool :=
  match lookup_live log key with
  | Some l => bool_decide (obj_UID l = uid) && bool_decide (obj_RV l = rv)
  | None => false
  end.

Definition do_create (o : O) (log : list entry) : result api_error () * list entry :=
  match lookup_live log (obj_key o) with
  | Some _ => (Err (Failed "AlreadyExists"), log)
  | None => (Ok tt, Put o :: log)
  end.
Definition do_update (o : O) (log : list entry) : result api_error () * list entry :=
  match lookup_live log (obj_key o) with
  | None => (Err NotFound, log)
  | Some l => if locked log (obj_key o) (obj_UID o) (obj_RV o) then (Ok tt, Put o :: log)
              else (Err (Failed "Conflict"), log)
  end.
Definition do_remove (o : O) (uid rv : string) (log : list entry) :
    result api_error () * list entry :=
  match lookup_live log (obj_key o) with
  | None => (Err NotFound, log)
  | Some l => if locked log (obj_key o) uid rv then (Ok tt, Del (obj_key o) :: log)
              else (Err (Failed "Conflict"), log)
  end.
Definition do_read (key : string * string) (log : list entry) : result api_error O :=
  match lookup_live log key with Some o => Ok o | None => Err NotFound end.

#[export] Instance server : ApiServer O (list entry) := {|
  live := lookup_live;
  seen log o := o ∈ versions log;
  read key log r := r = do_read key log;
  create o log r log' := (r, log') = do_create o log ∧ deleting o = false;
  update o log r log' := (r, log') = do_update o log ∧
    ∀ l, lookup_live log (obj_key o) = Some l → deleting o = deleting l;
  remove o uid rv log r log' := (r, log') = do_remove o uid rv log;
  others log log' := log' = log
|}.

Lemma lookup_live_key log key o : lookup_live log key = Some o → obj_key o = key.
Proof.
  induction log as [|e log IH]; simpl; [done|]. case_decide as Hk; [|done].
  destruct e as [o'|]; [|done]. intros [= <-]. by rewrite set_key.
Qed.

Lemma lookup_live_version log key o : lookup_live log key = Some o → o ∈ versions log.
Proof.
  induction log as [|e log IH]; simpl; [done|]. case_decide; destruct e; try done.
  - intros [= <-]. left.
  - intros ?%IH. by right.
Qed.

Lemma versions_RV log o : o ∈ versions log → ∃ n, n < length log ∧ obj_RV o = pretty n.
Proof.
  induction log as [|[o'|key] log IH]; simpl; [by intros ?%not_elem_of_nil|..].
  - intros [->|Hin]%elem_of_cons; [exists (length log); rewrite set_RV; split; [lia|done]|].
    destruct (IH Hin) as (n & ? & ?). exists n. split; [lia|done].
  - intros (n & ? & ?)%IH. exists n. split; [lia|done].
Qed.

Lemma versions_unique log o1 o2 :
  o1 ∈ versions log → o2 ∈ versions log → obj_RV o1 = obj_RV o2 → o1 = o2.
Proof.
  induction log as [|[o|key] log IH]; simpl; [by intros ?%not_elem_of_nil| |done].
  intros [->|H1]%elem_of_cons [->|H2]%elem_of_cons Heq; [done|..|by apply IH].
  - destruct (versions_RV log o2 H2) as (n & Hn & Hrv). rewrite set_RV, Hrv in Heq.
    apply (inj pretty) in Heq. lia.
  - destruct (versions_RV log o1 H1) as (n & Hn & Hrv). rewrite set_RV, Hrv in Heq.
    apply (inj pretty) in Heq. lia.
Qed.

Lemma lookup_live_cons e log key :
  lookup_live (e :: log) key =
  if decide (entry_key e = key) then
    match e with Put o => Some (set_version o (pretty (length log))) | Del _ => None end
  else lookup_live log key.
Proof. done. Qed.

Lemma frame_cons e log : frame (entry_key e) log (e :: log).
Proof. intros key Hk. cbn. by rewrite decide_False by congruence. Qed.

Lemma locked_spec log key uid rv :
  locked log key uid rv = true ↔
  ∃ l, lookup_live log key = Some l ∧ obj_UID l = uid ∧ obj_RV l = rv.
Proof.
  unfold locked. destruct (lookup_live log key) as [l|].
  - rewrite andb_true_iff, !bool_decide_eq_true. split; [by exists l|]. by intros (? & [= <-] & ?).
  - split; [done|]. by intros (? & ? & ?).
Qed.

#[export] Instance server_laws : ApiServerLaws (list entry).
Proof.
  split; cbn [server live seen read create update remove others].
  - apply lookup_live_key.
  - apply lookup_live_version.
  - intros log o l Ho Hl _ Hrv. exact (versions_unique log o l Ho (lookup_live_version log _ l Hl) Hrv).
  - intros key log o Hr. unfold do_read in Hr.
    destruct (lookup_live log key) as [o'|] eqn:Hl; simplify_eq.
    split; [by eapply lookup_live_version|by eapply lookup_live_key].
  - by intros log _ o -> Ho.
  - intros o log log' [Hc Hd]. unfold do_create in Hc. destruct (lookup_live log _) eqn:Hl; simplify_eq.
    split; [done|]. split; [apply (frame_cons (Put o))|]. eexists. cbn [lookup_live entry_key].
    rewrite decide_True by done. split; [done|]. by rewrite set_payload, set_deleting.
  - intros o log e log' [Hc _]. unfold do_create in Hc. by destruct (lookup_live log _); simplify_eq.
  - intros o log log' [Hu Hd]. unfold do_update in Hu. destruct (lookup_live log _) as [l|] eqn:Hl; [|done].
    destruct (locked log _ _ _) eqn:Hlock; simplify_eq.
    apply locked_spec in Hlock as (l' & Hl' & ? & ?). simplify_eq. exists l.
    do 3 (split; [done|]). split; [apply (frame_cons (Put o))|].
    eexists. cbn [lookup_live entry_key]. rewrite decide_True by done.
    split; [done|]. rewrite set_payload, set_deleting. split; [done|]. by apply Hd.
  - intros o log e log' [Hu _]. unfold do_update in Hu.
    by destruct (lookup_live log _); [destruct (locked log _ _ _)|]; simplify_eq.
  - intros o uid rv log log' Hu. unfold do_remove in Hu.
    destruct (lookup_live log _) as [l|] eqn:Hl; [|done].
    destruct (locked log _ _ _) eqn:Hlock; simplify_eq.
    apply locked_spec in Hlock as (l' & Hl' & ? & ?). simplify_eq. exists l.
    do 3 (split; [done|]). split; [apply (frame_cons (Del (obj_key o)))|]. left.
    cbn [lookup_live entry_key]. by rewrite decide_True.
  - intros o uid rv log e log' Hu. unfold do_remove in Hu.
    by destruct (lookup_live log _); [destruct (locked log _ _ _)|]; simplify_eq.
  - intros o uid rv log log' Hu. unfold do_remove in Hu.
    by destruct (lookup_live log _); [destruct (locked log _ _ _)|]; simplify_eq.
Qed.

#[export] Instance server_fresh : FreshReads (list entry).
Proof.
  intros key log r ->. cbn [server live]. unfold do_read. by destruct (lookup_live log key).
Qed.
End history.
End History.
