(* ===== verification/SecretSyncer.v ===== *)
(** * The Secret of one namespace (internal/registrysecret/syncer.go)

    [SyncNamespaceSecret] is a program over the calls of the syncer; [exec] gives
    their meaning on the process's own state and, through the interface
    [ApiServer], on the cluster. *)
From S2P Require Import Prelude Prog GoStrings ConfigTypes ConfigStore Credential RegistrySecret Kube.

#[export] Instance Secret_eq_dec : EqDecision Secret.
Proof. solve_decision. Defined.

(** What the controller writes of a Secret. *)
#[export] Instance Secret_object : KubeObject Secret := {|
  obj_key s := (sec_Namespace s, sec_Name s);
  obj_UID := UID;
  obj_RV := ResourceVersion;
  payload s := (sec_Type s, Data s, Labels s, Annotations s);
  deleting s := bool_decide (is_Some (DeletionTimestamp s))
|}.

(** ** The syncer *)
Record Syncer (client recorder : Type) := MkSyncer {
  sync_client : client;
  sync_configStore : ConfigStore.Store;
  sync_credentialStore : CredentialStore.Store;
  sync_secretName : string;
  sync_eventRecorder : recorder;
  sync_conflicts : gmap string string
}.
Arguments MkSyncer {client recorder}.

(** A nil argument is [None]. *)
Definition NewSyncer {client recorder : Type} (kubernetesClient : option client)
    (configStore : option ConfigStore.Store) (credentialStore : option CredentialStore.Store)
    (secretName : string) (eventRecorder : option recorder) :
    result string (Syncer client recorder) :=
  match kubernetesClient with
  | None => Err "Kubernetes client must not be nil"
  | Some kubernetesClient =>
  match configStore with
  | None => Err "config store must not be nil"
  | Some configStore =>
  match credentialStore with
  | None => Err "credential store must not be nil"
  | Some credentialStore =>
  if bool_decide (secretName = "") then Err "managed Secret name must not be empty" else
  match eventRecorder with
  | None => Err "event recorder must not be nil"
  | Some eventRecorder =>
    Ok (MkSyncer kubernetesClient configStore credentialStore secretName eventRecorder ∅)
  end end end end.

Inductive sync_error :=
| GetNamespaceFailed (e : api_error)
| GetSecretFailed (e : api_error)
| DeleteFailed (e : api_error)
| BuildFailed (problems : list build_error)
| DeleteEmptyFailed (e : api_error)
| CreateFailed (e : api_error)
| UpdateFailed (e : api_error).
#[export] Instance sync_error_eq_dec : EqDecision sync_error.
Proof. solve_decision. Defined.

(** ** Calls *)
Inductive syncE : Type → Type :=
| LoadConfiguration : syncE (ConfigurationSnapshot * bool)
| GetNamespace (name : string) : syncE (result api_error ())
| GetSecret (namespace name : string) : syncE (result api_error Secret)
| SnapshotCredentials : syncE (gmap RegistryKey Entry)
| ClearConflict (namespace : string) : syncE ()
| SwapConflict (namespace uid : string) : syncE (option string)
| EmitConflict (secret : Secret) : syncE ()
| CreateSecret (secret : Secret) : syncE (result api_error ())
| UpdateSecret (secret : Secret) : syncE (result api_error ())
| DeleteSecret (secret : Secret) (uid resourceVersion : string) : syncE (result api_error ()).

Definition deleteObserved (secret : Secret) : prog syncE (result api_error ()) :=
  call (DeleteSecret secret (UID secret) (ResourceVersion secret)).

(** [if err := s.deleteObserved(...); err != nil && !IsNotFound(err)] *)
Definition delete_ignoring_absence (secret : Secret) (wrap : api_error → sync_error) :
    prog syncE (result sync_error ()) :=
  try (deleteObserved secret)
    (λ e, mret (if bool_decide (e = NotFound) then Ok tt else Err (wrap e)))
    (λ _, mret (Ok tt)).

(** The error that [Build] left, returned after the write. *)
Definition build_result (problems : list build_error) : result sync_error () :=
  match problems with [] => Ok tt | _ => Err (BuildFailed problems) end.

(** The body after the Secret was read: [current] is [None] when it is absent. *)
Definition report_conflict (namespace : string) (current : Secret) :
    prog syncE (result sync_error ()) :=
  previous ← call (SwapConflict namespace (UID current));
  if bool_decide (previous = Some (UID current)) then mret (Ok tt) else
  _ ← call (EmitConflict current);
  mret (Ok tt).

Section sync.
Context `{RangeOrder}.

Definition converge (secretName namespace : string) (snapshot : ConfigurationSnapshot)
    (existing : option Secret) : prog syncE (result sync_error ()) :=
  credentials ← call SnapshotCredentials;
  let '(content, problems) := Build snapshot credentials existing in
  if HasAuth content then
    match existing with
    | None =>
      try (call (CreateSecret (newSecret namespace secretName content)))
        (λ e, mret (Err (CreateFailed e))) (λ _, mret (build_result problems))
    | Some current =>
      if secretMatches current content then mret (build_result problems)
      else
        try (call (UpdateSecret (applyContent current content)))
          (λ e, mret (Err (UpdateFailed e))) (λ _, mret (build_result problems))
    end
  else
    match problems with
    | _ :: _ => mret (build_result problems)
    | [] =>
      match existing with
      | None => mret (Ok tt)
      | Some current => delete_ignoring_absence current DeleteEmptyFailed
      end
    end.

(** The branches on the observed Secret. *)
Definition sync_observed (secretName namespace : string) (snapshot : ConfigurationSnapshot)
    (current : option Secret) : prog syncE (result sync_error ()) :=
  if negb (MatchesNamespace snapshot namespace) then
    _ ← call (ClearConflict namespace);
    match current with
    | None => mret (Ok tt)
    | Some current =>
      if negb (IsManaged (Some current)) then mret (Ok tt)
      else delete_ignoring_absence current DeleteFailed
    end
  else
    match current with
    | Some secret =>
      if negb (IsManaged (Some secret)) then report_conflict namespace secret
      else _ ← call (ClearConflict namespace); converge secretName namespace snapshot current
    | None => _ ← call (ClearConflict namespace); converge secretName namespace snapshot None
    end.

Definition SyncNamespaceSecret (secretName namespace : string) :
    prog syncE (result sync_error ()) :=
  '(snapshot, loaded) ← call LoadConfiguration;
  if negb loaded then mret (Ok tt) else
  try (call (GetNamespace namespace))
    (λ e, if bool_decide (e = NotFound) then _ ← call (ClearConflict namespace); mret (Ok tt)
          else mret (Err (GetNamespaceFailed e)))
    (λ _,
      secret ← call (GetSecret namespace secretName);
      match secret with
      | Ok current => sync_observed secretName namespace snapshot (Some current)
      | Err NotFound => sync_observed secretName namespace snapshot None
      | Err e => mret (Err (GetSecretFailed e))
      end).
End sync.

(** ** The meaning of the calls *)
Inductive secret_write :=
| Created (after : Secret)
| Updated (before : option Secret) (after : Secret)
| Deleted (before : option Secret).

(** The process, the cluster, and the log of the syncer's successful writes, each
    with the live object it met and the object it sent. *)
Record SyncState (K : Type) := MkSyncState {
  ss_config : ConfigStore.Store;
  ss_credentials : CredentialStore.Store;
  conflicts : gmap string string;
  conflict_events : list Secret;
  cluster : K;
  ss_writes : list secret_write
}.
Arguments MkSyncState {K}.
Arguments ss_config {K}. Arguments ss_credentials {K}. Arguments conflicts {K}.
Arguments conflict_events {K}. Arguments cluster {K}. Arguments ss_writes {K}.

(** [clearConflict], and the critical section that swaps the UID *)
Definition clearConflict (conflicts : gmap string string) (namespace : string) :
    gmap string string := delete namespace conflicts.
Definition swapConflict (conflicts : gmap string string) (namespace uid : string) :
    option string * gmap string string :=
  (conflicts !! namespace, <[namespace := uid]> conflicts).

Section exec.
Context `{R : RangeOrder} {K : Type} `{!ApiServer Secret K}
  (namespace_read : string → K → result api_error () → Prop).

Definition set_conflicts (s : SyncState K) c : SyncState K :=
  MkSyncState (ss_config s) (ss_credentials s) c (conflict_events s) (cluster s) (ss_writes s).
Definition add_conflict_event (s : SyncState K) secret : SyncState K :=
  MkSyncState (ss_config s) (ss_credentials s) (conflicts s) (conflict_events s ++ [secret])
    (cluster s) (ss_writes s).
Definition after_write (s : SyncState K) (k : K) (r : result api_error ()) (w : secret_write) :
    SyncState K :=
  MkSyncState (ss_config s) (ss_credentials s) (conflicts s) (conflict_events s) k
    (ss_writes s ++ if is_ok r then [w] else []).

Definition sync_exec (X : Type) (e : syncE X) : SyncState K → X → SyncState K → Prop :=
  match e in syncE X return SyncState K → X → SyncState K → Prop with
  | LoadConfiguration => λ s x s', x = ConfigStore.Load (ss_config s) ∧ s' = s
  | GetNamespace name => λ s x s', namespace_read name (cluster s) x ∧ s' = s
  | GetSecret ns name => λ s x s', read (O := Secret) (ns, name) (cluster s) x ∧ s' = s
  | SnapshotCredentials => λ s x s', x = CredentialStore.Snapshot (ss_credentials s) ∧ s' = s
  | ClearConflict ns => λ s _ s', s' = set_conflicts s (clearConflict (conflicts s) ns)
  | SwapConflict ns uid => λ s x s',
      let '(previous, c) := swapConflict (conflicts s) ns uid in
      x = previous ∧ s' = set_conflicts s c
  | EmitConflict secret => λ s _ s', s' = add_conflict_event s secret
  | CreateSecret secret => λ s r s', ∃ k', create secret (cluster s) r k' ∧
      s' = after_write s k' r (Created secret)
  | UpdateSecret secret => λ s r s', ∃ k', update secret (cluster s) r k' ∧
      s' = after_write s k' r (Updated (live (cluster s) (obj_key secret)) secret)
  | DeleteSecret secret uid rv => λ s r s', ∃ k', remove secret uid rv (cluster s) r k' ∧
      s' = after_write s k' r (Deleted (live (cluster s) (obj_key secret)))
  end.

(** What the rest of the process and other clients may do between two calls. *)
Definition interference (s s' : SyncState K) : Prop :=
  rtc others (cluster s) (cluster s') ∧ ss_writes s' = ss_writes s.
Definition interleaved (X : Type) (e : syncE X) (s : SyncState K) (x : X) (s' : SyncState K) : Prop :=
  ∃ s1, interference s s1 ∧ sync_exec X e s1 x s'.
End exec.
