(* ===== verification/SecretSyncerCorrect.v ===== *)
(** * Correctness of the Secret syncer

    Safety against every interleaving of the rest of the process, of other
    clients and of a stale cache; convergence once the cache has caught up. *)
From S2P Require Import Prelude Prog GoStrings Encoding Rfc3339 SecretCodec SecretCodecTheory.
From S2P Require Import ConfigTypes ConfigStore Credential Kube.
From S2P Require Import RegistrySecret RegistrySecretTheory ExistingSecret RegistrySecretCorrect SecretSyncer.

(** ** Writes that respect ownership *)
Definition owned (key : string * string) (s : Secret) : Prop :=
  obj_key s = key ∧ IsManaged (Some s) = true.

Definition write_respects (namespace name : string) (w : secret_write) : Prop :=
  match w with
  | Created after => ∃ content, after = newSecret namespace name content ∧ HasAuth content = true
  | Updated before after => ∃ l content, before = Some l ∧ owned (namespace, name) l ∧
      after = applyContent l content ∧ HasAuth content = true
  | Deleted before => ∃ l, before = Some l ∧ owned (namespace, name) l
  end.

(** At most one write, and it respects ownership. *)
Definition safe_writes {K} (namespace name : string) (s s' : SyncState K) : Prop :=
  ∃ ws, ss_writes s' = ss_writes s ++ ws ∧ length ws ≤ 1 ∧ Forall (write_respects namespace name) ws.

Section safety.
Context `{R : RangeOrder} {K : Type} `{!ApiServer Secret K} `{!ApiServerLaws K}
  (namespace_read : string → K → result api_error () → Prop).
Abbreviation step := (interleaved namespace_read).

Lemma seen_others_rtc k k' (o : Secret) : rtc others k k' → seen k o → seen k' o.
Proof. induction 1; eauto using seen_others. Qed.

Lemma safe_none ns name (s s' : SyncState K) : ss_writes s' = ss_writes s → safe_writes ns name s s'.
Proof. intros Hw. exists []. rewrite app_nil_r. split; [done|]. split; [simpl; lia|done]. Qed.

Lemma safe_write ns name (s s1 : SyncState K) k' r w :
  ss_writes s1 = ss_writes s → (r = Ok tt → write_respects ns name w) →
  safe_writes ns name s (after_write s1 k' r w).
Proof.
  intros Hw Hr. exists (if is_ok r then [w] else []). cbn. rewrite Hw. split; [done|].
  destruct r as [[]|]; simpl; (split; [lia|]); [|done]. constructor; [by apply Hr|done].
Qed.

(** The observed version of a Secret is the live one whenever a write that
    carries its resource version succeeds. *)
Lemma observed_live k (o l : Secret) :
  seen k o → live k (obj_key o) = Some l → UID l = UID o → ResourceVersion l = ResourceVersion o →
  l = o.
Proof. intros Ho Hl Hu Hv. symmetry. eapply version_unique; [done|done|..]; symmetry; done. Qed.

Lemma applyContent_key o c : obj_key (applyContent o c) = obj_key o.
Proof. done. Qed.

Lemma wp_delete ns name o wrap (s0 s : SyncState K) :
  seen (cluster s) o → owned (ns, name) o → ss_writes s = ss_writes s0 →
  wp step (delete_ignoring_absence o wrap) s (λ _ s', safe_writes ns name s0 s').
Proof.
  intros Ho Hown Hw. cbn. intros r s' (s1 & [Hrtc Hw1] & k' & Hrem & ->).
  assert (safe_writes ns name s0 (after_write s1 k' r (Deleted (live (cluster s1) (obj_key o))))) as Hs.
  { apply safe_write; [congruence|]. intros ->.
    apply remove_ok in Hrem as (l & Hl & Hu & Hv & _). exists l. split; [done|].
    by rewrite (observed_live (cluster s1) o l) by first [done|by eapply seen_others_rtc]. }
  destruct r as [u|e]; cbn; done.
Qed.

Lemma wp_converge ns name snapshot existing (s0 s : SyncState K) :
  (∀ o, existing = Some o → seen (cluster s) o ∧ owned (ns, name) o) → ss_writes s = ss_writes s0 →
  wp step (converge name ns snapshot existing) s (λ _ s', safe_writes ns name s0 s').
Proof.
  intros Hex Hw. unfold converge. cbn [mbind prog_bind prog_bind_def call wp].
  intros creds s' (s1 & [Hrtc Hw1] & _ & ->).
  assert (∀ o, existing = Some o → seen (cluster s1) o ∧ owned (ns, name) o) as Hex1.
  { intros o Ho. destruct (Hex o Ho). split; [by eapply seen_others_rtc|done]. }
  destruct (Build snapshot creds existing) as [content problems].
  assert (∀ w r s2 k', ss_writes s2 = ss_writes s1 → (r = Ok tt → write_respects ns name w) →
    safe_writes ns name s0 (after_write s2 k' r w)) as Hdone.
  { intros w r s2 k' Hw2 Hr. apply safe_write; [congruence|done]. }
  assert (∀ a, wp step (mret a : prog syncE (result sync_error ())) s1 (λ _ s', safe_writes ns name s0 s')) as Hret.
  { intros a. cbn. apply safe_none. congruence. }
  destruct (HasAuth content) eqn:Hauth.
  - destruct existing as [o|].
    + destruct (secretMatches o content); [apply Hret|]. destruct (Hex1 o eq_refl) as [Hseen Hown].
      cbn. intros r s2 (s3 & [Hrtc2 Hw2] & k' & Hupd & ->).
      assert (r = Ok tt → write_respects ns name
        (Updated (live (cluster s3) (obj_key (applyContent o content))) (applyContent o content))) as Hok.
      { intros ->. apply update_ok in Hupd as (l & Hl & Hu & Hv & _).
        rewrite applyContent_key in *. exists l, content. split; [done|].
        assert (l = o) as -> by (eapply observed_live; [|done..]; by eapply seen_others_rtc).
        split; [done|]. done. }
      destruct r as [u|e]; cbn; by apply Hdone.
    + cbn. intros r s2 (s3 & [Hrtc2 Hw2] & k' & Hc & ->).
      destruct r as [u|e]; cbn; (apply Hdone; [done|]); intros _; by exists content.
  - destruct problems; [|apply Hret]. destruct existing as [o|]; [|apply Hret].
    destruct (Hex1 o eq_refl) as [Hseen Hown]. apply wp_delete; [done|done|congruence].
Qed.

Lemma wp_observed ns name snapshot current (s0 s : SyncState K) :
  (∀ o, current = Some o → seen (cluster s) o ∧ obj_key o = (ns, name)) → ss_writes s = ss_writes s0 →
  wp step (sync_observed name ns snapshot current) s (λ _ s', safe_writes ns name s0 s').
Proof.
  intros Hcur Hw. unfold sync_observed.
  assert (∀ s1 o, rtc others (cluster s) (cluster s1) → current = Some o →
    IsManaged (Some o) = true → seen (cluster s1) o ∧ owned (ns, name) o) as Hown.
  { intros s1 o Hrtc Ho Hm. destruct (Hcur o Ho). split; [by eapply seen_others_rtc|done]. }
  assert (∀ s1 s2, interference s s1 → sync_exec namespace_read () (ClearConflict ns) s1 tt s2 →
    rtc others (cluster s) (cluster s2) ∧ ss_writes s2 = ss_writes s0) as Hclear.
  { intros s1 s2 [Hrtc Hw1] ->. split; [done|]. cbn. congruence. }
  destruct (MatchesNamespace snapshot ns); cbn [negb].
  - destruct current as [o|].
    + destruct (IsManaged (Some o)) eqn:Hm; cbn [negb].
      * cbn [mbind prog_bind prog_bind_def call wp]. intros [] s2 (s1 & Hi & He).
        destruct (Hclear _ _ Hi He). apply wp_converge; [|done]. intros ? [= <-]. eauto.
      * unfold report_conflict. cbn [mbind prog_bind prog_bind_def call wp].
        intros previous s2 (s1 & [_ Hw1] & [_ ->]). case_bool_decide.
        { cbn. apply safe_none. cbn. congruence. }
        cbn. intros _ s4 (s3 & [_ Hw3] & ->). apply safe_none. cbn in *. congruence.
    + cbn [mbind prog_bind prog_bind_def call wp]. intros [] s2 (s1 & Hi & He).
      destruct (Hclear _ _ Hi He). by apply wp_converge.
  - cbn [mbind prog_bind prog_bind_def call wp]. intros [] s2 (s1 & Hi & He).
    destruct (Hclear _ _ Hi He) as [Hrtc Hw2]. destruct current as [o|]; [|cbn; by apply safe_none].
    destruct (IsManaged (Some o)) eqn:Hm; cbn [negb]; [|cbn; by apply safe_none].
    destruct (Hown s2 o Hrtc eq_refl Hm). by apply wp_delete.
Qed.
End safety.

(** ** Running beside the rest of the process

    While a namespace is synced, its fixed Secret, the Namespace and the two
    stores stay as they are ([quiet]); the sync itself touches nothing but that
    Secret ([confined]), so syncs of distinct namespaces leave each other alone. *)
Section beside.
Context {K : Type} `{!ApiServer Secret K} (namespace_read : string → K → result api_error () → Prop).
Context (name ns : string).

Definition quiet (s s' : SyncState K) : Prop :=
  ss_config s' = ss_config s ∧ ss_credentials s' = ss_credentials s ∧
  live (cluster s') (ns, name) = live (cluster s) (ns, name) ∧
  ∀ r, namespace_read ns (cluster s') r ↔ namespace_read ns (cluster s) r.
Definition confined (s s' : SyncState K) : Prop :=
  ss_config s' = ss_config s ∧ ss_credentials s' = ss_credentials s ∧
  frame (ns, name) (cluster s) (cluster s').

Lemma quiet_refl s : quiet s s.
Proof. done. Qed.
Lemma quiet_trans s1 s2 s3 : quiet s1 s2 → quiet s2 s3 → quiet s1 s3.
Proof.
  intros (? & ? & ? & Hr1) (? & ? & ? & Hr2). split; [congruence|]. split; [congruence|].
  split; [congruence|]. intros r. by rewrite Hr2.
Qed.
Lemma confined_same s s' :
  ss_config s' = ss_config s → ss_credentials s' = ss_credentials s → cluster s' = cluster s →
  confined s s'.
Proof. intros ? ? Hc. split; [done|]. split; [done|]. intros key _. by rewrite Hc. Qed.
Lemma confined_write s k' r w :
  frame (ns, name) (cluster s) k' → confined s (after_write s k' r w).
Proof. done. Qed.
End beside.
#[export] Hint Resolve quiet_refl : core.

(** ** Convergence *)

(** Nothing is left to do for the namespace: the live Secret is not ours, or is
    being deleted, or is what the configuration asks for. *)
Definition settled `{R : RangeOrder} {K} `{!ApiServer Secret K} (name ns : string)
    (snapshot : ConfigurationSnapshot) (creds : gmap RegistryKey Entry) (k : K) : Prop :=
  match live k (ns, name) with
  | None => MatchesNamespace snapshot ns = true → HasAuth (Build snapshot creds None).1 = false
  | Some l =>
    IsManaged (Some l) = false ∨ deleting l = true ∨
    (MatchesNamespace snapshot ns = true ∧
     let '(content, problems) := Build snapshot creds (Some l) in
     HasAuth content = true ∧ secretMatches l content = true ∧ problems = [])
  end.

Lemma Build_existing `{R : RangeOrder} snapshot creds (s1 s2 : Secret) :
  Data s1 = Data s2 → Annotations s1 = Annotations s2 →
  Build snapshot creds (Some s1) = Build snapshot creds (Some s2).
Proof. intros Hd Ha. unfold Build, build_documents, parseExisting. by rewrite Hd, Ha. Qed.

Lemma secretMatches_payload (s1 s2 : Secret) content :
  payload s1 = payload s2 → secretMatches s1 content = secretMatches s2 content.
Proof. intros [= Ht Hd Hl Ha]. unfold secretMatches. by rewrite Ht, Hd, Hl, Ha. Qed.

Lemma Build_none_problems `{R : RangeOrder} snapshot creds :
  valid_documents (build_documents snapshot creds None).1 → (Build snapshot creds None).2 = [].
Proof.
  intros Hv. destruct (Build_marshals snapshot creds None Hv) as (text & _ & ->). cbn [snd].
  unfold build_documents. by destruct (foldl _ _ _) as [? [|? ?]].
Qed.

(** The meaning of a finished sync, beside the rest of the process. *)
Section rules.
Context `{R : RangeOrder} {K : Type} `{!ApiServer Secret K} `{!ApiServerLaws K} `{!FreshReads K}
  (namespace_read : string → K → result api_error () → Prop).
Context (name ns : string) (snapshot : ConfigurationSnapshot) (creds : gmap RegistryKey Entry).

Definition at_rest (r : result sync_error ()) (s : SyncState K) : Prop :=
  r = Ok tt → settled name ns snapshot creds (cluster s).
Abbreviation beside :=
  (rg (sync_exec namespace_read) (quiet namespace_read name ns) (confined name ns)).

Lemma settled_live (k k' : K) :
  live k' (ns, name) = live k (ns, name) → settled name ns snapshot creds k → settled name ns snapshot creds k'.
Proof. unfold settled. by intros ->. Qed.

(** A handler that returns leaves what it found. *)
Lemma rg_return (r : result sync_error ()) (s : SyncState K) :
  at_rest r s → beside (mret r) s at_rest.
Proof. intros Hr s' (_ & _ & Hl & _) Hok. eapply settled_live; [done|]. by apply Hr. Qed.

(** A deletion that meets no error leaves nothing that asks for more. *)
Lemma rg_delete wrap o (s : SyncState K) :
  (MatchesNamespace snapshot ns = true → HasAuth (Build snapshot creds None).1 = false) →
  obj_key o = (ns, name) → live (cluster s) (ns, name) ≠ None →
  beside (delete_ignoring_absence o wrap) s at_rest.
Proof.
  intros Hnone Hkey Hlive s1 (_ & _ & Hl1 & _) r s2 (k' & Hrem & ->). destruct r as [[]|e].
  - apply remove_ok in Hrem as (l & _ & _ & _ & Hf & Hgone). rewrite Hkey in Hf, Hgone.
    split; [by apply confined_write|]. apply rg_return. intros _. unfold settled.
    cbn [cluster after_write]. destruct Hgone as [->|(o' & -> & _ & Hd)]; [done|]. right. by left.
  - pose proof (remove_err _ _ _ _ _ _ Hrem) as Hsame.
    split; [apply confined_write; intros ? _; by rewrite Hsame|]. cbn [prog_bind prog_bind_def].
    case_bool_decide as He; [|by apply rg_return]. subst e. apply remove_absent in Hrem. congruence.
Qed.

(** Leaving the configuration: the managed Secret goes, nothing else is touched. *)
Lemma rg_untargeted existing (s : SyncState K) :
  MatchesNamespace snapshot ns = false → live (cluster s) (ns, name) = existing →
  beside (sync_observed name ns snapshot existing) s at_rest.
Proof.
  intros Hn Hlive. unfold sync_observed. rewrite Hn. cbn [negb].
  intros s1 (_ & _ & Hl1 & _) [] s2 ->. split; [by apply confined_same|].
  rewrite Hlive in Hl1. destruct existing as [o|].
  2: { apply rg_return. intros _. unfold settled. cbn [cluster set_conflicts]. rewrite Hl1. congruence. }
  destruct (IsManaged (Some o)) eqn:Hm; cbn [negb].
  2: { apply rg_return. intros _. unfold settled. cbn [cluster set_conflicts]. rewrite Hl1. by left. }
  apply rg_delete; [congruence|by eapply live_key|cbn [cluster set_conflicts]; congruence].
Qed.
End rules.

Section convergence.
Context `{R : RangeOrder} {K : Type} `{!ApiServer Secret K} `{!ApiServerLaws K} `{!FreshReads K}
  (namespace_read : string → K → result api_error () → Prop).
Abbreviation step := (sync_exec namespace_read).
Context (name ns : string) (snapshot : ConfigurationSnapshot) (creds : gmap RegistryKey Entry).
Hypothesis Hdist : distinct_registries (Registries snapshot).
Context (existing : option Secret).
Hypothesis Hvalid : valid_documents (build_documents snapshot creds existing).1.
Hypothesis Htarget : MatchesNamespace snapshot ns = true.

(** A live Secret with the payload of a rendered one is settled. *)
Lemma rendered_settled o l (k : K) :
  live k (ns, name) = Some l →
  payload l = payload (applyContent o (Build snapshot creds existing).1) →
  HasAuth (Build snapshot creds existing).1 = true →
  settled name ns snapshot creds k.
Proof.
  intros Hl Hp Hauth. unfold settled. rewrite Hl. right. right. split; [done|].
  pose proof (applyContent_carries snapshot creds existing o Hvalid) as Hc.
  pose proof (rebuild snapshot creds existing _ Hdist Hvalid Hc) as Hre.
  pose proof Hp as Hp'. injection Hp' as _ Hd _ Ha.
  rewrite (Build_existing snapshot creds l (applyContent o (Build snapshot creds existing).1)) by done.
  assert (Build snapshot creds (Some (applyContent o (Build snapshot creds existing).1))
    = ((Build snapshot creds existing).1, [])) as ->.
  { destruct (Build_marshals snapshot creds existing Hvalid) as (text & Htext & Heq).
    rewrite Heq in Hre |- *. cbn [fst] in *. unfold Build. rewrite Hre.
    destruct (build_documents snapshot creds existing).1 as [d s]. cbn [snd] in Htext.
    by rewrite Htext. }
  split; [done|]. split; [|done]. by rewrite (secretMatches_payload _ _ _ Hp), applied_matches.
Qed.

(** Without the existing Secret there is less to render. *)
Lemma auths_without d a :
  (build_documents snapshot creds None).1.1 !! d = Some a →
  (build_documents snapshot creds existing).1.1 !! d = Some a.
Proof.
  rewrite !build_auths by done. intros (k & r & Hk & Hc). exists k, r. split; [done|].
  unfold contribution in *. by destruct (ready creds (k, r)).
Qed.
Lemma states_without key v :
  (build_documents snapshot creds None).1.2 !! key = Some v →
  (build_documents snapshot creds existing).1.2 !! key = Some v.
Proof.
  rewrite !build_states by done. intros (k & r & Hk & Hc). exists k, r. split; [done|].
  unfold contribution in *. by destruct (ready creds (k, r)).
Qed.
Lemma valid_without : valid_documents (build_documents snapshot creds None).1.
Proof.
  split.
  - intros d a Ha%auths_without. by apply (proj1 Hvalid).
  - intros key v Hv%states_without. by apply (proj2 Hvalid).
Qed.

Lemma no_auth_without :
  HasAuth (Build snapshot creds existing).1 = false → HasAuth (Build snapshot creds None).1 = false.
Proof.
  destruct (Build_marshals snapshot creds existing Hvalid) as (t1 & _ & ->).
  destruct (Build_marshals snapshot creds None valid_without) as (t2 & _ & ->).
  cbn [fst HasAuth hasAuth]. rewrite !negb_false_iff, !bool_decide_eq_true.
  intros Hempty. apply map_empty. intros d. apply eq_None_not_Some. intros [a Ha].
  apply auths_without in Ha. by rewrite Hempty in Ha.
Qed.

Abbreviation beside := (rg step (quiet namespace_read name ns) (confined name ns)).
Abbreviation resting := (at_rest name ns snapshot creds).

Lemma build_result_ok problems : build_result problems = Ok tt → problems = [].
Proof. by destruct problems. Qed.

(** The write of rendered content, whichever call makes it. *)
Lemma rg_write (e : syncE (result api_error ())) wrap problems content base o w (s : SyncState K) :
  content = (Build snapshot creds existing).1 → HasAuth content = true →
  obj_key o = (ns, name) → payload o = payload (applyContent base content) →
  (∀ s r s', step _ e s r s' → ∃ k', s' = after_write s k' r (w s) ∧
     (create o (cluster s) r k' ∨ update o (cluster s) r k')) →
  beside (try (call e) (λ e, mret (Err (wrap e))) (λ _, mret (build_result problems))) s resting.
Proof.
  intros -> Hauth Hkey Hpay He s1 _ r s2 (k' & -> & Hw)%He. destruct r as [[]|err].
  - assert (frame (ns, name) (cluster s1) k' ∧
      ∃ o', live k' (ns, name) = Some o' ∧ payload o' = payload o) as (Hf & o' & Ho' & Hp).
    { rewrite <-Hkey. destruct Hw as [(_ & ? & o' & ? & ? & _)%create_ok|
        (_ & _ & _ & _ & ? & o' & ? & ? & _)%update_ok]; eauto. }
    split; [by apply confined_write|]. apply rg_return. intros _.
    eapply rendered_settled; [done|by rewrite Hp, Hpay|done].
  - assert (live k' = live (cluster s1)) as Hsame
      by (destruct Hw; [by eapply create_err|by eapply update_err]).
    split; [apply confined_write; intros ? _; by rewrite Hsame|]. by apply rg_return.
Qed.

Lemma rg_converge_settles ex (s : SyncState K) :
  ex = existing → CredentialStore.current (ss_credentials s) = creds →
  live (cluster s) (ns, name) = existing →
  beside (converge name ns snapshot ex) s resting.
Proof.
  intros Hex Hcreds Hlive. unfold converge. cbn [mbind prog_bind prog_bind_def call rg].
  intros s1 (_ & Hc1 & Hl1 & _) cs s2 [-> ->]. split; [by apply confined_same|].
  rewrite CredentialStore.Snapshot_id, Hc1, Hcreds. rewrite Hlive in Hl1.
  rewrite Hex at 1. destruct (Build snapshot creds existing) as [content problems] eqn:Hb.
  assert (content = (Build snapshot creds existing).1) as Hcontent by by rewrite Hb.
  destruct (HasAuth content) eqn:Hauth.
  - destruct ex as [o|]; rewrite <-Hex in Hl1.
    + assert (obj_key o = (ns, name)) as Hkey by by eapply live_key.
      destruct (secretMatches o content) eqn:Hm.
      { apply rg_return. intros Hr%build_result_ok. unfold settled. rewrite Hl1. right. right. by rewrite Hex, Hb. }
      eapply (rg_write _ _ _ content o (applyContent o content)); [done..|].
      intros s3 r s4 (k' & Hu & ->). eauto.
    + eapply (rg_write _ _ _ content _ (newSecret ns name content)); [done..|].
      intros s3 r s4 (k' & Hc & ->). eauto.
  - destruct problems as [|e problems]; [|by apply rg_return].
    rewrite Hcontent in Hauth. pose proof (no_auth_without Hauth) as Hnone.
    destruct ex as [o|]; rewrite <-Hex in Hl1.
    + apply rg_delete; [done|by eapply live_key|congruence].
    + apply rg_return. intros _. unfold settled. by rewrite Hl1.
Qed.

Lemma rg_target_settles (s : SyncState K) :
  CredentialStore.current (ss_credentials s) = creds → live (cluster s) (ns, name) = existing →
  beside (sync_observed name ns snapshot existing) s resting.
Proof.
  intros Hcreds Hlive. unfold sync_observed. rewrite Htarget. cbn [negb].
  assert (∀ ex, ex = existing → beside (_ ← call (ClearConflict ns); converge name ns snapshot ex) s resting)
    as Hconv.
  { intros ex Hex. cbn [mbind prog_bind prog_bind_def call rg]. intros s1 (_ & Hc1 & Hl1 & _) [] s2 ->.
    split; [by apply confined_same|]. apply rg_converge_settles; cbn [ss_credentials cluster set_conflicts]; congruence. }
  remember existing as ex eqn:Hex. destruct ex as [o|]; [|by apply Hconv].
  destruct (IsManaged (Some o)) eqn:Hm; cbn [negb]; [by apply Hconv|].
  assert (∀ s' : SyncState K, live (cluster s') (ns, name) = Some o → settled name ns snapshot creds (cluster s')) as Hset.
  { intros s' Hs'. unfold settled. rewrite Hs'. by left. }
  unfold report_conflict. cbn [mbind prog_bind prog_bind_def call rg].
  intros s1 (_ & _ & Hl1 & _) previous s2 [_ ->]. split; [by apply confined_same|].
  case_bool_decide; [apply rg_return; intros _; apply Hset; cbn; congruence|].
  intros s3 (_ & _ & Hl3 & _) [] s4 ->. split; [by apply confined_same|].
  apply rg_return. intros _. apply Hset. cbn in *. congruence.
Qed.
End convergence.

Section handler.
Context `{R : RangeOrder} {K : Type} `{!ApiServer Secret K} `{!ApiServerLaws K} `{!FreshReads K}
  (namespace_read : string → K → result api_error () → Prop).
Abbreviation step := (sync_exec namespace_read).

(** Nothing is written. *)
Definition silent (s s' : SyncState K) : Prop :=
  ss_config s' = ss_config s ∧ ss_credentials s' = ss_credentials s ∧
  cluster s' = cluster s ∧ ss_writes s' = ss_writes s.

Lemma rg_report_silent name ns o (s : SyncState K) :
  rg step (quiet namespace_read name ns) silent (report_conflict ns o) s (λ r _, r = Ok tt).
Proof.
  unfold report_conflict. cbn [mbind prog_bind prog_bind_def call rg].
  intros s1 _ previous s2 [_ ->]. split; [done|]. case_bool_decide; [done|].
  intros s3 _ [] s4 ->. done.
Qed.

(** Where nothing is left to do, nothing is written. *)
Lemma rg_settled name ns snapshot creds existing (s : SyncState K) :
  valid_documents (build_documents snapshot creds None).1 →
  settled name ns snapshot creds (cluster s) → CredentialStore.current (ss_credentials s) = creds →
  live (cluster s) (ns, name) = existing → (∀ o, existing = Some o → deleting o = false) →
  rg step (quiet namespace_read name ns) silent (sync_observed name ns snapshot existing) s (λ r _, r = Ok tt).
Proof.
  intros Hvalid Hset Hcreds Hlive Hdel. unfold settled in Hset. rewrite Hlive in Hset. clear Hlive.
  unfold sync_observed. destruct (MatchesNamespace snapshot ns) eqn:Hn; cbn [negb].
  - destruct existing as [o|]; [destruct (IsManaged (Some o)) eqn:Hm; cbn [negb]; [|apply rg_report_silent]|].
    all: unfold converge; cbn [mbind prog_bind prog_bind_def call rg];
      intros s1 (_ & Hc1 & _) [] s2 Hs2; cbn in Hs2; subst s2; (split; [done|]);
      intros s3 (_ & Hc3 & _) cs s4 [-> ->]; (split; [done|]);
      rewrite CredentialStore.Snapshot_id, Hc3; cbn [ss_credentials set_conflicts]; rewrite Hc1, Hcreds.
    + destruct Hset as [|[Hd|[_ Hb]]]; [congruence|by rewrite (Hdel o eq_refl) in Hd|].
      destruct (Build snapshot creds (Some o)) as [content problems]. by destruct Hb as (-> & -> & ->).
    + pose proof (Build_none_problems snapshot creds Hvalid) as Hp. specialize (Hset eq_refl).
      destruct (Build snapshot creds None) as [content problems]. cbn [fst snd] in *. by rewrite Hset, Hp.
  - cbn [mbind prog_bind prog_bind_def call rg]. intros s1 _ [] s2 ->. split; [done|].
    destruct existing as [o|]; [|done].
    destruct Hset as [->|[Hd|[? _]]]; [done| |done]. by rewrite (Hdel o eq_refl) in Hd.
Qed.

(** The prefix of the handler, up to the read of the Secret, for any rely that
    keeps the namespace quiet. *)
Lemma rg_prefix (Rely Guar : SyncState K → SyncState K → Prop) name ns snapshot (s : SyncState K) Φ :
  (∀ a b, Rely a b → quiet namespace_read name ns a b) → (∀ a b c, Rely a b → Rely b c → Rely a c) →
  (∀ a c, Guar a (set_conflicts a c)) → (∀ a, Guar a a) →
  ConfigStore.current (ss_config s) = Some snapshot →
  (∀ s' ex, Rely s s' → live (cluster s') (ns, name) = ex →
     rg step Rely Guar (sync_observed name ns snapshot ex) s' Φ) →
  (∀ s' e, Rely s s' → e ≠ NotFound → Φ (Err (GetNamespaceFailed e)) s' ∧ Φ (Err (GetSecretFailed e)) s') →
  (namespace_read ns (cluster s) (Err NotFound) → ∀ s1 s2, Rely s s1 →
     Rely (set_conflicts s1 (clearConflict (conflicts s1) ns)) s2 → Φ (Ok tt) s2) →
  rg step Rely Guar (SyncNamespaceSecret name ns) s Φ.
Proof.
  intros Hq Htr Hgc Hg Hcfg Hobs Herr Hns. unfold SyncNamespaceSecret, try.
  cbn [mbind prog_bind prog_bind_def call rg].
  intros s1 H1 cfg s' [-> ->]. split; [done|].
  rewrite ConfigStore.Load_eq, (proj1 (Hq _ _ H1)), Hcfg. cbn [negb].
  intros s2 H2 r s' [Hr ->]. split; [done|]. pose proof (Htr _ _ _ H1 H2) as H02.
  destruct r as [[]|e].
  - intros s3 H3 r s' [Hread ->]. split; [done|]. pose proof (Htr _ _ _ H02 H3) as H03.
    apply read_fresh in Hread. destruct r as [o|[| |m]]; [by apply Hobs|by apply Hobs|..];
      intros s4 H4; by apply Herr; [eapply Htr|].
  - case_bool_decide as He.
    + subst e. intros s3 H3 [] s' ->. split; [apply Hgc|]. intros s4 H4.
      refine (Hns _ s3 s4 (Htr _ _ _ H02 H3) H4). by apply (Hq _ _ H02).
    + intros s3 H3. apply Herr; [by eapply Htr|done].
Qed.

(** The whole handler settles its namespace, or reports an error. *)
Lemma rg_sync_settles name ns snapshot creds (s : SyncState K) :
  ConfigStore.current (ss_config s) = Some snapshot →
  CredentialStore.current (ss_credentials s) = creds →
  distinct_registries (Registries snapshot) → presentable snapshot creds →
  rg step (quiet namespace_read name ns) (confined name ns) (SyncNamespaceSecret name ns) s (λ r s',
    r = Ok tt → namespace_read ns (cluster s) (Err NotFound) ∨ settled name ns snapshot creds (cluster s')).
Proof.
  intros Hcfg Hcreds Hdist Hvalid.
  apply (rg_prefix _ _ name ns snapshot); [done|apply quiet_trans|done|done|done|..].
  - intros s' ex (_ & Hc & Hl & _) Hex. subst ex. rewrite Hl.
    eapply rg_mono; [intros a s'' Ha Hr; right; exact (Ha Hr)|].
    destruct (MatchesNamespace snapshot ns) eqn:Hn.
    + apply rg_target_settles; [done|by apply presentable_documents|done|congruence|done].
    + by apply rg_untargeted.
  - intros s' e _ _. by split; intros ?.
  - intros Hns s1 s2 _ _ _. by left.
Qed.

(** And a settled namespace is left as it is. *)
Lemma rg_sync_idle name ns snapshot creds (s : SyncState K) :
  ConfigStore.current (ss_config s) = Some snapshot →
  CredentialStore.current (ss_credentials s) = creds →
  distinct_registries (Registries snapshot) → presentable snapshot creds →
  settled name ns snapshot creds (cluster s) →
  (∀ o, live (cluster s) (ns, name) = Some o → deleting o = false) →
  rg step (quiet namespace_read name ns) silent (SyncNamespaceSecret name ns) s (λ r _,
    r = Ok tt ∨ ∃ e, e ≠ NotFound ∧ (r = Err (GetNamespaceFailed e) ∨ r = Err (GetSecretFailed e))).
Proof.
  intros Hcfg Hcreds Hdist Hvalid%(presentable_documents _ _ None Hdist) Hset Hdel.
  apply (rg_prefix _ _ name ns snapshot); [done|apply quiet_trans|done|done|done|..].
  - intros s' ex (_ & Hc & Hl & _) Hex.
    eapply (rg_mono _ _ _ _ _ (λ r _, r = Ok tt)); [intros r s'' Hr; by left|].
    apply (rg_settled _ _ snapshot creds); [done| | |done|].
    + by eapply settled_live.
    + congruence.
    + intros o ->. apply Hdel. congruence.
  - intros s' e _ He. split; right; eauto.
  - intros _ s1 s2 _ _. by left.
Qed.
End handler.

Lemma wp_sync_safe `{R : RangeOrder} {K : Type} `{!ApiServer Secret K}
    `{!ApiServerLaws K} (namespace_read : string → K → result api_error () → Prop) name ns s :
  wp (interleaved namespace_read) (SyncNamespaceSecret name ns) s
    (λ _ s', safe_writes ns name s s').
Proof.
  unfold SyncNamespaceSecret, try. cbn [mbind prog_bind prog_bind_def call wp].
  intros [snapshot loaded] s' (s1 & [Hrtc1 Hw1] & _ & ->).
  destruct loaded; cbn [negb]; [|by apply safe_none].
  intros r s' (s2 & [Hrtc2 Hw2] & _ & ->). destruct r as [[]|e].
  - cbn [mbind prog_bind prog_bind_def call wp]. intros r s' (s3 & [Hrtc3 Hw3] & Hread & ->).
    assert (ss_writes s3 = ss_writes s) as Hw by congruence.
    destruct r as [o|[| |m]]; try (cbn; by apply safe_none).
    + apply read_seen in Hread as [Hseen Hkey]. apply wp_observed; [|done]. by intros ? [= <-].
    + by apply wp_observed.
  - case_bool_decide; [|cbn; apply safe_none; congruence].
    cbn. intros _ s' (s3 & [_ Hw3] & ->). apply safe_none. cbn. congruence.
Qed.

(** ** Properties *)

(** C4.  Whatever other goroutines and other clients do between its calls, and
    however stale the cache it reads from, a sync of a namespace writes at most
    once, only to the fixed name in that namespace, and never to a Secret the
    controller does not own: it creates where there was none, or replaces or
    deletes a live Secret that carries the controller's labels, and what it
    writes is the rendered content over the labels and annotations it found. *)
Theorem sync_never_touches_foreign `{R : RangeOrder} {K : Type} `{!ApiServer Secret K}
    `{!ApiServerLaws K} (namespace_read : string → K → result api_error () → Prop) name ns s :
  wp (interleaved namespace_read) (SyncNamespaceSecret name ns) s
    (λ _ s', safe_writes ns name s s').
Proof. apply wp_sync_safe. Qed.

(** C2.  A sync that returns no error settles its namespace, once its cache has
    caught up and whatever happens meanwhile to other objects: unless the
    namespace itself is gone, the live Secret then is not the controller's, or is
    being deleted, or is exactly what [Build] renders for it; a namespace that
    left the configuration keeps no managed Secret; and no call of the sync
    changes any other object. *)
Theorem sync_settles `{R : RangeOrder} {K : Type} `{!ApiServer Secret K} `{!ApiServerLaws K}
    `{!FreshReads K} (namespace_read : string → K → result api_error () → Prop) name ns s snapshot creds :
  ConfigStore.current (ss_config s) = Some snapshot →
  CredentialStore.current (ss_credentials s) = creds →
  distinct_registries (Registries snapshot) → presentable snapshot creds →
  rg (sync_exec namespace_read) (quiet namespace_read name ns) (confined name ns)
    (SyncNamespaceSecret name ns) s (λ r s',
    r = Ok tt → namespace_read ns (cluster s) (Err NotFound) ∨
      settled name ns snapshot creds (cluster s')).
Proof. apply rg_sync_settles. Qed.

(** Syncing a settled namespace again makes no write and returns no error of
    its own: reconciliation reaches a fixed point. *)
Theorem sync_idle `{R : RangeOrder} {K : Type} `{!ApiServer Secret K} `{!ApiServerLaws K}
    `{!FreshReads K} (namespace_read : string → K → result api_error () → Prop) name ns s snapshot creds :
  ConfigStore.current (ss_config s) = Some snapshot →
  CredentialStore.current (ss_credentials s) = creds →
  distinct_registries (Registries snapshot) → presentable snapshot creds →
  settled name ns snapshot creds (cluster s) →
  (∀ o, live (cluster s) (ns, name) = Some o → deleting o = false) →
  rg (sync_exec namespace_read) (quiet namespace_read name ns) silent
    (SyncNamespaceSecret name ns) s (λ r _,
    r = Ok tt ∨ ∃ e, e ≠ NotFound ∧ (r = Err (GetNamespaceFailed e) ∨ r = Err (GetSecretFailed e))).
Proof. apply rg_sync_idle. Qed.

(** A Secret of the fixed name that the controller does not own is left
    alone, and reported once per object: an event is recorded exactly when the
    UID differs from the one last reported for the namespace. *)
Theorem conflict_reported_once `{R : RangeOrder} {K : Type} `{!ApiServer Secret K}
    `{!ApiServerLaws K} `{!FreshReads K}
    (namespace_read : string → K → result api_error () → Prop) name ns s snapshot secret :
  ConfigStore.current (ss_config s) = Some snapshot → MatchesNamespace snapshot ns = true →
  live (cluster s) (ns, name) = Some secret → IsManaged (Some secret) = false →
  wp (sync_exec namespace_read) (SyncNamespaceSecret name ns) s (λ r s',
    cluster s' = cluster s ∧
    (r = Ok tt → ¬ namespace_read ns (cluster s) (Err NotFound) →
       conflicts s' !! ns = Some (UID secret) ∧
       conflict_events s' = conflict_events s ++
         (if bool_decide (conflicts s !! ns = Some (UID secret)) then [] else [secret]))).
Proof.
  intros Hcfg Hn Hlive Hm. apply (rg_wp _ eq (λ _ _, True)); [done|].
  apply (rg_prefix _ _ _ name ns snapshot); [by intros a b ->|by intros a b c -> ->|done|done|done|..].
  - intros s' ex <-. rewrite Hlive. intros <-. unfold sync_observed, report_conflict. rewrite Hn, Hm.
    cbn [negb mbind prog_bind prog_bind_def call rg]. intros s1 <- previous s' [-> ->]. split; [done|].
    case_bool_decide; cbn.
    + intros s1 <-. split; [done|]. intros _ _. split; [apply lookup_insert_eq|]. by rewrite app_nil_r.
    + intros s1 <- _ s' ->. split; [done|]. intros s2 <-. split; [done|]. intros _ _.
      split; [apply lookup_insert_eq|done].
  - intros s' e <- _. split; (split; [done|]); intros ?; discriminate.
  - intros Hns s1 s2 <- <-. by split.
Qed.

(** ** A concrete cluster *)
Module SyncerExample.
Import RegistrySecretExample.
#[local] Existing Instance range_forward.

Definition set_version (s : Secret) (v : string) : Secret :=
  MkSecret (sec_Namespace s) (sec_Name s) (UID s) v (DeletionTimestamp s) (sec_Type s) (Data s)
    (Labels s) (Annotations s).
Abbreviation cluster_state := (list (History.entry (O := Secret))).
#[local] Instance server : ApiServer Secret cluster_state := History.server set_version.
#[local] Instance server_laws : ApiServerLaws cluster_state :=
  History.server_laws set_version (λ _ _, eq_refl) (λ _ _, eq_refl) (λ _ _, eq_refl) (λ _ _, eq_refl).
#[local] Instance server_fresh : FreshReads cluster_state := History.server_fresh set_version.
Definition namespace_present (ns : string) (k : cluster_state) (r : result api_error ()) : Prop :=
  r = Ok tt.

(** The calls answered one after the other. *)
Definition answer (X : Type) (e : syncE X) : SyncState cluster_state → X * SyncState cluster_state :=
  match e in syncE X return SyncState cluster_state → X * SyncState cluster_state with
  | LoadConfiguration => λ s, (ConfigStore.Load (ss_config s), s)
  | GetNamespace _ => λ s, (Ok tt, s)
  | GetSecret ns name => λ s, (History.do_read set_version (ns, name) (cluster s), s)
  | SnapshotCredentials => λ s, (CredentialStore.Snapshot (ss_credentials s), s)
  | ClearConflict ns => λ s, (tt, set_conflicts s (clearConflict (conflicts s) ns))
  | SwapConflict ns uid => λ s,
      let '(previous, c) := swapConflict (conflicts s) ns uid in (previous, set_conflicts s c)
  | EmitConflict secret => λ s, (tt, add_conflict_event s secret)
  | CreateSecret secret => λ s,
      let '(r, k) := History.do_create set_version secret (cluster s) in
      (r, after_write s k r (Created secret))
  | UpdateSecret secret => λ s,
      let '(r, k) := History.do_update set_version secret (cluster s) in
      (r, after_write s k r (Updated (live (cluster s) (obj_key secret)) secret))
  | DeleteSecret secret uid rv => λ s,
      let '(r, k) := History.do_remove set_version secret uid rv (cluster s) in
      (r, after_write s k r (Deleted (live (cluster s) (obj_key secret))))
  end.
Abbreviation run p s := (interp answer p s).

Definition foreign : Secret :=
  MkSecret "team-b" "acr" "uid-b" "" None "Opaque" ∅ ∅ ∅.
Definition k0 : cluster_state := [History.Put foreign; History.Put existing].
Definition state (ex : gmap RegistryKey Entry) : SyncState cluster_state :=
  MkSyncState (ConfigStore.MkStore (Some snapshot) true) (CredentialStore.MkStore ex 2) ∅ [] k0 [].
Definition s0 := state creds.
Definition sync : prog syncE (result sync_error ()) := SyncNamespaceSecret "acr" "team-a".
Definition s1 := (run sync s0).2.

Lemma sync_never_touches_foreign_witness :
  wp (interleaved namespace_present) sync s0 (λ _ s', safe_writes "team-a" "acr" s0 s').
Proof. exact (sync_never_touches_foreign namespace_present "acr" "team-a" s0). Defined.

Lemma s0_config : ConfigStore.current (ss_config s0) = Some snapshot.
Proof. reflexivity. Qed.

(** The sync of the example updates the live Secret. *)
Lemma s1_ok : (run sync s0).1 = Ok tt ∧ length (ss_writes s1) = 1.
Proof. split; apply (bool_decide_unpack _); vm_compute; exact I. Qed.

Lemma sync_settles_witness :
  rg (sync_exec namespace_present) (quiet namespace_present "acr" "team-a") (confined "acr" "team-a") sync s0 (λ r s',
    r = Ok tt → namespace_present "team-a" (cluster s0) (Err NotFound) ∨
      settled "acr" "team-a" snapshot creds (cluster s')).
Proof.
  exact (sync_settles namespace_present "acr" "team-a" s0 snapshot creds s0_config eq_refl
    distinct valid).
Defined.

Lemma s1_settled : settled "acr" "team-a" snapshot creds (cluster s1).
Proof.
  unfold settled. destruct (live (cluster s1) ("team-a", "acr")) as [l|] eqn:Hl.
  - right. right. split; [reflexivity|]. revert Hl.
    assert (∀ o : option Secret, match o with
      | Some l => HasAuth (Build snapshot creds (Some l)).1 && secretMatches l (Build snapshot creds (Some l)).1
                  && bool_decide (length (Build snapshot creds (Some l)).2 = 0)
      | None => true end = true → o = Some l →
      let '(content, problems) := Build snapshot creds (Some l) in
      HasAuth content = true ∧ secretMatches l content = true ∧ problems = []) as Hb.
    { intros o Ho ->. destruct (Build snapshot creds (Some l)) as [c ps]. cbn [fst snd] in Ho.
      apply andb_true_iff in Ho as [[-> ->]%andb_true_iff Hp%bool_decide_eq_true]. by destruct ps. }
    apply Hb. vm_compute. reflexivity.
  - exfalso. revert Hl. apply (bool_decide_unpack _). vm_compute. exact I.
Qed.

Lemma sync_idle_witness :
  (∃ o, live (cluster s1) ("team-a", "acr") = Some o) ∧
  rg (sync_exec namespace_present) (quiet namespace_present "acr" "team-a") silent sync s1 (λ r _,
    r = Ok tt ∨ ∃ e, e ≠ NotFound ∧ (r = Err (GetNamespaceFailed e) ∨ r = Err (GetSecretFailed e))).
Proof.
  split; [change (is_Some (live (cluster s1) ("team-a", "acr"))); apply (bool_decide_unpack _); vm_compute; exact I|].
  refine (sync_idle namespace_present "acr" "team-a" s1 snapshot creds eq_refl eq_refl distinct valid s1_settled _).
  intros o Ho. assert (∀ m : option Secret, bool_decide (m ≠ None ∧ (deleting <$> m) = Some false) = true → m = Some o → deleting o = false) as Hd.
  { intros m [_ Hm]%bool_decide_eq_true ->. by injection Hm. }
  refine (Hd _ _ Ho). vm_compute. reflexivity.
Defined.

Lemma conflict_reported_once_witness :
  wp (sync_exec namespace_present) (SyncNamespaceSecret "acr" "team-b") s0 (λ r s',
    cluster s' = cluster s0 ∧
    (r = Ok tt → ¬ namespace_present "team-b" (cluster s0) (Err NotFound) →
       conflicts s' !! "team-b" = Some "uid-b" ∧
       conflict_events s' = conflict_events s0 ++ [set_version foreign "1"])).
Proof.
  exact (conflict_reported_once namespace_present "acr" "team-b" s0 snapshot (set_version foreign "1")
    eq_refl eq_refl eq_refl eq_refl).
Defined.
End SyncerExample.
