(* ===== verification/ServiceAccount.v ===== *)
(** * The imagePullSecrets of a ServiceAccount (internal/serviceaccount/syncer.go)

    A [corev1.LocalObjectReference] is its name.  The patch is a merge patch of
    [imagePullSecrets] that carries the resource version it was computed from,
    so the server applies it to that version or refuses it. *)
From S2P Require Import Prelude Prog GoStrings ConfigTypes ConfigStore RegistrySecret Kube SecretSyncer.

(** The fields of [corev1.ServiceAccount] the controller reads or writes. *)
Record ServiceAccount := MkServiceAccount {
  sa_Namespace : string;
  sa_Name : string;
  sa_UID : string;
  sa_ResourceVersion : string;
  sa_deleting : bool;
  ImagePullSecrets : list string
}.
#[export] Instance ServiceAccount_eq_dec : EqDecision ServiceAccount.
Proof. solve_decision. Defined.
#[export] Instance ServiceAccount_object : KubeObject ServiceAccount := {|
  obj_key s := (sa_Namespace s, sa_Name s);
  obj_UID := sa_UID;
  obj_RV := sa_ResourceVersion;
  payload := ImagePullSecrets;
  deleting := sa_deleting
|}.
Definition with_ImagePullSecrets (s : ServiceAccount) (refs : list string) : ServiceAccount :=
  MkServiceAccount (sa_Namespace s) (sa_Name s) (sa_UID s) (sa_ResourceVersion s) (sa_deleting s) refs.

Record ServiceAccountSyncer (client : Type) := MkServiceAccountSyncer {
  sas_client : client;
  sas_configStore : ConfigStore.Store;
  sas_secretName : string
}.
Arguments MkServiceAccountSyncer {client}.

Definition NewServiceAccountSyncer {client : Type} (kubernetesClient : option client)
    (configStore : option ConfigStore.Store) (secretName : string) :
    result string (ServiceAccountSyncer client) :=
  match kubernetesClient with
  | None => Err "Kubernetes client must not be nil"
  | Some kubernetesClient =>
  match configStore with
  | None => Err "config store must not be nil"
  | Some configStore =>
    if bool_decide (secretName = "") then Err "managed Secret name must not be empty"
    else Ok (MkServiceAccountSyncer kubernetesClient configStore secretName)
  end end.

(** ** The references *)
Definition reconcile_step (managedName : string) (shouldReference : bool)
    (st : list string * bool) (reference : string) : list string * bool :=
  let '(result, managedAdded) := st in
  if negb (bool_decide (reference = managedName)) then (result ++ [reference], managedAdded)
  else if shouldReference && negb managedAdded then (result ++ [managedName], true)
  else (result, managedAdded).

Definition reconcileReferences (current : list string) (managedName : string)
    (shouldReference : bool) : list string :=
  let '(result, managedAdded) :=
    foldl (reconcile_step managedName shouldReference) ([], false) current in
  if shouldReference && negb managedAdded then result ++ [managedName] else result.

Fixpoint equal_from (left_refs right_refs : list string) : bool :=
  match left_refs, right_refs with
  | l :: left_refs, r :: right_refs =>
    if negb (bool_decide (l = r)) then false else equal_from left_refs right_refs
  | _, _ => true
  end.
Definition equalReferences (left_refs right_refs : list string) : bool :=
  if negb (length left_refs =? length right_refs)%nat then false
  else equal_from left_refs right_refs.

(** ** The sync of one ServiceAccount *)
Inductive sa_error :=
| GetServiceAccountFailed (e : api_error)
| GetManagedSecretFailed (e : api_error)
| ManagedSecretMissing
| ManagedSecretUnusable
| PatchFailed (e : api_error).

(** [errors.Is(err, ErrManagedSecretNotReady)], and [errors.Is(err, context.Canceled)] *)
Definition is_not_ready (e : sa_error) : bool :=
  match e with ManagedSecretMissing | ManagedSecretUnusable => true | _ => false end.
Definition sa_error_canceled (e : sa_error) : bool :=
  match e with
  | GetServiceAccountFailed e | GetManagedSecretFailed e | PatchFailed e => is_canceled e
  | _ => false
  end.

Inductive saE : Type → Type :=
| LoadSAConfiguration : saE (ConfigurationSnapshot * bool)
| GetServiceAccount (namespace name : string) : saE (result api_error ServiceAccount)
| GetManagedSecret (namespace name : string) : saE (result api_error Secret)
| PatchServiceAccount (base : ServiceAccount) (refs : list string) : saE (result api_error ()).

(** The second half: compare and patch. *)
Definition apply_references (secretName : string) (serviceAccount : ServiceAccount)
    (shouldReference : bool) : prog saE (result sa_error ()) :=
  let desiredReferences :=
    reconcileReferences (ImagePullSecrets serviceAccount) secretName shouldReference in
  if equalReferences (ImagePullSecrets serviceAccount) desiredReferences then mret (Ok tt)
  else
    try (call (PatchServiceAccount serviceAccount desiredReferences))
      (λ e, mret (Err (PatchFailed e))) (λ _, mret (Ok tt)).

Definition sync_account (secretName namespace name : string) (snapshot : ConfigurationSnapshot)
    (serviceAccount : ServiceAccount) : prog saE (result sa_error ()) :=
  if MatchesNamespace snapshot namespace && Matches (ServiceAccounts snapshot) name then
    try (call (GetManagedSecret namespace secretName))
      (λ e, if bool_decide (e = NotFound) then mret (Err ManagedSecretMissing)
            else mret (Err (GetManagedSecretFailed e)))
      (λ secret,
        if negb (IsManaged (Some secret)) then apply_references secretName serviceAccount false
        else if negb (IsUsableForServiceAccount (Some secret)) then mret (Err ManagedSecretUnusable)
        else apply_references secretName serviceAccount true)
  else apply_references secretName serviceAccount false.

Definition SyncServiceAccount (secretName namespace name : string) :
    prog saE (result sa_error ()) :=
  '(snapshot, loaded) ← call LoadSAConfiguration;
  if negb loaded then mret (Ok tt) else
  try (call (GetServiceAccount namespace name))
    (λ e, if bool_decide (e = NotFound) then mret (Ok tt) else mret (Err (GetServiceAccountFailed e)))
    (λ serviceAccount, sync_account secretName namespace name snapshot serviceAccount).

(** ** The meaning of the calls *)
Record SAState (K : Type) := MkSAState {
  sa_config : ConfigStore.Store;
  sa_cluster : K;
  (** the patches applied: the live references met, and those sent *)
  sa_patches : list (option (list string) * list string)
}.
Arguments MkSAState {K}. Arguments sa_config {K}. Arguments sa_cluster {K}. Arguments sa_patches {K}.

Section exec.
Context {K : Type} `{!ApiServer Secret K} `{!ApiServer ServiceAccount K}.

Definition sa_exec (X : Type) (e : saE X) : SAState K → X → SAState K → Prop :=
  match e in saE X return SAState K → X → SAState K → Prop with
  | LoadSAConfiguration => λ s x s', x = ConfigStore.Load (sa_config s) ∧ s' = s
  | GetServiceAccount ns name => λ s x s',
      read (O := ServiceAccount) (ns, name) (sa_cluster s) x ∧ s' = s
  | GetManagedSecret ns name => λ s x s', read (O := Secret) (ns, name) (sa_cluster s) x ∧ s' = s
  | PatchServiceAccount base refs => λ s r s', ∃ k',
      update (with_ImagePullSecrets base refs) (sa_cluster s) r k' ∧
      s' = MkSAState (sa_config s) k' (sa_patches s ++
        if is_ok r then
          [(ImagePullSecrets <$> live (O := ServiceAccount) (sa_cluster s) (obj_key base), refs)]
        else [])
  end.

Definition sa_interference (s s' : SAState K) : Prop :=
  rtc (others (O := ServiceAccount)) (sa_cluster s) (sa_cluster s') ∧ sa_patches s' = sa_patches s.
Definition sa_interleaved (X : Type) (e : saE X) (s : SAState K) (x : X) (s' : SAState K) : Prop :=
  ∃ s1, sa_interference s s1 ∧ sa_exec X e s1 x s'.
End exec.
