(* ===== verification/ServiceAccountCorrect.v ===== *)
(** * Correctness of the ServiceAccount syncer

    The controller's reference appears once or not at all, every other reference
    keeps its place, and no account is touched while its Secret is not ready. *)
From S2P Require Import Prelude Prog GoStrings ConfigTypes ConfigStore RegistrySecret Kube.
From S2P Require Import SecretCodec SecretSyncer ServiceAccount.

(** ** References *)
Definition others_of (name : string) (refs : list string) : list string := filter (.≠ name) refs.
Definition count_of (name : string) (refs : list string) : nat := length (filter (.= name) refs).

(** The loop: everything but the managed name is copied, and the first managed
    name is kept when it is wanted. *)
Fixpoint keep_first (name : string) (wanted : bool) (refs : list string) : list string :=
  match refs with
  | [] => []
  | r :: refs =>
    if decide (r = name) then
      if wanted then name :: others_of name refs else others_of name refs
    else r :: keep_first name wanted refs
  end.

Lemma keep_first_unwanted name refs : keep_first name false refs = others_of name refs.
Proof.
  unfold others_of. induction refs as [|r refs IH]; [done|]. cbn [keep_first].
  rewrite filter_cons. case_decide as Hr; [subst; by rewrite decide_False by (intros []; done)|].
  rewrite decide_True by done. by f_equal.
Qed.

Lemma reconcile_loop name should refs result added :
  foldl (reconcile_step name should) (result, added) refs
  = (result ++ keep_first name (should && negb added) refs,
     added || (should && bool_decide (name ∈ refs))).
Proof.
  revert result added. induction refs as [|r refs IH]; intros result added; cbn [foldl].
  { by rewrite app_nil_r, andb_false_r, orb_false_r. }
  unfold reconcile_step at 2. destruct (decide (r = name)) as [->|Hr].
  - rewrite bool_decide_true by done. cbn [negb keep_first]. rewrite decide_True by done.
    rewrite (bool_decide_true (name ∈ name :: refs)) by left.
    destruct should, added; cbn [negb andb orb]; rewrite IH; cbn [negb andb orb];
      rewrite keep_first_unwanted; f_equal. by rewrite <-(assoc_L (++)).
  - rewrite bool_decide_false by done. cbn [negb keep_first]. rewrite decide_False by done.
    rewrite IH, <-(assoc_L (++)). f_equal. do 2 f_equal. apply bool_decide_ext.
    rewrite elem_of_cons. split; [by right|]. by intros [->|].
Qed.

Lemma reconcileReferences_eq refs name should :
  reconcileReferences refs name should =
  keep_first name should refs ++ if should && negb (bool_decide (name ∈ refs)) then [name] else [].
Proof.
  unfold reconcileReferences. rewrite reconcile_loop. cbn [negb orb app andb].
  destruct should; cbn [andb negb]; [|by rewrite app_nil_r].
  by case_bool_decide; cbn [negb]; rewrite ?app_nil_r.
Qed.

Lemma others_of_idem name refs : others_of name (others_of name refs) = others_of name refs.
Proof.
  unfold others_of. by apply list_filter_filter_r.
Qed.
Lemma count_others name refs : count_of name (others_of name refs) = 0.
Proof.
  unfold count_of, others_of. induction refs as [|r refs IH]; [done|]. rewrite filter_cons.
  case_decide; [|done]. by rewrite filter_cons, decide_False.
Qed.
Lemma keep_first_id name refs : others_of name refs = refs → keep_first name true refs = refs.
Proof.
  induction refs as [|r refs IH]; [done|]. unfold others_of. rewrite filter_cons. intros Hf.
  case_decide as Hr.
  - cbn. rewrite decide_False by done. f_equal. apply IH. by injection Hf.
  - exfalso. pose proof (length_filter (.≠ name) refs) as Hl. rewrite Hf in Hl. simpl in Hl. lia.
Qed.

Lemma others_keep_first name should refs :
  others_of name (keep_first name should refs) = others_of name refs.
Proof.
  destruct should; [|rewrite keep_first_unwanted; apply others_of_idem].
  induction refs as [|r refs IH]; [done|]. cbn [keep_first]. unfold others_of in *.
  rewrite (filter_cons _ r). case_decide as Hr.
  - subst. rewrite filter_cons, !decide_False by (intros []; done). apply others_of_idem.
  - rewrite filter_cons, !decide_True by done. by f_equal.
Qed.

Lemma count_keep_first name refs :
  count_of name (keep_first name true refs) = if bool_decide (name ∈ refs) then 1 else 0.
Proof.
  induction refs as [|r refs IH]; [done|]. cbn [keep_first]. destruct (decide (r = name)) as [Hr|Hr].
  - subst. rewrite bool_decide_true by left. unfold count_of in *. rewrite filter_cons.
    rewrite decide_True by done. simpl. f_equal. apply count_others.
  - unfold count_of in *. rewrite filter_cons, decide_False by done. rewrite IH.
    assert (bool_decide (name ∈ r :: refs) = bool_decide (name ∈ refs)) as ->; [|done].
    apply bool_decide_ext. rewrite elem_of_cons. split; [by intros [->|]|by right].
Qed.

Lemma equalReferences_spec l r : equalReferences l r = true ↔ l = r.
Proof.
  unfold equalReferences. destruct (Nat.eqb_spec (length l) (length r)) as [Hl|Hl]; cbn [negb].
  - revert r Hl. induction l as [|x l IH]; intros [|y r] Hl; try done. cbn [equal_from].
    case_bool_decide as Hx; cbn [negb]; [|split; [done|congruence]].
    rewrite IH by (simpl in Hl; lia). split; [by intros ->; subst|congruence].
  - split; [done|]. by intros ->.
Qed.

(** ** The meaning of a settled account *)
Definition account_settled (name : string) (should : bool) (sa : ServiceAccount) : Prop :=
  count_of name (ImagePullSecrets sa) = if should then 1 else 0.

Lemma count_reconcile refs name (should : bool) :
  count_of name (reconcileReferences refs name should) = if should then 1 else 0.
Proof.
  rewrite reconcileReferences_eq. unfold count_of. rewrite filter_app, length_app.
  destruct should; cbn [andb].
  - pose proof (count_keep_first name refs) as Hk. unfold count_of in Hk. rewrite Hk.
    case_bool_decide; cbn [negb]; [done|]. by rewrite filter_cons, decide_True.
  - rewrite keep_first_unwanted. pose proof (count_others name refs) as Hk. unfold count_of in Hk.
    by rewrite Hk.
Qed.
Lemma others_reconcile refs name should :
  others_of name (reconcileReferences refs name should) = others_of name refs.
Proof.
  rewrite reconcileReferences_eq. unfold others_of. rewrite filter_app.
  pose proof (others_keep_first name should refs) as Hk. unfold others_of in Hk. rewrite Hk.
  destruct (should && _); [|by rewrite app_nil_r].
  by rewrite filter_cons, decide_False, app_nil_r by (intros []; done).
Qed.

(** Lists with the wanted number of references are left as they are. *)
Lemma reconcile_fixed refs name (should : bool) :
  count_of name refs = (if should then 1 else 0) → reconcileReferences refs name should = refs.
Proof.
  rewrite reconcileReferences_eq. unfold count_of. intros Hc. destruct should; cbn [andb].
  - assert (name ∈ refs) as Hin.
    { destruct (filter (λ x, x = name) refs) as [|x l] eqn:Hf; [done|].
      assert (Hx : x ∈ (filter (.= name) refs : list string)) by (rewrite Hf; apply list_elem_of_here).
      by apply list_elem_of_filter in Hx as [-> Hx]. }
    rewrite bool_decide_true by done. cbn [negb]. rewrite app_nil_r.
    induction refs as [|r refs IH]; [done|]. cbn [keep_first]. rewrite filter_cons in Hc.
    destruct (decide (r = name)) as [Hr|Hr].
    + subst. f_equal. simpl in Hc. unfold others_of. clear -Hc.
      induction refs as [|r refs IH]; [done|]. rewrite filter_cons in *.
      destruct (decide (r = name)); [by simpl in Hc|]. rewrite decide_True by done. f_equal. by apply IH.
    + f_equal. apply IH; [done|]. apply elem_of_cons in Hin as [->|]; done.
  - rewrite keep_first_unwanted, app_nil_r. unfold others_of.
    induction refs as [|r refs IH]; [done|]. rewrite filter_cons in *.
    destruct (decide (r = name)); [by simpl in Hc|]. rewrite decide_True by done. f_equal. by apply IH.
Qed.

(** ** Patches that respect the account *)
Definition patch_respects (name : string) (p : option (list string) * list string) : Prop :=
  ∃ before should, p.1 = Some before ∧ p.2 ≠ before ∧ p.2 = reconcileReferences before name should.
Definition safe_patches {K} (name : string) (s s' : SAState K) : Prop :=
  ∃ ps, sa_patches s' = sa_patches s ++ ps ∧ length ps ≤ 1 ∧ Forall (patch_respects name) ps.

Section safety.
Context {K : Type} `{!ApiServer Secret K} `{!ApiServer ServiceAccount K}
  `{!ApiServerLaws (O := ServiceAccount) K}.

Lemma account_seen_rtc k k' (o : ServiceAccount) :
  rtc (others (O := ServiceAccount)) k k' → seen k o → seen k' o.
Proof. induction 1; eauto using seen_others. Qed.

Lemma safe_no_patch name (s s' : SAState K) : sa_patches s' = sa_patches s → safe_patches name s s'.
Proof. intros Hp. exists []. rewrite app_nil_r. split; [done|]. split; [simpl; lia|done]. Qed.

Lemma wp_apply_references name sa should (s0 s : SAState K) :
  seen (sa_cluster s) sa → sa_patches s = sa_patches s0 →
  wp sa_interleaved (apply_references name sa should) s (λ _ s', safe_patches name s0 s').
Proof.
  intros Hseen Hp. unfold apply_references.
  destruct (equalReferences _ _) eqn:Heq; [by apply safe_no_patch|].
  unfold try. cbn [mbind prog_bind prog_bind_def call wp].
  intros r s' (s1 & [Hrtc Hp1] & k' & Hupd & ->).
  enough (safe_patches name s0 (MkSAState (sa_config s1) k' (sa_patches s1 ++
    if is_ok r then
      [(ImagePullSecrets <$> live (sa_cluster s1) (obj_key sa),
        reconcileReferences (ImagePullSecrets sa) name should)] else [])))
    by (by destruct r).
  eexists. cbn [sa_patches]. split; [by rewrite Hp1, Hp|]. destruct r as [[]|e]; simpl; [|by split; [lia|]].
  split; [lia|]. constructor; [|done].
  apply update_ok in Hupd as (l & Hl & Hu & Hv & _).
  assert (sa = l) as <-.
  { eapply version_unique; [by eapply account_seen_rtc|exact Hl|symmetry; exact Hu|symmetry; exact Hv]. }
  exists (ImagePullSecrets sa), should. split; [exact (f_equal (fmap ImagePullSecrets) Hl)|].
  split; [|done]. cbn [snd]. intros Hrefs.
  rewrite <-not_true_iff_false, equalReferences_spec in Heq. congruence.
Qed.
End safety.

Lemma wp_account_safe {K : Type} `{!ApiServer Secret K} `{!ApiServer ServiceAccount K}
    `{!ApiServerLaws (O := ServiceAccount) K} secretName ns name (s : SAState K) :
  wp sa_interleaved (SyncServiceAccount secretName ns name) s (λ _ s', safe_patches secretName s s').
Proof.
  unfold SyncServiceAccount, try. cbn [mbind prog_bind prog_bind_def call wp].
  intros [snapshot loaded] s' (s1 & [_ Hp1] & _ & ->).
  destruct loaded; cbn [negb]; [|by apply safe_no_patch].
  intros r s' (s2 & [_ Hp2] & Hread & ->). assert (sa_patches s2 = sa_patches s) as Hp by congruence.
  destruct r as [sa|e]; [|case_bool_decide; by apply safe_no_patch].
  apply read_seen in Hread as [Hseen _]. unfold sync_account.
  destruct (_ && _); [|by apply wp_apply_references].
  unfold try. cbn [mbind prog_bind prog_bind_def call wp].
  intros r s' (s3 & [Hrtc Hp3] & _ & ->). assert (sa_patches s3 = sa_patches s) as Hp' by congruence.
  destruct r as [secret|e]; [|case_bool_decide; by apply safe_no_patch].
  destruct (IsManaged (Some secret)); cbn [negb].
  - destruct (IsUsableForServiceAccount (Some secret)); cbn [negb]; [|by apply safe_no_patch].
    apply wp_apply_references; [by eapply account_seen_rtc|done].
  - apply wp_apply_references; [by eapply account_seen_rtc|done].
Qed.

(** ** Properties *)

(** [reconcileReferences] keeps every other reference, in order; it leaves
    the managed name once when it is wanted and never otherwise; an account that
    already has it so is unchanged, so a second pass finds nothing to do. *)
Theorem reconcileReferences_correct refs name (should : bool) :
  let refs' := reconcileReferences refs name should in
  filter (.≠ name) refs' = filter (.≠ name) refs ∧
  length (filter (.= name) refs') = (if should then 1 else 0) ∧
  (length (filter (.= name) refs) = (if should then 1 else 0) → refs' = refs) ∧
  reconcileReferences refs' name should = refs' ∧
  (equalReferences refs refs' = true ↔ length (filter (.= name) refs) = if should then 1 else 0).
Proof.
  cbv zeta. pose proof (count_reconcile refs name should) as Hc.
  split; [apply others_reconcile|]. split; [exact Hc|]. split; [apply reconcile_fixed|].
  split; [by apply reconcile_fixed|]. rewrite equalReferences_spec. split.
  - intros Heq. unfold count_of in Hc. by rewrite <-Heq in Hc.
  - intros Hlen. symmetry. by apply reconcile_fixed.
Qed.

(** C13.  However stale the cache and whatever others do between the calls, a sync
    of an account patches at most once, and a patch that the server accepts
    rewrites the live references by adding or removing the managed name only. *)
Theorem account_sync_safe {K : Type} `{!ApiServer Secret K} `{!ApiServer ServiceAccount K}
    `{!ApiServerLaws (O := ServiceAccount) K} secretName ns name (s : SAState K) :
  wp sa_interleaved (SyncServiceAccount secretName ns name) s (λ _ s', safe_patches secretName s s').
Proof. apply wp_account_safe. Qed.

(** Whether a selected account should carry the reference, given the live Secret
    of the fixed name; [None] while the Secret is not ready. *)
Definition reference_wanted (snapshot : ConfigurationSnapshot) (ns name : string)
    (secret : option Secret) : option bool :=
  if MatchesNamespace snapshot ns && Matches (ServiceAccounts snapshot) name then
    match secret with
    | None => None
    | Some _ =>
      if negb (IsManaged secret) then Some false
      else if IsUsableForServiceAccount secret then Some true else None
    end
  else Some false.

(** ** Running beside the rest of the process

    While an account is synced, it, the fixed Secret of its namespace and the
    configuration stay as they are; the sync writes only when a reference is
    missing or superfluous, and then only this account. *)
Section beside.
Context {K : Type} `{!ApiServer Secret K} `{!ApiServer ServiceAccount K}.
Context (secretName ns name : string).

Definition account_quiet (s s' : SAState K) : Prop :=
  sa_config s' = sa_config s ∧
  live (O := ServiceAccount) (sa_cluster s') (ns, name) = live (sa_cluster s) (ns, name) ∧
  live (O := Secret) (sa_cluster s') (ns, secretName) = live (sa_cluster s) (ns, secretName).
Definition account_allowed (sa : ServiceAccount) (wanted : option bool) (s s' : SAState K) : Prop :=
  s' = s ∨
  ∃ w : bool, wanted = Some w ∧ count_of secretName (ImagePullSecrets sa) ≠ (if w then 1 else 0) ∧
    sa_config s' = sa_config s ∧ ∃ r k', sa_cluster s' = k' ∧
    update (with_ImagePullSecrets sa (reconcileReferences (ImagePullSecrets sa) secretName w))
      (sa_cluster s) r k'.

Lemma account_quiet_refl s : account_quiet s s.
Proof. done. Qed.
Lemma account_quiet_trans s1 s2 s3 : account_quiet s1 s2 → account_quiet s2 s3 → account_quiet s1 s3.
Proof. intros (? & ? & ?) (? & ? & ?). split; [congruence|]. split; congruence. Qed.

(** What an account without error carries in the end: the other references it
    had, and the managed one as often as wanted. *)
Definition account_outcome (sa : ServiceAccount) (wanted : option bool) (r : result sa_error ())
    (s' : SAState K) : Prop :=
  match wanted with
  | None => r ≠ Ok tt
  | Some wanted => r = Ok tt → ∃ sa', live (sa_cluster s') (ns, name) = Some sa' ∧
      filter (.≠ secretName) (ImagePullSecrets sa') = filter (.≠ secretName) (ImagePullSecrets sa) ∧
      length (filter (.= secretName) (ImagePullSecrets sa')) = if wanted : bool then 1 else 0
  end.
End beside.
#[export] Hint Resolve account_quiet_refl : core.

Section settling.
Context {K : Type} `{!ApiServer Secret K} `{!ApiServer ServiceAccount K}
  `{!ApiServerLaws (O := ServiceAccount) K} `{!FreshReads (O := Secret) K}
  `{!FreshReads (O := ServiceAccount) K}.
Context (secretName ns name : string) (sa : ServiceAccount).
Abbreviation beside w := (rg sa_exec (account_quiet secretName ns name) (account_allowed secretName sa w)).
Abbreviation outcome := (account_outcome secretName ns name sa).

Lemma account_outcome_stable w r (s s' : SAState K) :
  account_quiet secretName ns name s s' → outcome w r s → outcome w r s'.
Proof. intros (_ & Hl & _). unfold account_outcome. by rewrite Hl. Qed.

Lemma rg_account_return w r (s : SAState K) : outcome w r s → beside w (mret r) s (outcome w).
Proof. intros Hr s' Hq. by eapply account_outcome_stable. Qed.

Lemma account_failed w e (s : SAState K) : outcome w (Err e) s.
Proof. by destruct w; intros ?. Qed.

Lemma rg_apply_settles should (s : SAState K) :
  live (sa_cluster s) (ns, name) = Some sa →
  beside (Some should) (apply_references secretName sa should) s (outcome (Some should)).
Proof.
  intros Hlive. unfold apply_references, try.
  pose proof (count_reconcile (ImagePullSecrets sa) secretName should) as Hc.
  pose proof (others_reconcile (ImagePullSecrets sa) secretName should) as Ho.
  destruct (equalReferences _ _) eqn:Heq.
  - apply equalReferences_spec in Heq. rewrite <-Heq in Hc. apply rg_account_return. intros _. by exists sa.
  - cbn [mbind prog_bind prog_bind_def call rg]. intros s1 (_ & Hl1 & _) r s' (k' & Hupd & ->). split.
    { right. exists should. split; [done|]. split; [|split; [done|]; eauto].
      intros Hcount%reconcile_fixed. rewrite <-not_true_iff_false, equalReferences_spec in Heq. congruence. }
    destruct r as [[]|e]; [|apply rg_account_return, account_failed]. apply rg_account_return. intros _.
    apply update_ok in Hupd as (_ & _ & _ & _ & _ & sa' & Hsa' & Hp & _).
    assert (obj_key (with_ImagePullSecrets sa (reconcileReferences (ImagePullSecrets sa) secretName should))
      = (ns, name)) as Hkey by exact (live_key _ _ _ Hlive).
    rewrite Hkey in Hsa'. exists sa'. split; [done|].
    change (ImagePullSecrets sa' = reconcileReferences (ImagePullSecrets sa) secretName should) in Hp.
    by rewrite Hp.
Qed.

Lemma rg_account_settles snapshot (s : SAState K) :
  ConfigStore.current (sa_config s) = Some snapshot → live (sa_cluster s) (ns, name) = Some sa →
  let w := reference_wanted snapshot ns name (live (sa_cluster s) (ns, secretName)) in
  beside w (SyncServiceAccount secretName ns name) s (outcome w).
Proof.
  intros Hcfg Hlive w. unfold SyncServiceAccount, try. cbn [mbind prog_bind prog_bind_def call rg].
  intros s1 H1 cfg s' [-> ->]. split; [by left|].
  rewrite ConfigStore.Load_eq, (proj1 H1), Hcfg. cbn [negb].
  intros s2 H2 r s' [Hread ->]. split; [by left|].
  destruct (account_quiet_trans _ _ _ _ _ _ H1 H2) as (_ & Hl2 & Hs2). apply read_fresh in Hread.
  destruct r as [sa0|e]; [|destruct e; [congruence|apply rg_account_return, account_failed..]].
  assert (sa0 = sa) as -> by congruence.
  unfold sync_account. subst w. unfold reference_wanted.
  destruct (_ && _); [|apply rg_apply_settles; congruence].
  unfold try. cbn [mbind prog_bind prog_bind_def call rg]. intros s3 (_ & Hl3 & Hs3) r s' [Hread' ->].
  split; [by left|]. apply read_fresh in Hread'. destruct r as [secret|e].
  - assert (live (sa_cluster s) (ns, secretName) = Some secret) as -> by congruence.
    destruct (IsManaged (Some secret)); cbn [negb]; [|apply rg_apply_settles; congruence].
    destruct (IsUsableForServiceAccount (Some secret)); cbn [negb]; [apply rg_apply_settles; congruence|].
    apply rg_account_return, account_failed.
  - case_bool_decide; apply rg_account_return, account_failed.
Qed.
End settling.

(** C12.  Once the caches have caught up, and whatever happens meanwhile to other
    objects, a sync without error leaves an existing account with the managed
    reference exactly once when the account is selected and the live Secret of
    the fixed name is managed and usable, and without it when the account is not
    selected or the Secret belongs to someone else, with every other reference in
    place; for a selected account whose Secret is absent, being deleted or
    incomplete, the sync fails, so that it is retried, and writes nothing; nor
    does it write when the references are right already. *)
Theorem account_sync_settles {K : Type} `{!ApiServer Secret K} `{!ApiServer ServiceAccount K}
    `{!ApiServerLaws (O := ServiceAccount) K} `{!FreshReads (O := Secret) K}
    `{!FreshReads (O := ServiceAccount) K} secretName ns name snapshot sa (s : SAState K) :
  ConfigStore.current (sa_config s) = Some snapshot →
  live (sa_cluster s) (ns, name) = Some sa →
  let wanted := reference_wanted snapshot ns name (live (sa_cluster s) (ns, secretName)) in
  rg sa_exec (account_quiet secretName ns name) (account_allowed secretName sa wanted)
    (SyncServiceAccount secretName ns name) s (account_outcome secretName ns name sa wanted).
Proof. apply rg_account_settles. Qed.

(** ** A concrete account *)
Module ServiceAccountExample.
Definition set_version (s : ServiceAccount) (v : string) : ServiceAccount :=
  MkServiceAccount (sa_Namespace s) (sa_Name s) (sa_UID s) v (sa_deleting s) (ImagePullSecrets s).
Abbreviation cluster_state := (list (History.entry (O := ServiceAccount))).
#[local] Instance server : ApiServer ServiceAccount cluster_state := History.server set_version.
#[local] Instance server_laws : ApiServerLaws (O := ServiceAccount) cluster_state :=
  History.server_laws set_version (λ _ _, eq_refl) (λ _ _, eq_refl) (λ _ _, eq_refl) (λ _ _, eq_refl).
#[local] Instance server_fresh : FreshReads (O := ServiceAccount) cluster_state :=
  History.server_fresh set_version.

(** The Secrets stay as they are. *)
Definition managed : Secret :=
  MkSecret "team-a" "acr" "uid" "7" None SecretTypeDockerConfigJson
    {[ DockerConfigJsonKey := to_bytes "{}" ]}
    (<[ApplicationNameLabelKey := ControllerIdentity]> {[ ManagedByLabelKey := ControllerIdentity ]}) ∅.
Definition secret_at (key : string * string) : option Secret :=
  if bool_decide (key = ("team-a", "acr")) then Some managed else None.
#[local] Instance secrets : ApiServer Secret cluster_state := {|
  live _ := secret_at;
  seen _ s := s = managed;
  read key _ r := r = match secret_at key with Some s => Ok s | None => Err NotFound end;
  create _ k r k' := r = Err (Failed "read only") ∧ k' = k;
  update _ k r k' := r = Err (Failed "read only") ∧ k' = k;
  remove _ _ _ k r k' := r = Err (Failed "read only") ∧ k' = k;
  others k k' := k' = k
|}.
#[local] Instance secrets_fresh : FreshReads (O := Secret) cluster_state.
Proof. intros key k r ->. cbn. by destruct (secret_at key). Qed.

Definition snapshot : ConfigurationSnapshot :=
  MkSnapshot 1 (MkSelector true []) [] (MkSelector false ["default"]) ∅ zero_runtime.
Definition account (ns : string) : ServiceAccount :=
  MkServiceAccount ns "default" "uid" "" false ["other"; "acr"; "acr"; "last"].
Definition s0 : SAState cluster_state :=
  MkSAState (ConfigStore.MkStore (Some snapshot) true)
    [History.Put (account "team-b"); History.Put (account "team-a")] [].

Lemma account_sync_safe_witness :
  wp sa_interleaved (SyncServiceAccount "acr" "team-a" "default") s0 (λ _ s', safe_patches "acr" s0 s').
Proof. exact (account_sync_safe "acr" "team-a" "default" s0). Defined.

(** The Secret of [team-a] is usable; [team-b] has none, so its account waits. *)
Lemma account_sync_settles_witness :
  let beside ns sa w := rg sa_exec (account_quiet "acr" ns "default") (account_allowed "acr" sa w)
    (SyncServiceAccount "acr" ns "default") s0 (account_outcome "acr" ns "default" sa w) in
  beside "team-a" (set_version (account "team-a") "0") (Some true) ∧
  beside "team-b" (set_version (account "team-b") "1") None.
Proof.
  split.
  - exact (account_sync_settles "acr" "team-a" "default" snapshot _ s0 eq_refl eq_refl).
  - exact (account_sync_settles "acr" "team-b" "default" snapshot _ s0 eq_refl eq_refl).
Defined.
End ServiceAccountExample.
