(* ===== verification/Kubeclient.v ===== *)
(** * The business client's runtime tuning (internal/kubeclient)

    [rate.Limiter] is third-party: [TokenBucket] states what its methods
    document.  [Runtime] keeps the settings in force and the desired ones; each
    of its methods holds the mutex, so each is a function of it. *)
From S2P Require Import Prelude GoStrings Validation ConfigTypes ConfigParser ConfigParserTheory.
From S2P Require Import ConfigParserCorrect Kube.
From Stdlib Require Import SpecFloat.

Class TokenBucket := {
  bucket : Type;
  NewLimiter : float64 → Z → bucket;
  Limit : bucket → float64;
  Burst : bucket → Z;
  SetLimitAt : bucket → Z → float64 → bucket;
  SetBurstAt : bucket → Z → Z → bucket
}.
Class TokenBucketLaws (B : TokenBucket) : Prop := {
  Limit_new q b : Limit (NewLimiter q b) = q;
  Burst_new q b : Burst (NewLimiter q b) = b;
  Limit_SetLimitAt l t q : Limit (SetLimitAt l t q) = q;
  Burst_SetLimitAt l t q : Burst (SetLimitAt l t q) = Burst l;
  Limit_SetBurstAt l t b : Limit (SetBurstAt l t b) = Limit l;
  Burst_SetBurstAt l t b : Burst (SetBurstAt l t b) = b
}.

Record Settings := MkSettings {
  QPS : float64;
  set_Burst : Z;
  NamespaceWorkers : Z;
  ServiceAccountWorkers : Z
}.

Inductive settings_error := InvalidSettingsQPS | InvalidCounts.
#[export] Instance settings_error_eq_dec : EqDecision settings_error.
Proof. solve_decision. Defined.

(** The field of [s] unless the override is given (not zero). *)
Definition override_int (value fallback : Z) : Z := if (value =? 0)%Z then fallback else value.
Definition override_float (value fallback : float64) : float64 :=
  if SFeqb value zero_float then fallback else value.

Definition resolve (s : Settings) (overrides : RuntimeConfiguration) : result settings_error Settings :=
  let s := MkSettings (override_float (KubeAPIQPS overrides) (QPS s))
    (override_int (KubeAPIBurst overrides) (set_Burst s))
    (override_int (Workers overrides) (NamespaceWorkers s))
    (override_int (Workers overrides) (ServiceAccountWorkers s)) in
  if negb (ValidateQPS (QPS s)) then Err InvalidSettingsQPS
  else if (set_Burst s <? 1)%Z || (NamespaceWorkers s <? 1)%Z || (ServiceAccountWorkers s <? 1)%Z
  then Err InvalidCounts
  else Ok s.

Section runtime.
Context `{TokenBucket}.

(** ** The limiter *)
Definition newLimiter (qps : float64) (burst : Z) : bucket := NewLimiter qps burst.

Definition limiter_set (l : bucket) (now : Z) (qps : float64) (burst : Z) : bucket :=
  if SFeqb (Limit l) qps && (Burst l =? burst)%Z then l
  else SetBurstAt (SetLimitAt l now qps) now burst.

Definition limiter_QPS (l : bucket) : spec_float := to_float32 (Limit l).

(** ** The runtime *)
Record Runtime := MkRuntime {
  fallback : Settings;
  rt_current : Settings;
  desired : Settings;
  rt_limiter : bucket
}.

Definition NewRuntime (fallback : Settings) (initial : RuntimeConfiguration) :
    result settings_error Runtime :=
  _ ← resolve fallback zero_runtime;
  resolved ← resolve fallback initial;
  mret (MkRuntime fallback resolved resolved (newLimiter (QPS resolved) (set_Burst resolved))).

(** What the worker log line says: whether a restart is required. *)
Definition workers_differ (a b : Settings) : bool :=
  negb (NamespaceWorkers a =? NamespaceWorkers b)%Z
  || negb (ServiceAccountWorkers a =? ServiceAccountWorkers b)%Z.
Definition worker_log (r : Runtime) (next : Settings) : option bool :=
  if workers_differ next (desired r) then Some (workers_differ next (rt_current r)) else None.

Definition set_rate (r : Runtime) (now : Z) (next : Settings) : Runtime :=
  if negb (SFeqb (QPS next) (QPS (rt_current r)))
     || negb (set_Burst next =? set_Burst (rt_current r))%Z
  then
    MkRuntime (fallback r)
      (MkSettings (QPS next) (set_Burst next) (NamespaceWorkers (rt_current r))
         (ServiceAccountWorkers (rt_current r)))
      (desired r) (limiter_set (rt_limiter r) now (QPS next) (set_Burst next))
  else r.

Definition Runtime_Apply (r : Runtime) (now : Z) (overrides : RuntimeConfiguration) :
    result settings_error () * Runtime :=
  match resolve (fallback r) overrides with
  | Err e => (Err e, r)
  | Ok next =>
    let r' := set_rate r now next in
    (Ok tt, MkRuntime (fallback r') (rt_current r') next (rt_limiter r'))
  end.

(** ** Startup *)
Context `{RangeOrder} `{DNSValidation} `{YAML} `{FloatParser}.

Definition runtimeFromConfigMap (cm : option (gmap string string)) (fallback : Settings) :
    result settings_error Runtime :=
  let overrides :=
    match cm with
    | Some data => match Parse data with Ok snapshot => ConfigTypes.Runtime snapshot | Err _ => zero_runtime end
    | None => zero_runtime
    end in
  NewRuntime fallback overrides.

Inductive bootstrap_error :=
| BootstrapClientFailed (message : string)
| ReadConfigMapFailed (e : api_error)
| BootstrapSettings (e : settings_error).

(** [api] is the outcome of building the client, [get] of the one read. *)
Definition Bootstrap (api : result string ()) (get : result api_error (gmap string string))
    (fallback : Settings) : result bootstrap_error Runtime :=
  match api with
  | Err message => Err (BootstrapClientFailed message)
  | Ok _ =>
    let finish cm :=
      match runtimeFromConfigMap cm fallback with
      | Ok r => Ok r
      | Err e => Err (BootstrapSettings e)
      end in
    match get with
    | Ok data => finish (Some data)
    | Err NotFound => finish None
    | Err e => Err (ReadConfigMapFailed e)
    end
  end.
End runtime.
