(* ===== verification/KubeclientCorrect.v ===== *)
(** * Correctness of the runtime tuning *)
From S2P Require Import Prelude GoStrings Validation ConfigTypes ConfigParser ConfigParserTheory.
From S2P Require Import ConfigParserCorrect Kube Kubeclient.
From Stdlib Require Import SpecFloat.

(** ** Settings *)

(** The settings that overrides give on top of the startup ones: each field the
    override where there is one, and [workers] for both counts. *)
Definition effective (f : Settings) (o : RuntimeConfiguration) : Settings :=
  MkSettings (override_float (KubeAPIQPS o) (QPS f)) (override_int (KubeAPIBurst o) (set_Burst f))
    (override_int (Workers o) (NamespaceWorkers f)) (override_int (Workers o) (ServiceAccountWorkers f)).

Definition valid_settings (s : Settings) : Prop :=
  ValidateQPS (QPS s) = true ∧ (1 ≤ set_Burst s)%Z ∧ (1 ≤ NamespaceWorkers s)%Z ∧
  (1 ≤ ServiceAccountWorkers s)%Z.

Lemma resolve_ok s o s' :
  resolve s o = Ok s' ↔
  valid_settings s' ∧ s' = effective s o.
Proof.
  unfold resolve. fold (effective s o). set (t := effective s o). unfold valid_settings.
  destruct (ValidateQPS (QPS t)) eqn:Hq; cbn [negb].
  2: { split; [done|]. intros [[Hq' _] ->]. congruence. }
  destruct (Z.ltb_spec (set_Burst t) 1), (Z.ltb_spec (NamespaceWorkers t) 1),
    (Z.ltb_spec (ServiceAccountWorkers t) 1); cbn [orb];
    (split; [|intros [Hv ->]]; [|first [done|lia]]); try discriminate.
  intros [= <-]. done.
Qed.

Lemma valid_finite q : ValidateQPS q = true → ∃ m e, q = S754_finite false m e.
Proof. destruct q as [[]|[]| |[] m e]; cbn; try done. by exists m, e. Qed.

(** Go's [==] on valid rates is equality. *)
Lemma SFeqb_valid a b : ValidateQPS a = true → SFeqb a b = true ↔ a = b.
Proof.
  intros (m & e & ->)%valid_finite. split; [|intros <-].
  - unfold SFeqb, SFcompare. destruct b as [[]|[]| |[] m' e']; try done.
    destruct (Z.compare_spec e e') as [->| |]; try done.
    change (Pos.compare_cont Eq m m') with (Pos.compare m m').
      by destruct (Pos.compare_spec m m') as [->| |].
  - unfold SFeqb, SFcompare. rewrite Z.compare_refl. change (Pos.compare_cont Eq m m) with (Pos.compare m m).
    by rewrite Pos.compare_refl.
Qed.

Lemma override_float_valid v f : v = zero_float ∨ ValidateQPS v = true → ValidateQPS f = true →
  ValidateQPS (override_float v f) = true.
Proof. intros [->|Hv] Hf; [done|]. unfold override_float. by destruct (SFeqb v zero_float). Qed.
Lemma override_int_valid v f : v = 0%Z ∨ (1 ≤ v)%Z → (1 ≤ f)%Z → (1 ≤ override_int v f)%Z.
Proof. unfold override_int. destruct (Z.eqb_spec v 0); lia. Qed.

Lemma resolve_wf s o : valid_settings s → wf_runtime o → ∃ s', resolve s o = Ok s'.
Proof.
  intros (Hq & Hb & Hn & Ha) (Hoq & Hob & How). eexists. apply resolve_ok. split; [|reflexivity].
  unfold wf_integer in *. split; [by apply override_float_valid|].
  split; [apply override_int_valid; lia|]. split; apply override_int_valid; lia.
Qed.

Lemma wf_zero_runtime : wf_runtime zero_runtime.
Proof. split; [by left|]. split; by left. Qed.

Section runtime.
Context `{B : TokenBucket} `{!TokenBucketLaws B}.

(** The limiter runs at the rate in force, which is the desired one; only the
    worker counts in force may lag behind. *)
Definition runtime_inv (r : Runtime) : Prop :=
  valid_settings (fallback r) ∧ valid_settings (rt_current r) ∧ valid_settings (desired r) ∧
  Limit (rt_limiter r) = QPS (rt_current r) ∧ Burst (rt_limiter r) = set_Burst (rt_current r) ∧
  QPS (desired r) = QPS (rt_current r) ∧ set_Burst (desired r) = set_Burst (rt_current r).

Lemma limiter_set_spec l now q b :
  ValidateQPS (Limit l) = true →
  Limit (limiter_set l now q b) = q ∧ Burst (limiter_set l now q b) = b.
Proof.
  intros Hv. unfold limiter_set. destruct (SFeqb (Limit l) q) eqn:Hq; cbn [andb].
  - apply SFeqb_valid in Hq; [|done]. destruct (Z.eqb_spec (Burst l) b); [done|].
    by rewrite Limit_SetBurstAt, Limit_SetLimitAt, Burst_SetBurstAt.
  - by rewrite Limit_SetBurstAt, Limit_SetLimitAt, Burst_SetBurstAt.
Qed.

Lemma set_rate_spec r now next :
  runtime_inv r → valid_settings next →
  let r' := set_rate r now next in
  fallback r' = fallback r ∧ valid_settings (rt_current r') ∧
  QPS (rt_current r') = QPS next ∧ set_Burst (rt_current r') = set_Burst next ∧
  NamespaceWorkers (rt_current r') = NamespaceWorkers (rt_current r) ∧
  ServiceAccountWorkers (rt_current r') = ServiceAccountWorkers (rt_current r) ∧
  Limit (rt_limiter r') = QPS next ∧ Burst (rt_limiter r') = set_Burst next.
Proof.
  intros (_ & Hc & _ & Hl & Hb & _) Hn. cbv zeta. unfold set_rate.
  destruct (SFeqb (QPS next) (QPS (rt_current r))) eqn:Hq; cbn [negb orb].
  - apply SFeqb_valid in Hq; [|apply Hn].
    destruct (Z.eqb_spec (set_Burst next) (set_Burst (rt_current r))) as [Hbe|]; cbn [negb].
    + by rewrite Hq, Hbe.
    + cbn [fallback rt_current rt_limiter QPS set_Burst NamespaceWorkers ServiceAccountWorkers].
      destruct (limiter_set_spec (rt_limiter r) now (QPS next) (set_Burst next)) as [-> ->].
      { rewrite Hl. apply Hc. }
      destruct Hn as (? & ? & ? & ?), Hc as (? & ? & ? & ?). done.
  - cbn [fallback rt_current rt_limiter QPS set_Burst NamespaceWorkers ServiceAccountWorkers].
    destruct (limiter_set_spec (rt_limiter r) now (QPS next) (set_Burst next)) as [-> ->].
    { rewrite Hl. apply Hc. }
    destruct Hn as (? & ? & ? & ?), Hc as (? & ? & ? & ?). done.
Qed.

Lemma Runtime_Apply_inv r now o :
  runtime_inv r →
  let '(res, r') := Runtime_Apply r now o in
  runtime_inv r' ∧ fallback r' = fallback r ∧
  NamespaceWorkers (rt_current r') = NamespaceWorkers (rt_current r) ∧
  ServiceAccountWorkers (rt_current r') = ServiceAccountWorkers (rt_current r) ∧
  (res = Ok tt → resolve (fallback r) o = Ok (desired r')) ∧ (res ≠ Ok tt → r' = r).
Proof.
  intros Hr. unfold Runtime_Apply. destruct (resolve (fallback r) o) as [next|e] eqn:Hres; [|done].
  pose proof Hres as [Hnext _]%resolve_ok.
  destruct (set_rate_spec r now next Hr Hnext) as (Hf & Hv & Hq & Hb & Hn & Ha & Hl & Hlb).
  split; [|cbn; rewrite Hf; done].
  unfold runtime_inv. cbn [fallback rt_current desired rt_limiter]. rewrite Hf, Hl, Hlb, Hq, Hb.
  destruct Hr as (Hfb & _). done.
Qed.

Lemma NewRuntime_inv f o r :
  NewRuntime f o = Ok r → runtime_inv r ∧ fallback r = f ∧ resolve f o = Ok (rt_current r).
Proof.
  unfold NewRuntime. destruct (resolve f zero_runtime) as [f0|] eqn:Hf; [|done].
  cbn [mbind result_bind]. destruct (resolve f o) as [s|] eqn:Hs; [|done].
  cbn [mbind result_bind mret result_ret]. intros [= <-].
  apply resolve_ok in Hf as [Hv ->]. apply resolve_ok in Hs as [Hvs _].
  split; [|done]. unfold runtime_inv, newLimiter. cbn [fallback rt_current desired rt_limiter].
  rewrite Limit_new, Burst_new. done.
Qed.

End runtime.

(** Tuning that [Parse] accepted, with valid startup settings, resolves. *)
Section parsed.
Context `{RangeOrder} `{D : DNSValidation} `{!DNSValidationLaws D} `{YAML} `{FloatParser}.

Lemma Parse_wf_runtime data s : Parse data = Ok s → wf_runtime (ConfigTypes.Runtime s).
Proof.
  intros (_ & _ & _ & _ & _ & (Hq & Hb & Hw)%parseRuntime_spec & _)%Parse_spec.
  assert (∀ key v, integer_value data key v → wf_integer v) as Hint.
  { intros key v. unfold integer_value, wf_integer. destruct (data !! key); [|by left].
    intros [Ha Hv]. apply Atoi_range in Ha. right. lia. }
  split; [|split; eauto]. unfold qps_value in Hq. destruct (data !! _); [right; tauto|by left].
Qed.

Lemma NewRuntime_wf `{B : TokenBucket} f o : valid_settings f → wf_runtime o → ∃ r, NewRuntime f o = Ok r.
Proof.
  intros Hf Ho. destruct (resolve_wf f o Hf Ho) as [s' Hs'].
  destruct (resolve_wf f zero_runtime Hf wf_zero_runtime) as [s0 Hs0].
  eexists. unfold NewRuntime. rewrite Hs0. cbn [mbind result_bind]. by rewrite Hs'.
Qed.

(** The process starts whatever the ConfigMap holds. *)
Lemma runtimeFromConfigMap_valid `{B : TokenBucket} `{!TokenBucketLaws B} cm f : valid_settings f →
  ∃ r, runtimeFromConfigMap cm f = Ok r ∧ runtime_inv r ∧ fallback r = f ∧
    ∃ o, wf_runtime o ∧ resolve f o = Ok (rt_current r).
Proof.
  intros Hf. unfold runtimeFromConfigMap.
  set (o := match cm with Some data => match Parse data with Ok snapshot => ConfigTypes.Runtime snapshot
    | Err _ => zero_runtime end | None => zero_runtime end).
  assert (wf_runtime o) as Ho.
  { unfold o. destruct cm as [data|]; [|apply wf_zero_runtime].
    destruct (Parse data) as [s|] eqn:Hp; [by eapply Parse_wf_runtime|apply wf_zero_runtime]. }
  destruct (NewRuntime_wf f o Hf Ho) as [r Hr]. exists r. split; [done|].
  apply NewRuntime_inv in Hr as (? & ? & ?). eauto.
Qed.
End parsed.

(** Tuning that [Parse] accepted is never refused later: with valid startup
    settings the process starts whatever the ConfigMap holds, and every parsed
    snapshot applies, taking its own values where given and the startup values
    elsewhere. *)
Theorem parsed_tuning_applies `{B : TokenBucket} `{!TokenBucketLaws B} `{RangeOrder}
    `{D : DNSValidation} `{!DNSValidationLaws D} `{YAML} `{FloatParser} f data s cm now :
  valid_settings f → Parse data = Ok s →
  ∃ r, runtimeFromConfigMap cm f = Ok r ∧
    let '(res, r') := Runtime_Apply r now (ConfigTypes.Runtime s) in
    res = Ok tt ∧
    Limit (rt_limiter r') = override_float (KubeAPIQPS (ConfigTypes.Runtime s)) (QPS f) ∧
    Burst (rt_limiter r') = override_int (KubeAPIBurst (ConfigTypes.Runtime s)) (set_Burst f).
Proof.
  intros Hf Hp. destruct (runtimeFromConfigMap_valid cm f Hf) as (r & Hr & Hinv & Hfb & _).
  exists r. split; [done|].
  pose proof (Runtime_Apply_inv r now (ConfigTypes.Runtime s) Hinv) as Hs. rewrite Hfb in Hs.
  destruct (resolve_wf f _ Hf (Parse_wf_runtime data s Hp)) as [s' Hs'].
  destruct (Runtime_Apply r now _) as [res r'] eqn:Ha. unfold Runtime_Apply in Ha.
  rewrite Hfb, Hs' in Ha. injection Ha as <- _. split; [done|].
  destruct Hs as ((_ & _ & _ & Hl & Hb & Hdq & Hdb) & _ & _ & _ & Hok & _).
  specialize (Hok eq_refl). apply resolve_ok in Hok as [_ Hd]. rewrite Hl, Hb, <-Hdq, <-Hdb, Hd. done.
Qed.

(** ** The settings in force *)
Section tracks.
Context `{B : TokenBucket} `{!TokenBucketLaws B} `{RangeOrder} `{D : DNSValidation} `{!DNSValidationLaws D}
  `{YAML} `{FloatParser}.

#[export] Instance valid_settings_dec s : Decision (valid_settings s) := _.

(** What the ConfigMap says at startup: nothing when it is missing or refused. *)
Definition startup_tuning (get : result api_error (gmap string string)) : RuntimeConfiguration :=
  match get with
  | Ok data => match Parse data with Ok snapshot => ConfigTypes.Runtime snapshot | Err _ => zero_runtime end
  | Err _ => zero_runtime
  end.
(** The last overrides that were accepted. *)
Definition tuning_in_force (f : Settings) (tuning : RuntimeConfiguration) (updates : list (Z * RuntimeConfiguration)) :
    RuntimeConfiguration :=
  foldl (λ tuning u, if bool_decide (valid_settings (effective f u.2)) then u.2 else tuning) tuning updates.

Lemma startup_tuning_wf get : wf_runtime (startup_tuning get).
Proof.
  unfold startup_tuning. destruct get as [data|]; [|apply wf_zero_runtime].
  destruct (Parse data) as [s|] eqn:Hp; [by eapply Parse_wf_runtime|apply wf_zero_runtime].
Qed.

(** The runtime [r], started with [workers], runs the overrides [tuning]. *)
Definition runs (f : Settings) (workers : Settings) (tuning : RuntimeConfiguration) (r : Runtime) : Prop :=
  runtime_inv r ∧ fallback r = f ∧ desired r = effective f tuning ∧
  NamespaceWorkers (rt_current r) = NamespaceWorkers workers ∧
  ServiceAccountWorkers (rt_current r) = ServiceAccountWorkers workers.

Lemma resolve_refused f o e : resolve f o = Err e → ¬ valid_settings (effective f o).
Proof. intros He Hv. assert (resolve f o = Ok (effective f o)) as Hok by by apply resolve_ok. congruence. Qed.

Lemma runs_apply f workers tuning r u : runs f workers tuning r →
  runs f workers (if bool_decide (valid_settings (effective f u.2)) then u.2 else tuning) (Runtime_Apply r u.1 u.2).2.
Proof.
  intros (Hinv & Hf & Hd & Hn & Ha). pose proof (Runtime_Apply_inv r u.1 u.2 Hinv) as Hs.
  destruct (Runtime_Apply r u.1 u.2) as [res r'] eqn:Heq. unfold Runtime_Apply in Heq. rewrite Hf in Heq, Hs.
  destruct (resolve f u.2) as [next|e] eqn:Hr.
  - injection Heq as <- _. destruct Hs as (Hinv' & Hf' & Hn' & Ha' & Hok & _).
    pose proof Hr as [Hv Hnext]%resolve_ok. subst next. rewrite bool_decide_true by done.
    specialize (Hok eq_refl). injection Hok as Hok. unfold runs. cbn [snd]. by rewrite Hf', <-Hok, Hn', Ha'.
  - injection Heq as <- <-. rewrite bool_decide_false by by eapply resolve_refused. done.
Qed.

Lemma NewRuntime_runs f o : valid_settings f → wf_runtime o →
  ∃ r, NewRuntime f o = Ok r ∧ runs f (effective f o) o r.
Proof.
  intros Hf Ho. destruct (NewRuntime_wf f o Hf Ho) as [r Hr]. exists r. split; [done|].
  pose proof Hr as (Hinv & Hfb & Hres)%NewRuntime_inv. apply resolve_ok in Hres as [_ Hcur].
  unfold NewRuntime in Hr. destruct (resolve f zero_runtime); [|done]. cbn [mbind result_bind] in Hr.
  destruct (resolve f o) as [s|]; [|done]. injection Hr as <-. cbn [rt_current] in Hcur. subst s. done.
Qed.

(** Along any sequence of updates, accepted or refused: what is desired are the
    startup settings [f] overridden by the last accepted configuration, at first
    [tuning]; rate and burst, in force and of the limiter, are the desired ones,
    and the worker counts in force are those of startup. *)
Definition follows (f : Settings) (tuning : RuntimeConfiguration) (r : Runtime) : Prop :=
  ∀ updates,
    let started := effective f tuning in
    let now := effective f (tuning_in_force f tuning updates) in
    let r' := foldl (λ r u, (Runtime_Apply r u.1 u.2).2) r updates in
    valid_settings now ∧ desired r' = now ∧
    Limit (rt_limiter r') = QPS now ∧ Burst (rt_limiter r') = set_Burst now ∧
    rt_current r' = MkSettings (QPS now) (set_Burst now) (NamespaceWorkers started) (ServiceAccountWorkers started).

Lemma runs_follows f tuning r : runs f (effective f tuning) tuning r → follows f tuning r.
Proof.
  intros Hr updates. cbv zeta.
  assert (runs f (effective f tuning) (tuning_in_force f tuning updates)
    (foldl (λ r u, (Runtime_Apply r u.1 u.2).2) r updates)) as (Hinv & _ & Hd & Hn & Ha).
  { unfold tuning_in_force. induction updates as [|u updates IH] using rev_ind; [done|].
    rewrite !foldl_app. by apply runs_apply. }
  destruct Hinv as (_ & _ & Hv & Hl & Hb & Hdq & Hdb). rewrite Hd in Hv, Hdq, Hdb.
  split; [done|]. split; [done|]. rewrite Hl, Hb, Hdq, Hdb, <-Hn, <-Ha. by destruct (rt_current _).
Qed.

Lemma NewRuntime_follows f o : wf_runtime o →
  match NewRuntime f o with Ok r => valid_settings f ∧ follows f o r | Err _ => ¬ valid_settings f end.
Proof.
  intros Ho. destruct (NewRuntime f o) as [r|e] eqn:Hr.
  - pose proof Hr as (Hinv & Hfb & _)%NewRuntime_inv.
    assert (valid_settings f) as Hf by (rewrite <-Hfb; apply Hinv). split; [done|].
    destruct (NewRuntime_runs f o Hf Ho) as (r2 & Hr2 & Hruns). rewrite Hr in Hr2. injection Hr2 as <-.
    by apply runs_follows.
  - intros Hf. destruct (NewRuntime_runs f o Hf Ho) as (r2 & Hr2 & _). congruence.
Qed.

(** C38.  [Bootstrap] fails only when the client cannot be built, the ConfigMap
    cannot be read, or the startup settings are invalid; a ConfigMap that is
    missing or refused is no error.  What it starts follows the configuration:
    after any sequence of updates, accepted or refused, what is desired are the
    startup settings overridden by the last accepted configuration, at first that
    of the ConfigMap; the rate and burst in force and those of the limiter are the
    desired ones; the worker counts in force are still those of startup. *)
Theorem runtime_tracks api get f :
  match Bootstrap api get f with
  | Err (BootstrapClientFailed message) => api = Err message
  | Err (ReadConfigMapFailed e) => api = Ok tt ∧ get = Err e ∧ e ≠ NotFound
  | Err (BootstrapSettings _) => ¬ valid_settings f
  | Ok r =>
    api = Ok tt ∧ valid_settings f ∧ (∀ e, get = Err e → e = NotFound) ∧ follows f (startup_tuning get) r
  end.
Proof.
  pose proof (NewRuntime_follows f _ (startup_tuning_wf get)) as Hnew.
  unfold Bootstrap. destruct api as [[]|m]; [|done].
  destruct get as [data|e]; [|destruct e; [|by split..]]; cbn [startup_tuning] in Hnew |- *;
    unfold runtimeFromConfigMap; destruct (NewRuntime f _) as [r|e]; [|done| |done];
    destruct Hnew as [Hf Hr]; (split; [done|]); (split; [done|]); (split; [by intros ? [= <-]|done]).
Qed.
End tracks.

(** ** Examples *)
Module KubeclientExample.
Import ParserExample.
(** A bucket that is its rate and burst. *)
#[local] Instance bucket_pair : TokenBucket := {|
  bucket := (float64 * Z)%type;
  NewLimiter q b := (q, b);
  Limit := fst;
  Burst := snd;
  SetLimitAt l _ q := (q, l.2);
  SetBurstAt l _ b := (l.1, b)
|}.
#[local] Instance bucket_pair_laws : TokenBucketLaws bucket_pair.
Proof. split; by intros. Qed.
Definition startup : Settings := MkSettings DefaultKubeAPIQPS DefaultKubeAPIBurst DefaultWorkers DefaultWorkers.
Definition tuned : RuntimeConfiguration := MkRuntimeConfiguration zero_float 100 4.
Definition refused : RuntimeConfiguration := MkRuntimeConfiguration zero_float (-1) 0.
Definition r0 : Runtime :=
  MkRuntime startup startup startup (newLimiter DefaultKubeAPIQPS DefaultKubeAPIBurst).

Lemma startup_valid : valid_settings startup.
Proof. split; [vm_compute; reflexivity|]. split; [|split]; discriminate. Qed.

Lemma runtime_tracks_witness :
  TokenBucketLaws bucket_pair ∧
  match Bootstrap (Ok tt) (Ok data) startup with
  | Ok r => desired (foldl (λ r u, (Runtime_Apply r u.1 u.2).2) r [(0%Z, tuned); (1%Z, refused)]) = effective startup tuned
  | Err _ => False
  end.
Proof.
  split; [exact bucket_pair_laws|].
  pose proof (runtime_tracks (B := bucket_pair) (Ok tt) (Ok data) startup) as Hr.
  destruct (Bootstrap (Ok tt) (Ok data) startup) as [r|e] eqn:Hb; [|by vm_compute in Hb].
  destruct Hr as (_ & _ & _ & Hr). destruct (Hr [(0%Z, tuned); (1%Z, refused)]) as (_ & Hd & _).
  rewrite Hd. vm_compute. reflexivity.
Defined.

Lemma parsed_tuning_applies_witness :
  Parse data = Ok snapshot ∧ valid_settings startup ∧
  ∃ r, runtimeFromConfigMap (Some ∅) startup = Ok r.
Proof.
  split; [exact parse_data|]. split; [exact startup_valid|].
  destruct (parsed_tuning_applies startup data snapshot (Some ∅) 0 startup_valid parse_data) as (r & Hr & _).
  exact (ex_intro _ r Hr).
Defined.
End KubeclientExample.
