(* ===== verification/Configuration.v ===== *)
(** * The configuration controller (internal/controller/configuration_reconciler.go,
    resource_events.go)

    [Reconcile] runs one request at a time on every replica.  It reads the fixed
    ConfigMap, installs what it parses, and publishes every Namespace and every
    ServiceAccount after a business change. *)
From S2P Require Import Prelude Prog GoStrings Validation ConfigTypes ConfigParser ConfigStore.
From S2P Require Import Kube Kubeclient.

Record ConfigMap := MkConfigMap {
  cm_UID : string;
  cm_ResourceVersion : string;
  cm_Data : gmap string string
}.

(** The options that the reconciler reads. *)
Record ReconcilerOptions := MkReconcilerOptions {
  ro_ControllerNamespace : string;
  ro_ConfigMapName : string;
  ro_has_RuntimeUpdater : bool
}.

(** ** Calls *)
Inductive cfgE : Type → Type :=
| FetchConfigMap : cfgE (result api_error ConfigMap)
| ContextErr : cfgE bool
| StoreMarkInvalid : cfgE ()
| StoreApply (candidate : ConfigurationSnapshot) : cfgE ConfigStore.ApplyResult
| UpdateRuntime (r : RuntimeConfiguration) : cfgE (result settings_error ())
| RecordInvalid (cm : ConfigMap) : cfgE ()
| Notify : cfgE ()
| ReadRejection : cfgE string
| WriteRejection (value : string) : cfgE ()
| ReadPending : cfgE bool
| WritePending (value : bool) : cfgE ()
| ListNamespaces : cfgE (result api_error (list string))
| ListServiceAccounts : cfgE (result api_error (list (string * string)))
| SendNamespace (name : string) : cfgE (result api_error ())
| SendServiceAccount (key : string * string) : cfgE (result api_error ()).

(** ** The publisher *)

(** A send that the context ends answers [ctx.Err()]. *)
Inductive publish_error := ListFailed (e : api_error) | SendEnded (e : api_error).
Definition publish_error_canceled (e : publish_error) : bool :=
  match e with ListFailed e | SendEnded e => is_canceled e end.

(** The loop of both methods: it stops at the first send that fails. *)
Fixpoint send_all {A} (send : A → cfgE (result api_error ())) (items : list A) :
    prog cfgE (result publish_error ()) :=
  match items with
  | [] => mret (Ok tt)
  | item :: items =>
    try (call (send item)) (λ e, mret (Err (SendEnded e))) (λ _, send_all send items)
  end.

Definition PublishAllNamespaces : prog cfgE (result publish_error ()) :=
  try (call ListNamespaces) (λ e, mret (Err (ListFailed e))) (send_all SendNamespace).
Definition PublishAllServiceAccounts : prog cfgE (result publish_error ()) :=
  try (call ListServiceAccounts) (λ e, mret (Err (ListFailed e))) (send_all SendServiceAccount).

(** ** The reconciler *)
Inductive cfg_error :=
| GetConfigMapFailed (e : api_error)
| PublishNamespacesFailed (e : publish_error)
| PublishServiceAccountsFailed (e : publish_error).

(** [if ctx.Err() != nil && errors.Is(err, context.Canceled)] *)
Definition unless_canceled (canceled : bool) (e : cfg_error) : prog cfgE (result cfg_error ()) :=
  ended ← call ContextErr;
  if ended && canceled then mret (Ok tt) else mret (Err e).

Definition on_missing : prog cfgE (result cfg_error ()) :=
  _ ← call StoreMarkInvalid;
  lastRejection ← call ReadRejection;
  _ ← (if negb (bool_decide (lastRejection = "missing")) then call (WriteRejection "missing")
       else mret tt);
  mret (Ok tt).

Definition rejection_of (cm : ConfigMap) : string := cm_UID cm +:+ "/" +:+ cm_ResourceVersion cm.

Definition on_invalid (cm : ConfigMap) : prog cfgE (result cfg_error ()) :=
  _ ← call StoreMarkInvalid;
  lastRejection ← call ReadRejection;
  _ ← (if negb (bool_decide (lastRejection = rejection_of cm)) then
         _ ← call (RecordInvalid cm); call (WriteRejection (rejection_of cm))
       else mret tt);
  mret (Ok tt).

(** The fan-out that is pending: Namespaces first, then ServiceAccounts. *)
Definition fan_out : prog cfgE (result cfg_error ()) :=
  pending ← call ReadPending;
  if negb pending then mret (Ok tt) else
  try PublishAllNamespaces
    (λ e, unless_canceled (publish_error_canceled e) (PublishNamespacesFailed e)) (λ _,
  try PublishAllServiceAccounts
    (λ e, unless_canceled (publish_error_canceled e) (PublishServiceAccountsFailed e)) (λ _,
  _ ← call (WritePending false);
  mret (Ok tt))).

Definition on_valid (candidate : ConfigurationSnapshot) : prog cfgE (result cfg_error ()) :=
  _ ← call (WriteRejection "");
  r ← call (StoreApply candidate);
  _ ← (if ConfigStore.BusinessChanged r then _ ← call (WritePending true); call Notify else mret tt);
  fan_out.

Section reconcile.
Context `{RangeOrder} `{DNSValidation} `{YAML} `{FloatParser}.

Definition on_configmap (o : ReconcilerOptions) (cm : ConfigMap) : prog cfgE (result cfg_error ()) :=
  match Parse (cm_Data cm) with
  | Err _ => on_invalid cm
  | Ok candidate =>
    if ro_has_RuntimeUpdater o then
      try (call (UpdateRuntime (ConfigTypes.Runtime candidate)))
        (λ _, on_invalid cm) (λ _, on_valid candidate)
    else on_valid candidate
  end.

Definition Reconcile (o : ReconcilerOptions) (namespace name : string) :
    prog cfgE (result cfg_error ()) :=
  if negb (bool_decide (namespace = ro_ControllerNamespace o))
     || negb (bool_decide (name = ro_ConfigMapName o))
  then mret (Ok tt)
  else
    fetched ← call FetchConfigMap;
    match fetched with
    | Ok cm => on_configmap o cm
    | Err e =>
      ended ← call ContextErr;
      if ended && is_canceled e then mret (Ok tt)
      else match e with
           | NotFound => on_missing
           | _ => mret (Err (GetConfigMapFailed e))
           end
    end.
End reconcile.

(** ** The meaning of the calls *)
Inductive cfg_event :=
| BusinessChange
| Notified
| Rejected (cm : ConfigMap)
| ListedNamespaces (names : list string)
| SentNamespace (name : string)
| ListedServiceAccounts (keys : list (string * string))
| SentServiceAccount (key : string * string).

Section exec.
Context `{TokenBucket}.

Record CfgState := MkCfgState {
  cs_store : ConfigStore.Store;
  cs_runtime : Runtime;
  lastRejection : string;
  pendingFanout : bool;
  cfg_log : list cfg_event
}.

Definition set_store (s : CfgState) st (l : list cfg_event) : CfgState :=
  MkCfgState st (cs_runtime s) (lastRejection s) (pendingFanout s) (cfg_log s ++ l).
Definition log_event (s : CfgState) (e : cfg_event) : CfgState :=
  MkCfgState (cs_store s) (cs_runtime s) (lastRejection s) (pendingFanout s) (cfg_log s ++ [e]).
Definition log_ok (s : CfgState) {A} (r : result api_error A) (e : A → cfg_event) : CfgState :=
  match r with Ok a => log_event s (e a) | Err _ => s end.

(** [fetch] is what the cache answers for the fixed ConfigMap; [ended] holds when
    the context ends before the reconcile returns. *)
Definition cfg_exec (fetch : result api_error ConfigMap) (ended : Prop) (X : Type) (e : cfgE X) :
    CfgState → X → CfgState → Prop :=
  match e in cfgE X return CfgState → X → CfgState → Prop with
  | FetchConfigMap => λ s x s', x = fetch ∧ s' = s
  | ContextErr => λ s x s', (x = true → ended) ∧ s' = s
  | StoreMarkInvalid => λ s _ s', s' = set_store s (ConfigStore.MarkInvalid (cs_store s)) []
  | StoreApply c => λ s x s',
      x = (ConfigStore.Apply (cs_store s) c).1 ∧
      s' = set_store s (ConfigStore.Apply (cs_store s) c).2
             (if ConfigStore.BusinessChanged x then [BusinessChange] else [])
  | UpdateRuntime r => λ s x s', ∃ now,
      x = (Runtime_Apply (cs_runtime s) now r).1 ∧
      s' = MkCfgState (cs_store s) (Runtime_Apply (cs_runtime s) now r).2 (lastRejection s)
             (pendingFanout s) (cfg_log s)
  | RecordInvalid cm => λ s _ s', s' = log_event s (Rejected cm)
  | Notify => λ s _ s', s' = log_event s Notified
  | ReadRejection => λ s x s', x = lastRejection s ∧ s' = s
  | WriteRejection v => λ s _ s',
      s' = MkCfgState (cs_store s) (cs_runtime s) v (pendingFanout s) (cfg_log s)
  | ReadPending => λ s x s', x = pendingFanout s ∧ s' = s
  | WritePending v => λ s _ s',
      s' = MkCfgState (cs_store s) (cs_runtime s) (lastRejection s) v (cfg_log s)
  | ListNamespaces => λ s x s', s' = log_ok s x ListedNamespaces
  | ListServiceAccounts => λ s x s', s' = log_ok s x ListedServiceAccounts
  | SendNamespace n => λ s x s', s' = log_ok s x (λ _, SentNamespace n)
  | SendServiceAccount k => λ s x s', s' = log_ok s x (λ _, SentServiceAccount k)
  end.
End exec.
