(* ===== verification/ConfigurationCorrect.v ===== *)
(** * Correctness of the configuration controller

    The last valid configuration survives every other observation, and a
    business change is published completely before it is forgotten. *)
From S2P Require Import Prelude Prog GoStrings Validation ConfigTypes ConfigParser ConfigParserTheory.
From S2P Require Import ConfigParserCorrect ConfigStore Kube Kubeclient KubeclientCorrect Configuration.

(** ** Complete publications *)

(** The log contains a complete publication: a list of Namespaces with one event
    each, then one of ServiceAccounts. *)
Definition published_all (log : list cfg_event) : Prop :=
  ∃ a names b keys c, log =
    a ++ (ListedNamespaces names :: (SentNamespace <$> names)) ++ b ++
    (ListedServiceAccounts keys :: (SentServiceAccount <$> keys)) ++ c.

(** No business change since the last complete publication. *)
Definition fanout_done (log : list cfg_event) : Prop :=
  BusinessChange ∉ log ∨ ∃ pre post, log = pre ++ post ∧ BusinessChange ∉ post ∧ published_all post.

Definition is_business (e : cfg_event) : bool := match e with BusinessChange => true | _ => false end.
Definition is_notified (e : cfg_event) : bool := match e with Notified => true | _ => false end.
Definition count_events (f : cfg_event → bool) (log : list cfg_event) : nat :=
  length (filter (λ e, f e = true) log).

Lemma fanout_done_app log l : fanout_done log → BusinessChange ∉ l → fanout_done (log ++ l).
Proof.
  intros [Hn|(pre & post & -> & Hn & a & ns & b & ks & c & ->)] Hl.
  - left. rewrite elem_of_app. tauto.
  - right. exists pre. eexists. rewrite <-(assoc_L (++)). split; [reflexivity|].
    split; [rewrite elem_of_app; tauto|]. exists a, ns, b, ks, (c ++ l).
    by simplify_list_eq.
Qed.

Lemma published_all_intro log names keys :
  fanout_done (log ++ (ListedNamespaces names :: (SentNamespace <$> names)) ++
    (ListedServiceAccounts keys :: (SentServiceAccount <$> keys))).
Proof.
  right. exists log. eexists. split; [done|]. split.
  - rewrite elem_of_app, !elem_of_cons, !list_elem_of_fmap. intros [[|(? & ? & ?)]|[|(? & ? & ?)]]; done.
  - exists [], names, [], keys, []. by rewrite app_nil_r.
Qed.

Lemma count_events_app f l1 l2 : count_events f (l1 ++ l2) = count_events f l1 + count_events f l2.
Proof. unfold count_events. by rewrite filter_app, length_app. Qed.

Lemma count_events_none {A} f (g : A → cfg_event) (l : list A) :
  (∀ x, f (g x) = false) → count_events f (g <$> l) = 0.
Proof.
  intros Hf. unfold count_events. induction l as [|x l IH]; [done|].
  cbn [fmap list_fmap]. rewrite filter_cons, decide_False; [done|]. by rewrite Hf.
Qed.

Section reconciler.
Context `{B : TokenBucket} (fetch : result api_error ConfigMap) (ended : Prop).
Abbreviation step := (cfg_exec fetch ended).

(** Everything but the log is as it was. *)
Definition same_core (s s' : CfgState) : Prop :=
  cs_store s' = cs_store s ∧ cs_runtime s' = cs_runtime s ∧ lastRejection s' = lastRejection s ∧
  pendingFanout s' = pendingFanout s.

Lemma same_core_refl s : same_core s s.
Proof. done. Qed.
Lemma same_core_trans s1 s2 s3 : same_core s1 s2 → same_core s2 s3 → same_core s1 s3.
Proof. unfold same_core. intros (-> & -> & -> & ->). tauto. Qed.
Lemma log_ok_core {A} s (r : result api_error A) e : same_core s (log_ok s r e).
Proof. by destruct r. Qed.

(** The events of a loop of sends: a prefix of the items, all of them on success. *)
Lemma wp_send_all {A} (send : A → cfgE (result api_error ())) (ev : A → cfg_event) items s :
  (∀ a s1 x s2, step _ (send a) s1 x s2 → s2 = log_ok s1 x (λ _, ev a)) →
  wp step (send_all send items) s (λ r s', same_core s s' ∧ ∃ sent rest,
    items = sent ++ rest ∧ cfg_log s' = cfg_log s ++ (ev <$> sent) ∧ (r = Ok tt → rest = [])).
Proof.
  intros Hsend. revert s. induction items as [|a items IH]; intros s.
  { split; [done|]. exists [], []. split; [done|]. split; [symmetry; apply app_nil_r|done]. }
  cbn [send_all]. unfold try. cbn [mbind prog_bind prog_bind_def call wp].
  intros x s' ->%Hsend. destruct x as [[]|e]; cbn [log_ok].
  - eapply wp_mono; [|apply IH]. intros r s' (Hc & sent & rest & -> & Hlog & Hr).
    split; [done|]. exists (a :: sent), rest. split; [done|]. split; [|done].
    rewrite Hlog. cbn [cfg_log log_event fmap list_fmap]. by rewrite <-(assoc_L (++)).
  - split; [done|]. exists [], (a :: items). split; [done|]. split; [symmetry; apply app_nil_r|done].
Qed.

(** The events of one of the two publications. *)
Definition publication {A} (listed : list A → cfg_event) (ev : A → cfg_event) (ok : bool)
    (l : list cfg_event) : Prop :=
  (ok = false ∧ l = []) ∨
  ∃ items sent rest, items = sent ++ rest ∧ l = listed items :: (ev <$> sent) ∧ (ok = true → rest = []).

Lemma wp_publish {A} (list_call : cfgE (result api_error (list A))) listed
    (send : A → cfgE (result api_error ())) (ev : A → cfg_event) s :
  (∀ s1 x s2, step _ list_call s1 x s2 → s2 = log_ok s1 x listed) →
  (∀ a s1 x s2, step _ (send a) s1 x s2 → s2 = log_ok s1 x (λ _, ev a)) →
  wp step (try (call list_call) (λ e, mret (Err (ListFailed e))) (send_all send)) s
    (λ r s', same_core s s' ∧ ∃ l, cfg_log s' = cfg_log s ++ l ∧ publication listed ev (is_ok r) l).
Proof.
  intros Hlist Hsend. unfold try. cbn [mbind prog_bind prog_bind_def call wp].
  intros x s' ->%Hlist. destruct x as [items|e]; cbn [log_ok].
  - eapply wp_mono; [|apply (wp_send_all send ev), Hsend].
    intros r s' (Hc & sent & rest & -> & Hlog & Hr). split; [done|].
    exists (listed (sent ++ rest) :: (ev <$> sent)). split.
    + rewrite Hlog. cbn [cfg_log log_event]. by rewrite <-(assoc_L (++)).
    + right. exists (sent ++ rest), sent, rest. do 2 (split; [done|]).
      destruct r as [[]|]; [intros _; by apply Hr|done].
  - split; [done|]. exists []. rewrite app_nil_r. split; [done|]. by left.
Qed.

Lemma publication_quiet {A} (listed : list A → cfg_event) ev ok l f :
  publication listed ev ok l → (∀ x, f (listed x) = false) → (∀ x, f (ev x) = false) →
  count_events f l = 0.
Proof.
  intros [[_ ->]|(items & sent & rest & _ & -> & _)] Hl He; [done|].
  unfold count_events. rewrite filter_cons, decide_False by (by rewrite Hl).
  by apply count_events_none.
Qed.

Lemma count_business l : count_events is_business l = 0 → BusinessChange ∉ l.
Proof.
  unfold count_events. intros Hl Hin.
  assert (BusinessChange ∈ filter (λ e, is_business e = true) l) as Hf by by apply list_elem_of_filter.
  destruct (filter _ l); [by apply not_elem_of_nil in Hf|done].
Qed.

(** What a reconcile guarantees of the fan-out, from [s] to [s']. *)
Record fanout_progress (s : CfgState) (r : result cfg_error ()) (s' : CfgState) : Prop := {
  fp_done : (pendingFanout s = false → fanout_done (cfg_log s)) →
    pendingFanout s' = false → fanout_done (cfg_log s');
  fp_retried : pendingFanout s' = true → r ≠ Ok tt ∨ ended
}.

Lemma wp_unless_canceled canceled e s (Φ : result cfg_error () → CfgState → Prop) :
  (ended → Φ (Ok tt) s) → Φ (Err e) s → wp step (unless_canceled canceled e) s Φ.
Proof.
  intros Hok Herr. unfold unless_canceled. cbn [mbind prog_bind prog_bind_def call wp].
  intros x s' [Hx ->]. destruct x; cbn [andb]; [|done]. destruct canceled; [|done]. by apply Hok, Hx.
Qed.

Definition quiet_log (l : list cfg_event) : Prop :=
  count_events is_business l = 0 ∧ count_events is_notified l = 0.

Lemma wp_fan_out s :
  wp step fan_out s (λ r s', fanout_progress s r s' ∧
    cs_store s' = cs_store s ∧ cs_runtime s' = cs_runtime s ∧ lastRejection s' = lastRejection s ∧
    (pendingFanout s = false → s' = s ∧ r = Ok tt) ∧
    ∃ l, cfg_log s' = cfg_log s ++ l ∧ quiet_log l).
Proof.
  unfold fan_out. cbn [mbind prog_bind prog_bind_def call wp]. intros pending s' [-> ->].
  destruct (pendingFanout s) eqn:Hp; cbn [negb].
  2: { cbn. split; [by split; [|rewrite Hp]|]. do 4 (split; [done|]). exists []. split; [symmetry; apply app_nil_r|by split]. }
  assert (∀ s1 l, same_core s s1 → cfg_log s1 = cfg_log s ++ l → quiet_log l → ∀ r,
    r ≠ Ok tt ∨ ended →
    fanout_progress s r s1 ∧ cs_store s1 = cs_store s ∧ cs_runtime s1 = cs_runtime s ∧
    lastRejection s1 = lastRejection s ∧ (true = false → s1 = s ∧ r = Ok tt) ∧
    ∃ l, cfg_log s1 = cfg_log s ++ l ∧ quiet_log l) as Hstop.
  { intros s1 l (? & ? & ? & Hpend) Hlog Hq r Hr. split; [|do 4 (split; [done|]); by exists l].
    split; [intros _; rewrite Hpend, Hp; discriminate|]. by intros _. }
  unfold try at 1. apply wp_bind.
  eapply wp_mono; [|apply (wp_publish ListNamespaces ListedNamespaces SendNamespace SentNamespace);
    [by intros ??? ->|by intros ???? ->]].
  intros r1 s1 (Hc1 & l1 & Hlog1 & Hpub1).
  assert (quiet_log l1) as Hq1 by (split; by eapply publication_quiet).
  destruct r1 as [[]|e1]; [|apply wp_unless_canceled; [intros He|]; eapply Hstop; eauto; by left].
  apply wp_bind.
  eapply wp_mono; [|apply (wp_publish ListServiceAccounts ListedServiceAccounts SendServiceAccount
    SentServiceAccount); [by intros ??? ->|by intros ???? ->]].
  intros r2 s2 (Hc2 & l2 & Hlog2 & Hpub2).
  assert (quiet_log l2) as Hq2 by (split; by eapply publication_quiet).
  assert (cfg_log s2 = cfg_log s ++ (l1 ++ l2)) as Hlog by by rewrite Hlog2, Hlog1, <-(assoc_L (++)).
  assert (quiet_log (l1 ++ l2)) as Hq.
  { destruct Hq1 as [H1 H2], Hq2 as [H3 H4]. split; rewrite count_events_app; lia. }
  assert (same_core s s2) as Hc by by eapply same_core_trans.
  destruct r2 as [[]|e2]; [|apply wp_unless_canceled; [intros He|]; eapply Hstop; eauto; by left].
  cbn [mbind prog_bind prog_bind_def call wp]. intros _ s' ->. cbn [mret prog_ret wp].
  destruct Hc as (? & ? & ? & _). cbn [cs_store cs_runtime lastRejection cfg_log].
  split; [|do 4 (split; [done|]); by exists (l1 ++ l2)]. split; [|done]. intros _ _. cbn [cfg_log]. rewrite Hlog.
  destruct Hpub1 as [[? _]|(ns & sn & rn & -> & -> & Hrn)]; [done|].
  destruct Hpub2 as [[? _]|(ks & sk & rk & -> & -> & Hrk)]; [done|].
  rewrite (Hrn eq_refl), (Hrk eq_refl), !app_nil_r. apply published_all_intro.
Qed.

(** ** The whole reconcile *)
Context `{!TokenBucketLaws B} `{R : RangeOrder} `{D : DNSValidation} `{Y : YAML} `{F : FloatParser}.

(** The tuning of a candidate is accepted. *)
Definition tuning_accepted (o : ReconcilerOptions) (rt : Runtime) (c : ConfigurationSnapshot) : bool :=
  negb (ro_has_RuntimeUpdater o) || is_ok (resolve (fallback rt) (ConfigTypes.Runtime c)).

(** The configuration that a reconcile of the fixed ConfigMap observes. *)
Inductive observation := Unreadable | Missing | Refused (cm : ConfigMap)
  | Accepted (c : ConfigurationSnapshot).
Definition observe (o : ReconcilerOptions) (rt : Runtime) : observation :=
  match fetch with
  | Err NotFound => Missing
  | Err _ => Unreadable
  | Ok cm =>
    match Parse (cm_Data cm) with
    | Ok c => if tuning_accepted o rt c then Accepted c else Refused cm
    | Err _ => Refused cm
    end
  end.

Definition store_after (s : ConfigStore.Store) (ob : observation) : ConfigStore.Store :=
  match ob with
  | Unreadable => s
  | Missing | Refused _ => ConfigStore.MarkInvalid s
  | Accepted c => (ConfigStore.Apply s c).2
  end.

(** What the reconcile leaves behind, for each observation. *)
Definition reconciled (s : CfgState) (ob : observation) (r : result cfg_error ()) (s' : CfgState) : Prop :=
  cs_store s' = store_after (cs_store s) ob ∧
  match ob with
  | Unreadable => s' = s ∧ (r ≠ Ok tt ∨ ended)
  | Missing => r = Ok tt ∧ lastRejection s' = "missing" ∧ pendingFanout s' = pendingFanout s ∧
      cfg_log s' = cfg_log s
  | Refused cm => r = Ok tt ∧ lastRejection s' = rejection_of cm ∧
      pendingFanout s' = pendingFanout s ∧
      cfg_log s' = cfg_log s ++
        if bool_decide (lastRejection s = rejection_of cm) then [] else [Rejected cm]
  | Accepted c =>
      lastRejection s' = "" ∧ fanout_progress s r s' ∧
      let changed := ConfigStore.BusinessChanged (ConfigStore.Apply (cs_store s) c).1 in
      ∃ l, cfg_log s' = cfg_log s ++ (if changed then [BusinessChange; Notified] else []) ++ l ∧
        quiet_log l ∧ (changed = false → pendingFanout s = false → l = [] ∧ r = Ok tt)
  end.

Lemma wp_on_invalid cm s s0 :
  cs_store s = cs_store s0 → lastRejection s = lastRejection s0 → pendingFanout s = pendingFanout s0 →
  cfg_log s = cfg_log s0 →
  wp step (on_invalid cm) s (reconciled s0 (Refused cm)).
Proof.
  intros Hst Hrej Hp Hlog. unfold on_invalid. cbn [mbind prog_bind prog_bind_def call wp].
  intros _ s1 -> rej s2 [-> ->]. cbn [lastRejection set_store]. rewrite Hrej.
  case_bool_decide as Hb; cbn [negb mbind prog_bind prog_bind_def call wp mret prog_ret];
    unfold reconciled; cbn [store_after].
  - cbn [cs_store lastRejection pendingFanout cfg_log set_store]. rewrite Hst, Hrej, Hb, Hp, Hlog.
    rewrite bool_decide_true by done. done.
  - intros _ s1 -> _ s2 ->.
    cbn [cs_store lastRejection pendingFanout cfg_log set_store log_event].
    rewrite Hst, Hp, Hlog, app_nil_r. rewrite bool_decide_false by done. done.
Qed.

Lemma wp_on_valid c s s0 :
  cs_store s = cs_store s0 → pendingFanout s = pendingFanout s0 → cfg_log s = cfg_log s0 →
  wp step (on_valid c) s (reconciled s0 (Accepted c)).
Proof.
  intros Hst Hp Hlog. unfold on_valid. cbn [mbind prog_bind prog_bind_def call wp].
  intros _ s1 -> r0 s2 [-> ->]. cbn [cs_store set_store]. rewrite Hst.
  unfold reconciled. cbn [store_after].
  assert (∀ changed s1, cs_store s1 = (ConfigStore.Apply (cs_store s0) c).2 → lastRejection s1 = "" →
    pendingFanout s1 = changed || pendingFanout s0 →
    cfg_log s1 = cfg_log s0 ++ (if changed : bool then [BusinessChange; Notified] else []) →
    wp step fan_out s1 (λ r s', cs_store s' = (ConfigStore.Apply (cs_store s0) c).2 ∧
      lastRejection s' = "" ∧ fanout_progress s0 r s' ∧
      ∃ l, cfg_log s' = cfg_log s0 ++ (if changed then [BusinessChange; Notified] else []) ++ l ∧
        quiet_log l ∧ (changed = false → pendingFanout s0 = false → l = [] ∧ r = Ok tt))) as Hfan.
  { intros changed s1 H1 H2 H3 H4. eapply wp_mono; [|apply wp_fan_out].
    intros r s' ([Hdone Hretry] & Hs & _ & Hr & Hquiet & l & Hl & Hq).
    rewrite Hs, Hr, H1, H2. split; [done|]. split; [done|]. split.
    - split; [|done]. intros Hinv. apply Hdone. rewrite H3.
      intros [Hch Hp0]%orb_false_iff. rewrite H4, Hch, app_nil_r. by apply Hinv.
    - exists l. rewrite Hl, H4, <-(assoc_L (++)). split; [done|]. split; [done|].
      intros Hch Hp0. destruct Hquiet as [-> ->]; [by rewrite H3, Hch, Hp0|].
      split; [|done]. symmetry in Hl. rewrite <-(app_nil_r (cfg_log s1)) in Hl at 2.
      by apply app_inv_head in Hl. }
  destruct (ConfigStore.BusinessChanged (ConfigStore.Apply (cs_store s0) c).1) eqn:Hch;
    cbn [mbind prog_bind prog_bind_def call wp mret prog_ret].
  - intros _ s2 -> _ s3 ->. apply (Hfan true); [done|done|done|].
    cbn [cfg_log log_event set_store]. rewrite Hlog. by rewrite <-(assoc_L (++)).
  - apply (Hfan false); [done|done|cbn; by rewrite Hp|].
    cbn [cfg_log set_store]. by rewrite Hlog.
Qed.

Lemma wp_on_configmap o cm s :
  fetch = Ok cm → wp step (on_configmap o cm) s (reconciled s (observe o (cs_runtime s))).
Proof.
  intros Hf. unfold on_configmap.
  assert (observe o (cs_runtime s) = match Parse (cm_Data cm) with
    | Ok c => if tuning_accepted o (cs_runtime s) c then Accepted c else Refused cm
    | Err _ => Refused cm end) as -> by (unfold observe; by rewrite Hf).
  destruct (Parse (cm_Data cm)) as [c|e]; [|by apply wp_on_invalid].
  unfold tuning_accepted. destruct (ro_has_RuntimeUpdater o); cbn [negb orb]; [|by apply wp_on_valid].
  unfold try. cbn [mbind prog_bind prog_bind_def call wp]. intros x s' (now & -> & ->).
  unfold Runtime_Apply. destruct (resolve (fallback (cs_runtime s)) _) as [next|e];
    cbn [fst snd is_ok]; [by apply wp_on_valid|by apply wp_on_invalid].
Qed.

Lemma wp_on_missing o s :
  fetch = Err NotFound → wp step on_missing s (reconciled s (observe o (cs_runtime s))).
Proof.
  intros Hf. assert (observe o (cs_runtime s) = Missing) as -> by (unfold observe; by rewrite Hf).
  unfold on_missing. cbn [mbind prog_bind prog_bind_def call wp]. intros _ s1 -> rej s2 [-> ->].
  cbn [lastRejection set_store].
  case_bool_decide as Hrej; cbn [negb mbind prog_bind prog_bind_def call wp mret prog_ret];
    [|intros _ s1 ->]; unfold reconciled; cbn; by rewrite app_nil_r.
Qed.

Lemma wp_reconcile o ns name s :
  wp step (Reconcile o ns name) s (λ r s',
    if bool_decide (ns = ro_ControllerNamespace o) && bool_decide (name = ro_ConfigMapName o)
    then reconciled s (observe o (cs_runtime s)) r s' ∨ (r = Ok tt ∧ s' = s ∧ ended)
    else r = Ok tt ∧ s' = s).
Proof.
  unfold Reconcile. destruct (bool_decide (ns = _)), (bool_decide (name = _)); cbn [negb orb andb];
    try done.
  cbn [mbind prog_bind prog_bind_def call wp]. intros x s' [Hf ->]. symmetry in Hf.
  destruct x as [cm|e].
  { eapply wp_mono; [|by apply wp_on_configmap]. intros r s' H. by left. }
  cbn [mbind prog_bind prog_bind_def call wp]. intros b s' [Hb ->].
  destruct (b && is_canceled e) eqn:Hbe.
  { apply andb_true_iff in Hbe as [-> _]. right. split; [done|]. split; [done|by apply Hb]. }
  eapply wp_mono with (Φ := reconciled s (observe o (cs_runtime s))); [intros; by left|].
  destruct e; [by apply wp_on_missing|..]; cbn [wp mret prog_ret]; unfold reconciled, observe;
    rewrite Hf; (split; [done|]; split; [done|by left]).
Qed.
End reconciler.

(** ** Sequences of reconciles *)
Record request := MkRequest {
  rq_namespace : string;
  rq_name : string;
  rq_fetch : result api_error ConfigMap;
  rq_ended : Prop
}.

Section runs.
Context `{B : TokenBucket} `{!TokenBucketLaws B} `{R : RangeOrder} `{D : DNSValidation} `{Y : YAML}
  `{F : FloatParser}.

(** Every request is reconciled in turn, whatever the calls answer. *)
Fixpoint runs (o : ReconcilerOptions) (rqs : list request) (s : CfgState) (Φ : CfgState → Prop) : Prop :=
  match rqs with
  | [] => Φ s
  | q :: rqs =>
    wp (cfg_exec (rq_fetch q) (rq_ended q)) (Reconcile o (rq_namespace q) (rq_name q)) s
      (λ _ s', runs o rqs s' Φ)
  end.

Record cfg_inv (s : CfgState) : Prop := {
  ci_fanout : pendingFanout s = false → fanout_done (cfg_log s);
  ci_notified : count_events is_notified (cfg_log s) = count_events is_business (cfg_log s);
  ci_loaded : count_events is_business (cfg_log s) ≠ 0 → ConfigStore.Loaded (cs_store s) = true
}.

Lemma Loaded_Apply s c : ConfigStore.Loaded (ConfigStore.Apply s c).2 = true.
Proof.
  unfold ConfigStore.Apply, ConfigStore.Loaded.
  destruct (ConfigStore.current s) as [cur|]; [destruct (Equal cur (Clone c))|]; done.
Qed.

Lemma store_after_loaded s ob :
  ConfigStore.Loaded s = true → ConfigStore.Loaded (store_after s ob) = true.
Proof. intros Hs. destruct ob; [done..|]. cbn [store_after]. by apply Loaded_Apply. Qed.

Lemma reconciled_inv ended s ob r s' : cfg_inv s → reconciled ended s ob r s' → cfg_inv s'.
Proof.
  intros [Hf Hn Hl] [Hst Hr]. destruct ob as [| |cm|c].
  - destruct Hr as [-> _]. by split.
  - destruct Hr as (_ & _ & Hp & Hlog). split; rewrite ?Hp, ?Hlog, ?Hst; [done|done|].
    intros Hb. by apply store_after_loaded, Hl.
  - destruct Hr as (_ & _ & Hp & Hlog).
    assert (∀ f, (∀ cm, f (Rejected cm) = false) → count_events f (cfg_log s') = count_events f (cfg_log s)) as Hc.
    { intros f Hrej. rewrite Hlog, count_events_app. case_bool_decide; [apply Nat.add_0_r|].
      unfold count_events at 2. rewrite filter_cons, decide_False by (by rewrite Hrej). apply Nat.add_0_r. }
    split.
    + rewrite Hp, Hlog. intros Hpend. apply fanout_done_app; [by apply Hf|].
      case_bool_decide; [apply not_elem_of_nil|]. rewrite list_elem_of_singleton. done.
    + by rewrite !Hc.
    + rewrite Hc by done. intros Hb. rewrite Hst. by apply store_after_loaded, Hl.
  - destruct Hr as (_ & [Hdone _] & l & Hlog & [Hq1 Hq2] & _). split.
    + by apply Hdone.
    + rewrite Hlog, !count_events_app, Hq1, Hq2, Hn.
      by destruct (ConfigStore.BusinessChanged _).
    + intros _. rewrite Hst. cbn [store_after]. apply Loaded_Apply.
Qed.

(** C9.  A reconcile of another object does nothing.  A reconcile of the fixed
    ConfigMap installs exactly what [Parse] and the tuning accept; for a missing
    or refused ConfigMap it keeps the installed configuration, clears the valid
    flag, succeeds, and reports one version once; for an unreadable one it
    changes nothing and fails.  After an accepted one it returns success only
    when no publication is left pending (or the process is stopping), and it
    publishes nothing when neither the business configuration changed nor a
    publication was pending. *)
Theorem Reconcile_correct (fetch : result api_error ConfigMap) (ended : Prop) o ns name s :
  wp (cfg_exec fetch ended) (Reconcile o ns name) s (λ r s',
    if bool_decide (ns = ro_ControllerNamespace o) && bool_decide (name = ro_ConfigMapName o)
    then reconciled ended s (observe fetch o (cs_runtime s)) r s' ∨ (r = Ok tt ∧ s' = s ∧ ended)
    else r = Ok tt ∧ s' = s).
Proof. apply wp_reconcile. Qed.

(** C8.  However the reads, sends and lists of a sequence of reconciles fail, no
    business change is forgotten: as long as it is not marked pending, every
    Namespace and then every ServiceAccount listed after it was published; each
    change notifies the scheduler once; and a configuration once loaded stays
    loaded. *)
Theorem fanout_not_lost o rqs s :
  cfg_inv s → runs o rqs s cfg_inv.
Proof.
  revert s. induction rqs as [|q rqs IH]; intros s Hs; cbn [runs]; [done|].
  eapply wp_mono; [|apply wp_reconcile]. intros r s' Hr. apply IH.
  destruct (_ && _); [|by destruct Hr as [_ ->]].
  destruct Hr as [Hr|(_ & -> & _)]; [by eapply reconciled_inv|done].
Qed.
End runs.

(** ** A concrete controller *)
Module ConfigurationExample.
Import ParserExample KubeclientExample.
#[local] Existing Instance KubeclientExample.bucket_pair.
#[local] Existing Instance KubeclientExample.bucket_pair_laws.
Definition options : ReconcilerOptions := MkReconcilerOptions "system" "config" true.
Definition s0 : CfgState := MkCfgState ConfigStore.empty r0 "" false [].
Definition good : request := MkRequest "system" "config" (Ok (MkConfigMap "uid" "1" data)) False.
Definition bad : request := MkRequest "system" "config" (Ok (MkConfigMap "uid" "2" ∅)) False.
Definition gone : request := MkRequest "system" "config" (Err NotFound) False.

Lemma s0_inv : cfg_inv s0.
Proof. split; [intros _; left; apply not_elem_of_nil|reflexivity|done]. Qed.

Lemma fanout_not_lost_witness : cfg_inv s0 ∧ runs options [good; bad; gone; good] s0 cfg_inv.
Proof.
  split; [exact s0_inv|].
  exact (fanout_not_lost (B := bucket_pair) (R := range_forward) (D := dns1123) (Y := yaml)
    (F := floats) options [good; bad; gone; good] s0 s0_inv).
Defined.

(** A publication that is pending when the ConfigMap disappears is not retried:
    the reconcile succeeds, and the mark stays. *)
Definition stalled : CfgState :=
  MkCfgState (ConfigStore.MkStore (Some snapshot) true) r0 "" true [BusinessChange; Notified].
Example pending_fanout_stalls :
  wp (cfg_exec (Err NotFound) False) (Reconcile options "system" "config") stalled (λ r s',
    r = Ok tt ∧ pendingFanout s' = true ∧ cfg_log s' = cfg_log stalled).
Proof.
  eapply wp_mono; [|apply wp_reconcile]. intros r s' [(_ & Hr & _ & Hp & Hlog)|(_ & _ & [])].
  done.
Qed.
End ConfigurationExample.
