(* ===== verification/Controller.v ===== *)
(** * The resource controllers (internal/controller)

    Options, the two reconcilers, the event handlers and the event mappings.  A
    reconciler knows its syncer through the interface [Syncer] only; the queue
    and the exponential backoff belong to client-go. *)
From S2P Require Import Prelude Prog GoStrings Validation ConfigTypes ConfigStore Credential Kube.
From S2P Require Import RegistrySecret SecretSyncer ServiceAccount.

(** ** Options (options.go) *)
Definition DefaultControllerNamespace : string := "registry-secret-controller-system".
Definition DefaultConfigMapName : string := "registry-secret-controller-config".
Definition DefaultManagedSecretName : string := "auto-patch-secret".
Definition DefaultMaxConcurrentNamespaceReconciles : Z := DefaultWorkers.
Definition DefaultMaxConcurrentServiceAccountReconciles : Z := DefaultWorkers.

Record ControllerOptions := MkControllerOptions {
  ControllerNamespace : string;
  ConfigMapName : string;
  ManagedSecretName : string;
  MaxConcurrentNamespaceReconciles : Z;
  MaxConcurrentServiceAccountReconciles : Z
}.

Definition default_string (value fallback : string) : string :=
  if bool_decide (value = "") then fallback else value.
Definition default_int (value fallback : Z) : Z := if (value =? 0)%Z then fallback else value.

Definition controller_withDefaults (o : ControllerOptions) : ControllerOptions :=
  MkControllerOptions
    (default_string (ControllerNamespace o) DefaultControllerNamespace)
    (default_string (ConfigMapName o) DefaultConfigMapName)
    (default_string (ManagedSecretName o) DefaultManagedSecretName)
    (default_int (MaxConcurrentNamespaceReconciles o) DefaultMaxConcurrentNamespaceReconciles)
    (default_int (MaxConcurrentServiceAccountReconciles o)
       DefaultMaxConcurrentServiceAccountReconciles).

Inductive options_error :=
| InvalidControllerNamespace (problems : list string)
| InvalidConfigMapName (problems : list string)
| InvalidManagedSecretName (problems : list string)
| TooFewNamespaceReconciles (n : Z)
| TooFewServiceAccountReconciles (n : Z).

(** What the cache watches, per kind: the namespaces (none means all) and the
    name selected. *)
Record CacheOptions := MkCacheOptions {
  ReaderFailOnMissingInformer : bool;
  configMap_namespaces : list string;
  configMap_name : string;
  secret_name : string
}.

Section options.
Context `{DNSValidation}.

Definition controller_validate (o : ControllerOptions) : result options_error () :=
  match IsDNS1123Label (ControllerNamespace o) with
  | (_ :: _) as problems => Err (InvalidControllerNamespace problems)
  | [] =>
  match IsDNS1123Subdomain (ConfigMapName o) with
  | (_ :: _) as problems => Err (InvalidConfigMapName problems)
  | [] =>
  match IsDNS1123Subdomain (ManagedSecretName o) with
  | (_ :: _) as problems => Err (InvalidManagedSecretName problems)
  | [] =>
    if (MaxConcurrentNamespaceReconciles o <? 1)%Z
    then Err (TooFewNamespaceReconciles (MaxConcurrentNamespaceReconciles o))
    else if (MaxConcurrentServiceAccountReconciles o <? 1)%Z
    then Err (TooFewServiceAccountReconciles (MaxConcurrentServiceAccountReconciles o))
    else Ok tt
  end end end.

Definition NewCacheOptions (o : ControllerOptions) : result options_error CacheOptions :=
  let o := controller_withDefaults o in
  _ ← controller_validate o;
  mret (MkCacheOptions true [ControllerNamespace o] (ConfigMapName o) (ManagedSecretName o)).
End options.

(** ** Requests and the syncer interface *)
Record Request := MkRequest { req_namespace : string; req_name : string }.
#[export] Instance Request_eq_dec : EqDecision Request.
Proof. solve_decision. Defined.
#[export] Instance Request_countable : Countable Request.
Proof.
  refine (inj_countable' (λ r, (req_namespace r, req_name r)) (λ p, MkRequest p.1 p.2) _).
  by intros [].
Defined.

(** What a reconciler needs of its syncer: the sync of one key, and what the
    error tells ([errors.Is] on the wrapped error). *)
Class Syncer (E : Type → Type) (err key : Type) := {
  sync : key → prog E (result err ());
  err_canceled : err → bool;
  err_not_ready : err → bool
}.

Definition sync_error_canceled (e : sync_error) : bool :=
  match e with
  | GetNamespaceFailed e | GetSecretFailed e | DeleteFailed e | DeleteEmptyFailed e
  | CreateFailed e | UpdateFailed e => is_canceled e
  | BuildFailed _ => false
  end.

(** The two implementations. *)
Definition namespace_syncer `{RangeOrder} (secretName : string) : Syncer syncE sync_error string := {|
  sync := SyncNamespaceSecret secretName;
  err_canceled := sync_error_canceled;
  err_not_ready _ := false
|}.
Definition account_syncer (secretName : string) : Syncer saE sa_error Request := {|
  sync r := SyncServiceAccount secretName (req_namespace r) (req_name r);
  err_canceled := sa_error_canceled;
  err_not_ready := is_not_ready
|}.

(** The calls of the reconcilers themselves. *)
Inductive ctlE : Type → Type :=
| StoreLoaded : ctlE bool
| ContextEnded : ctlE bool
| BackoffWhen (r : Request) : ctlE Duration
| BackoffForget (r : Request) : ctlE ().

Inductive reconcile_error (err : Type) := SyncFailed (r : Request) (e : err).
Arguments SyncFailed {err}.

(** [ctrl.Result] is its [RequeueAfter]. *)
Abbreviation reconciled_result err := (result (reconcile_error err) Duration).

Section reconcilers.
Context {E : Type → Type} {err : Type}.

(** namespace_reconciler.go *)
Definition NamespaceSecretReconciler_Reconcile `{Syncer E err string} (r : Request) :
    prog (sumE ctlE E) (reconciled_result err) :=
  if negb (bool_decide (req_namespace r = "")) || bool_decide (req_name r = "")
  then mret (Ok 0%Z)
  else
    loaded ← own StoreLoaded;
    if negb loaded then mret (Ok 0%Z)
    else
      outcome ← lift (sync (req_name r));
      match outcome with
      | Ok _ => mret (Ok 0%Z)
      | Err e =>
        ended ← own ContextEnded;
        if ended && err_canceled e then mret (Ok 0%Z) else mret (Err (SyncFailed r e))
      end.

(** serviceaccount_reconciler.go *)
Definition secretDependencyInitialDelay : Duration := (100 * Millisecond)%Z.
Definition secretDependencyMaxDelay : Duration := (5 * Second)%Z.

Definition forget_and_succeed (r : Request) : prog (sumE ctlE E) (reconciled_result err) :=
  _ ← own (BackoffForget r); mret (Ok 0%Z).

Definition ServiceAccountReconciler_Reconcile `{Syncer E err Request} (r : Request) :
    prog (sumE ctlE E) (reconciled_result err) :=
  if bool_decide (req_namespace r = "") || bool_decide (req_name r = "")
  then forget_and_succeed r
  else
    loaded ← own StoreLoaded;
    if negb loaded then forget_and_succeed r
    else
      outcome ← lift (sync r);
      match outcome with
      | Ok _ => forget_and_succeed r
      | Err e =>
        if err_not_ready e then
          delay ← own (BackoffWhen r);
          mret (Ok delay)
        else
          ended ← own ContextEnded;
          if ended && err_canceled e then forget_and_succeed r
          else mret (Err (SyncFailed r e))
      end.
End reconcilers.

(** ** Events *)

(** The object of an event; a nil pointer of the type is [None]. *)
Inductive event_object :=
| NamespaceObject (name : option string)
| ServiceAccountObject (key : option (string * string))
| SecretObject (secret : Secret)
| OtherObject.

Record CreateEvent := MkCreateEvent { evt_Object : event_object; IsInInitialList : bool }.

(** What a handler does with the queue; [DefaultCreate] hands the event over to
    controller-runtime's [EnqueueRequestForObject]. *)
Inductive queue_call :=
| DefaultCreate (evt : CreateEvent)
| AddWithPriority (priority : Z) (r : Request)
| PlainAdd (r : Request).

Definition liveNamespaceCreatePriority : Z := 100.
Definition liveServiceAccountCreatePriority : Z := 100.

Definition enqueue_live (priority : Z) (priorityQueue : bool) (r : Request) : queue_call :=
  if priorityQueue then AddWithPriority priority r else PlainAdd r.

(** namespace_event_handler.go; the other events are the default handler's. *)
Definition namespaceEventHandler_Create (evt : CreateEvent) (priorityQueue : bool) : queue_call :=
  match evt_Object evt with
  | NamespaceObject (Some name) =>
    if IsInInitialList evt then DefaultCreate evt
    else enqueue_live liveNamespaceCreatePriority priorityQueue (MkRequest "" name)
  | _ => DefaultCreate evt
  end.

(** serviceaccount_event_handler.go *)
Definition serviceAccountEventHandler_Create (evt : CreateEvent) (priorityQueue : bool) : queue_call :=
  match evt_Object evt with
  | ServiceAccountObject (Some key) =>
    if IsInInitialList evt then DefaultCreate evt
    else enqueue_live liveServiceAccountCreatePriority priorityQueue (MkRequest key.1 key.2)
  | _ => DefaultCreate evt
  end.

(** setup.go *)
Definition requestForNamespace (namespace : string) : list Request :=
  if bool_decide (namespace = "") then [] else [MkRequest "" namespace].

Definition mapManagedSecretToNamespace (name : string) (object : event_object) : list Request :=
  match object with
  | SecretObject secret =>
    if bool_decide (sec_Name secret ≠ name) then [] else requestForNamespace (sec_Namespace secret)
  | _ => []
  end.

(** [listed] is the answer of the cached list of the namespace's accounts; every
    error of it is logged or ignored, and nothing is enqueued. *)
Definition mapManagedSecretToServiceAccounts (store : ConfigStore.Store) (name : string)
    (listed : string → result api_error (list (string * string))) (object : event_object) :
    list Request :=
  match object with
  | SecretObject secret =>
    if bool_decide (sec_Name secret ≠ name) || bool_decide (sec_Namespace secret = "") then []
    else match listed (sec_Namespace secret) with
         | Err _ => []
         | Ok accounts =>
           foldl (λ requests key,
             if ConfigStore.MatchesServiceAccount store key.1 key.2
             then requests ++ [MkRequest key.1 key.2] else requests) [] accounts
         end
  | _ => []
  end.

Inductive watch_event :=
| CreateSeen (object : event_object)
| UpdateSeen (old new : event_object)
| DeleteSeen (object : event_object)
| GenericSeen (object : event_object).

Definition serviceAccountSecretPredicate (e : watch_event) : bool :=
  match e with
  | CreateSeen _ => true
  | DeleteSeen _ => false
  | UpdateSeen (SecretObject old) (SecretObject new) =>
    negb (eqb (IsManaged (Some old)) (IsManaged (Some new)))
  | UpdateSeen _ _ => false
  | GenericSeen _ => false
  end.

Definition configMapPredicate (o : ControllerOptions) (namespace name : string) : bool :=
  bool_decide (namespace = ControllerNamespace o) && bool_decide (name = ConfigMapName o).

(** readiness.go: [None] is a nil store. *)
Definition ConfigurationReadyCheck (store : option ConfigStore.Store) : result string () :=
  match store with
  | None => Err "no valid controller configuration has been loaded"
  | Some store =>
    if negb (ConfigStore.Loaded store)
    then Err "no valid controller configuration has been loaded" else Ok tt
  end.

(** ** Setup (setup.go)

    What [SetupWithManager] registers, in order; [complete] is the outcome of
    registering a controller with the manager. *)
Inductive watch_source :=
| WatchNamespaces
| WatchSecretsToNamespace
| WatchNamespaceEvents
| WatchServiceAccounts
| WatchSecretsToServiceAccounts
| WatchServiceAccountEvents
| WatchConfigMap.

Record Registration := MkRegistration {
  Named : string;
  watches : list watch_source;
  MaxConcurrentReconciles : Z;
  NeedLeaderElection : bool;
  EnableWarmup : bool;
  UsePriorityQueue : bool
}.

Inductive setup_error :=
| NilArgument (what : string)
| SetupOptions (e : options_error)
| RegisterFailed (what message : string).

(** The arguments that must not be nil: whether each is given. *)
Record SetupArguments := MkSetupArguments {
  arg_mgr : bool;
  arg_store : bool;
  arg_configurationObserver : bool;
  arg_resourceEvents : bool;
  arg_namespaceSecretSyncer : bool;
  arg_serviceAccountSyncer : bool
}.

Definition namespace_registration (o : ControllerOptions) : Registration :=
  MkRegistration "namespace_secrets" [WatchNamespaces; WatchSecretsToNamespace; WatchNamespaceEvents]
    (MaxConcurrentNamespaceReconciles o) true true true.
Definition account_registration (o : ControllerOptions) : Registration :=
  MkRegistration "service_accounts"
    [WatchServiceAccounts; WatchSecretsToServiceAccounts; WatchServiceAccountEvents]
    (MaxConcurrentServiceAccountReconciles o) true true true.
(** The concurrency that is not set is controller-runtime's, one. *)
Definition configuration_registration : Registration :=
  MkRegistration "configuration" [WatchConfigMap] 1 false false false.

Definition SetupWithManager `{DNSValidation} (a : SetupArguments) (o : ControllerOptions)
    (complete : Registration → result string ()) : result setup_error (list Registration) :=
  if negb (arg_mgr a) then Err (NilArgument "manager")
  else if negb (arg_store a) then Err (NilArgument "config store")
  else if negb (arg_configurationObserver a) then Err (NilArgument "configuration observer")
  else if negb (arg_resourceEvents a) then Err (NilArgument "resource event publisher")
  else if negb (arg_namespaceSecretSyncer a) then Err (NilArgument "namespace Secret syncer")
  else if negb (arg_serviceAccountSyncer a) then Err (NilArgument "ServiceAccount syncer")
  else
    let o := controller_withDefaults o in
    match controller_validate o with
    | Err e => Err (SetupOptions e)
    | Ok _ =>
      match complete (namespace_registration o) with
      | Err m => Err (RegisterFailed "namespace Secret controller" m)
      | Ok _ =>
        match complete (account_registration o) with
        | Err m => Err (RegisterFailed "ServiceAccount controller" m)
        | Ok _ =>
          match complete configuration_registration with
          | Err m => Err (RegisterFailed "configuration controller" m)
          | Ok _ => Ok [namespace_registration o; account_registration o; configuration_registration]
          end
        end
      end
    end.
