(* ===== verification/ControllerCorrect.v ===== *)
(** * Correctness of the resource controllers *)
From S2P Require Import Prelude Prog GoStrings Validation ConfigTypes ConfigStore Credential Kube.
From S2P Require Import SecretCodec RegistrySecret SecretSyncer SecretSyncerCorrect.
From S2P Require Import ServiceAccount ServiceAccountCorrect Controller.

(** ** The calls of a reconciler

    [loaded_of] reads the configuration store in the syncer's state; the keys
    for which the backoff keeps a failure count are those it answered a delay
    for and has not forgotten since. *)
Section ctl.
Context {T : Type} (loaded_of : T → bool) (ended : Prop).

Definition ctl_exec (X : Type) (e : ctlE X) (t : T) : gset Request → X → gset Request → Prop :=
  match e in ctlE X return gset Request → X → gset Request → Prop with
  | StoreLoaded => λ s x s', x = loaded_of t ∧ s' = s
  | ContextEnded => λ s x s', (x = true → ended) ∧ s' = s
  | BackoffWhen r => λ s x s',
      (secretDependencyInitialDelay ≤ x ≤ secretDependencyMaxDelay)%Z ∧ s' = {[r]} ∪ s
  | BackoffForget r => λ s x s', s' = s ∖ {[r]}
  end.
End ctl.

Section reconcilers.
Context {E : Type → Type} {err T : Type} (HF : ∀ X, E X → T → X → T → Prop).
Context (loaded_of : T → bool) (ended : Prop).
Abbreviation step := (sum_exec (ctl_exec loaded_of ended) HF).

(** A request that names no object of the kind, or comes before any configuration. *)
Definition namespace_skipped (r : Request) (t : T) : bool :=
  negb (bool_decide (req_namespace r = "")) || bool_decide (req_name r = "") || negb (loaded_of t).
Definition account_skipped (r : Request) (t : T) : bool :=
  bool_decide (req_namespace r = "") || bool_decide (req_name r = "") || negb (loaded_of t).

(** From the outcome of the sync to the outcome of the reconcile. *)
Definition namespace_outcome `{!Syncer E err string} (r : Request) (outcome : result err ())
    (res : reconciled_result err) : Prop :=
  match outcome with
  | Ok _ => res = Ok 0%Z
  | Err e => res = Err (SyncFailed r e) ∨ (res = Ok 0%Z ∧ err_canceled e = true ∧ ended)
  end.
Definition account_outcome_of `{!Syncer E err Request} (r : Request) (s : gset Request)
    (outcome : result err ()) (res : reconciled_result err) (s' : gset Request) : Prop :=
  match outcome with
  | Ok _ => res = Ok 0%Z ∧ s' = s ∖ {[r]}
  | Err e =>
    if err_not_ready e then
      ∃ delay, res = Ok delay ∧ s' = {[r]} ∪ s ∧
        (0 < delay ≤ secretDependencyMaxDelay)%Z
    else (res = Err (SyncFailed r e) ∧ s' = s) ∨
         (res = Ok 0%Z ∧ s' = s ∖ {[r]} ∧ err_canceled e = true ∧ ended)
  end.

(** *** Beside the rest of the process

    The rest moves the backoff's state along [Rs] and the syncer's along [R]; the
    syncer's calls move its state along [G]. *)
Section beside.
Context (Rs : gset Request → gset Request → Prop) `{!PreOrder Rs} (R G : T → T → Prop).
Hypothesis R_refl : ∀ t, R t t.
Hypothesis R_trans : ∀ a b c, R a b → R b c → R a c.
Hypothesis R_loaded : ∀ a b, R a b → loaded_of b = loaded_of a.
Hypothesis G_refl : ∀ t, G t t.

Definition beside_rely (a b : gset Request * T) : Prop := Rs a.1 b.1 ∧ R a.2 b.2.
Definition beside_guar (r : Request) (a b : gset Request * T) : Prop :=
  b.1 ∖ {[r]} = a.1 ∖ {[r]} ∧ G a.2 b.2.
Abbreviation beside r := (rg step beside_rely (beside_guar r)).

Lemma beside_refl st : beside_rely st st.
Proof. split; [done|apply R_refl]. Qed.
#[local] Hint Resolve beside_refl : core.

(** The sync, and then what the handler makes of its outcome. *)
Lemma rg_lift_bind {A B} (p : prog E A) (f : A → prog (sumE ctlE E) B) r s t (Ψ : A → T → Prop) Φ :
  rg HF R G p t Ψ → (∀ a s' t', Rs s s' → Ψ a t' → beside r (f a) (s', t') Φ) →
  beside r (lift p ≫= f) (s, t) Φ.
Proof.
  intros Hp Hf. apply rg_bind; [done|]. eapply rg_mono.
  2: { eapply (rg_guar _ _ (λ a b, b.1 = a.1 ∧ G a.2 b.2)).
       - intros a b [Heq HG]. split; [by rewrite Heq|done].
       - by apply (rg_lift (ctl_exec loaded_of ended) HF Rs R G p s t Ψ). }
  intros a [s' t'] [Hs HΨ]. by apply Hf.
Qed.

Lemma rg_namespace_reconcile `{!Syncer E err string} r s t (Ψ : result err () → T → Prop) :
  (∀ o a b, Ψ o a → R a b → Ψ o b) →
  (namespace_skipped r t = false → ∀ t', R t t' → rg HF R G (sync (req_name r)) t' Ψ) →
  beside r (NamespaceSecretReconciler_Reconcile r) (s, t) (λ res st, Rs s st.1 ∧
    if namespace_skipped r t then res = Ok 0%Z ∧ R t st.2
    else ∃ outcome, Ψ outcome st.2 ∧ namespace_outcome r outcome res).
Proof.
  intros HΨ. unfold NamespaceSecretReconciler_Reconcile, namespace_skipped.
  destruct (_ || bool_decide (req_name r = "")); cbn [orb]; [by intros _ [s1 t1] [Hs Ht]|].
  unfold own at 1. cbn [mbind prog_bind prog_bind_def call rg].
  intros Hsync [s1 t1] [Hs1 Ht1] x [s2 t2] [[-> Hs] Ht]. simpl in *. subst s2 t2.
  split; [by split|]. rewrite (R_loaded _ _ Ht1).
  destruct (loaded_of t); cbn [negb].
  2: { intros [s3 t3] [Hs3 Ht3]. split; [by etrans|]. split; [done|]. by eapply R_trans. }
  eapply rg_lift_bind; [by apply Hsync|]. intros [u|e] s3 t3 Hs3 HΨ3.
  - intros [s4 t4] [Hs4 Ht4]. split; [by do 2 (etrans; [done|])|]. exists (Ok u). split; [by eapply HΨ|done].
  - unfold own. cbn [mbind prog_bind prog_bind_def call rg].
    intros [s4 t4] [Hs4 Ht4] b [s5 t5] [[Hb Hs] Ht]. simpl in *. subst s5 t5. split; [by split|].
    destruct (b && err_canceled e) eqn:Hbe; intros [s5 t5] [Hs5 Ht5]; cbn [fst snd] in *.
    all: split; [by do 3 (etrans; [done|])|]; exists (Err e); (split; [by eapply HΨ, R_trans|]).
    + apply andb_true_iff in Hbe as [-> Hc]. right. split; [done|]. split; [done|by apply Hb].
    + by left.
Qed.

Lemma rg_forget `{!Syncer E err Request} r s t Φ :
  (∀ s' s'' t', Rs s s' → Rs (s' ∖ {[r]}) s'' → R t t' → Φ (Ok 0%Z) (s'', t')) →
  beside r (forget_and_succeed (E := E) (err := err) r) (s, t) Φ.
Proof.
  intros HΦ. unfold forget_and_succeed, own. cbn [mbind prog_bind prog_bind_def call rg].
  intros [s1 t1] [Hs1 Ht1] u [s2 t2] [Hs Ht]. simpl in *. subst s2 t2.
  split; [split; [set_solver|done]|]. intros [s3 t3] [Hs3 Ht3]. eapply HΦ; [done|done|]. by eapply R_trans.
Qed.

Lemma rg_account_reconcile `{!Syncer E err Request} r s t (Ψ : result err () → T → Prop) :
  (∀ o a b, Ψ o a → R a b → Ψ o b) →
  (account_skipped r t = false → ∀ t', R t t' → rg HF R G (sync r) t' Ψ) →
  beside r (ServiceAccountReconciler_Reconcile r) (s, t) (λ res st, ∃ s1 s2, Rs s s1 ∧ Rs s2 st.1 ∧
    if account_skipped r t then res = Ok 0%Z ∧ s2 = s1 ∖ {[r]} ∧ R t st.2
    else ∃ outcome, Ψ outcome st.2 ∧ account_outcome_of r s1 outcome res s2).
Proof.
  intros HΨ. unfold ServiceAccountReconciler_Reconcile, account_skipped.
  destruct (_ || bool_decide (req_name r = "")); cbn [orb].
  { intros _. apply rg_forget. intros s1 s2 t1 Hs1 Hs2 Ht1. by exists s1, (s1 ∖ {[r]}). }
  unfold own at 1. cbn [mbind prog_bind prog_bind_def call rg].
  intros Hsync [s1 t1] [Hs1 Ht1] x [s2 t2] [[-> Hs] Ht]. simpl in *. subst s2 t2.
  split; [by split|]. rewrite (R_loaded _ _ Ht1). destruct (loaded_of t); cbn [negb].
  2: { apply rg_forget. intros s2 s3 t3 Hs2 Hs3 Ht3. exists s2, (s2 ∖ {[r]}). split; [by etrans|].
       split; [done|]. split; [done|]. split; [done|]. by eapply R_trans. }
  eapply rg_lift_bind; [by apply Hsync|]. intros [u|e] s3 t3 Hs3 HΨ3.
  - apply rg_forget. intros s4 s5 t5 Hs4 Hs5 Ht5. exists s4, (s4 ∖ {[r]}).
    split; [by do 2 (etrans; [done|])|]. split; [done|]. exists (Ok u). split; [by eapply HΨ|done].
  - destruct (err_not_ready e) eqn:He; unfold own; cbn [mbind prog_bind prog_bind_def call rg].
    + intros [s4 t4] [Hs4 Ht4] delay [s5 t5] [[Hd Hs] Ht]. simpl in *. subst s5 t5.
      split; [split; [cbn; set_solver|done]|]. intros [s5 t5] [Hs5 Ht5]. cbn [fst snd] in *.
      exists s4, ({[r]} ∪ s4). split; [by do 2 (etrans; [done|])|]. split; [done|].
      exists (Err e). split; [by eapply HΨ, R_trans|]. unfold account_outcome_of. rewrite He.
      exists delay. unfold secretDependencyInitialDelay, Millisecond in Hd. split; [done|]. split; [done|]. lia.
    + intros [s4 t4] [Hs4 Ht4] b [s5 t5] [[Hb Hs] Ht]. simpl in *. subst s5 t5. split; [by split|].
      destruct (b && err_canceled e) eqn:Hbe.
      * apply rg_forget. intros s5 s6 t6 Hs5 Hs6 Ht6. exists s5, (s5 ∖ {[r]}).
        split; [by do 3 (etrans; [done|])|]. split; [done|]. exists (Err e). split; [by eapply HΨ, R_trans|].
        apply andb_true_iff in Hbe as [-> Hc]. unfold account_outcome_of. rewrite He. right.
        do 2 (split; [done|]). split; [done|by apply Hb].
      * intros [s5 t5] [Hs5 Ht5]. cbn [fst snd] in *. exists s5, s5. split; [by do 3 (etrans; [done|])|].
        split; [done|]. exists (Err e). split; [by eapply HΨ, R_trans|]. unfold account_outcome_of. rewrite He. by left.
Qed.
End beside.

(** *** Alone *)
Lemma wp_namespace_reconcile `{!Syncer E err string} r s t Ψ :
  (namespace_skipped r t = false → wp HF (sync (req_name r)) t Ψ) →
  wp step (NamespaceSecretReconciler_Reconcile r) (s, t) (λ res st,
    st.1 = s ∧ if namespace_skipped r t then res = Ok 0%Z ∧ st.2 = t
    else ∃ outcome, Ψ outcome st.2 ∧ namespace_outcome r outcome res).
Proof.
  intros Hsync. eapply wp_mono, (rg_wp _ (beside_rely eq eq)); [|done|].
  2: { apply (rg_namespace_reconcile eq eq (λ _ _, True)); [done|by intros ??? -> ->|by intros ?? ->|done|by intros ??? ? <-|].
       intros Hskip t' <-. by apply wp_rg, Hsync. }
  intros res [s1 t1] [<- Hr]. split; [done|]. destruct (namespace_skipped r t); [|done].
  by destruct Hr as [-> <-].
Qed.

Lemma wp_account_reconcile `{!Syncer E err Request} r s t Ψ :
  (account_skipped r t = false → wp HF (sync r) t Ψ) →
  wp step (ServiceAccountReconciler_Reconcile r) (s, t) (λ res st,
    if account_skipped r t then res = Ok 0%Z ∧ st = (s ∖ {[r]}, t)
    else ∃ outcome, Ψ outcome st.2 ∧ account_outcome_of r s outcome res st.1).
Proof.
  intros Hsync. eapply wp_mono, (rg_wp _ (beside_rely eq eq)); [|done|].
  2: { apply (rg_account_reconcile eq eq (λ _ _, True)); [done|by intros ??? -> ->|by intros ?? ->|done|by intros ??? ? <-|].
       intros Hskip t' <-. by apply wp_rg, Hsync. }
  intros res [s1 t1] (s2 & s3 & Hs2 & Hs3 & Hr). simpl in *. subst s2 s3.
  destruct (account_skipped r t); [|done]. by destruct Hr as (-> & -> & ->).
Qed.
End reconcilers.

(** ** Properties *)

(** Every reconcile of the Namespace controller, with the Secret syncer
    behind its interface and under any interleaving, writes at most once and only
    to Secrets the controller owns; it does nothing for a request that names no
    Namespace or before a configuration is loaded, succeeds without requeueing
    exactly when the sync did, and otherwise returns the error to the queue,
    unless the process is stopping. *)
Theorem namespace_controller_safe `{R : RangeOrder} {K : Type} `{!ApiServer Secret K}
    `{!ApiServerLaws K} (namespace_read : string → K → result api_error () → Prop)
    (ended : Prop) secretName r (s : gset Request) (t : SyncState K) :
  let loaded_of (t : SyncState K) := ConfigStore.Loaded (ss_config t) in
  wp (sum_exec (ctl_exec loaded_of ended) (interleaved namespace_read))
    (NamespaceSecretReconciler_Reconcile (H := namespace_syncer secretName) r) (s, t) (λ res st,
    st.1 = s ∧ safe_writes (req_name r) secretName t st.2 ∧
    if namespace_skipped loaded_of r t then res = Ok 0%Z ∧ st.2 = t
    else ∃ outcome, namespace_outcome (Syncer0 := namespace_syncer secretName) ended r outcome res).
Proof.
  cbv zeta. eapply wp_mono; [|apply (wp_namespace_reconcile (interleaved namespace_read) _ ended);
    intros _; apply wp_sync_safe].
  intros res [s1 t1] [Hs Hr]. split; [done|]. destruct (namespace_skipped _ _ _).
  - destruct Hr as [-> Ht]. cbn in Ht. subst t1. split; [by apply safe_none|done].
  - destruct Hr as (outcome & Hsafe & Hout). split; [exact Hsafe|]. by exists outcome.
Qed.

(** Every reconcile of the ServiceAccount controller patches at most once
    and only the managed reference; while the Secret is not ready it asks for a
    delayed retry within the backoff's bounds, and in every other finished case
    the key's backoff is forgotten, so retry state does not accumulate; an error
    keeps it and goes to the queue. *)
Theorem account_controller_safe {K : Type} `{!ApiServer Secret K} `{!ApiServer ServiceAccount K}
    `{!ApiServerLaws (O := ServiceAccount) K} (ended : Prop) secretName r (s : gset Request)
    (t : SAState K) :
  let loaded_of (t : SAState K) := ConfigStore.Loaded (sa_config t) in
  wp (sum_exec (ctl_exec loaded_of ended) sa_interleaved)
    (ServiceAccountReconciler_Reconcile (H := account_syncer secretName) r) (s, t) (λ res st,
    safe_patches secretName t st.2 ∧
    if account_skipped loaded_of r t then res = Ok 0%Z ∧ st = (s ∖ {[r]}, t)
    else ∃ outcome, account_outcome_of (Syncer0 := account_syncer secretName) ended r s outcome res st.1).
Proof.
  cbv zeta. eapply wp_mono; [|apply (wp_account_reconcile sa_interleaved _ ended);
    intros _; apply wp_account_safe].
  intros res [s1 t1] Hr. destruct (account_skipped _ _ _).
  - destruct Hr as [-> Hst]. split; [|done]. injection Hst as _ ->. by apply safe_no_patch.
  - destruct Hr as (outcome & Hsafe & Hout). split; [exact Hsafe|]. by exists outcome.
Qed.

(** C21.  No change of ownership goes unnoticed: when an update of the fixed Secret
    turns what a selected account should carry from one settled answer to the
    other, the predicate lets the event through, and the mapping then enqueues
    exactly the selected accounts of the Secret's namespace. *)
Theorem ownership_change_wakes_accounts store snapshot ns name (old new : Secret) listed accounts :
  ConfigStore.current store = Some snapshot →
  sec_Namespace new = ns → sec_Name new = name → ns ≠ "" →
  listed ns = Ok accounts → (∀ key, key ∈ accounts → key.1 = ns) →
  (serviceAccountSecretPredicate (UpdateSeen (SecretObject old) (SecretObject new)) = false →
     ∀ account wanted wanted',
       reference_wanted snapshot ns account (Some old) = Some wanted →
       reference_wanted snapshot ns account (Some new) = Some wanted' → wanted = wanted') ∧
  ∀ r, r ∈ mapManagedSecretToServiceAccounts store name listed (SecretObject new) ↔
       req_namespace r = ns ∧ (ns, req_name r) ∈ accounts ∧
       MatchesNamespace snapshot ns && Matches (ServiceAccounts snapshot) (req_name r) = true.
Proof.
  intros Hstore Hns Hname Hne Hlisted Hkeys. split.
  - cbn [serviceAccountSecretPredicate]. rewrite negb_false_iff, eqb_true_iff. intros Hm account wanted wanted'.
    unfold reference_wanted. destruct (_ && _); [|congruence]. rewrite Hm.
    destruct (IsManaged (Some new)); cbn [negb]; [|congruence].
    destruct (IsUsableForServiceAccount (Some old)), (IsUsableForServiceAccount (Some new)); congruence.
  - intros r. cbn [mapManagedSecretToServiceAccounts]. rewrite Hns, Hname, Hlisted.
    rewrite bool_decide_false by (intros Hn; by apply Hn).
    rewrite bool_decide_false by done. cbn [orb].
    assert (∀ acc l, r ∈ foldl (λ requests key,
        if ConfigStore.MatchesServiceAccount store key.1 key.2
        then requests ++ [MkRequest key.1 key.2] else requests) acc l ↔
      r ∈ acc ∨ ∃ key, key ∈ l ∧ ConfigStore.MatchesServiceAccount store key.1 key.2 = true ∧
        r = MkRequest key.1 key.2) as Hfold.
    { intros acc l. revert acc. induction l as [|key l IH]; intros acc; cbn [foldl].
      - split; [by left|]. intros [?|(? & ?%not_elem_of_nil & _)]; done.
      - rewrite IH. setoid_rewrite elem_of_cons.
        destruct (ConfigStore.MatchesServiceAccount store key.1 key.2) eqn:Hk.
        + rewrite elem_of_app, list_elem_of_singleton. split.
          * intros [[?| ->]|(key' & ? & ? & ?)]; [by left|right; exists key; eauto|right; exists key'; eauto].
          * intros [?|(key' & [->|?] & ? & ?)]; [by left; left|by left; right|right; eauto].
        + split; [intros [?|(key' & ? & ? & ?)]; [by left|right; exists key'; eauto]|].
          intros [?|(key' & [->|?] & ? & ?)]; [by left|congruence|right; eauto]. }
    rewrite Hfold. unfold ConfigStore.MatchesServiceAccount. rewrite Hstore. split.
    + intros [Hr%not_elem_of_nil|([ns' n] & Hin & Hmatch & ->)]; [done|].
      pose proof (Hkeys _ Hin) as Hk. simpl in Hk, Hmatch |- *. subst ns'. done.
    + intros (Hr & Hin & Hmatch). right. exists (ns, req_name r).
      split; [done|]. split; [done|]. destruct r; simpl in *. by subst.
Qed.

(** Readiness is sticky: whatever updates and invalid observations the store
    has seen, the check passes exactly when some update has ever been applied. *)
Theorem ready_once_configured ops :
  ConfigurationReadyCheck (Some (foldl ConfigStore.step ConfigStore.empty ops)) = Ok tt ↔
  ∃ c, ConfigStore.OpApply c ∈ ops.
Proof.
  unfold ConfigurationReadyCheck.
  assert (∀ s, ConfigStore.Loaded (foldl ConfigStore.step s ops) = true ↔
    ConfigStore.Loaded s = true ∨ ∃ c, ConfigStore.OpApply c ∈ ops) as Hl.
  { induction ops as [|op ops IH]; intros s; cbn [foldl].
    - split; [by left|]. intros [?|[c ?%not_elem_of_nil]]; done.
    - rewrite IH. setoid_rewrite elem_of_cons. destruct op as [c|]; cbn [ConfigStore.step].
      + assert (ConfigStore.Loaded (ConfigStore.Apply s c).2 = true) as ->.
        { unfold ConfigStore.Apply, ConfigStore.Loaded.
          destruct (ConfigStore.current s) as [cur|]; [destruct (Equal cur (Clone c))|]; done. }
        split; [intros _; right; exists c; by left|by left].
      + change (ConfigStore.Loaded (ConfigStore.MarkInvalid s)) with (ConfigStore.Loaded s).
        split; [intros [?|[c ?]]; [by left|right; eauto]|].
        intros [?|[c [?|?]]]; [by left|done|right; eauto]. }
  specialize (Hl ConfigStore.empty). destruct (ConfigStore.Loaded _); cbn [negb].
  - split; [|done]. intros _. destruct (proj1 Hl eq_refl); done.
  - split; [done|]. intros Hc. by apply (or_intror (A := ConfigStore.Loaded ConfigStore.empty = true)), Hl in Hc.
Qed.

(** Setup registers the three controllers or none of their successors: the
    options are completed and valid, the controllers that write run on the
    leader only with the configured concurrency, the configuration controller
    runs on every replica, and the cache watches the ConfigMap and the Secret of
    the same names. *)
Theorem setup_correct `{DNSValidation} a o complete regs :
  SetupWithManager a o complete = Ok regs →
  let o' := controller_withDefaults o in
  regs = [namespace_registration o'; account_registration o'; configuration_registration] ∧
  controller_validate o' = Ok tt ∧
  NewCacheOptions o = Ok (MkCacheOptions true [ControllerNamespace o'] (ConfigMapName o') (ManagedSecretName o')) ∧
  (1 ≤ MaxConcurrentNamespaceReconciles o')%Z ∧ (1 ≤ MaxConcurrentServiceAccountReconciles o')%Z ∧
  (∀ reg, reg ∈ regs → complete reg = Ok tt ∧
     (NeedLeaderElection reg = false ↔ reg = configuration_registration)).
Proof.
  unfold SetupWithManager. intros Hs. cbv zeta. set (o' := controller_withDefaults o) in *.
  destruct (arg_mgr a), (arg_store a), (arg_configurationObserver a), (arg_resourceEvents a),
    (arg_namespaceSecretSyncer a), (arg_serviceAccountSyncer a); cbn [negb] in Hs; try discriminate Hs.
  destruct (controller_validate o') as [[]|e] eqn:Hv; [|done].
  destruct (complete (namespace_registration o')) as [[]|] eqn:H1; [|done].
  destruct (complete (account_registration o')) as [[]|] eqn:H2; [|done].
  destruct (complete configuration_registration) as [[]|] eqn:H3; [|done].
  injection Hs as <-. split; [done|]. split; [done|].
  split; [unfold NewCacheOptions; fold o'; by rewrite Hv|].
  unfold controller_validate in Hv. destruct (IsDNS1123Label _); [|done].
  destruct (IsDNS1123Subdomain (ConfigMapName _)); [|done].
  destruct (IsDNS1123Subdomain (ManagedSecretName _)); [|done].
  destruct (Z.ltb_spec (MaxConcurrentNamespaceReconciles o') 1); [done|].
  destruct (Z.ltb_spec (MaxConcurrentServiceAccountReconciles o') 1); [done|].
  split; [lia|]. split; [lia|]. intros reg. rewrite !elem_of_cons.
  intros [->|[->|[->|?%not_elem_of_nil]]]; done.
Qed.

(** ** Examples *)
Module ControllerExample.

Lemma namespace_controller_safe_witness :
  let loaded_of (t : SyncState SyncerExample.cluster_state) := ConfigStore.Loaded (ss_config t) in
  wp (sum_exec (ctl_exec loaded_of False)
       (interleaved (R := range_forward) (ApiServer0 := SyncerExample.server) SyncerExample.namespace_present))
    (NamespaceSecretReconciler_Reconcile (H := namespace_syncer (H := range_forward) "acr")
       (MkRequest "" "team-a"))
    (∅, SyncerExample.s0) (λ res st,
      st.1 = ∅ ∧ safe_writes "team-a" "acr" SyncerExample.s0 st.2 ∧
      ∃ outcome, namespace_outcome (Syncer0 := namespace_syncer (H := range_forward) "acr") False
        (MkRequest "" "team-a") outcome res).
Proof.
  exact (namespace_controller_safe (R := range_forward) (ApiServer0 := SyncerExample.server)
    (ApiServerLaws0 := SyncerExample.server_laws) SyncerExample.namespace_present False "acr"
    (MkRequest "" "team-a") ∅ SyncerExample.s0).
Defined.

Definition account_request : Request := MkRequest "team-b" "default".
Lemma account_controller_safe_witness :
  let loaded_of (t : SAState ServiceAccountExample.cluster_state) := ConfigStore.Loaded (sa_config t) in
  wp (sum_exec (ctl_exec loaded_of False)
       (sa_interleaved (ApiServer0 := ServiceAccountExample.secrets) (ApiServer1 := ServiceAccountExample.server)))
    (ServiceAccountReconciler_Reconcile (H := account_syncer "acr") account_request)
    (∅, ServiceAccountExample.s0) (λ res st,
      safe_patches "acr" ServiceAccountExample.s0 st.2 ∧
      ∃ outcome, account_outcome_of (Syncer0 := account_syncer "acr") False account_request ∅
        outcome res st.1).
Proof.
  exact (account_controller_safe (ApiServer0 := ServiceAccountExample.secrets) (ApiServer1 := ServiceAccountExample.server)
    (ApiServerLaws0 := ServiceAccountExample.server_laws) False "acr" account_request ∅
    ServiceAccountExample.s0).
Defined.

(** The Secret of [team-a] loses its labels: its account must drop the reference. *)
Definition store : ConfigStore.Store := ConfigStore.MkStore (Some ServiceAccountExample.snapshot) true.
Definition unlabelled : Secret :=
  MkSecret "team-a" "acr" "uid" "8" None SecretTypeDockerConfigJson ∅ ∅ ∅.
Definition listed (ns : string) : result api_error (list (string * string)) :=
  Ok [(ns, "builder"); (ns, "default")].
Lemma ownership_change_wakes_accounts_witness :
  reference_wanted ServiceAccountExample.snapshot "team-a" "default" (Some ServiceAccountExample.managed)
  ≠ reference_wanted ServiceAccountExample.snapshot "team-a" "default" (Some unlabelled) ∧
  MkRequest "team-a" "default" ∈
    mapManagedSecretToServiceAccounts store "acr" listed (SecretObject unlabelled).
Proof.
  split; [apply (bool_decide_unpack _); vm_compute; exact I|].
  refine (proj2 (proj2 (ownership_change_wakes_accounts store ServiceAccountExample.snapshot "team-a" "acr"
    ServiceAccountExample.managed unlabelled listed [("team-a", "builder"); ("team-a", "default")]
    eq_refl eq_refl eq_refl ltac:(discriminate) eq_refl _) (MkRequest "team-a" "default")) _).
  - intros key [->|[->|[]%not_elem_of_nil]%elem_of_cons]%elem_of_cons; reflexivity.
  - split; [reflexivity|]. split; [right; left|reflexivity].
Defined.

Definition arguments : SetupArguments := MkSetupArguments true true true true true true.
Definition no_options : ControllerOptions := MkControllerOptions "" "" "" 0 0.
Lemma setup_correct_witness :
  ∃ regs, SetupWithManager (H := dns1123) arguments no_options (λ _, Ok tt) = Ok regs ∧
    ∀ reg, reg ∈ regs → NeedLeaderElection reg = false ↔ reg = configuration_registration.
Proof.
  eexists. split; [vm_compute; reflexivity|]. intros reg Hin.
  refine (proj2 (proj2 (proj2 (proj2 (proj2 (proj2
    (setup_correct (H := dns1123) arguments no_options (λ _, Ok tt) _ _))))) reg Hin)).
  vm_compute. reflexivity.
Defined.
End ControllerExample.
