(* ===== verification/Metrics.v ===== *)
(** * Metrics (internal/observability/metrics.go, logging.go)

    [Collect] is a function of what it reads: the stores, the two flags at each
    of their atomic loads, the two cached lists and the clock.  A gauge is its
    description and labels; the values are integers, exact in a [float64].  The
    counter vector is the map from its label values to its count. *)
From S2P Require Import Prelude GoStrings Rfc3339 SecretCodec ConfigTypes ConfigStore Credential Kube.
From S2P Require Import RegistrySecret.

Inductive gauge :=
| Active
| ObservationSuccess
| ConfigValid
| CredentialExpiration (registry : string)
| SecretTargets (registry state : string)
| OldestSecretExpiration (registry : string).
#[export] Instance gauge_eq_dec : EqDecision gauge.
Proof. solve_decision. Defined.

Definition status_name (s : registry_status) : string :=
  match s with
  | Synced => "synced" | Pending => "pending" | Conflict => "conflict"
  | Invalid => "invalid" | Expired => "expired"
  end.
Definition targetStates : list string := ["synced"; "pending"; "conflict"; "invalid"; "expired"].

Definition boolValue (value : bool) : Z := if value then 1%Z else 0%Z.

(** ** The request counters *)
Record Requests := MkRequests {
  known : gset RegistryKey;
  counters : gmap (string * string) Z
}.

Definition DeleteLabelValues (c : gmap (string * string) Z) (registry result : string) :=
  delete (registry, result) c.
(** [WithLabelValues] creates the counter at zero. *)
Definition WithLabelValues (c : gmap (string * string) Z) (registry result : string) :
    gmap (string * string) Z :=
  match c !! (registry, result) with
  | Some _ => c
  | None => <[(registry, result) := 0%Z]> c
  end.
Definition Inc (c : gmap (string * string) Z) (registry result : string) : gmap (string * string) Z :=
  let c := WithLabelValues c registry result in
  <[(registry, result) := (default 0 (c !! (registry, result)) + 1)%Z]> c.

Definition prune_key (registries : gmap RegistryKey RegistryConfig) (r : Requests) (key : RegistryKey) :
    Requests :=
  match registries !! key with
  | Some _ => r
  | None =>
    MkRequests (known r ∖ {[key]})
      (DeleteLabelValues (DeleteLabelValues (counters r) (RegistryKey_String key) "success")
         (RegistryKey_String key) "error")
  end.
Definition ensure_key (r : Requests) (key : RegistryKey) : Requests :=
  MkRequests (known r ∪ {[key]})
    (WithLabelValues (WithLabelValues (counters r) (RegistryKey_String key) "success")
       (RegistryKey_String key) "error").

(** [measuredProvider.GetAuthorizationToken]: what it records of one call;
    [canceled] is [errors.Is(ctx.Err(), context.Canceled)]. *)
Definition measure (configStore : ConfigStore.Store) (key : RegistryKey) (canceled ok : bool)
    (r : Requests) : Requests :=
  if canceled then r
  else
    match Registries (ConfigStore.Load configStore).1 !! key with
    | Some _ => MkRequests (known r ∪ {[key]})
                  (Inc (counters r) (RegistryKey_String key) (if ok then "success" else "error"))
    | None => r
    end.

(** ** The states of the target copies *)
Record NamespaceItem := MkNamespaceItem {
  ni_Name : string;
  ni_deleted : bool;
  ni_terminating : bool
}.

Definition by_namespace (secretName : string) (secrets : list Secret) : gmap string Secret :=
  foldl (λ m secret, if bool_decide (sec_Name secret = secretName)
                     then <[sec_Namespace secret := secret]> m else m) ∅ secrets.

Abbreviation counts_map := (gmap RegistryKey (gmap string Z)).
Definition bump (counts : counts_map) (key : RegistryKey) (state : string) : counts_map :=
  let states := default ∅ (counts !! key) in
  <[key := <[state := (default 0 (states !! state) + 1)%Z]> states]> counts.

Definition oldest_at (oldest : gmap RegistryKey GoTime) (key : RegistryKey) : GoTime :=
  default zero_time (oldest !! key).
Definition note_expiry (oldest : gmap RegistryKey GoTime) (key : RegistryKey) (expires : GoTime) :
    gmap RegistryKey GoTime :=
  if negb (IsZero expires)
     && (IsZero (oldest_at oldest key)
         || (unix_nano expires <? unix_nano (oldest_at oldest key))%Z)
  then <[key := expires]> oldest else oldest.

Definition observe_registry (actual expected : Inspection) (now : Time)
    (st : counts_map * gmap RegistryKey GoTime) (kr : RegistryKey * RegistryConfig) :
    counts_map * gmap RegistryKey GoTime :=
  let '(state, expires) := RegistryStatus actual kr.2 expected now in
  (bump st.1 kr.1 (status_name state), note_expiry st.2 kr.1 expires).

Definition is_target (snapshot : ConfigurationSnapshot) (n : NamespaceItem) : bool :=
  negb (ni_deleted n || ni_terminating n || negb (MatchesNamespace snapshot (ni_Name n))).

Section collect.
Context `{RangeOrder}.

Definition observe_namespace (snapshot : ConfigurationSnapshot) (secrets : gmap string Secret)
    (expected : Inspection) (now : Time) (st : counts_map * gmap RegistryKey GoTime)
    (n : NamespaceItem) : counts_map * gmap RegistryKey GoTime :=
  if negb (is_target snapshot n) then st
  else foldl (observe_registry (Inspect (secrets !! ni_Name n)) expected now) st
         (range (Registries snapshot)).

(** The Secret that the controller would render for a namespace without one. *)
Definition expected_secret (content : Content) : Secret :=
  MkSecret "" "" "" "" None "" {[ DockerConfigJsonKey := DockerJSON content ]} ∅
    {[ StateAnnotationKey := StateJSON content ]}.

Definition update_requests (registries : gmap RegistryKey RegistryConfig) (r : Requests) : Requests :=
  let r := foldl (prune_key registries) r (elements (known r)) in
  foldl ensure_key r (range registries).*1.

Definition unix (t : GoTime) : Z := (unix_nano t / Second)%Z.

Definition registry_gauges (counts : counts_map) (oldest : gmap RegistryKey GoTime)
    (credentials : gmap RegistryKey Entry) (kr : RegistryKey * RegistryConfig) : list (gauge * Z) :=
  let key := RegistryKey_String kr.1 in
  ((λ state, (SecretTargets key state, default 0%Z (default ∅ (counts !! kr.1) !! state))) <$> targetStates)
  ++ (match credentials !! kr.1 with
      | Some entry =>
        if MatchesRegistry entry kr.2
        then [(CredentialExpiration key, (ExpiresAt (entry_Credential entry) / Second)%Z)] else []
      | None => []
      end)
  ++ (let value := oldest_at oldest kr.1 in
      if negb (IsZero value) then [(OldestSecretExpiration key, unix value)] else []).

(** The atomic loads of [active] and [synced], in order. *)
Record Flags := MkFlags { emitted : bool; gate : bool; synced : bool; at_end : bool }.

(** [Load] and [Valid] take the lock of the store twice and read one store here: a
    configuration installed in between shows in the [ConfigValid] gauge alone. *)
Definition Collect (configStore : ConfigStore.Store) (credentialStore : CredentialStore.Store)
    (secretName : string) (flags : Flags) (namespaces : result api_error (list NamespaceItem))
    (secrets : result api_error (list Secret)) (now : Time) (r : Requests) :
    Requests * list (gauge * Z) :=
  let '(snapshot, loaded) := ConfigStore.Load configStore in
  let r := update_requests (Registries snapshot) r in
  let head := [(Active, boolValue (emitted flags)); (ConfigValid, boolValue (ConfigStore.Valid configStore))] in
  let failed := (r, head ++ [(ObservationSuccess, 0%Z)]) in
  if negb (gate flags) || negb (synced flags) || negb loaded then failed
  else
    match namespaces, secrets with
    | Ok namespaces, Ok secrets =>
      let credentials := CredentialStore.Snapshot credentialStore in
      match Build snapshot credentials None with
      | (_, _ :: _) => failed
      | (content, []) =>
        let expected := Inspect (Some (expected_secret content)) in
        let byNamespace := by_namespace secretName secrets in
        let counts : counts_map :=
          foldl (λ m kr, <[kr.1 := ∅]> m) ∅ (range (Registries snapshot)) in
        let '(counts, oldest) :=
          foldl (observe_namespace snapshot byNamespace expected now) (counts, ∅) namespaces in
        if negb (at_end flags) then failed
        else (r, head ++ [(ObservationSuccess, 1%Z)] ++
                 (range (Registries snapshot) ≫= registry_gauges counts oldest credentials))
      end
    | _, _ => failed
    end.
End collect.

(** ** Construction and logging *)
Record MetricsArguments := MkMetricsArguments {
  has_registerer : bool;
  has_config : bool;
  has_credentials : bool;
  has_reader : bool;
  has_wait : bool;
  ma_SecretName : string
}.

(** [New]: the counters it starts with, unless an argument is missing or the
    registration fails. *)
Definition New (a : MetricsArguments) (register : result string ()) : result string Requests :=
  if negb (has_registerer a) || negb (has_config a) || negb (has_credentials a)
     || negb (has_reader a) || negb (has_wait a) || bool_decide (ma_SecretName a = "")
  then Err "metrics requires a registry, stores, synchronized cache and Secret name"
  else match register with Err e => Err e | Ok _ => Ok (MkRequests ∅ ∅) end.

Inductive log_level := LevelDebug | LevelInfo | LevelWarn | LevelError.
Definition LogLevel (value : string) : result string log_level :=
  if bool_decide (value = "debug") then Ok LevelDebug
  else if bool_decide (value = "info") then Ok LevelInfo
  else if bool_decide (value = "warn") then Ok LevelWarn
  else if bool_decide (value = "error") then Ok LevelError
  else Err "log level must be debug, info, warn or error".
