(* ===== verification/MetricsCorrect.v ===== *)
(** * Correctness of the metrics

    The states of the target copies are counted once each, the earliest
    expiration is the earliest, and labels of removed registries disappear. *)
From S2P Require Import Prelude GoStrings Rfc3339 SecretCodec ConfigTypes ConfigStore Credential Kube.
From S2P Require Import RegistrySecret RegistrySecretTheory RegistrySecretCorrect Metrics.

(** ** Counts *)
Definition count_at (counts : counts_map) (key : RegistryKey) (state : string) : Z :=
  default 0%Z (default ∅ (counts !! key) !! state).
Definition one_if (b : bool) : Z := if b then 1%Z else 0%Z.

Lemma count_at_bump counts key state key' state' :
  count_at (bump counts key state) key' state'
  = (count_at counts key' state' + one_if (bool_decide (key' = key ∧ state' = state)))%Z.
Proof.
  unfold count_at, bump, one_if. destruct (decide (key' = key)) as [->|Hk].
  - rewrite lookup_insert_eq. cbn [default from_option id]. destruct (decide (state' = state)) as [->|Hs].
    + rewrite lookup_insert_eq, bool_decide_true by done. done.
    + rewrite lookup_insert_ne, bool_decide_false by naive_solver. lia.
  - rewrite lookup_insert_ne, bool_decide_false by naive_solver. lia.
Qed.

Definition min_step (o e : GoTime) : GoTime :=
  if negb (IsZero e) && (IsZero o || (unix_nano e <? unix_nano o)%Z) then e else o.

Lemma oldest_at_note oldest key e key' :
  oldest_at (note_expiry oldest key e) key'
  = if bool_decide (key' = key) then min_step (oldest_at oldest key) e else oldest_at oldest key'.
Proof.
  unfold note_expiry, min_step. case_bool_decide as Hk.
  - subst. destruct (negb (IsZero e) && _); [|done]. unfold oldest_at. by rewrite lookup_insert_eq.
  - destruct (negb (IsZero e) && _); [|done]. unfold oldest_at. by rewrite lookup_insert_ne.
Qed.

(** The least of the expirations that are given. *)
Lemma min_fold_spec es o :
  let t := foldl min_step o es in
  (IsZero t = true ↔ IsZero o = true ∧ ∀ e, e ∈ es → IsZero e = true) ∧
  (IsZero t = false → (t = o ∨ t ∈ es) ∧
     ∀ e, e = o ∨ e ∈ es → IsZero e = false → (unix_nano t ≤ unix_nano e)%Z).
Proof.
  revert o. induction es as [|e es IH]; intros o; cbn [foldl]; cbv zeta.
  - split.
    + split; [|tauto]. intros Ho. split; [done|]. by intros e ?%not_elem_of_nil.
    + intros _. split; [by left|]. by intros e [->|?%not_elem_of_nil].
  - specialize (IH (min_step o e)). cbv zeta in IH. destruct IH as [Hz Hnz].
    set (t := foldl min_step (min_step o e) es) in *.
    assert (IsZero (min_step o e) = IsZero o && IsZero e) as Hmz.
    { unfold min_step. destruct (IsZero e) eqn:He; cbn [negb andb]; [by destruct (IsZero o)|].
      destruct (IsZero o) eqn:Ho; cbn [orb andb]; [done|]. by destruct (_ <? _)%Z. }
    split.
    + rewrite Hz, Hmz, andb_true_iff. setoid_rewrite elem_of_cons. split.
      * intros [[Ho He] Hes]. split; [done|]. intros e' [->|Hin]; [done|by apply Hes].
      * intros [Ho Hes]. split; [split; [done|by apply Hes; left]|]. intros e' Hin. by apply Hes; right.
    + intros Ht. destruct (Hnz Ht) as [Hin Hmin]. split.
      * rewrite elem_of_cons. destruct Hin as [Hin|Hin]; [|by right; right].
        assert (min_step o e = o ∨ min_step o e = e) as [Hm|Hm]
          by (unfold min_step; destruct (negb (IsZero e) && _); tauto).
        -- left. congruence.
        -- right. left. congruence.
      * assert (∀ x, x = o ∨ x = e → IsZero x = false →
          IsZero (min_step o e) = false ∧ (unix_nano (min_step o e) ≤ unix_nano x)%Z) as Hstep.
        { intros x Hx Hxz. unfold min_step.
          destruct (IsZero e) eqn:He; cbn [negb andb].
          { destruct Hx as [->| ->]; [split; [done|lia]|congruence]. }
          destruct (IsZero o) eqn:Ho; cbn [orb].
          { destruct Hx as [->| ->]; [congruence|split; [done|lia]]. }
          destruct (Z.ltb_spec (unix_nano e) (unix_nano o)); destruct Hx as [->| ->]; (split; [done|lia]). }
        intros x Hx Hxz. rewrite elem_of_cons in Hx.
        destruct Hx as [Hx|[Hx|Hx]]; [| |by apply Hmin; [right|]].
        -- destruct (Hstep x (or_introl Hx) Hxz) as [Hmn Hle].
           pose proof (Hmin (min_step o e) (or_introl eq_refl) Hmn). lia.
        -- destruct (Hstep x (or_intror Hx) Hxz) as [Hmn Hle].
           pose proof (Hmin (min_step o e) (or_introl eq_refl) Hmn). lia.
Qed.

(** ** One namespace *)
Section observe.
Context `{RangeOrder} (snapshot : ConfigurationSnapshot) (secrets : gmap string Secret)
  (expected : Inspection) (now : Time).

(** The state and expiration of the copy of a registry in a namespace. *)
Definition copy_status (r : RegistryConfig) (n : NamespaceItem) : registry_status * GoTime :=
  RegistryStatus (Inspect (secrets !! ni_Name n)) r expected now.

Lemma observe_registry_eq actual st kr :
  observe_registry actual expected now st kr
  = (bump st.1 kr.1 (status_name (RegistryStatus actual kr.2 expected now).1),
     note_expiry st.2 kr.1 (RegistryStatus actual kr.2 expected now).2).
Proof. unfold observe_registry. by destruct (RegistryStatus _ _ _ _). Qed.

Lemma fold_registries_out actual l st k s :
  k ∉ l.*1 →
  count_at (foldl (observe_registry actual expected now) st l).1 k s = count_at st.1 k s ∧
  oldest_at (foldl (observe_registry actual expected now) st l).2 k = oldest_at st.2 k.
Proof.
  revert st. induction l as [|[k' r'] l IH]; intros st Hk; cbn [foldl]; [done|].
  cbn [fmap list_fmap] in Hk. rewrite not_elem_of_cons in Hk. destruct Hk as [Hne Hk].
  cbn [fst] in Hne. destruct (IH (observe_registry actual expected now st (k', r')) Hk) as [-> ->].
  rewrite observe_registry_eq. cbn [fst snd].
  rewrite count_at_bump, oldest_at_note, !bool_decide_false by naive_solver.
  unfold one_if. split; [lia|done].
Qed.

Lemma fold_registries_in actual l st k r s :
  NoDup l.*1 → (k, r) ∈ l →
  count_at (foldl (observe_registry actual expected now) st l).1 k s
  = (count_at st.1 k s +
     one_if (bool_decide (s = status_name (RegistryStatus actual r expected now).1)))%Z ∧
  oldest_at (foldl (observe_registry actual expected now) st l).2 k
  = min_step (oldest_at st.2 k) (RegistryStatus actual r expected now).2.
Proof.
  revert st. induction l as [|[k' r'] l IH]; intros st Hnd Hin; cbn [foldl];
    [by apply not_elem_of_nil in Hin|].
  cbn [fmap list_fmap] in Hnd. apply NoDup_cons in Hnd as [Hk' Hnd]. cbn [fst] in Hk'.
  apply elem_of_cons in Hin as [Heq|Hin].
  - injection Heq as <- <-.
    destruct (fold_registries_out actual l (observe_registry actual expected now st (k, r)) k s Hk')
      as [-> ->].
    rewrite observe_registry_eq. cbn [fst snd].
    rewrite count_at_bump, oldest_at_note, (bool_decide_true (k = k)) by done. split; [|done].
    do 2 f_equal. apply bool_decide_ext. tauto.
  - assert (k ≠ k') as Hne.
    { intros ->. apply Hk'. apply list_elem_of_fmap. by exists (k', r). }
    destruct (IH (observe_registry actual expected now st (k', r')) Hnd Hin) as [-> ->].
    rewrite observe_registry_eq. cbn [fst snd].
    rewrite count_at_bump, oldest_at_note, (bool_decide_false (k = k' ∧ _)),
      (bool_decide_false (k = k')) by naive_solver.
    split; [unfold one_if; lia|done].
Qed.

Definition targets (ns : list NamespaceItem) : list NamespaceItem :=
  filter (λ n, is_target snapshot n = true) ns.

Lemma fold_namespaces ns st k r s :
  Registries snapshot !! k = Some r →
  let final := foldl (observe_namespace snapshot secrets expected now) st ns in
  count_at final.1 k s = (count_at st.1 k s + Z.of_nat (length
    (filter (λ n, status_name (copy_status r n).1 = s) (targets ns))))%Z ∧
  oldest_at final.2 k
  = foldl min_step (oldest_at st.2 k) ((λ n, (copy_status r n).2) <$> targets ns).
Proof.
  intros Hr. cbv zeta. revert st. induction ns as [|n ns IH]; intros st; cbn [foldl].
  { split; [simpl; lia|done]. }
  destruct (IH (observe_namespace snapshot secrets expected now st n)) as [-> ->].
  unfold observe_namespace, targets. rewrite (filter_cons _ n).
  destruct (is_target snapshot n) eqn:Ht; cbn [negb].
  - rewrite decide_True by done. cbn [fmap list_fmap foldl].
    destruct (fold_registries_in (Inspect (secrets !! ni_Name n)) (range (Registries snapshot)) st k r s)
      as [-> ->]; [apply NoDup_range_fst|by apply elem_of_range|].
    split; [|done]. rewrite filter_cons. unfold one_if. change (RegistryStatus _ r expected now)
      with (copy_status r n).
    destruct (decide (status_name (copy_status r n).1 = s)) as [Hs|Hs].
    + rewrite bool_decide_true by done. cbn [length]. lia.
    + rewrite bool_decide_false by congruence. lia.
  - by rewrite decide_False.
Qed.
End observe.

(** ** Request labels *)
Definition results : list string := ["success"; "error"].

(** Every counter is one of a known registry. *)
Definition labels_known (r : Requests) : Prop :=
  ∀ x res, is_Some (counters r !! (x, res)) → ∃ k, k ∈ known r ∧ x = RegistryKey_String k ∧ res ∈ results.

Definition distinct_keys (ks : gset RegistryKey) : Prop :=
  ∀ k1 k2, k1 ∈ ks → k2 ∈ ks → RegistryKey_String k1 = RegistryKey_String k2 → k1 = k2.

Lemma WithLabelValues_lookup c x res y :
  WithLabelValues c x res !! y =
  if bool_decide (y = (x, res)) then Some (default 0%Z (c !! y)) else c !! y.
Proof.
  unfold WithLabelValues. destruct (c !! (x, res)) as [v|] eqn:Hc; case_bool_decide as Hy; subst.
  - by rewrite Hc.
  - done.
  - by rewrite lookup_insert_eq, Hc.
  - by rewrite lookup_insert_ne.
Qed.

Lemma elem_of_results res : res ∈ results ↔ res = "success" ∨ res = "error".
Proof. unfold results. rewrite !elem_of_cons. split; [intros [?|[?|?%not_elem_of_nil]]; tauto|tauto]. Qed.

Lemma prune_lookup regs r k x res :
  counters (prune_key regs r k) !! (x, res) =
  if bool_decide (regs !! k = None ∧ x = RegistryKey_String k ∧ res ∈ results) then None
  else counters r !! (x, res).
Proof.
  unfold prune_key. destruct (regs !! k) as [reg|]; [by rewrite bool_decide_false by (intros []; done)|].
  cbn [counters]. unfold DeleteLabelValues. rewrite !lookup_delete. case_bool_decide as Hb.
  - destruct Hb as (_ & -> & Hres%elem_of_results). destruct Hres as [->| ->].
    + by destruct (decide _); [|rewrite decide_True].
    + by rewrite decide_True.
  - rewrite !decide_False; [done|..]; intros [= <- <-]; apply Hb; (split; [done|]; split; [done|]);
      apply elem_of_results; tauto.
Qed.

Lemma ensure_lookup r k x res :
  counters (ensure_key r k) !! (x, res) =
  if bool_decide (x = RegistryKey_String k ∧ res ∈ results)
  then Some (default 0%Z (counters r !! (x, res))) else counters r !! (x, res).
Proof.
  unfold ensure_key. cbn [counters]. rewrite !WithLabelValues_lookup.
  destruct (decide (x = RegistryKey_String k)) as [->|Hx].
  2: { by rewrite !bool_decide_false by (first [congruence|intros [? _]; done]). }
  destruct (decide (res = "error")) as [->|He].
  { rewrite (bool_decide_true (_ ∧ _)) by (split; [done|by apply elem_of_results; right]).
    rewrite bool_decide_true by done. by rewrite bool_decide_false. }
  rewrite (bool_decide_false ((RegistryKey_String k, res) = (RegistryKey_String k, "error"))) by congruence.
  destruct (decide (res = "success")) as [->|Hs].
  { rewrite (bool_decide_true (_ ∧ _)) by (split; [done|by apply elem_of_results; left]).
    by rewrite bool_decide_true. }
  rewrite !bool_decide_false; [done|..]; [|congruence]. rewrite elem_of_results. tauto.
Qed.

Lemma fold_prune regs ks r :
  let r' := foldl (prune_key regs) r ks in
  known r' = known r ∖ list_to_set (filter (λ k, regs !! k = None) ks) ∧
  (∀ x res, (∀ k, k ∈ ks → regs !! k = None → x ≠ RegistryKey_String k) →
     counters r' !! (x, res) = counters r !! (x, res)) ∧
  (∀ x res, is_Some (counters r' !! (x, res)) → is_Some (counters r !! (x, res)) ∧
     ∀ k, k ∈ ks → regs !! k = None → res ∈ results → x ≠ RegistryKey_String k).
Proof.
  cbv zeta. revert r. induction ks as [|k ks IH]; intros r; cbn [foldl].
  { split; [cbn; set_solver|]. split; [done|]. intros x res Hx. split; [done|].
    by intros k ?%not_elem_of_nil. }
  destruct (IH (prune_key regs r k)) as (Hk & Hout & Hin). split; [|split].
  - rewrite Hk, filter_cons. unfold prune_key. destruct (regs !! k) as [reg|] eqn:Hr.
    + rewrite decide_False by done. done.
    + rewrite decide_True by done. cbn [known list_to_set]. set_solver.
  - intros x res Hx. rewrite Hout by (intros k' ?; apply Hx; by right).
    rewrite prune_lookup, bool_decide_false; [done|]. intros (Hr & Heq & _).
    by apply (Hx k); [left|..].
  - intros x res Hs. destruct (Hin x res Hs) as [Hs' Hne]. rewrite prune_lookup in Hs'.
    case_bool_decide as Hb; [by destruct Hs'|]. split; [done|].
    intros k' [->|Hk']%elem_of_cons Hr Hres; [|by apply Hne]. intros ->. by apply Hb.
Qed.

Lemma fold_ensure ks r :
  let r' := foldl ensure_key r ks in
  known r' = known r ∪ list_to_set ks ∧
  (∀ k res, k ∈ ks → res ∈ results → counters r' !! (RegistryKey_String k, res)
     = Some (default 0%Z (counters r !! (RegistryKey_String k, res)))) ∧
  (∀ x res, is_Some (counters r' !! (x, res)) →
     is_Some (counters r !! (x, res)) ∨ ∃ k, k ∈ ks ∧ x = RegistryKey_String k ∧ res ∈ results).
Proof.
  cbv zeta. revert r. induction ks as [|k ks IH]; intros r; cbn [foldl].
  { split; [cbn; set_solver|]. split; [by intros k res ?%not_elem_of_nil|]. tauto. }
  destruct (IH (ensure_key r k)) as (Hk & Hin & Hout). split; [|split].
  - rewrite Hk. cbn [known ensure_key list_to_set]. set_solver.
  - intros k' res Hk' Hres. apply elem_of_cons in Hk' as [->|Hk'].
    + destruct (decide (k ∈ ks)) as [Hks|Hks].
      * rewrite Hin by done. rewrite ensure_lookup, bool_decide_true by done. done.
      * assert (∀ ks r, is_Some (counters r !! (RegistryKey_String k, res)) →
          counters (foldl ensure_key r ks) !! (RegistryKey_String k, res)
          = counters r !! (RegistryKey_String k, res)) as Hstable.
        { clear. induction ks as [|k' ks IH]; intros r Hs; cbn [foldl]; [done|].
          assert (counters (ensure_key r k') !! (RegistryKey_String k, res)
            = counters r !! (RegistryKey_String k, res)) as He.
          { rewrite ensure_lookup. destruct Hs as [v ->]. by case_bool_decide. }
          rewrite IH; rewrite He; done. }
        assert (counters (ensure_key r k) !! (RegistryKey_String k, res)
          = Some (default 0%Z (counters r !! (RegistryKey_String k, res)))) as He
          by by rewrite ensure_lookup, bool_decide_true.
        by rewrite Hstable, He by by rewrite He.
    + rewrite Hin by done. rewrite ensure_lookup. by case_bool_decide.
  - intros x res Hs. destruct (Hout x res Hs) as [Hs'|(k' & Hk' & Hx & Hres)].
    + rewrite ensure_lookup in Hs'. case_bool_decide as Hb; [|by left].
      right. exists k. split; [left|done].
    + right. exists k'. split; [by right|done].
Qed.

(** ** Properties *)

(** Scraping makes the request labels follow the configuration: afterwards the
    known registries and the label values are exactly the configured ones, with
    both results, and the counts of a registry that stays are kept. *)
Theorem requests_follow_configuration `{RangeOrder} regs r :
  labels_known r → distinct_keys (known r ∪ dom regs) →
  let r' := update_requests regs r in
  known r' = dom regs ∧
  (∀ k res, k ∈ dom regs → res ∈ results → counters r' !! (RegistryKey_String k, res)
     = Some (default 0%Z (counters r !! (RegistryKey_String k, res)))) ∧
  ∀ x res, is_Some (counters r' !! (x, res)) →
    ∃ k, k ∈ dom regs ∧ x = RegistryKey_String k ∧ res ∈ results.
Proof.
  intros Hlab Hdist. cbv zeta. unfold update_requests.
  destruct (fold_prune regs (elements (known r)) r) as (Hk1 & Hout1 & Hin1).
  set (r1 := foldl (prune_key regs) r (elements (known r))) in *.
  destruct (fold_ensure (range regs).*1 r1) as (Hk2 & Hin2 & Hout2).
  assert (∀ k, k ∈ (range regs).*1 ↔ k ∈ dom regs) as Hrange.
  { intros k. rewrite list_elem_of_fmap, elem_of_dom. split.
    - intros ([k' v] & -> & Hv%elem_of_range). by exists v.
    - intros [v Hv]. exists (k, v). split; [done|]. by apply elem_of_range. }
  split; [|split].
  - rewrite Hk2, Hk1. apply set_eq. intros k.
    rewrite elem_of_union, elem_of_difference, !elem_of_list_to_set, list_elem_of_filter, elem_of_elements, Hrange.
    destruct (regs !! k) as [v|] eqn:Hr.
    + rewrite elem_of_dom, Hr. split; [done|]. by right.
    + split; [|by right]. intros [[Hk Hn]|Hd]; [|done]. exfalso. by apply Hn.
  - intros k res Hk Hres. rewrite Hin2 by by rewrite ?Hrange.
    rewrite Hout1; [done|]. intros k' Hk'%elem_of_elements Hr Heq.
    apply elem_of_dom in Hk as [v Hv].
    apply Hdist in Heq; [subst; congruence| |]; apply elem_of_union; [right|by left].
    by apply elem_of_dom.
  - intros x res [Hs|(k & Hk%Hrange & Hx & Hres)]%Hout2; [|by exists k].
    destruct (Hin1 x res Hs) as [Hs0 Hne]. destruct (Hlab x res Hs0) as (k & Hk & -> & Hres).
    exists k. split; [|done]. apply elem_of_dom. destruct (regs !! k) eqn:Hr; [done|].
    exfalso. by apply (Hne k); [apply elem_of_elements|..].
Qed.

(** A scrape that cannot observe the whole state reports failure and nothing
    else: unless the process leads, its caches are synchronized, a configuration
    is loaded, both lists are read, the expected Secret builds and leadership
    lasts to the end, the only business gauge is observation_success at zero. *)
Theorem partial_observation_emits_nothing `{RangeOrder} cfg creds name flags namespaces secrets now r :
  let '(r', gauges) := Collect cfg creds name flags namespaces secrets now r in
  (gauges = [(Active, boolValue (emitted flags)); (ConfigValid, boolValue (ConfigStore.Valid cfg));
             (ObservationSuccess, 0%Z)] ∨
   (gate flags = true ∧ synced flags = true ∧ at_end flags = true ∧ ConfigStore.Loaded cfg = true ∧
    is_ok namespaces = true ∧ is_ok secrets = true ∧
    (Build (ConfigStore.Load cfg).1 (CredentialStore.Snapshot creds) None).2 = [] ∧
    (ObservationSuccess, 1%Z) ∈ gauges)).
Proof.
  unfold Collect. rewrite ConfigStore.Load_eq. unfold ConfigStore.Loaded.
  destruct (ConfigStore.current cfg) as [snapshot|]; cbn [negb].
  2: { rewrite orb_true_r. by left. }
  rewrite orb_false_r. destruct (gate flags); cbn [negb orb]; [|by left].
  destruct (synced flags); cbn [negb]; [|by left].
  destruct namespaces as [namespaces|e]; [|by left]. destruct secrets as [secrets|e]; [|by left].
  cbn [fst]. destruct (Build snapshot _ None) as [content [|p problems]] eqn:Hb; [|by left].
  destruct (foldl _ _ namespaces) as [counts oldest]. destruct (at_end flags); cbn [negb]; [|by left].
  right. do 7 (split; [done|]). right. right. left.
Qed.

(** The copies of a registry in one state, over the target namespaces. *)
Definition copies (snapshot : ConfigurationSnapshot) (secrets : gmap string Secret) (expected : Inspection)
    (now : Time) (namespaces : list NamespaceItem) (r : RegistryConfig) (state : string) : nat :=
  length (filter (λ n, status_name (copy_status secrets expected now r n).1 = state)
    (targets snapshot namespaces)).

Lemma copies_total snapshot secrets expected now namespaces r :
  sum_list (copies snapshot secrets expected now namespaces r <$> targetStates)
  = length (targets snapshot namespaces).
Proof.
  unfold copies, targetStates. induction (targets snapshot namespaces) as [|n ns IH]; [done|].
  cbn [fmap list_fmap sum_list] in *. rewrite !filter_cons.
  destruct (copy_status secrets expected now r n).1; cbn [status_name];
    repeat (case_decide; try (first [discriminate|done])); unfold id in *; cbn [length] in *; lia.
Qed.

Lemma initial_counts `{RangeOrder} (m : gmap RegistryKey RegistryConfig) key state :
  count_at (foldl (λ c kr, <[kr.1 := ∅]> c) (∅ : counts_map) (range m)) key state = 0%Z.
Proof.
  assert (∀ l (c : counts_map), (∀ k, default ∅ (c !! k) = (∅ : gmap string Z)) →
    ∀ k, default ∅ (foldl (λ c (kr : RegistryKey * RegistryConfig), <[kr.1 := ∅]> c) c l !! k)
      = (∅ : gmap string Z)) as Hl.
  { induction l as [|kr l IH]; intros c Hc k; cbn [foldl]; [done|]. apply IH. intros k'.
    destruct (decide (kr.1 = k')) as [->|]; [by rewrite lookup_insert_eq|by rewrite lookup_insert_ne]. }
  unfold count_at. rewrite Hl; [done|]. intros k. by rewrite lookup_empty.
Qed.

Lemma Collect_success `{RangeOrder} cfg snapshot creds name flags namespaces secrets now req content :
  ConfigStore.current cfg = Some snapshot → gate flags = true → synced flags = true → at_end flags = true →
  Build snapshot (CredentialStore.Snapshot creds) None = (content, []) →
  ∃ counts oldest,
    (∀ k r, Registries snapshot !! k = Some r →
       (∀ state, default 0%Z (default ∅ (counts !! k) !! state) = Z.of_nat
          (copies snapshot (by_namespace name secrets) (Inspect (Some (expected_secret content))) now
             namespaces r state)) ∧
       oldest_at oldest k = foldl min_step zero_time
         ((λ n, (copy_status (by_namespace name secrets) (Inspect (Some (expected_secret content))) now r n).2)
            <$> targets snapshot namespaces)) ∧
    (Collect cfg creds name flags (Ok namespaces) (Ok secrets) now req).2 =
      [(Active, boolValue (emitted flags)); (ConfigValid, boolValue (ConfigStore.Valid cfg));
       (ObservationSuccess, 1%Z)] ++
      (range (Registries snapshot) ≫= registry_gauges counts oldest (CredentialStore.Snapshot creds)).
Proof.
  intros Hcfg Hgate Hsync Hend Hbuild. unfold Collect.
  rewrite ConfigStore.Load_eq, Hcfg, Hgate, Hsync, Hend, Hbuild. cbn [negb orb].
  set (expected := Inspect _). set (counts0 := foldl _ ∅ _).
  pose proof (λ k r, fold_namespaces snapshot (by_namespace name secrets) expected now namespaces
    (counts0, ∅) k r) as Hfold.
  destruct (foldl (observe_namespace _ _ _ _) (counts0, ∅) namespaces) as [counts oldest].
  exists counts, oldest. split; [|done]. intros k r Hk. cbn [fst snd] in Hfold. split.
  - intros state. destruct (Hfold k r state Hk) as [Hc _]. unfold count_at in Hc. rewrite Hc.
    change (default 0%Z (default ∅ (counts0 !! k) !! state)) with (count_at counts0 k state).
    unfold counts0. by rewrite initial_counts.
  - destruct (Hfold k r "" Hk) as [_ Ho]. exact Ho.
Qed.

Lemma list_elem_of_range_bind `{RangeOrder} {A} (m : gmap RegistryKey RegistryConfig) k r
    (f : RegistryKey * RegistryConfig → list A) x :
  m !! k = Some r → x ∈ f (k, r) → x ∈ range m ≫= f.
Proof. intros Hk Hx. apply list_elem_of_bind. exists (k, r). split; [done|by apply elem_of_range]. Qed.

(** C39.  A scrape that succeeds counts every copy once: for each configured
    registry the five states are reported, each with the number of target
    namespaces (matching, neither deleted nor terminating) whose copy is in that
    state, and they add up to the number of targets; the oldest expiration is
    reported exactly when some copy has one, and it is the earliest of them. *)
Theorem target_states_partition `{RangeOrder} cfg snapshot creds name flags namespaces secrets now req
    content k r :
  ConfigStore.current cfg = Some snapshot → Registries snapshot !! k = Some r →
  gate flags = true → synced flags = true → at_end flags = true →
  Build snapshot (CredentialStore.Snapshot creds) None = (content, []) →
  let gauges := (Collect cfg creds name flags (Ok namespaces) (Ok secrets) now req).2 in
  let expected := Inspect (Some (expected_secret content)) in
  let copies_in := copies snapshot (by_namespace name secrets) expected now namespaces r in
  let expirations := (λ n, (copy_status (by_namespace name secrets) expected now r n).2)
    <$> targets snapshot namespaces in
  (∀ state, state ∈ targetStates →
     (SecretTargets (RegistryKey_String k) state, Z.of_nat (copies_in state)) ∈ gauges) ∧
  sum_list (copies_in <$> targetStates) = length (targets snapshot namespaces) ∧
  ((∃ e, e ∈ expirations ∧ IsZero e = false) →
     ∃ t, t ∈ expirations ∧ IsZero t = false ∧
       (∀ e, e ∈ expirations → IsZero e = false → (unix_nano t ≤ unix_nano e)%Z) ∧
       (OldestSecretExpiration (RegistryKey_String k), unix t) ∈ gauges).
Proof.
  intros Hcfg Hk Hgate Hsync Hend Hbuild. cbv zeta.
  destruct (Collect_success cfg snapshot creds name flags namespaces secrets now req content)
    as (counts & oldest & Hspec & ->); [done..|]. destruct (Hspec k r Hk) as [Hcounts Hold].
  split; [|split; [apply copies_total|]].
  - intros state Hstate. apply elem_of_app. right. eapply list_elem_of_range_bind; [exact Hk|].
    unfold registry_gauges. apply elem_of_app. left. apply list_elem_of_fmap. exists state.
    split; [|done]. cbn [fst]. by rewrite Hcounts.
  - intros (e & He & Hez). pose proof (min_fold_spec
      ((λ n, (copy_status (by_namespace name secrets) (Inspect (Some (expected_secret content))) now r n).2)
         <$> targets snapshot namespaces) zero_time) as [Hz Hnz].
    rewrite <-Hold in Hz, Hnz. exists (oldest_at oldest k).
    assert (IsZero (oldest_at oldest k) = false) as Ht.
    { destruct (IsZero (oldest_at oldest k)); [|done].
      destruct (proj1 Hz eq_refl) as [_ Hall]. rewrite (Hall e He) in Hez. done. }
    destruct (Hnz Ht) as [[Hzero|Hin] Hmin].
    { rewrite Hzero in Ht. discriminate Ht. }
    split; [done|]. split; [done|]. split; [intros e' He'; by apply Hmin; right|].
    apply elem_of_app. right. eapply list_elem_of_range_bind; [exact Hk|]. unfold registry_gauges.
    do 2 (apply elem_of_app; right). cbn [fst]. rewrite Ht. cbn [negb]. left.
Qed.

(** ** Examples *)
Module MetricsExample.
Import RegistrySecretExample.
#[local] Existing Instance range_forward.
Definition removed : RegistryKey := MkKey "cn-old" "cri-0".
Definition requests : Requests :=
  MkRequests {[ removed; Key r ]}
    (<[("cn-old/cri-0", "success") := 4%Z]> {[ ("cn-hangzhou/cri-1", "error") := 2%Z ]}).

Lemma requests_follow_configuration_witness :
  labels_known requests ∧
  counters (update_requests registries requests) !! ("cn-hangzhou/cri-1", "error") = Some 2%Z ∧
  known (update_requests registries requests) = dom registries.
Proof.
  assert (labels_known requests) as Hl.
  { intros x res [v Hv]. change (counters requests) with
      (<[("cn-old/cri-0", "success") := 4%Z]> {[ ("cn-hangzhou/cri-1", "error") := 2%Z ]}
        : gmap (string * string) Z) in Hv.
    apply lookup_insert_Some in Hv as [[[= <- <-] _]|[_ [[= <- <-] _]%lookup_singleton_Some]].
    - exists removed. split; [apply (bool_decide_unpack _); vm_compute; exact I|].
      split; [reflexivity|left].
    - exists (Key r). split; [apply (bool_decide_unpack _); vm_compute; exact I|].
      split; [reflexivity|right; left]. }
  assert (distinct_keys (known requests ∪ dom registries)) as Hd.
  { assert (set_Forall (λ k1, set_Forall (λ k2, RegistryKey_String k1 = RegistryKey_String k2 → k1 = k2)
      (known requests ∪ dom registries)) (known requests ∪ dom registries)) as Hall
      by (apply (bool_decide_unpack _); vm_compute; exact I).
    intros k1 k2 H1 H2. exact (Hall k1 H1 k2 H2). }
  split; [exact Hl|].
  destruct (requests_follow_configuration registries requests Hl Hd) as (Hk & Hc & _).
  split; [|exact Hk].
  refine (eq_trans (Hc (Key r) "error" _ _) _).
  - apply (bool_decide_unpack _). vm_compute. exact I.
  - right. left.
  - vm_compute. reflexivity.
Defined.

Definition cfg : ConfigStore.Store := ConfigStore.MkStore (Some snapshot) true.
Definition store : CredentialStore.Store := CredentialStore.MkStore creds 2.
Definition flags : Flags := MkFlags true true true true.
Definition namespaces : list NamespaceItem :=
  [MkNamespaceItem "team-a" false false; MkNamespaceItem "team-b" false false;
   MkNamespaceItem "leaving" true false].
Definition content : Content := (Build snapshot (CredentialStore.Snapshot store) None).1.

Lemma target_states_partition_witness :
  let gauges := (Collect cfg store "acr" flags (Ok namespaces) (Ok [written]) Minute requests).2 in
  (SecretTargets "cn-hangzhou/cri-1" "synced", 1%Z) ∈ gauges.
Proof.
  cbv zeta.
  assert (Build snapshot (CredentialStore.Snapshot store) None = (content, [])) as Hb.
  { apply (bool_decide_unpack _). vm_compute. exact I. }
  pose proof (target_states_partition cfg snapshot store "acr" flags namespaces [written] Minute requests
    content (Key r) r eq_refl ltac:(vm_compute; reflexivity) eq_refl eq_refl eq_refl Hb) as [H _].
  specialize (H "synced" ltac:(left)).
  assert (copies snapshot (by_namespace "acr" [written]) (Inspect (Some (expected_secret content))) Minute
    namespaces r "synced" = 1) as Hn by (vm_compute; reflexivity).
  rewrite Hn in H. exact H.
Defined.
End MetricsExample.
