(* ===== verification/Collector.v ===== *)
(** * The metrics collector as Prometheus sees it (internal/observability/metrics.go)

    [Metrics] has what one scrape computes; here is the collector around it: its
    descriptions, its construction and [Start], the calls of the measured
    provider and scrapes of all its parts.  Prometheus itself is a library: a
    metric is its description and label values, a histogram the durations it
    observed (their buckets are not modelled). *)
From S2P Require Import Prelude Prog GoStrings Rfc3339 ConfigTypes ConfigStore Credential Kube.
From S2P Require Import RegistrySecret Metrics.

Definition prefix : string := "registry_secret_controller_".

(** ** Descriptions *)
Record Desc := MkDesc { fqName : string; variableLabels : list string }.
#[export] Instance Desc_eq_dec : EqDecision Desc.
Proof. solve_decision. Defined.

Definition requestsDesc : Desc := MkDesc (prefix +:+ "provider_requests_total") ["registry"; "result"].
Definition durationDesc : Desc := MkDesc (prefix +:+ "provider_request_duration_seconds") ["result"].
Definition activeDesc : Desc := MkDesc (prefix +:+ "active") [].
Definition successDesc : Desc := MkDesc (prefix +:+ "observation_success") [].
Definition configDesc : Desc := MkDesc (prefix +:+ "config_valid") [].
Definition expiryDesc : Desc :=
  MkDesc (prefix +:+ "credential_expiration_timestamp_seconds") ["registry"].
Definition targetsDesc : Desc := MkDesc (prefix +:+ "secret_targets") ["registry"; "state"].
Definition oldestDesc : Desc :=
  MkDesc (prefix +:+ "oldest_secret_expiration_timestamp_seconds") ["registry"].

Definition Describe : list Desc :=
  [requestsDesc; durationDesc; activeDesc; successDesc; configDesc; expiryDesc; targetsDesc; oldestDesc].

(** A metric: what identifies a sample of a scrape. *)
Abbreviation metric := (Desc * list string)%type.
Definition gauge_metric (g : gauge) : metric :=
  match g with
  | Active => (activeDesc, [])
  | ObservationSuccess => (successDesc, [])
  | ConfigValid => (configDesc, [])
  | CredentialExpiration registry => (expiryDesc, [registry])
  | SecretTargets registry state => (targetsDesc, [registry; state])
  | OldestSecretExpiration registry => (oldestDesc, [registry])
  end.

(** ** The collector *)
Record Collector := MkCollector {
  requests : Requests;
  duration : gmap string (list Duration)
}.

(** [New]: both results of the histogram exist from the start. *)
Definition new_collector (a : MetricsArguments) (register : result string ()) : result string Collector :=
  match New a register with
  | Err e => Err e
  | Ok r => Ok (MkCollector r (foldl (λ m res, <[res := []]> m) ∅ ["success"; "error"]))
  end.

(** [measuredProvider.GetAuthorizationToken], from the answer of the provider on:
    the duration is observed whether or not the registry is still configured. *)
Definition result_label (ok : bool) : string := if ok then "success" else "error".
Definition observe (m : gmap string (list Duration)) (res : string) (d : Duration) :
    gmap string (list Duration) := <[res := default [] (m !! res) ++ [d]]> m.
Definition measured_call (configStore : ConfigStore.Store) (key : RegistryKey) (canceled ok : bool)
    (elapsed : Duration) (c : Collector) : Collector :=
  if canceled then c
  else MkCollector (measure configStore key canceled ok (requests c))
         (observe (duration c) (result_label ok) elapsed).

Section scrape.
Context `{RangeOrder}.
(** Everything a scrape sends, in the order of [Collect]. *)
Definition scrape (configStore : ConfigStore.Store) (credentialStore : CredentialStore.Store)
    (secretName : string) (flags : Flags) (namespaces : result api_error (list NamespaceItem))
    (secrets : result api_error (list Secret)) (now : Time) (c : Collector) :
    Collector * list metric :=
  let '(r, gauges) :=
    Collect configStore credentialStore secretName flags namespaces secrets now (requests c) in
  (MkCollector r (duration c),
   ((λ kv, (requestsDesc, [kv.1.1; kv.1.2])) <$> map_to_list (counters r)) ++
   ((λ kv, (durationDesc, [kv.1])) <$> map_to_list (duration c)) ++
   ((λ gv, gauge_metric gv.1) <$> gauges)).
End scrape.

(** ** Start, and the flags a scrape loads meanwhile *)
Inductive flagE : Type → Type :=
| StoreActive (b : bool) : flagE ()
| StoreSynced (b : bool) : flagE ()
| WaitForCacheSync : flagE bool
| ContextDone : flagE ()
| LoadActive : flagE bool
| LoadSynced : flagE bool.

(** The deferred calls run last to first. *)
Definition Start : prog flagE () :=
  _ ← call (StoreActive true);
  ok ← call WaitForCacheSync;
  _ ← (if ok : bool then call (StoreSynced true) else mret tt);
  _ ← call ContextDone;
  _ ← call (StoreSynced false);
  call (StoreActive false).

(** The atomic loads of [Collect]; [loaded] stands for the rest of the gate, and
    [complete] for the observation that comes before the last load. *)
Definition load_flags (loaded complete : bool) : prog flagE Flags :=
  emitted ← call LoadActive;
  gate ← call LoadActive;
  synced ← (if gate : bool then call LoadSynced else mret false);
  at_end ← (if gate && synced && loaded && complete then call LoadActive else mret false);
  mret (MkFlags emitted gate synced at_end).

Record FlagState := MkFlagState {
  active_flag : bool;
  synced_flag : bool;
  caches_synced : bool;  (** [WaitForCacheSync] answered true *)
  context_done : bool
}.
Definition exec_flag (X : Type) (e : flagE X) : FlagState → X → FlagState → Prop :=
  match e in flagE X return FlagState → X → FlagState → Prop with
  | StoreActive b => λ s _ s',
      s' = MkFlagState b (synced_flag s) (caches_synced s) (context_done s)
  | StoreSynced b => λ s _ s',
      s' = MkFlagState (active_flag s) b (caches_synced s) (context_done s)
  | WaitForCacheSync => λ s x s',
      s' = MkFlagState (active_flag s) (synced_flag s) (caches_synced s || x) (context_done s)
  | ContextDone => λ s _ s', context_done s = true ∧ s' = s
  | LoadActive => λ s x s', x = active_flag s ∧ s' = s
  | LoadSynced => λ s x s', x = synced_flag s ∧ s' = s
  end.
(** The rest of the process may end the context. *)
Definition flag_environment (s s' : FlagState) : Prop :=
  s' = s ∨ s' = MkFlagState (active_flag s) (synced_flag s) (caches_synced s) true.
