(* ===== verification/CollectorCorrect.v ===== *)
(** * Correctness of the metrics collector *)
From S2P Require Import Prelude Prog GoStrings Rfc3339 ConfigTypes ConfigStore Credential Kube.
From S2P Require Import RegistrySecret RenderedConfiguration Metrics MetricsCorrect Collector.

(** ** What Prometheus asks of a scrape *)

(** Each metric once, and each one announced, with a value for each label. *)
Definition accepted (samples : list metric) : Prop :=
  NoDup samples ∧
  ∀ d values, (d, values) ∈ samples → d ∈ Describe ∧ length values = length (variableLabels d).

Lemma gauge_metric_inj g1 g2 : gauge_metric g1 = gauge_metric g2 → g1 = g2.
Proof. destruct g1, g2; intros [=]; subst; done. Qed.

Lemma gauge_metric_announced g :
  (gauge_metric g).1 ∈ Describe ∧
  length (gauge_metric g).2 = length (variableLabels (gauge_metric g).1).
Proof. split; [|by destruct g]. destruct g; apply (bool_decide_unpack _); by vm_compute. Qed.

(** The registry a gauge is about. *)
Definition gauge_registry (g : gauge) : option string :=
  match g with
  | Active | ObservationSuccess | ConfigValid => None
  | CredentialExpiration registry | SecretTargets registry _ | OldestSecretExpiration registry => Some registry
  end.

Section gauges.
Context `{RangeOrder} (counts : counts_map) (oldest : gmap RegistryKey GoTime)
  (credentials : gmap RegistryKey Entry).

Lemma registry_gauges_about kr g :
  g ∈ (registry_gauges counts oldest credentials kr).*1 → gauge_registry g = Some (RegistryKey_String kr.1).
Proof.
  rewrite list_elem_of_fmap. intros ([g' v] & -> & Hin). unfold registry_gauges in Hin.
  rewrite !elem_of_app, list_elem_of_fmap in Hin.
  destruct Hin as [(state & [= -> ->] & _)|[Hin|Hin]]; [done|..]; repeat case_match;
    first [by apply not_elem_of_nil in Hin|apply list_elem_of_singleton in Hin; by injection Hin as -> _].
Qed.

Lemma registry_gauges_NoDup kr : NoDup (registry_gauges counts oldest credentials kr).*1.
Proof.
  unfold registry_gauges. rewrite !fmap_app. cbn -[RegistryKey_String].
  repeat case_match; cbn -[RegistryKey_String];
    repeat (apply NoDup_cons; split; [rewrite ?elem_of_cons, ?elem_of_nil; intuition discriminate|]);
    apply NoDup_nil_2.
Qed.

Lemma registries_gauges_about (l : list (RegistryKey * RegistryConfig)) g :
  g ∈ (l ≫= registry_gauges counts oldest credentials).*1 →
  ∃ kr, kr ∈ l ∧ gauge_registry g = Some (RegistryKey_String kr.1).
Proof.
  intros (gv & -> & Hin)%list_elem_of_fmap. apply list_elem_of_bind in Hin as (kr & Hin & Hkr).
  exists kr. split; [done|]. apply registry_gauges_about, list_elem_of_fmap. by exists gv.
Qed.

Lemma gauges_NoDup (l : list (RegistryKey * RegistryConfig)) :
  NoDup (RegistryKey_String ∘ fst <$> l) →
  NoDup (l ≫= registry_gauges counts oldest credentials).*1.
Proof.
  induction l as [|kr l IH]; intros Hnd; [apply NoDup_nil_2|].
  cbn [fmap list_fmap] in Hnd. apply NoDup_cons in Hnd as [Hk Hnd]. cbn [mbind list_bind].
  rewrite fmap_app. apply NoDup_app. split; [apply registry_gauges_NoDup|]. split; [|by apply IH].
  intros g Hg%registry_gauges_about (kr' & Hkr' & Hg')%registries_gauges_about. apply Hk.
  apply list_elem_of_fmap. exists kr'. split; [simpl; congruence|done].
Qed.
End gauges.

Lemma range_keys_NoDup `{RangeOrder} (m : gmap RegistryKey RegistryConfig) :
  distinct_keys (dom m) → NoDup (RegistryKey_String ∘ fst <$> range m).
Proof.
  intros Hd. rewrite list_fmap_compose. apply NoDup_fmap_2_strong; [|apply NoDup_range_fst].
  intros k1 k2. rewrite !list_elem_of_fmap.
  intros ([? r1] & -> & H1%elem_of_range) ([? r2] & -> & H2%elem_of_range) Heq. simpl in *.
  apply Hd; [by apply elem_of_dom; eexists..|done].
Qed.

Lemma Collect_gauges_NoDup `{RangeOrder} cfg creds name flags namespaces secrets now r :
  distinct_keys (dom (Registries (ConfigStore.Load cfg).1)) →
  NoDup (Collect cfg creds name flags namespaces secrets now r).2.*1.
Proof.
  intros Hd. unfold Collect. destruct (ConfigStore.Load cfg) as [snapshot loaded]. simpl in Hd.
  assert (NoDup ([(Active, boolValue (emitted flags)); (ConfigValid, boolValue (ConfigStore.Valid cfg))]
    ++ [(ObservationSuccess, 0%Z)]).*1) as Hfailed by (apply (bool_decide_unpack _); by vm_compute).
  destruct (_ || _); [done|]. destruct namespaces as [namespaces|]; [|done].
  destruct secrets as [secrets|]; [|done]. destruct (Build _ _ _) as [content [|]]; [|done].
  destruct (foldl _ _ namespaces) as [counts oldest]. destruct (negb _); [done|]. cbn [snd].
  rewrite (assoc_L (++)), fmap_app. apply NoDup_app. split; [|split].
  - apply (bool_decide_unpack _). by vm_compute.
  - intros g Hg Hin. apply registries_gauges_about in Hin as (kr & _ & Hkr).
    apply list_elem_of_fmap in Hg as (gv & -> & Hg). cbn [app] in Hg.
    rewrite !elem_of_cons, elem_of_nil in Hg. destruct Hg as [->|[->|[->|[]]]]; discriminate Hkr.
  - by apply gauges_NoDup, range_keys_NoDup.
Qed.

(** C40.  Prometheus accepts every scrape: while distinct configured registries
    have distinct key texts, whatever the flags, the lists and the stores say,
    a scrape sends no metric twice and only metrics that [Describe] announced,
    with a value for each of their labels. *)
Theorem scrape_accepted `{RangeOrder} cfg creds name flags namespaces secrets now c :
  distinct_keys (dom (Registries (ConfigStore.Load cfg).1)) →
  accepted (scrape cfg creds name flags namespaces secrets now c).2.
Proof.
  intros Hd. unfold scrape.
  pose proof (Collect_gauges_NoDup cfg creds name flags namespaces secrets now (requests c) Hd) as Hg.
  destruct (Collect _ _ _ _ _ _ _ _) as [r gauges]. cbn [snd] in *.
  split.
  - apply NoDup_app. split; [|split; [|apply NoDup_app; split; [|split]]].
    + apply NoDup_fmap_2_strong; [|apply NoDup_map_to_list].
      intros [[k1 r1] v1] [[k2 r2] v2] H1%elem_of_map_to_list H2%elem_of_map_to_list.
      simpl. intros [= -> ->]. by simplify_map_eq.
    + intros m (kv & -> & _)%list_elem_of_fmap Hin. apply elem_of_app in Hin as [Hin|Hin];
        apply list_elem_of_fmap in Hin as (x & Hx & _); [discriminate Hx|].
      by destruct x as [[] ?].
    + apply NoDup_fmap_2_strong; [|apply NoDup_map_to_list].
      intros [r1 v1] [r2 v2] H1%elem_of_map_to_list H2%elem_of_map_to_list.
      simpl. intros [= ->]. by simplify_map_eq.
    + intros m (kv & -> & _)%list_elem_of_fmap (x & Hx & _)%list_elem_of_fmap. by destruct x as [[] ?].
    + rewrite (list_fmap_compose fst gauge_metric gauges : (λ gv, gauge_metric gv.1) <$> gauges = _).
      apply NoDup_fmap_2; [|done]. intros g1 g2. apply gauge_metric_inj.
  - intros d values Hin. rewrite !elem_of_app, !list_elem_of_fmap in Hin.
    destruct Hin as [(kv & [= -> ->] & _)|[(kv & [= -> ->] & _)|(gv & Hgv & _)]].
    + split; [apply (bool_decide_unpack _); by vm_compute|done].
    + split; [apply (bool_decide_unpack _); by vm_compute|done].
    + pose proof (gauge_metric_announced gv.1) as Ha. by rewrite <-Hgv in Ha.
Qed.

(** ** Counters and histogram *)

(** The calls counted with a result, over all registries. *)
Definition weight (res : string) (k : string * string) (v : Z) : Z :=
  if bool_decide (k.2 = res) then v else 0%Z.
Definition tally (res : string) (m : gmap (string * string) Z) : Z :=
  map_fold (λ k v acc, (weight res k v + acc)%Z) 0%Z m.

Lemma tally_insert res m k v :
  m !! k = None → tally res (<[k := v]> m) = (weight res k v + tally res m)%Z.
Proof.
  intros Hk. unfold tally.
  rewrite (map_fold_insert_L (λ k v acc, (weight res k v + acc)%Z)); [done|intros; lia|done].
Qed.
Lemma tally_delete res m k v :
  m !! k = Some v → tally res m = (weight res k v + tally res (delete k m))%Z.
Proof. intros Hk. rewrite <-(insert_delete_id m k v Hk) at 1. apply tally_insert, lookup_delete_eq. Qed.

Definition counts_nonneg (m : gmap (string * string) Z) : Prop :=
  ∀ k v, m !! k = Some v → (0 ≤ v)%Z.

Lemma tally_nonneg res m : counts_nonneg m → (0 ≤ tally res m)%Z.
Proof.
  induction m as [|k v m Hk IH] using map_ind; intros Hn; [unfold tally; by rewrite map_fold_empty|].
  rewrite tally_insert by done. assert (0 ≤ v)%Z by (apply (Hn k); apply lookup_insert_eq).
  assert (0 ≤ tally res m)%Z.
  { apply IH. intros k' v' Hk'. apply (Hn k'). rewrite lookup_insert_ne; [done|]. intros ->. congruence. }
  unfold weight. case_bool_decide; lia.
Qed.

Lemma WithLabelValues_tally res m x y :
  counts_nonneg m →
  counts_nonneg (WithLabelValues m x y) ∧ tally res (WithLabelValues m x y) = tally res m.
Proof.
  intros Hm. unfold WithLabelValues. destruct (m !! (x, y)) as [v|] eqn:Hv; [done|]. split.
  - intros k w [[_ <-]|[_ Hk]]%lookup_insert_Some; [lia|by eapply Hm].
  - rewrite tally_insert by done. unfold weight. case_bool_decide; lia.
Qed.
Lemma DeleteLabelValues_tally res m x y :
  counts_nonneg m →
  counts_nonneg (DeleteLabelValues m x y) ∧ (tally res (DeleteLabelValues m x y) ≤ tally res m)%Z.
Proof.
  intros Hm. unfold DeleteLabelValues. split.
  - intros k w [_ Hk]%lookup_delete_Some. by eapply Hm.
  - destruct (m !! (x, y)) as [v|] eqn:Hv; [|by rewrite delete_id].
    rewrite (tally_delete res m (x, y) v) by done. pose proof (Hm _ _ Hv).
    unfold weight. case_bool_decide; lia.
Qed.
Lemma Inc_tally res m x y :
  counts_nonneg m →
  counts_nonneg (Inc m x y) ∧
  tally res (Inc m x y) = (tally res m + if bool_decide (y = res) then 1 else 0)%Z.
Proof.
  intros Hm. unfold Inc. destruct (WithLabelValues_tally res m x y Hm) as [Hn <-].
  set (m' := WithLabelValues m x y) in *.
  assert (∃ v, m' !! (x, y) = Some v) as [v Hv].
  { unfold m', WithLabelValues. destruct (m !! (x, y)) as [v|] eqn:Hv; [by exists v|].
    exists 0%Z. apply lookup_insert_eq. }
  rewrite Hv. cbn [default from_option id]. split.
  - intros k w [[_ <-]|[_ Hk]]%lookup_insert_Some; [|by eapply Hn]. pose proof (Hn _ _ Hv). lia.
  - rewrite <-insert_delete_eq, tally_insert by apply lookup_delete_eq.
    rewrite (tally_delete res m' (x, y) v) by done. unfold weight; simpl. case_bool_decide; lia.
Qed.

Lemma prune_tally res regs r k :
  counts_nonneg (counters r) →
  counts_nonneg (counters (prune_key regs r k)) ∧
  (tally res (counters (prune_key regs r k)) ≤ tally res (counters r))%Z.
Proof.
  intros Hm. unfold prune_key. destruct (regs !! k); [by split|]. cbn [counters].
  destruct (DeleteLabelValues_tally res (counters r) (RegistryKey_String k) "success" Hm) as [H1 ?].
  destruct (DeleteLabelValues_tally res _ (RegistryKey_String k) "error" H1) as [? ?]. split; [done|lia].
Qed.
Lemma ensure_tally res r k :
  counts_nonneg (counters r) →
  counts_nonneg (counters (ensure_key r k)) ∧
  tally res (counters (ensure_key r k)) = tally res (counters r).
Proof.
  intros Hm. unfold ensure_key. cbn [counters].
  destruct (WithLabelValues_tally res (counters r) (RegistryKey_String k) "success" Hm) as [H1 H2].
  destruct (WithLabelValues_tally res _ (RegistryKey_String k) "error" H1) as [? ?].
  split; [done|congruence].
Qed.
Lemma update_requests_tally `{RangeOrder} res regs r :
  counts_nonneg (counters r) →
  counts_nonneg (counters (update_requests regs r)) ∧
  (tally res (counters (update_requests regs r)) ≤ tally res (counters r))%Z.
Proof.
  intros Hm. unfold update_requests.
  assert (∀ ks r, counts_nonneg (counters r) → counts_nonneg (counters (foldl (prune_key regs) r ks)) ∧
    (tally res (counters (foldl (prune_key regs) r ks)) ≤ tally res (counters r))%Z) as Hp.
  { induction ks as [|k ks IH]; intros r0 H0; simpl; [done|].
    destruct (prune_tally res regs r0 k H0) as [H1 ?]. destruct (IH _ H1). split; [done|lia]. }
  assert (∀ ks r, counts_nonneg (counters r) → counts_nonneg (counters (foldl ensure_key r ks)) ∧
    tally res (counters (foldl ensure_key r ks)) = tally res (counters r)) as He.
  { induction ks as [|k ks IH]; intros r0 H0; simpl; [done|].
    destruct (ensure_tally res r0 k H0) as [H1 <-]. by apply IH. }
  destruct (Hp (elements (known r)) r Hm) as [H1 H2]. destruct (He (range regs).*1 _ H1) as [H3 ->]. done.
Qed.

(** What happens to a collector: calls of the measured provider and scrapes, each
    with the stores of its moment. *)
Inductive collector_op :=
| Called (cfg : ConfigStore.Store) (key : RegistryKey) (canceled ok : bool) (elapsed : Duration)
| Scraped (cfg : ConfigStore.Store) (creds : CredentialStore.Store) (secretName : string)
    (flags : Flags) (namespaces : result api_error (list NamespaceItem))
    (secrets : result api_error (list Secret)) (now : Time).

Section ops.
Context `{RangeOrder}.

Definition collector_step (c : Collector) (op : collector_op) : Collector :=
  match op with
  | Called cfg key canceled ok elapsed => measured_call cfg key canceled ok elapsed c
  | Scraped cfg creds secretName flags namespaces secrets now =>
    (scrape cfg creds secretName flags namespaces secrets now c).1
  end.

(** The duration of a completed call, under its result. *)
Definition observed_duration (res : string) (op : collector_op) : option Duration :=
  match op with
  | Called _ _ false ok elapsed => if bool_decide (result_label ok = res) then Some elapsed else None
  | _ => None
  end.

Lemma Collect_requests cfg creds name flags namespaces secrets now r :
  (Collect cfg creds name flags namespaces secrets now r).1
  = update_requests (Registries (ConfigStore.Load cfg).1) r.
Proof.
  unfold Collect. destruct (ConfigStore.Load cfg) as [snapshot loaded]. destruct (_ || _); [done|].
  destruct namespaces as [namespaces|]; [|done]. destruct secrets as [secrets|]; [|done].
  destruct (Build _ _ _) as [content [|]]; [|done]. destruct (foldl _ _ namespaces). by destruct (negb _).
Qed.

Definition measured (res : string) (c : Collector) : list Duration := default [] (duration c !! res).
Definition counts_covered (c : Collector) : Prop :=
  counts_nonneg (counters (requests c)) ∧
  ∀ res, (tally res (counters (requests c)) ≤ Z.of_nat (length (measured res c)))%Z.

Lemma measure_tally cfg key ok r res :
  counts_nonneg (counters r) →
  counts_nonneg (counters (measure cfg key false ok r)) ∧
  (tally res (counters (measure cfg key false ok r))
   ≤ tally res (counters r) + if bool_decide (result_label ok = res) then 1 else 0)%Z.
Proof.
  intros Hm. unfold measure. destruct (Registries _ !! key).
  - cbn [counters]. change (if ok then "success" else "error") with (result_label ok).
    destruct (Inc_tally res (counters r) (RegistryKey_String key) (result_label ok) Hm)
      as [? ->]. split; [done|lia].
  - split; [done|]. case_bool_decide; lia.
Qed.

Lemma collector_step_covered c op :
  counts_covered c → counts_covered (collector_step c op) ∧
  ∀ res, measured res (collector_step c op)
         = measured res c ++ option_list (observed_duration res op).
Proof.
  intros [Hn Hc]. destruct op as [cfg key canceled ok elapsed|cfg creds name flags namespaces secrets now].
  - unfold collector_step, measured_call. destruct canceled.
    { split; [by split|]. intros res. by rewrite app_nil_r. }
    assert (∀ res, measured res (MkCollector (measure cfg key false ok (requests c))
      (observe (duration c) (result_label ok) elapsed)) = measured res c ++
        option_list (observed_duration res (Called cfg key false ok elapsed))) as Hd.
    { intros res. unfold measured, observe. cbn [duration observed_duration].
      case_bool_decide as Hr; [subst; by rewrite lookup_insert_eq|].
      rewrite lookup_insert_ne by done. by rewrite app_nil_r. }
    split; [|done]. split; [by apply (measure_tally cfg key ok (requests c) "")|]. intros res.
    rewrite Hd, length_app. cbn [requests].
    destruct (measure_tally cfg key ok (requests c) res Hn) as [_ Hle]. specialize (Hc res).
    cbn [observed_duration]. revert Hle. case_bool_decide; simpl; lia.
  - assert (collector_step c (Scraped cfg creds name flags namespaces secrets now)
      = MkCollector (update_requests (Registries (ConfigStore.Load cfg).1) (requests c)) (duration c)) as ->.
    { unfold collector_step, scrape.
      pose proof (Collect_requests cfg creds name flags namespaces secrets now (requests c)) as Hr.
      destruct (Collect _ _ _ _ _ _ _ _) as [r gauges]. simpl in *. by subst. }
    split; [|intros res; by rewrite app_nil_r]. split.
    + by apply (update_requests_tally "").
    + intros res. cbn [requests]. specialize (Hc res). unfold measured in *. cbn [duration].
      pose proof (proj2 (update_requests_tally res (Registries (ConfigStore.Load cfg).1) (requests c) Hn)).
      lia.
Qed.

(** Whatever calls and scrapes come in whatever order, while the
    configuration changes: the histogram holds the duration of every completed
    call under its result, in order, and both its labels from the start; the
    counters, which forget registries that leave the configuration, never count
    more calls than the histogram observed. *)
Theorem histogram_observes_calls a register c0 ops :
  new_collector a register = Ok c0 →
  let c := foldl collector_step c0 ops in
  ∀ res, res ∈ results →
    duration c !! res = Some (omap (observed_duration res) ops) ∧
    (0 ≤ tally res (counters (requests c)) ≤ Z.of_nat (length (omap (observed_duration res) ops)))%Z.
Proof.
  intros Hnew. cbv zeta.
  assert (c0 = MkCollector (MkRequests ∅ ∅) (<["error" := []]> {["success" := []]})) as ->.
  { unfold new_collector, New in Hnew. repeat case_match; by simplify_eq. }
  intros res Hres.
  assert (counts_covered (MkCollector (MkRequests ∅ ∅) (<["error" := []]> {["success" := []]}))) as H0.
  { split; [done|]. intros res'. unfold tally. cbn [requests counters]. rewrite map_fold_empty. lia. }
  assert (∀ ops c, counts_covered c → is_Some (duration c !! res) →
    counts_covered (foldl collector_step c ops) ∧ is_Some (duration (foldl collector_step c ops) !! res) ∧
    measured res (foldl collector_step c ops) = measured res c ++ omap (observed_duration res) ops) as Hgen.
  { clear. induction ops as [|op ops IH]; intros c Hc Hs; cbn [foldl omap list_omap].
    { split; [done|]. split; [done|]. by rewrite app_nil_r. }
    destruct (collector_step_covered c op Hc) as [Hc1 Hm1].
    assert (is_Some (duration (collector_step c op) !! res)) as Hs1.
    { destruct op; unfold collector_step, measured_call, scrape; [|by destruct (Collect _ _ _ _ _ _ _ _)].
      destruct canceled; [done|]. cbn [duration]. unfold observe. rewrite lookup_insert_is_Some'. by right. }
    destruct (IH _ Hc1 Hs1) as (? & ? & Hm). split; [done|]. split; [done|]. rewrite Hm, Hm1.
    destruct (observed_duration res op); cbn [option_list]; by rewrite <-(assoc_L (++)). }
  destruct (Hgen ops _ H0) as ([Hn Ht] & [l Hl] & Hm).
  { apply elem_of_results in Hres as [->| ->]; by eexists. }
  specialize (Ht res). rewrite Hm in Ht. unfold measured in Hm, Ht. rewrite Hl in Hm |- *. cbn in Hm.
  assert (default [] ((<["error" := []]> {["success" := []]} : gmap string (list Duration)) !! res) = []) as He.
  { by apply elem_of_results in Hres as [->| ->]. }
  cbn [duration] in Hm, Ht. rewrite He in Hm, Ht. subst l. split; [done|]. split; [|done].
  by apply tally_nonneg.
Qed.
End ops.

(** ** Start beside scrapes *)
Definition flags_inv (s : FlagState) : Prop :=
  synced_flag s = true → active_flag s = true ∧ caches_synced s = true.
Definition flags_grow (s s' : FlagState) : Prop :=
  (caches_synced s = true → caches_synced s' = true) ∧
  (context_done s = true → context_done s' = true) ∧ (flags_inv s → flags_inv s').
Definition start_rely (s s' : FlagState) : Prop :=
  active_flag s' = active_flag s ∧ synced_flag s' = synced_flag s ∧
  caches_synced s' = caches_synced s ∧ (context_done s = true → context_done s' = true).

Definition goroutines (scrapes : list (bool * bool)) : list (prog flagE (option Flags)) :=
  (_ ← Start; mret None) ::
  ((λ lc, f ← load_flags lc.1 lc.2; mret (Some f)) <$> scrapes).
Definition flag_rely (i : nat) : FlagState → FlagState → Prop :=
  match i with 0 => start_rely | S _ => flags_grow end.
Definition flag_guarantee (i : nat) (s s' : FlagState) : Prop :=
  match i with 0 => flags_grow s s' | S _ => s' = s end.
(** What [Start] leaves behind, and what the flags of a scrape mean. *)
Definition flag_post (i : nat) (r : option Flags) (s : FlagState) : Prop :=
  match r with
  | None => active_flag s = false ∧ synced_flag s = false ∧ context_done s = true
  | Some f => synced f = true → gate f = true ∧ caches_synced s = true
  end.

Lemma start_rg s :
  active_flag s = false → synced_flag s = false →
  rg exec_flag start_rely flags_grow (_ ← Start; mret None) s (flag_post 0).
Proof.
  intros Ha Hs s1 (Ha1 & Hs1 & _) u s2 ->. split; [split; [done|]; split; [done|];
    by intros _; simpl; rewrite Hs1, Hs|].
  intros s3 (Ha3 & Hs3 & Hc3 & _) ok s4 ->. simpl in Ha3, Hs3, Hc3.
  assert (synced_flag s3 = false) as Hs3' by congruence.
  split; [split; [simpl; by intros ->|]; split; [done|]; intros _; unfold flags_inv; simpl; congruence|].
  assert (∀ s5, active_flag s5 = true → rg exec_flag start_rely flags_grow
    (_ ← call ContextDone; _ ← call (StoreSynced false); _ ← call (StoreActive false);
     mret (None : option Flags)) s5 (flag_post 0)) as Hrest.
  { intros s5 Ha5 s6 (Ha6 & _) u6 s7 [Hd ->]. split; [by split|].
    intros s8 (Ha8 & _ & _ & Hd8) u9 s9 ->. split; [by split|].
    intros s10 (_ & Hs10 & _ & Hd10) u11 s11 ->. simpl in Hs10, Hd10.
    split; [split; [done|]; split; [done|]; intros _; unfold flags_inv; simpl; congruence|].
    intros s12 (Ha12 & Hs12 & _ & Hd12). simpl in *. split; [done|]. split; [congruence|auto]. }
  destruct ok; [|by apply Hrest].
  intros s5 (Ha5 & Hs5 & Hc5 & Hd5) u6 s6 ->. simpl in Ha5, Hs5, Hc5, Hd5.
  rewrite orb_true_r in Hc5.
  split; [split; [done|]; split; [done|]; intros _ _; simpl; split; congruence|].
  apply Hrest. simpl. congruence.
Qed.

Lemma flags_grow_refl s : flags_grow s s.
Proof. done. Qed.
Lemma flags_grow_trans a b c : flags_grow a b → flags_grow b c → flags_grow a c.
Proof. intros (? & ? & ?) (? & ? & ?). split; [auto|]. split; auto. Qed.

Lemma load_flags_rg i lc s :
  flags_inv s →
  rg exec_flag flags_grow (λ s s', s' = s) (f ← load_flags lc.1 lc.2; mret (Some f)) s (flag_post (S i)).
Proof.
  intros Hinv s1 (_ & _ & H1) emitted s2 [-> ->]. split; [done|].
  intros s3 (_ & _ & H3) gate s4 [Hgate ->]. split; [done|].
  destruct gate; [|by intros s5 _ [=]].
  intros s5 (_ & _ & H5) sy s6 [Hsy ->]. split; [done|].
  assert (sy = true → caches_synced s5 = true) as Hc.
  { intros Heq. rewrite Heq in Hsy. apply H5; auto. }
  clear Hsy. destruct sy, lc as [[] []]; try (intros s7 (Hg7 & _) Hsy'; simpl in *; by auto).
  intros s7 (Hg7 & _) e s8 [-> ->]. split; [done|]. intros s9 (Hg9 & _) Hsy'. simpl in *. auto.
Qed.

(** The collector's flags, with any number of scrapes beside [Start], the
    end of the context and any interleaving of their atomic loads and stores: a
    scrape finds the collector active and synchronized only after the caches
    reported that they are; and when [Start] has returned, only after the end of
    the context, every later scrape finds all flags down, so it reports no
    business gauge. *)
Theorem flags_truthful scrapes s' ts' :
  rtc (pool_step exec_flag flag_environment)
    (MkFlagState false false false false, goroutines scrapes) (s', ts') →
  (∀ i f, ts' !! S i = Some (Ret (Some f)) → synced f = true →
     gate f = true ∧ caches_synced s' = true) ∧
  (ts' !! 0 = Some (Ret None) →
     context_done s' = true ∧
     ∀ loaded complete, wp exec_flag (load_flags loaded complete) s' (λ f _,
       f = MkFlags false false false false ∧
       ∀ (R : RangeOrder) cfg creds name namespaces secrets now r,
         (Collect cfg creds name f namespaces secrets now r).2 =
         [(Active, 0%Z); (ConfigValid, boolValue (ConfigStore.Valid cfg)); (ObservationSuccess, 0%Z)])).
Proof.
  intros Hreach.
  destruct (pool_sound exec_flag flag_environment flag_rely flag_guarantee flag_post
    (MkFlagState false false false false) (goroutines scrapes) s' ts') as [_ Hpost]; [..|done|].
  - intros [|i] a b c; [intros (? & ? & ? & ?) (? & ? & ? & ?)|apply flags_grow_trans].
    split; [congruence|]. split; [congruence|]. split; [congruence|auto].
  - by intros [|i] a.
  - intros [|i] [|j] a b Hij; simpl; [done|done|by intros ->|by intros ->].
  - intros [|i] a b [->| ->]; done.
  - intros i p Hp. unfold goroutines in Hp. destruct i as [|i]; simpl in Hp.
    + injection Hp as <-. by apply start_rg.
    + rewrite list_lookup_fmap in Hp. destruct (scrapes !! i) as [lc|]; simplify_eq/=.
      by apply (load_flags_rg i).
  - split.
    + intros i f Hf. by apply (Hpost (S i) (Ret (Some f)) Hf).
    + intros H0. destruct (Hpost 0 (Ret None) H0 s') as (Ha & Hs & Hd); [done|]. split; [done|].
      intros loaded complete e s1 [-> ->] g s2 [-> ->]. rewrite Ha. simpl. split; [done|].
      intros R cfg creds name namespaces secrets now r. unfold Collect.
      by destruct (ConfigStore.Load cfg).
Qed.

(** ** Examples *)
Module CollectorExample.
#[local] Existing Instance range_forward.
Definition all_true : Flags := MkFlags true true true true.
Definition fresh : Collector := MkCollector (MkRequests ∅ ∅) (<["error" := []]> {["success" := []]}).
Definition scraped (snapshot : ConfigurationSnapshot) : list metric :=
  (scrape (ConfigStore.MkStore (Some snapshot) true) CredentialStore.empty "acr" all_true (Ok []) (Ok []) 0
     fresh).2.

Lemma scrape_accepted_witness :
  distinct_keys (dom (Registries (ConfigStore.Load MetricsExample.cfg).1)) ∧
  accepted (scrape MetricsExample.cfg MetricsExample.store "acr" MetricsExample.flags
    (Ok MetricsExample.namespaces) (Ok []) Minute fresh).2.
Proof.
  assert (distinct_keys (dom (Registries (ConfigStore.Load MetricsExample.cfg).1))) as Hd.
  { assert (set_Forall (λ k1, set_Forall (λ k2, RegistryKey_String k1 = RegistryKey_String k2 → k1 = k2)
      (dom (Registries (ConfigStore.Load MetricsExample.cfg).1)))
      (dom (Registries (ConfigStore.Load MetricsExample.cfg).1))) as Hall
      by (apply (bool_decide_unpack _); vm_compute; exact I).
    intros k1 k2 H1 H2. exact (Hall k1 H1 k2 H2). }
  exact (conj Hd (scrape_accepted MetricsExample.cfg MetricsExample.store "acr" MetricsExample.flags
    (Ok MetricsExample.namespaces) (Ok []) Minute fresh Hd)).
Defined.

(** Without distinct texts a scrape repeats the metrics of the two registries,
    and Prometheus refuses the whole scrape. *)
Example scrape_collision : ¬ accepted (scraped RenderedExample.collision).
Proof. intros [Hnd _]. apply (bool_decide_pack _) in Hnd. by vm_compute in Hnd. Qed.
End CollectorExample.
