(* ===== verification/Convergence.v ===== *)
(** * The controllers together

    One process runs the Namespace controller and the ServiceAccount controller
    against one cluster, many reconciles at once.  Each reconcile is the
    handler of its controller over the calls of its syncer; this file runs any
    sequences of them for distinct namespaces side by side and shows that, once
    the configuration and the credentials are steady, a clean reconcile of a
    Namespace followed by a clean reconcile of an account brings both to what
    the configuration asks for, and that they stay there. *)
From S2P Require Import Prelude Prog GoStrings ConfigTypes ConfigStore Credential Kube.
From S2P Require Import RegistrySecret RegistrySecretTheory ExistingSecret RegistrySecretCorrect.
From S2P Require Import SecretSyncer SecretSyncerCorrect ServiceAccount ServiceAccountCorrect.
From S2P Require Import Controller ControllerCorrect.

(** ** The process *)
Record Process (K : Type) := MkProcess {
  pr_sync : SyncState K;
  pr_patches : list (option (list string) * list string)
}.
Arguments MkProcess {K}. Arguments pr_sync {K}. Arguments pr_patches {K}.

Inductive procE (X : Type) : Type :=
| OnSecret (e : syncE X)
| OnAccount (e : saE X).
Arguments OnSecret {X}. Arguments OnAccount {X}.

(** The two syncers of the process. *)
#[export] Instance process_namespace_syncer `{RangeOrder} (secretName : string) :
  Controller.Syncer procE sync_error string := {|
  sync ns := embed (λ X, OnSecret) (SyncNamespaceSecret secretName ns);
  err_canceled := sync_error_canceled;
  err_not_ready _ := false
|}.
#[export] Instance process_account_syncer (secretName : string) :
  Controller.Syncer procE sa_error Request := {|
  sync r := embed (λ X, OnAccount) (SyncServiceAccount secretName (req_namespace r) (req_name r));
  err_canceled := sa_error_canceled;
  err_not_ready := is_not_ready
|}.

(** A worker of one namespace: reconciles of the Namespace and of its accounts,
    in any order; for each, whether the queue forgets the key. *)
Inductive task := NamespaceTask | AccountTask (name : string).
#[export] Instance task_eq_dec : EqDecision task.
Proof. solve_decision. Defined.
Definition clean {err} (r : reconciled_result err) : bool :=
  match r with Ok delay => (delay =? 0)%Z | Err _ => false end.

Section programs.
Context `{RangeOrder} (secretName ns : string).
Definition run_task (t : task) : prog (sumE ctlE procE) bool :=
  match t with
  | NamespaceTask =>
    r ← NamespaceSecretReconciler_Reconcile (H := process_namespace_syncer secretName) (MkRequest "" ns);
    mret (clean r)
  | AccountTask name =>
    r ← ServiceAccountReconciler_Reconcile (H := process_account_syncer secretName) (MkRequest ns name);
    mret (clean r)
  end.
Fixpoint run_tasks (ts : list task) : prog (sumE ctlE procE) (list bool) :=
  match ts with
  | [] => mret []
  | t :: ts => b ← run_task t; bs ← run_tasks ts; mret (b :: bs)
  end.
End programs.

(** What the clean results say: whether the Namespace was settled, and the
    accounts settled after it. *)
Definition learn (known : bool * gset string) (t : task) (ok : bool) : bool * gset string :=
  match t with
  | NamespaceTask => (known.1 || ok, known.2)
  | AccountTask name => (known.1, if known.1 && ok then {[name]} ∪ known.2 else known.2)
  end.
Fixpoint learned (known : bool * gset string) (ts : list task) (oks : list bool) : bool * gset string :=
  match ts, oks with
  | t :: ts, ok :: oks => learned (learn known t ok) ts oks
  | _, _ => known
  end.

(** ** The cluster *)

(** Writes of one kind leave the other kind and the Namespaces alone, and no
    finalizer holds a deleted Secret. *)
Class Cluster (K : Type) `{!ApiServer Secret K} `{!ApiServer ServiceAccount K}
    (namespace_read : string → K → result api_error () → Prop) : Prop := {
  secret_create_apart (o : Secret) k r k' : create o k r k' →
    live (O := ServiceAccount) k' = live k ∧ ∀ ns x, namespace_read ns k' x ↔ namespace_read ns k x;
  secret_update_apart (o : Secret) k r k' : update o k r k' →
    live (O := ServiceAccount) k' = live k ∧ ∀ ns x, namespace_read ns k' x ↔ namespace_read ns k x;
  secret_remove_apart (o : Secret) uid rv k r k' : remove o uid rv k r k' →
    live (O := ServiceAccount) k' = live k ∧ ∀ ns x, namespace_read ns k' x ↔ namespace_read ns k x;
  account_update_apart (o : ServiceAccount) k r k' : update o k r k' →
    live (O := Secret) k' = live k ∧ ∀ ns x, namespace_read ns k' x ↔ namespace_read ns k x;
  secret_removed (o : Secret) uid rv k k' : remove o uid rv k (Ok tt) k' → live (O := Secret) k' (obj_key o) = None
}.

Section exec.
Context `{R : RangeOrder} {K : Type} `{!ApiServer Secret K} `{!ApiServer ServiceAccount K}
  (namespace_read : string → K → result api_error () → Prop).

Definition account_view (p : Process K) : SAState K :=
  MkSAState (ss_config (pr_sync p)) (cluster (pr_sync p)) (pr_patches p).
Definition set_cluster (s : SyncState K) (k : K) : SyncState K :=
  MkSyncState (ss_config s) (ss_credentials s) (conflicts s) (conflict_events s) k (ss_writes s).

Definition proc_exec (X : Type) (e : procE X) (p : Process K) (x : X) (p' : Process K) : Prop :=
  match e with
  | OnSecret e => sync_exec namespace_read X e (pr_sync p) x (pr_sync p') ∧ pr_patches p' = pr_patches p
  | OnAccount e => sa_exec X e (account_view p) x (account_view p') ∧
      pr_sync p' = set_cluster (pr_sync p) (cluster (pr_sync p'))
  end.

(** The process is not stopping: no context has ended. *)
Definition process_exec : ∀ X, sumE ctlE procE X → gset Request * Process K → X → gset Request * Process K → Prop :=
  sum_exec (ctl_exec (λ p, ConfigStore.Loaded (ss_config (pr_sync p))) False) proc_exec.
End exec.
