(* ===== verification/ConvergenceCorrect.v ===== *)
(** * Convergence of the controllers *)
From S2P Require Import Prelude Prog GoStrings Rfc3339 ConfigTypes ConfigStore Credential Kube.
From S2P Require Import RegistrySecret RegistrySecretTheory ExistingSecret RegistrySecretCorrect.
From S2P Require Import SecretSyncer SecretSyncerCorrect ServiceAccount ServiceAccountCorrect.
From S2P Require Import SecretCodec SecretCodecTheory Metrics Controller ControllerCorrect Convergence.

Section convergence.
Context `{R : RangeOrder} {K : Type} `{!ApiServer Secret K} `{!ApiServer ServiceAccount K}
  `{!ApiServerLaws (O := Secret) K} `{!ApiServerLaws (O := ServiceAccount) K}
  `{!FreshReads (O := Secret) K} `{!FreshReads (O := ServiceAccount) K}
  (namespace_read : string → K → result api_error () → Prop) `{!Cluster K namespace_read}.
Context (secretName : string) (snapshot : ConfigurationSnapshot) (creds : gmap RegistryKey Entry).
Hypothesis Hdist : distinct_registries (Registries snapshot).
Hypothesis Hpres : presentable snapshot creds.
Abbreviation pstep := (proc_exec namespace_read).
Abbreviation kube p := (cluster (pr_sync p)).

(** ** What is asked of a namespace *)
Definition secret_converged (ns : string) (k : K) : Prop :=
  match live k (ns, secretName) with
  | None => MatchesNamespace snapshot ns = true → HasAuth (Build snapshot creds None).1 = false
  | Some l =>
    IsManaged (Some l) = false ∨
    (MatchesNamespace snapshot ns = true ∧
     let '(content, problems) := Build snapshot creds (Some l) in
     HasAuth content = true ∧ secretMatches l content = true ∧ problems = [])
  end.
Definition account_converged (ns name : string) (k : K) : Prop :=
  ∀ sa wanted, live (O := ServiceAccount) k (ns, name) = Some sa →
    reference_wanted snapshot ns name (live k (ns, secretName)) = Some wanted →
    count_of secretName (ImagePullSecrets sa) = if wanted : bool then 1 else 0.
Definition namespace_known (ns : string) (known : bool * gset string) (k : K) : Prop :=
  (known.1 = true → secret_converged ns k) ∧
  ∀ name, name ∈ known.2 → known.1 = true ∧ account_converged ns name k.

(** ** What a worker relies on and what it leaves alone *)

(** Nobody else touches the namespace, and the stores are steady. *)
Definition left_alone (ns : string) (p p' : Process K) : Prop :=
  ss_config (pr_sync p') = ss_config (pr_sync p) ∧
  ss_credentials (pr_sync p') = ss_credentials (pr_sync p) ∧
  live (O := Secret) (kube p') (ns, secretName) = live (kube p) (ns, secretName) ∧
  (∀ name, live (O := ServiceAccount) (kube p') (ns, name) = live (kube p) (ns, name)) ∧
  ∀ r, namespace_read ns (kube p') r ↔ namespace_read ns (kube p) r.
Definition steady (ns : string) (p : Process K) : Prop :=
  ConfigStore.current (ss_config (pr_sync p)) = Some snapshot ∧
  CredentialStore.current (ss_credentials (pr_sync p)) = creds ∧
  (∀ l : Secret, live (kube p) (ns, secretName) = Some l → deleting l = false) ∧
  ¬ namespace_read ns (kube p) (Err NotFound).

Lemma left_alone_refl ns p : left_alone ns p p.
Proof. done. Qed.
Lemma left_alone_trans ns p1 p2 p3 : left_alone ns p1 p2 → left_alone ns p2 p3 → left_alone ns p1 p3.
Proof.
  intros (? & ? & ? & Ha1 & Hr1) (? & ? & ? & Ha2 & Hr2). split; [congruence|]. split; [congruence|].
  split; [congruence|]. split; [intros name; by rewrite Ha2|]. intros r. by rewrite Hr2.
Qed.
Lemma steady_left_alone ns p p' : left_alone ns p p' → steady ns p → steady ns p'.
Proof.
  intros (Hc & Hcr & Hl & _ & Hr) (? & ? & Hd & Hn). unfold steady. rewrite Hc, Hcr, Hl, Hr. done.
Qed.
Lemma secret_left_alone ns p p' :
  left_alone ns p p' → secret_converged ns (kube p) → secret_converged ns (kube p').
Proof. intros (_ & _ & Hl & _). unfold secret_converged. by rewrite Hl. Qed.
Lemma account_left_alone ns name p p' :
  left_alone ns p p' → account_converged ns name (kube p) → account_converged ns name (kube p').
Proof. intros (_ & _ & Hl & Ha & _). unfold account_converged. by rewrite Hl, Ha. Qed.
Lemma known_left_alone ns known p p' :
  left_alone ns p p' → namespace_known ns known (kube p) → namespace_known ns known (kube p').
Proof.
  intros Hl [Hs Hn]. split; [intros Hk; by eapply secret_left_alone, Hs|].
  intros name [Hk Hc]%Hn. split; [done|]. by eapply account_left_alone.
Qed.

(** Objects of other namespaces are untouched. *)
Definition elsewhere (ns : string) (p p' : Process K) : Prop :=
  ss_config (pr_sync p') = ss_config (pr_sync p) ∧
  ss_credentials (pr_sync p') = ss_credentials (pr_sync p) ∧
  (∀ key, key.1 ≠ ns → live (O := Secret) (kube p') key = live (kube p) key) ∧
  (∀ key, key.1 ≠ ns → live (O := ServiceAccount) (kube p') key = live (kube p) key) ∧
  ∀ other r, namespace_read other (kube p') r ↔ namespace_read other (kube p) r.
Lemma elsewhere_left_alone ns ns' p p' : ns ≠ ns' → elsewhere ns p p' → left_alone ns' p p'.
Proof.
  intros Hne (? & ? & Hs & Ha & Hr). split; [done|]. split; [done|].
  split; [by apply Hs|]. split; [intros name; by apply Ha|]. apply Hr.
Qed.

(** ** The calls of the process *)
Lemma sync_exec_apart X (e : syncE X) s x s' :
  sync_exec namespace_read X e s x s' →
  live (O := ServiceAccount) (cluster s') = live (cluster s) ∧
  ∀ ns r, namespace_read ns (cluster s') r ↔ namespace_read ns (cluster s) r.
Proof.
  destruct e; cbn [sync_exec]; try (by intros [_ ->]); try (by intros ->).
  - intros (k' & Hc & ->). by apply secret_create_apart in Hc.
  - intros (k' & Hc & ->). by apply secret_update_apart in Hc.
  - intros (k' & Hc & ->). by apply secret_remove_apart in Hc.
Qed.
Lemma sync_exec_stores X (e : syncE X) s x s' :
  sync_exec namespace_read X e s x s' →
  ss_config s' = ss_config s ∧ ss_credentials s' = ss_credentials s.
Proof.
  destruct e; cbn [sync_exec]; try (by intros [_ ->]); try (by intros ->); by intros (k' & _ & ->).
Qed.

Lemma sync_exec_present X (e : syncE X) s x s' key :
  sync_exec namespace_read X e s x s' →
  (∀ l : Secret, live (cluster s) key = Some l → deleting l = false) →
  ∀ l : Secret, live (cluster s') key = Some l → deleting l = false.
Proof.
  assert (∀ (o o' l : Secret) k', frame (O := Secret) (obj_key o) (cluster s) k' → live k' (obj_key o) = Some o' →
    deleting o' = false → (∀ l : Secret, live (cluster s) key = Some l → deleting l = false) →
    live k' key = Some l → deleting l = false) as Hframe.
  { intros o o' k' l Hf Ho' Hd Hp Hl. destruct (decide (key = obj_key o)) as [->|Hne]; [congruence|].
    apply Hp. by rewrite <-Hf. }
  destruct e; cbn [sync_exec]; try (by intros [_ ->]); try (by intros ->).
  - intros (k' & Hc & ->) Hp l. cbn [cluster after_write]. destruct x as [[]|err].
    + apply create_ok in Hc as (_ & Hf & o' & Ho' & _ & Hd). by eapply Hframe.
    + apply create_err in Hc. rewrite Hc. apply Hp.
  - intros (k' & Hc & ->) Hp l. cbn [cluster after_write]. destruct x as [[]|err].
    + apply update_ok in Hc as (l0 & Hl0 & _ & _ & Hf & o' & Ho' & _ & Hd). intros Hl.
      destruct (decide (key = obj_key secret)) as [->|Hne]; [|apply Hp; by rewrite <-Hf].
      assert (l = o') as -> by congruence. rewrite Hd. by apply Hp.
    + apply update_err in Hc. rewrite Hc. apply Hp.
  - intros (k' & Hc & ->) Hp l. cbn [cluster after_write]. destruct x as [[]|err].
    + pose proof (secret_removed _ _ _ _ _ Hc) as Hgone. apply remove_ok in Hc as (_ & _ & _ & _ & Hf & _).
      intros Hl. destruct (decide (key = obj_key secret)) as [->|Hne]; [congruence|]. apply Hp. by rewrite <-Hf.
    + apply remove_err in Hc. rewrite Hc. apply Hp.
Qed.

Lemma sa_exec_apart X (e : saE X) s x s' :
  sa_exec X e s x s' →
  live (O := Secret) (sa_cluster s') = live (sa_cluster s) ∧
  ∀ ns r, namespace_read ns (sa_cluster s') r ↔ namespace_read ns (sa_cluster s) r.
Proof.
  destruct e; cbn [sa_exec]; try (by intros [_ ->]). intros (k' & Hc & ->). by apply account_update_apart in Hc.
Qed.

(** A steady namespace stays steady, whatever call is made. *)
Lemma exec_steady ns X (e : procE X) p x p' : pstep X e p x p' → steady ns p → steady ns p'.
Proof.
  intros He (Hc & Hcr & Hd & Hn). destruct e as [e|e]; destruct He as [He Hrest]; unfold steady.
  - destruct (sync_exec_stores _ _ _ _ _ He) as [-> ->]. destruct (sync_exec_apart _ _ _ _ _ He) as [_ Hr].
    split; [done|]. split; [done|]. split; [by eapply sync_exec_present|]. by rewrite Hr.
  - destruct (sa_exec_apart _ _ _ _ _ He) as [Hl Hr]. cbn [account_view sa_cluster] in Hl, Hr.
    rewrite Hrest. cbn [set_cluster ss_config ss_credentials cluster]. rewrite Hl, Hr. done.
Qed.

(** ** One sync *)
Definition still (p p' : Process K) : Prop :=
  ss_config (pr_sync p') = ss_config (pr_sync p) ∧
  ss_credentials (pr_sync p') = ss_credentials (pr_sync p) ∧ kube p' = kube p.
Lemma still_elsewhere ns p p' : still p p' → elsewhere ns p p'.
Proof. intros (? & ? & Hk). unfold elsewhere. by rewrite Hk. Qed.
Lemma still_left_alone ns p p' : still p p' → left_alone ns p p'.
Proof. intros (? & ? & Hk). unfold left_alone. by rewrite Hk. Qed.

Lemma settled_converged ns p :
  steady ns p → settled secretName ns snapshot creds (kube p) ↔ secret_converged ns (kube p).
Proof.
  intros (_ & _ & Hd & _). unfold settled, secret_converged.
  destruct (live _ _) as [l|] eqn:Hl; [|done]. rewrite (Hd l eq_refl). naive_solver.
Qed.

Lemma left_alone_quiet ns p p' :
  left_alone ns p p' → quiet namespace_read secretName ns (pr_sync p) (pr_sync p').
Proof. intros (? & ? & ? & _ & ?). done. Qed.
Lemma left_alone_account ns name p p' :
  left_alone ns p p' → account_quiet secretName ns name (account_view p) (account_view p').
Proof. intros (? & ? & ? & ? & _). split; [done|]. by split. Qed.

Lemma namespace_sync ns p :
  steady ns p →
  rg pstep (left_alone ns) (elsewhere ns) (embed (λ X, OnSecret) (SyncNamespaceSecret secretName ns)) p
    (λ o p', (o = Ok tt → secret_converged ns (kube p')) ∧ steady ns p').
Proof.
  intros Hst. pose proof Hst as (Hc & Hcr & _ & Hns).
  eapply rg_mono.
  2: { apply (rg_keep _ (steady ns)); [by intros ??; apply steady_left_alone| |done|].
       - intros X e a x b He _. by eapply exec_steady.
       - eapply (rg_embed pstep (sync_exec namespace_read) (λ X, OnSecret) pr_sync);
           [apply left_alone_quiet|by intros X f a x b []| |].
         2: by apply (rg_sync_settles namespace_read secretName ns snapshot creds (pr_sync p)).
         intros X f a x b [He _] (Hc' & Hcr' & Hf). destruct (sync_exec_apart _ _ _ _ _ He) as [Hl Hr].
         split; [done|]. split; [done|]. split; [intros key Hk; apply Hf; by intros ->|].
         split; [by rewrite Hl|exact Hr]. }
  intros o p' [Hset Hst']. split; [|done]. intros Ho. destruct (Hset Ho) as [?|?]; [done|].
  by apply settled_converged.
Qed.

Lemma namespace_idle ns p :
  steady ns p → secret_converged ns (kube p) →
  rg pstep (left_alone ns) still (embed (λ X, OnSecret) (SyncNamespaceSecret secretName ns)) p (λ _ _, True).
Proof.
  intros Hst Hconv. pose proof Hst as (Hc & Hcr & Hd & _). eapply rg_mono; [done|].
  eapply (rg_embed pstep (sync_exec namespace_read) (λ X, OnSecret) pr_sync);
    [apply left_alone_quiet|by intros X f a x b []| |].
  2: { apply (rg_sync_idle namespace_read secretName ns snapshot creds (pr_sync p)); [done..| |done].
       by apply settled_converged. }
  by intros X f a x b _ (? & ? & ? & _).
Qed.

(** An account is written only if it is not as it should be. *)
Definition account_step (ns name : string) (p0 p p' : Process K) : Prop :=
  still p p' ∨
  (¬ account_converged ns name (kube p0) ∧
   ss_config (pr_sync p') = ss_config (pr_sync p) ∧
   ss_credentials (pr_sync p') = ss_credentials (pr_sync p) ∧
   live (O := Secret) (kube p') = live (kube p) ∧
   frame (O := ServiceAccount) (ns, name) (kube p) (kube p') ∧
   ∀ other r, namespace_read other (kube p') r ↔ namespace_read other (kube p) r).

Lemma account_step_elsewhere ns name p0 p p' : account_step ns name p0 p p' → elsewhere ns p p'.
Proof.
  intros [Hs|(_ & ? & ? & Hl & Hf & Hr)]; [by apply still_elsewhere|].
  split; [done|]. split; [done|]. split; [by rewrite Hl|]. split; [|done].
  intros key Hk. apply Hf. by intros ->.
Qed.

Lemma account_missing ns name p :
  ConfigStore.current (ss_config (pr_sync p)) = Some snapshot →
  live (O := ServiceAccount) (kube p) (ns, name) = None →
  rg sa_exec (account_quiet secretName ns name) eq (SyncServiceAccount secretName ns name) (account_view p)
    (λ _ _, True).
Proof.
  intros Hc Hl. unfold SyncServiceAccount, try. cbn [mbind prog_bind prog_bind_def call rg].
  intros s1 H1 cfg s' [-> ->]. split; [done|]. rewrite ConfigStore.Load_eq, (proj1 H1). cbn [sa_config account_view].
  rewrite Hc. cbn [negb]. intros s2 H2 r s' [Hread ->]. split; [done|].
  destruct (account_quiet_trans _ _ _ _ _ _ H1 H2) as (_ & Hl2 & _). apply read_fresh in Hread.
  destruct r as [sa|e]; [cbn in *; congruence|]. by case_bool_decide.
Qed.

Abbreviation account_program ns name := (embed (λ X, OnAccount) (SyncServiceAccount secretName ns name)).

(** The account of a steady namespace: the base of both lemmas below. *)
Lemma account_view_still X (f : saE X) p x p' :
  pstep X (OnAccount f) p x p' → account_view p' = account_view p → still p p'.
Proof.
  intros [_ Hs] Hv. injection Hv as Hc Hk _. split; [done|]. split; [by rewrite Hs|done].
Qed.

Lemma account_sync ns name p :
  steady ns p →
  rg pstep (left_alone ns) (account_step ns name p) (account_program ns name) p
    (λ o p', o = Ok tt → account_converged ns name (kube p')).
Proof.
  intros (Hc & _). destruct (live (O := ServiceAccount) (kube p) (ns, name)) as [sa|] eqn:Hsa.
  - set (secret := live (O := Secret) (kube p) (ns, secretName)).
    set (wanted := reference_wanted snapshot ns name secret).
    eapply rg_mono.
    2: { apply (rg_keep _ (λ p', live (O := Secret) (kube p') (ns, secretName) = secret)).
         - intros a a' (_ & _ & Hl & _) <-. exact Hl.
         - intros X e a x a' _ [(_ & _ & Hk)|(_ & _ & _ & Hl & _)] <-; [by rewrite Hk|by rewrite Hl].
         - done.
         - eapply (rg_embed pstep sa_exec (λ X, OnAccount) account_view);
             [apply left_alone_account|by intros X f a x a' []| |].
           2: by apply (rg_account_settles secretName ns name sa snapshot (account_view p)).
           intros X f a x a' He [Hv|(w & Hw & Hne & Hcfg & r & k' & Hk & Hu)].
           { left. by eapply account_view_still. }
           right. split; [intros Hconv; apply Hne; by apply (Hconv sa w)|].
           destruct He as [He Hs]. destruct (sa_exec_apart _ _ _ _ _ He) as [Hl Hr].
           split; [exact Hcfg|]. split; [by rewrite Hs|]. split; [exact Hl|]. split; [|exact Hr].
           cbn [account_view sa_cluster] in Hk, Hu. rewrite Hk.
           assert (obj_key (with_ImagePullSecrets sa (reconcileReferences (ImagePullSecrets sa) secretName w))
             = (ns, name)) as Hkey by exact (live_key _ _ _ Hsa).
           destruct r as [[]|err].
           + apply update_ok in Hu as (_ & _ & _ & _ & Hf & _). by rewrite Hkey in Hf.
           + apply update_err in Hu. intros key _. by rewrite Hu. }
    intros o p' [Hout Hsec] -> sa1 w1 Hsa1. rewrite Hsec. fold wanted. intros Hw. change (account_outcome secretName ns name sa wanted (Ok tt) (account_view p')) in Hout. rewrite Hw in Hout.
    destruct (Hout eq_refl) as (sa' & Hsa' & _ & Hcount). cbn [account_view sa_cluster] in Hsa'. by simplify_eq.
  - eapply rg_mono.
    2: { apply (rg_keep _ (λ p', live (O := ServiceAccount) (kube p') (ns, name) = None)).
         - intros a a' (_ & _ & _ & Hl & _) <-. apply Hl.
         - intros X e a x a' _ [(_ & _ & Hk)|[Hne _]] Ha; [by rewrite Hk|].
           destruct Hne. intros sa' w Hsa'. congruence.
         - done.
         - eapply (rg_embed pstep sa_exec (λ X, OnAccount) account_view);
             [apply left_alone_account|by intros X f a x a' []| |by apply account_missing].
           intros X f a x a' He Hv. left. by eapply account_view_still. }
    intros o p' [_ Hnone] _ sa w Hsa'. congruence.
Qed.

(** ** One reconcile *)
Abbreviation pool_step_of := (process_exec namespace_read).
Abbreviation loaded_of := (λ p : Process K, ConfigStore.Loaded (ss_config (pr_sync p))).
Definition relies (ns : string) (a b : gset Request * Process K) : Prop := left_alone ns a.2 b.2.
Definition guarantees (G : Process K → Process K → Prop) (a b : gset Request * Process K) : Prop := G a.2 b.2.
Definition anything (a b : gset Request) : Prop := True.
#[local] Instance anything_preorder : PreOrder anything.
Proof. by split. Qed.
Abbreviation works ns G := (rg pool_step_of (relies ns) (guarantees G)).

Lemma steady_loaded ns p : steady ns p → loaded_of p = true.
Proof. intros [Hc _]. unfold ConfigStore.Loaded. rewrite Hc. by apply bool_decide_eq_true. Qed.
Lemma left_alone_loaded ns p p' : left_alone ns p p' → loaded_of p' = loaded_of p.
Proof. by intros (-> & _). Qed.

(** The knowledge about a namespace after a task. *)
Definition informed (ns : string) (known : bool * gset string) (st : gset Request * Process K) : Prop :=
  steady ns st.2 ∧ namespace_known ns known (kube st.2).

Lemma rg_relies {A} ns G r (p : prog (sumE ctlE procE) A) st Φ :
  rg pool_step_of (beside_rely anything (left_alone ns)) (beside_guar G r) p st Φ → works ns G p st Φ.
Proof.
  intros Hp. eapply rg_guar, rg_rely, Hp; [by intros a b []|]. by intros a b Hab.
Qed.

Lemma informed_left_alone ns known a b : relies ns a b → informed ns known a → informed ns known b.
Proof. intros Hl [? ?]. split; [by eapply steady_left_alone|by eapply known_left_alone]. Qed.

Lemma informed_elim ns accounts s p :
  informed ns (true, accounts) (s, p) →
  steady ns p ∧ secret_converged ns (kube p) ∧ ∀ name, name ∈ accounts → account_converged ns name (kube p).
Proof. intros [Hst [Hs Ha]]. split; [done|]. split; [by apply Hs|]. by intros name [_ ?]%Ha. Qed.

Lemma rg_task_end {A} ns G (p : prog (sumE ctlE procE) (reconciled_result A)) st (Ψ : bool → gset Request * Process K → Prop) :
  (∀ b s s', Ψ b s → relies ns s s' → Ψ b s') →
  works ns G p st (λ res st', Ψ (clean res) st') → works ns G (r ← p; mret (clean r)) st Ψ.
Proof.
  intros Hstable Hp. apply rg_bind; [intros a; apply left_alone_refl|]. eapply rg_mono; [|exact Hp].
  intros res st' HΨ st'' Hr. exact (Hstable _ _ _ HΨ Hr).
Qed.

Lemma clean_outcome r outcome (res : reconciled_result sync_error) :
  namespace_outcome (Syncer0 := process_namespace_syncer secretName) False r outcome res →
  clean res = true → outcome = Ok tt.
Proof. destruct outcome as [[]|e]; [done|]. by intros [->|(_ & _ & [])]. Qed.
Lemma clean_account_outcome r s1 outcome (res : reconciled_result sa_error) s2 :
  account_outcome_of (Syncer0 := process_account_syncer secretName) False r s1 outcome res s2 →
  clean res = true → outcome = Ok tt.
Proof.
  destruct outcome as [[]|e]; [done|]. unfold account_outcome_of.
  destruct (err_not_ready e); [|by intros [[-> _]|(_ & _ & _ & [])]].
  intros (delay & -> & _ & Hd & _) Hc%Z.eqb_eq. lia.
Qed.

(** A namespace program whose sync is known, as a reconcile beside the rest. *)
Lemma namespace_reconcile ns G s p (Ψ : result sync_error () → Process K → Prop) :
  ns ≠ "" → (∀ a, G a a) → steady ns p →
  (∀ o a b, Ψ o a → left_alone ns a b → Ψ o b) →
  (∀ p', left_alone ns p p' →
     rg pstep (left_alone ns) G (embed (λ X, OnSecret) (SyncNamespaceSecret secretName ns)) p' Ψ) →
  works ns G (NamespaceSecretReconciler_Reconcile (H := process_namespace_syncer secretName) (MkRequest "" ns))
    (s, p) (λ res st, ∃ outcome, Ψ outcome st.2 ∧ (clean res = true → outcome = Ok tt)).
Proof.
  intros Hne HG Hst Hstable Hsync. apply (rg_relies ns G (MkRequest "" ns)).
  eapply rg_mono.
  2: { apply (rg_namespace_reconcile pstep loaded_of False anything (left_alone ns) G); [apply left_alone_refl|
         apply left_alone_trans|apply left_alone_loaded|done|exact Hstable|intros _; exact Hsync]. }
  intros res [s' p'] [_ Hr]. cbn [snd] in *. unfold namespace_skipped in Hr.
  cbn [req_namespace req_name] in Hr. rewrite (steady_loaded ns p Hst), (bool_decide_false (ns = "")) in Hr by done.
  cbn in Hr. destruct Hr as (outcome & HΨ & Hout). exists outcome. split; [done|]. exact (clean_outcome _ _ _ Hout).
Qed.
Lemma account_reconcile ns name G s p (Ψ : result sa_error () → Process K → Prop) :
  ns ≠ "" → name ≠ "" → (∀ a, G a a) → steady ns p →
  (∀ o a b, Ψ o a → left_alone ns a b → Ψ o b) →
  (∀ p', left_alone ns p p' → rg pstep (left_alone ns) G (account_program ns name) p' Ψ) →
  works ns G (ServiceAccountReconciler_Reconcile (H := process_account_syncer secretName) (MkRequest ns name))
    (s, p) (λ res st, ∃ outcome, Ψ outcome st.2 ∧ (clean res = true → outcome = Ok tt)).
Proof.
  intros Hne Hname HG Hst Hstable Hsync. apply (rg_relies ns G (MkRequest ns name)).
  eapply rg_mono.
  2: { apply (rg_account_reconcile pstep loaded_of False anything (left_alone ns) G); [apply left_alone_refl|
         apply left_alone_trans|apply left_alone_loaded|done|exact Hstable|intros _; exact Hsync]. }
  intros res [s' p'] (s1 & s2 & _ & _ & Hr). cbn [snd] in *. unfold account_skipped in Hr.
  cbn [req_namespace req_name] in Hr. rewrite (steady_loaded ns p Hst), !bool_decide_false in Hr by done.
  cbn in Hr. destruct Hr as (outcome & HΨ & Hout). exists outcome. split; [done|]. exact (clean_account_outcome _ _ _ _ _ Hout).
Qed.

Lemma namespace_task ns known s p :
  ns ≠ "" → informed ns known (s, p) →
  works ns (elsewhere ns) (run_task secretName ns NamespaceTask) (s, p) (λ ok st, informed ns (learn known NamespaceTask ok) st).
Proof.
  intros Hne [Hst Hkn]. cbn [snd] in *. apply rg_task_end; [intros b a a' ? ?; by eapply informed_left_alone|].
  destruct known as [[] accounts]; cbn [learn fst snd orb].
  - eapply rg_mono; [|apply (rg_guar _ _ (guarantees still)); [by intros a b; apply still_elsewhere|]].
    2: { apply (namespace_reconcile ns still s p (λ _ p', informed ns (true, accounts) (s, p')));
           [done|done|done| |].
         - intros o a b Ha Hab. by apply (informed_left_alone ns _ (s, a)).
         - intros p' Hp'. eapply rg_mono; [|apply (rg_keep _ (λ p', informed ns (true, accounts) (s, p')))].
           + by intros o p'' [_ ?].
           + intros a b Hab. by apply (informed_left_alone ns _ (s, a) (s, b)).
           + intros X e a x b _ Hab. apply (informed_left_alone ns _ (s, a) (s, b)). by apply still_left_alone.
           + by apply (informed_left_alone ns _ (s, p) (s, p')).
           + apply namespace_idle; [by eapply steady_left_alone|].
             apply (proj1 (known_left_alone ns (true, accounts) p p' Hp' Hkn)). done. }
    by intros res st (o & ? & _).
  - eapply rg_mono.
    2: { apply (namespace_reconcile ns (elsewhere ns) s p
           (λ o p', (o = Ok tt → secret_converged ns (kube p')) ∧ steady ns p')); [done|done|done| |].
         - intros o a b [Ha Hsa] Hab. split; [intros Ho; by eapply secret_left_alone, Ha|].
           by eapply steady_left_alone.
         - intros p' Hp'. apply namespace_sync. by eapply steady_left_alone. }
    intros res st (o & [Hconv Hst'] & Ho). split; [done|]. split; [intros Hc; by apply Hconv, Ho|].
    cbn [fst snd]. by intros name [? _]%(proj2 Hkn).
Qed.

(** An account's own sync undoes nothing that is known. *)
Lemma account_keeps ns known name s p X (e : procE X) a x b :
  informed ns known (s, p) → pstep X e a x b → account_step ns name p a b →
  informed ns known (s, a) → informed ns known (s, b).
Proof.
  intros [_ [_ Hp]] He Hab [Hsa [Hs Hn]]. split; [by eapply exec_steady|]. cbn [snd] in *.
  destruct Hab as [Hab|(Hnc & _ & _ & Hl & Hf & _)]; [by eapply known_left_alone; [apply still_left_alone|]|].
  split; [intros Hk; specialize (Hs Hk); unfold secret_converged; by rewrite Hl|].
  intros m Hm. destruct (Hn m Hm) as [Hk Hc]. split; [done|].
  destruct (decide (m = name)) as [->|Hne]; [by destruct Hnc; apply Hp|].
  unfold account_converged. rewrite Hl, Hf by congruence. done.
Qed.

Lemma account_task ns known name s p :
  ns ≠ "" → name ≠ "" → informed ns known (s, p) →
  works ns (elsewhere ns) (run_task secretName ns (AccountTask name)) (s, p) (λ ok st, informed ns (learn known (AccountTask name) ok) st).
Proof.
  intros Hne Hname [Hst Hkn]. cbn [snd] in *. apply rg_task_end; [intros b a a' ? ?; by eapply informed_left_alone|].
  eapply rg_mono.
  2: { apply (account_reconcile ns name (elsewhere ns) s p
         (λ o q, (o = Ok tt → account_converged ns name (kube q)) ∧ informed ns known (s, q)));
           [done|done|intros a; by apply still_elsewhere|done| |].
       - intros o a b [Ha Hi] Hab. split; [intros Ho; by eapply account_left_alone, Ha|].
         by apply (informed_left_alone ns _ (s, a) (s, b)).
       - intros p' Hp'. assert (informed ns known (s, p')) as Hp by by apply (informed_left_alone ns _ (s, p) (s, p')).
         eapply rg_guar; [apply account_step_elsewhere|].
         apply (rg_keep _ (λ q, informed ns known (s, q))); [| |done|by apply account_sync, Hp].
         + intros a b. by apply (informed_left_alone ns _ (s, a) (s, b)).
         + intros X e a x b He Hab Ha. exact (account_keeps _ _ _ _ _ _ _ _ _ _ Hp He Hab Ha). }
  intros res st (o & [Hconv [Hst' [Hs Hn]]] & Ho). split; [done|]. cbn [snd] in *.
  split; [done|]. cbn [learn fst snd]. intros m Hm.
  destruct (known.1 && clean res) eqn:Hk; [|by apply Hn].
  apply andb_true_iff in Hk as [Hk Hc]. apply elem_of_union in Hm as [->%elem_of_singleton|Hm]; [|by apply Hn].
  split; [done|]. by apply Hconv, Ho.
Qed.

(** ** A worker *)
Lemma run_tasks_inform ns known ts s p :
  ns ≠ "" → AccountTask "" ∉ ts → informed ns known (s, p) →
  works ns (elsewhere ns) (run_tasks secretName ns ts) (s, p) (λ oks st, informed ns (learned known ts oks) st).
Proof.
  intros Hne. revert known s p. induction ts as [|t ts IH]; intros known s p Hts Hi; cbn [run_tasks].
  { intros st Hst. by eapply informed_left_alone. }
  apply not_elem_of_cons in Hts as [Ht Hts]. apply rg_bind; [intros a; apply left_alone_refl|].
  eapply (rg_mono _ _ _ _ _ (λ ok st, informed ns (learn known t ok) st)).
  2: { destruct t as [|name]; [by apply namespace_task|]. apply account_task; [done|congruence|done]. }
  intros ok [s1 p1] H1. apply rg_bind; [intros a; apply left_alone_refl|].
  eapply rg_mono; [|by apply IH]. intros oks st Hst st' Hr. by eapply informed_left_alone.
Qed.

(** Where everything is as asked, a worker writes nothing. *)
Lemma run_tasks_still ns ts s p :
  ns ≠ "" → AccountTask "" ∉ ts → steady ns p → secret_converged ns (kube p) →
  (∀ name, AccountTask name ∈ ts → account_converged ns name (kube p)) →
  works ns still (run_tasks secretName ns ts) (s, p) (λ _ _, True).
Proof.
  intros Hne. revert s p. induction ts as [|t ts IH]; intros s p Hts Hst Hconv Hacc; cbn [run_tasks]; [done|].
  apply not_elem_of_cons in Hts as [Ht Hts]. apply rg_bind; [intros a; apply left_alone_refl|].
  eapply (rg_mono _ _ _ _ _ (λ _ st, left_alone ns p st.2)).
  { intros ok [s1 p1] H1. cbn [snd] in H1. apply rg_bind; [intros a; apply left_alone_refl|].
    eapply rg_mono; [|apply (IH s1 p1); [done|by eapply steady_left_alone|by eapply secret_left_alone|]]; [done|].
    intros name Hin. eapply account_left_alone; [exact H1|]. apply Hacc. by right. }
  assert (∀ A (q : prog procE A) p1, left_alone ns p p1 → rg pstep (left_alone ns) still q p1 (λ _ _, True) →
    rg pstep (left_alone ns) still q p1 (λ _ p2, left_alone ns p p2)) as Hkeep.
  { intros A q p1 H1 Hq. eapply rg_mono; [|apply (rg_keep _ (left_alone ns p)); [| |exact H1|exact Hq]].
    - by intros a p2 [_ ?].
    - intros a b Hab Ha. by eapply left_alone_trans.
    - intros X e a x b _ Hab Ha. eapply left_alone_trans; [done|]. by apply still_left_alone. }
  destruct t as [|name]; cbn [run_task]; apply rg_task_end; try (intros b a a' ? ?; by eapply left_alone_trans).
  - eapply rg_mono; [|apply (namespace_reconcile ns still s p (λ _ p2, left_alone ns p p2)); [done|done|done| |]].
    + by intros res st (o & ? & _).
    + intros o a b Ha Hab. by eapply left_alone_trans.
    + intros p1 H1. apply Hkeep; [done|]. apply namespace_idle; [by eapply steady_left_alone|by eapply secret_left_alone].
  - eapply rg_mono; [|apply (account_reconcile ns name still s p (λ _ p2, left_alone ns p p2)); [done|congruence|done|done| |]].
    + by intros res st (o & ? & _).
    + intros o a b Ha Hab. by eapply left_alone_trans.
    + intros p1 H1. apply Hkeep; [done|]. eapply rg_mono; [done|].
      eapply rg_guar; [|apply account_sync; by eapply steady_left_alone].
      intros a b [Hab|[Hnc _]]; [done|]. destruct Hnc. eapply account_left_alone; [exact H1|]. apply Hacc. left.
Qed.

(** ** Workers side by side *)
Abbreviation worker plan := (run_tasks secretName plan.1 plan.2).
Abbreviation workers plans := ((λ plan : string * list task, worker plan) <$> plans).
Definition plan_rely (plans : list (string * list task)) (i : nat) (a b : gset Request * Process K) : Prop :=
  match plans !! i with Some plan => relies plan.1 a b | None => True end.
Definition plan_guar (plans : list (string * list task)) (i : nat) (a b : gset Request * Process K) : Prop :=
  match plans !! i with Some plan => guarantees (elsewhere plan.1) a b | None => False end.
Definition plan_ready (p : Process K) (plan : string * list task) : Prop :=
  plan.1 ≠ "" ∧ AccountTask "" ∉ plan.2 ∧ steady plan.1 p.
(** The rest of the world does not touch the namespaces of the workers. *)
Definition env_alone (plans : list (string * list task)) (Env : gset Request * Process K → gset Request * Process K → Prop) : Prop :=
  ∀ a b plan, Env a b → plan ∈ plans → relies plan.1 a b.

Lemma workers_inform plans Env s p s' p' ts' :
  NoDup plans.*1 → Forall (plan_ready p) plans → env_alone plans Env →
  rtc (pool_step pool_step_of Env) ((s, p), workers plans) ((s', p'), ts') →
  ∀ i plan oks, plans !! i = Some plan → ts' !! i = Some (Ret oks) →
    informed plan.1 (learned (false, ∅) plan.2 oks) (s', p').
Proof.
  intros Hnd Hready Henv Hrun i plan oks Hi Hret.
  apply (pool_sound pool_step_of Env (plan_rely plans) (plan_guar plans)
    (λ i oks st, match plans !! i with
     | Some plan => informed plan.1 (learned (false, ∅) plan.2 oks) st | None => True end)) in Hrun as [_ Hts].
  - specialize (Hts i _ Hret (s', p')). unfold plan_rely in Hts. rewrite Hi in Hts. apply Hts, left_alone_refl.
  - intros j a b c. unfold plan_rely. destruct (plans !! j); [|done]. apply left_alone_trans.
  - intros j a. unfold plan_rely. destruct (plans !! j); [|done]. apply left_alone_refl.
  - intros j j' a b Hne. unfold plan_guar, plan_rely.
    destruct (plans !! j) as [[ns ts]|] eqn:Hj, (plans !! j') as [[ns' tasks']|] eqn:Hj'; try done.
    apply elsewhere_left_alone. cbn. intros ->. apply Hne.
    apply (NoDup_lookup plans.*1 j j' ns'); [done|..]; by rewrite list_lookup_fmap, ?Hj, ?Hj'.
  - intros j a b Hab. unfold plan_rely. destruct (plans !! j) eqn:Hj; [|done].
    eapply Henv; [done|]. by eapply list_elem_of_lookup_2.
  - intros j q Hq. rewrite list_lookup_fmap in Hq.
    destruct (plans !! j) as [[ns ts]|] eqn:Hj; [|done]. injection Hq as <-.
    rewrite Forall_lookup in Hready. destruct (Hready j _ Hj) as (Hne & Hts & Hst).
    eapply rg_mono; [|eapply rg_rely, rg_guar, run_tasks_inform; [| |exact Hne|exact Hts|]].
    + intros oks1 st Hst1. exact Hst1.
    + intros a b. unfold plan_rely. by rewrite Hj.
    + intros a b. unfold plan_guar. by rewrite Hj.
    + split; [done|]. split; [done|]. by intros name ?%not_elem_of_empty.
Qed.
End convergence.

(** ** Properties *)

(** C3.  The controllers converge.  Workers reconcile distinct namespaces side by
    side, each through any sequence of reconciles of its Namespace and its
    accounts, in any interleaving of their calls with each other and with
    whatever leaves these namespaces alone, whatever their Secrets hold at the
    start.  Once the configuration and the credentials are steady and reads are
    fresh, a worker that is done and had a clean reconcile of the Namespace left
    the live Secret as the configuration asks for, and every account with a clean
    reconcile after that one carries the managed reference exactly when it
    should; later reconciles, also failing ones, undo none of it. *)
Theorem fleet_converges `{R : RangeOrder} {K : Type} `{!ApiServer Secret K} `{!ApiServer ServiceAccount K}
    `{!ApiServerLaws (O := Secret) K} `{!ApiServerLaws (O := ServiceAccount) K}
    `{!FreshReads (O := Secret) K} `{!FreshReads (O := ServiceAccount) K}
    (namespace_read : string → K → result api_error () → Prop) `{!Cluster K namespace_read}
    secretName snapshot creds plans Env s p s' p' ts' :
  distinct_registries (Registries snapshot) → presentable snapshot creds →
  NoDup plans.*1 → Forall (plan_ready namespace_read secretName snapshot creds p) plans →
  env_alone namespace_read secretName plans Env →
  rtc (pool_step (process_exec namespace_read) Env)
    ((s, p), (λ plan, run_tasks secretName plan.1 plan.2) <$> plans) ((s', p'), ts') →
  ∀ i ns ts oks, plans !! i = Some (ns, ts) → ts' !! i = Some (Ret oks) →
    let '(settled, accounts) := learned (false, ∅) ts oks in
    (settled = true → secret_converged secretName snapshot creds ns (cluster (pr_sync p'))) ∧
    ∀ name, name ∈ accounts → account_converged secretName snapshot ns name (cluster (pr_sync p')).
Proof.
  intros Hd Hp Hnd Hready Henv Hrun i ns ts oks Hi Hret.
  destruct (workers_inform namespace_read secretName snapshot creds Hd Hp plans Env s p s' p' ts'
    Hnd Hready Henv Hrun i (ns, ts) oks Hi Hret) as [_ [Hs Ha]]. cbn [fst snd] in *.
  destruct (learned (false, ∅) ts oks) as [settled accounts]. split; [exact Hs|]. by intros name [_ ?]%Ha.
Qed.

(** C18.  And then they are quiet: in a namespace whose Secret and accounts are as the
    configuration asks for, any sequence of reconciles writes nothing at all,
    whatever happens elsewhere meanwhile. *)
Theorem converged_is_quiet `{R : RangeOrder} {K : Type} `{!ApiServer Secret K} `{!ApiServer ServiceAccount K}
    `{!ApiServerLaws (O := Secret) K} `{!ApiServerLaws (O := ServiceAccount) K}
    `{!FreshReads (O := Secret) K} `{!FreshReads (O := ServiceAccount) K}
    (namespace_read : string → K → result api_error () → Prop) `{!Cluster K namespace_read}
    secretName snapshot creds ns ts s p :
  distinct_registries (Registries snapshot) → presentable snapshot creds →
  ns ≠ "" → AccountTask "" ∉ ts → steady namespace_read secretName snapshot creds ns p →
  secret_converged secretName snapshot creds ns (cluster (pr_sync p)) →
  (∀ name, AccountTask name ∈ ts → account_converged secretName snapshot ns name (cluster (pr_sync p))) →
  rg (process_exec namespace_read)
    (λ a b, left_alone namespace_read secretName ns a.2 b.2)
    (λ a b, cluster (pr_sync b.2) = cluster (pr_sync a.2))
    (run_tasks secretName ns ts) (s, p) (λ _ _, True).
Proof.
  intros Hd Hp Hne Hts Hst Hs Ha. eapply rg_guar; [|by apply (run_tasks_still namespace_read secretName snapshot creds)].
  by intros a b (_ & _ & Hk).
Qed.

(** What the metrics expect is the rendering without an existing Secret. *)
Lemma expected_documents `{RangeOrder} snapshot creds :
  valid_documents (build_documents snapshot creds None).1 →
  auths (Inspect (Some (expected_secret (Build snapshot creds None).1)))
    = Some (auth_value <$> (build_documents snapshot creds None).1.1) ∧
  states (Inspect (Some (expected_secret (Build snapshot creds None).1)))
    = Some (entry_value <$> (build_documents snapshot creds None).1.2).
Proof.
  intros [Hd Hs]. destruct (Build_marshals snapshot creds None (conj Hd Hs)) as (text & Htext & ->).
  destruct (unmarshal_state_marshal _ Hs) as (text' & Htext' & Hun).
  rewrite Htext in Htext'. injection Htext' as <-. unfold Inspect, expected_secret.
  cbn [fst Data Annotations DockerJSON StateJSON]. rewrite !lookup_singleton_eq. cbn [default from_option id].
  by rewrite unmarshal_docker_marshal, to_of_bytes, Hun.
Qed.

(** A Secret that needs no update carries the rendered documents. *)
Lemma matches_carries `{RangeOrder} snapshot creds existing l :
  valid_documents (build_documents snapshot creds existing).1 →
  secretMatches l (Build snapshot creds existing).1 = true →
  carries l (build_documents snapshot creds existing).1 ∧ sec_Type l = SecretTypeDockerConfigJson ∧
  IsManaged (Some l) = true.
Proof.
  intros Hv. destruct (Build_marshals _ _ _ Hv) as (text & Htext & ->). unfold secretMatches.
  cbn [fst DockerJSON StateJSON]. rewrite !andb_true_iff, !bool_decide_eq_true.
  intros [[[[[Ht _] Hd] Hn] Hm] Ha]. split; [|split; [done|by apply andb_true_iff]]. split.
  - destruct (Data l !! DockerConfigJsonKey) as [b|]; cbn in Hd; [by subst|].
    exfalso. revert Hd. unfold marshal_docker, docker_value. by destruct (sorted_bindings _).
  - exists text. split; [done|]. unfold label_is in Ha.
    apply bool_decide_eq_true in Ha. destruct (Annotations l !! StateAnnotationKey) as [a|]; [by rewrite <-Ha|].
    exfalso. revert Ha. unfold marshal_state in Htext. rewrite state_value_valid in Htext by apply Hv.
    injection Htext as <-. done.
Qed.

(** C17.  In a converged namespace the metrics report every registry with a current
    credential as "synced" until the credential expires and as "expired" after
    that: the Secret is there, and unless it belongs to someone else it agrees
    with what the metrics expect, although they render it without looking at the
    Secret. *)
Theorem converged_is_synced `{R : RangeOrder} {K : Type} `{!ApiServer Secret K}
    secretName snapshot creds ns (k : K) key r v now :
  distinct_registries (Registries snapshot) → presentable snapshot creds →
  MatchesNamespace snapshot ns = true →
  secret_converged secretName snapshot creds ns k →
  Registries snapshot !! key = Some r → ready creds (key, r) = Some v → Domains r ≠ [] →
  usable_auth (auth_of v) = true → complete_state (state_of r v) = true →
  ∃ l, live k (ns, secretName) = Some l ∧
    (IsManaged (Some l) = false ∨ DeletionTimestamp l ≠ None ∨
     RegistryStatus (Inspect (Some l)) r (Inspect (Some (expected_secret (Build snapshot creds None).1))) now
     = (if (now <? ExpiresAt v)%Z then Synced else Expired, UTC (ExpiresAt v))).
Proof.
  intros Hd Hp Hn Hconv Hk Hr Hne Hu Hcs. unfold secret_converged in Hconv.
  pose proof (presentable_documents _ _ None Hd Hp) as Hv0.
  pose proof (build_holds snapshot creds None key r v Hd Hk Hr) as Hh0.
  destruct (live k (ns, secretName)) as [l|].
  - exists l. split; [done|]. destruct Hconv as [Hm|[_ Hb]]; [by left|].
    destruct (DeletionTimestamp l) eqn:Hdel; [right; by left|]. right. right.
    pose proof (presentable_documents _ _ (Some l) Hd Hp) as Hv.
    pose proof (build_holds snapshot creds (Some l) key r v Hd Hk Hr) as Hh.
    assert (secretMatches l (Build snapshot creds (Some l)).1 = true) as Hmatch
      by by (destruct (Build snapshot creds (Some l)); destruct Hb as (_ & ? & _)).
    destruct (matches_carries _ _ _ _ Hv Hmatch) as (Hc & Ht & Hm).
    destruct (expected_documents snapshot creds Hv0) as [Hea Hes].
    by apply (documents_synced l _ _ _ r v now Hv Hv0).
  - exfalso. specialize (Hconv Hn). destruct (Build_marshals snapshot creds None Hv0) as (text & _ & Hb).
    rewrite Hb in Hconv. cbn [fst HasAuth hasAuth] in Hconv.
    apply negb_false_iff, bool_decide_eq_true in Hconv. destruct Hh0 as [_ Hau].
    destruct (Domains r) as [|d ds]; [done|]. specialize (Hau d ltac:(left)). by rewrite Hconv in Hau.
Qed.

(** ** A concrete fleet: Secrets and ServiceAccounts in two logs, two workers *)
Module FleetExample.
Import RegistrySecretExample.
#[local] Existing Instance range_forward.
Abbreviation secrets := (list (History.entry (O := Secret))).
Abbreviation accounts := (list (History.entry (O := ServiceAccount))).
Abbreviation state := (secrets * accounts)%type.
#[local] Instance secret_server : ApiServer Secret secrets := History.server SyncerExample.set_version.
#[local] Instance account_server : ApiServer ServiceAccount accounts :=
  History.server ServiceAccountExample.set_version.

(** The server may refuse a write for reasons of its own. *)
Definition refused (k : state) (r : result api_error ()) (k' : state) : Prop :=
  r = Err (Failed "refused") ∧ k' = k.
#[local] Instance secrets_of : ApiServer Secret state := {|
  live k := live (ApiServer := secret_server) k.1;
  seen k := seen (ApiServer := secret_server) k.1;
  read key k := read (ApiServer := secret_server) key k.1;
  create o k r k' := create (ApiServer := secret_server) o k.1 r k'.1 ∧ k'.2 = k.2 ∨ refused k r k';
  update o k r k' := update (ApiServer := secret_server) o k.1 r k'.1 ∧ k'.2 = k.2 ∨ refused k r k';
  remove o uid rv k r k' := remove (ApiServer := secret_server) o uid rv k.1 r k'.1 ∧ k'.2 = k.2;
  others k k' := k' = k
|}.
#[local] Instance accounts_of : ApiServer ServiceAccount state := {|
  live k := live (ApiServer := account_server) k.2;
  seen k := seen (ApiServer := account_server) k.2;
  read key k := read (ApiServer := account_server) key k.2;
  create o k r k' := create (ApiServer := account_server) o k.2 r k'.2 ∧ k'.1 = k.1 ∨ refused k r k';
  update o k r k' := update (ApiServer := account_server) o k.2 r k'.2 ∧ k'.1 = k.1 ∨ refused k r k';
  remove o uid rv k r k' := remove (ApiServer := account_server) o uid rv k.2 r k'.2 ∧ k'.1 = k.1;
  others k k' := k' = k
|}.

Lemma secret_laws : ApiServerLaws (O := Secret) secrets.
Proof. exact (History.server_laws SyncerExample.set_version (λ _ _, eq_refl) (λ _ _, eq_refl) (λ _ _, eq_refl) (λ _ _, eq_refl)). Qed.
Lemma account_laws : ApiServerLaws (O := ServiceAccount) accounts.
Proof. exact (History.server_laws ServiceAccountExample.set_version (λ _ _, eq_refl) (λ _ _, eq_refl) (λ _ _, eq_refl) (λ _ _, eq_refl)). Qed.

#[local] Instance secrets_of_laws : ApiServerLaws (O := Secret) state.
Proof.
  destruct secret_laws as [L1 L2 L3 L4 L5 L6 L7 L8 L9 L10 L11 L12]. split; cbn [secrets_of live seen read create update remove others].
  - intros k. apply L1.
  - intros k. apply L2.
  - intros k. apply L3.
  - intros key k. apply L4.
  - by intros k k' o ->.
  - intros o k k' [[H _]|[? _]]; [by apply L6 in H|done].
  - intros o k e k' [[H _]|[_ ->]]; [by apply L7 in H|done].
  - intros o k k' [[H _]|[? _]]; [by apply L8 in H|done].
  - intros o k e k' [[H _]|[_ ->]]; [by apply L9 in H|done].
  - intros o uid rv k k' [H _]. by apply L10 in H.
  - intros o uid rv k e k' [H _]. by apply L11 in H.
  - intros o uid rv k k' [H _]. by apply L12 in H.
Qed.
#[local] Instance accounts_of_laws : ApiServerLaws (O := ServiceAccount) state.
Proof.
  destruct account_laws as [L1 L2 L3 L4 L5 L6 L7 L8 L9 L10 L11 L12]. split; cbn [accounts_of live seen read create update remove others].
  - intros k. apply L1.
  - intros k. apply L2.
  - intros k. apply L3.
  - intros key k. apply L4.
  - by intros k k' o ->.
  - intros o k k' [[H _]|[? _]]; [by apply L6 in H|done].
  - intros o k e k' [[H _]|[_ ->]]; [by apply L7 in H|done].
  - intros o k k' [[H _]|[? _]]; [by apply L8 in H|done].
  - intros o k e k' [[H _]|[_ ->]]; [by apply L9 in H|done].
  - intros o uid rv k k' [H _]. by apply L10 in H.
  - intros o uid rv k e k' [H _]. by apply L11 in H.
  - intros o uid rv k k' [H _]. by apply L12 in H.
Qed.
#[local] Instance secrets_of_fresh : FreshReads (O := Secret) state.
Proof. intros key k r. apply (History.server_fresh SyncerExample.set_version key k.1 r). Qed.
#[local] Instance accounts_of_fresh : FreshReads (O := ServiceAccount) state.
Proof. intros key k r. apply (History.server_fresh ServiceAccountExample.set_version key k.2 r). Qed.
Definition present (ns : string) (k : state) (r : result api_error ()) : Prop := r = Ok tt.
#[local] Instance fleet_cluster : Cluster state present.
Proof.
  split; cbn [secrets_of accounts_of live create update remove].
  - by intros o k r k' [[_ ->]|[_ ->]].
  - by intros o k r k' [[_ ->]|[_ ->]].
  - by intros o uid rv k r k' [_ ->].
  - by intros o k r k' [[_ ->]|[_ ->]].
  - intros o uid rv k k' [H _]. cbn in H |- *. unfold History.do_remove in H.
    destruct (History.lookup_live _ k.1 _) as [l|]; [|done].
    destruct (History.locked _ _ _ _ _); [|done]. injection H as ->. cbn. by rewrite decide_True.
Qed.

(** The calls answered one after the other. *)
Definition put_secrets (s : SyncState state) (ok : bool) (r : result api_error () * secrets) (w : secret_write) :
    result api_error () * SyncState state :=
  if ok then (r.1, after_write s (r.2, (cluster s).2) r.1 w)
  else (Err (Failed "refused"), after_write s (cluster s) (Err (Failed "refused")) w).
(** An object is taken only with the deletion mark of the live one. *)
Definition same_mark {O} `{KubeObject O} (o : O) (l : option O) : bool :=
  from_option (λ l, eqb (deleting o) (deleting l)) true l.
Definition sync_answer (X : Type) (e : syncE X) : SyncState state → X * SyncState state :=
  match e in syncE X return SyncState state → X * SyncState state with
  | LoadConfiguration => λ s, (ConfigStore.Load (ss_config s), s)
  | GetNamespace _ => λ s, (Ok tt, s)
  | GetSecret ns name => λ s, (History.do_read SyncerExample.set_version (ns, name) (cluster s).1, s)
  | SnapshotCredentials => λ s, (CredentialStore.Snapshot (ss_credentials s), s)
  | ClearConflict ns => λ s, (tt, set_conflicts s (clearConflict (conflicts s) ns))
  | SwapConflict ns uid => λ s,
      let '(previous, c) := swapConflict (conflicts s) ns uid in (previous, set_conflicts s c)
  | EmitConflict secret => λ s, (tt, add_conflict_event s secret)
  | CreateSecret secret => λ s,
      put_secrets s (negb (deleting secret)) (History.do_create SyncerExample.set_version secret (cluster s).1) (Created secret)
  | UpdateSecret secret => λ s, put_secrets s (same_mark secret (live (cluster s) (obj_key secret)))
      (History.do_update SyncerExample.set_version secret (cluster s).1)
      (Updated (live (cluster s) (obj_key secret)) secret)
  | DeleteSecret secret uid rv => λ s, put_secrets s true
      (History.do_remove SyncerExample.set_version secret uid rv (cluster s).1)
      (Deleted (live (cluster s) (obj_key secret)))
  end.
Definition account_answer (X : Type) (e : saE X) : SAState state → X * SAState state :=
  match e in saE X return SAState state → X * SAState state with
  | LoadSAConfiguration => λ s, (ConfigStore.Load (sa_config s), s)
  | GetServiceAccount ns name => λ s, (History.do_read ServiceAccountExample.set_version (ns, name) (sa_cluster s).2, s)
  | GetManagedSecret ns name => λ s, (History.do_read SyncerExample.set_version (ns, name) (sa_cluster s).1, s)
  | PatchServiceAccount base refs => λ s,
      let '(r, k) :=
        if same_mark base (live (sa_cluster s) (obj_key base))
        then History.do_update ServiceAccountExample.set_version (with_ImagePullSecrets base refs) (sa_cluster s).2
        else (Err (Failed "refused"), (sa_cluster s).2) in
      (r, MkSAState (sa_config s) ((sa_cluster s).1, k) (sa_patches s ++
        if is_ok r then [(ImagePullSecrets <$> live (O := ServiceAccount) (sa_cluster s) (obj_key base), refs)] else []))
  end.
Abbreviation fleet := (gset Request * Process state)%type.
Definition ctl_answer (X : Type) (e : ctlE X) (t : Process state) : gset Request → X * gset Request :=
  match e in ctlE X return gset Request → X * gset Request with
  | StoreLoaded => λ s, (ConfigStore.Loaded (ss_config (pr_sync t)), s)
  | ContextEnded => λ s, (false, s)
  | BackoffWhen r => λ s, (secretDependencyInitialDelay, {[r]} ∪ s)
  | BackoffForget r => λ s, (tt, s ∖ {[r]})
  end.
Definition answer (X : Type) (c : sumE ctlE procE X) (st : fleet) : X * fleet :=
  match c with
  | OwnCall e => let '(x, s) := ctl_answer X e st.2 st.1 in (x, (s, st.2))
  | ComponentCall (OnSecret e) =>
    let '(x, s) := sync_answer X e (pr_sync st.2) in (x, (st.1, MkProcess s (pr_patches st.2)))
  | ComponentCall (OnAccount e) =>
    let '(x, s) := account_answer X e (account_view st.2) in
    (x, (st.1, MkProcess (set_cluster (pr_sync st.2) (sa_cluster s)) (sa_patches s)))
  end.
Lemma sync_answer_exec X (e : syncE X) s : sync_exec present X e s (sync_answer X e s).1 (sync_answer X e s).2.
Proof.
  destruct e; cbn [sync_answer sync_exec]; try done; unfold put_secrets.
  - destruct (negb (deleting secret)) eqn:Hd; [|by exists (cluster s); split; [right|]].
    eexists. split; [|done]. left. split; [|done]. cbn. split; [by destruct (History.do_create _ _ _)|by apply negb_true_iff].
  - destruct (same_mark _ _) eqn:Hd; [|by exists (cluster s); split; [right|]].
    eexists. split; [|done]. left. split; [|done]. cbn. split; [by destruct (History.do_update _ _ _)|].
    intros l Hl. cbn in Hd. rewrite Hl in Hd. by apply eqb_prop in Hd.
  - eexists. split; [|done]. split; [|done]. cbn. by destruct (History.do_remove _ _ _ _ _).
Qed.
Lemma account_answer_exec X (e : saE X) s : sa_exec X e s (account_answer X e s).1 (account_answer X e s).2.
Proof.
  destruct e; cbn [account_answer sa_exec]; try done.
  destruct (same_mark _ _) eqn:Hd.
  - destruct (History.do_update _ _ _) as [r k] eqn:Hu. eexists. split; [|done]. left. split; [|done]. cbn.
    split; [done|]. intros l Hl. cbn in Hd. rewrite Hl in Hd. by apply eqb_prop in Hd.
  - eexists. split; [|done]. right. by destruct (sa_cluster s).
Qed.
Lemma fleet_answer_exec X (c : sumE ctlE procE X) (st : fleet) :
  process_exec present X c st (answer X c st).1 (answer X c st).2.
Proof.
  destruct st as [s p]. destruct c as [e|[e|e]]; cbn [answer fst snd].
  - destruct e; cbn; done.
  - pose proof (sync_answer_exec X e (pr_sync p)) as He.
    destruct (sync_answer X e (pr_sync p)) as [x s']. by split.
  - pose proof (account_answer_exec X e (account_view p)) as He.
    destruct (account_answer X e (account_view p)) as [x s']. cbn [fst snd] in *. split; [|done].
    split; [|done]. unfold account_view at 2. cbn. destruct s' as [c k ps]. cbn.
    assert (c = ss_config (pr_sync p)) as ->; [|done].
    destruct e; cbn [sa_exec] in He; [destruct He as [_ He]..|destruct He as (k' & _ & He)]; by injection He.
Qed.

(** Two namespaces: [team-a] is not selected and has a managed Secret and an
    account that refers to it twice; [team-b] is selected and has no Secret yet,
    and its worker starts with the account, which has to wait. *)
Definition snapshot : ConfigurationSnapshot :=
  MkSnapshot 1 (MkSelector false ["team-b"]) [] (MkSelector true []) {[ Key r := r ]} zero_runtime.
Definition creds : gmap RegistryKey Entry := {[ Key r := entry_of r vr 2 ]}.
Lemma fleet_distinct : distinct_registries (Registries snapshot).
Proof. apply distinct_check_sound. vm_compute. reflexivity. Qed.
Lemma fleet_valid : presentable snapshot creds.
Proof.
  intros k r' v Hk Hr. cbn [snapshot Registries] in Hk. apply lookup_singleton_Some in Hk as [<- <-].
  unfold ready in Hr. cbn [fst snd] in Hr. unfold creds in Hr. rewrite lookup_singleton_eq in Hr.
  destruct (MatchesRegistry _ _); [|done]. injection Hr as <-. apply (bool_decide_unpack _). vm_compute. exact I.
Qed.
Definition leftover : Secret :=
  MkSecret "team-a" "acr" "uid" "" None SecretTypeDockerConfigJson ∅ (Labels ServiceAccountExample.managed) ∅.
Definition account (ns : string) (refs : list string) : ServiceAccount :=
  MkServiceAccount ns "default" "uid" "" false refs.
Definition k0 : state :=
  ([History.Put leftover],
   [History.Put (account "team-b" []); History.Put (account "team-a" ["other"; "acr"; "acr"])]).
Definition p0 : Process state :=
  MkProcess (MkSyncState (ConfigStore.MkStore (Some snapshot) true) (CredentialStore.MkStore creds 2) ∅ [] k0 []) [].
Definition plans : list (string * list task) :=
  [("team-a", [NamespaceTask; AccountTask "default"]);
   ("team-b", [AccountTask "default"; NamespaceTask; AccountTask "default"])].
Abbreviation program plan := (run_tasks "acr" plan.1 plan.2).
Definition st0 : fleet := (∅, p0).
Definition worker_a : prog (sumE ctlE procE) (list bool) := program ("team-a", [NamespaceTask; AccountTask "default"]).
Definition worker_b : prog (sumE ctlE procE) (list bool) :=
  program ("team-b", [AccountTask "default"; NamespaceTask; AccountTask "default"]).
Definition after_a : list bool * fleet := interp answer worker_a st0.
Definition after_b : list bool * fleet := interp answer worker_b after_a.2.

Lemma results : after_a.1 = [true; true] ∧ after_b.1 = [false; true; true].
Proof. split; apply (bool_decide_unpack _); vm_compute; exact I. Qed.
Abbreviation no_env := (λ _ _ : fleet, False).
Lemma fleet_runs :
  rtc (pool_step (process_exec present) no_env) (st0, (λ plan, program plan) <$> plans)
    (after_b.2, [Ret after_a.1; Ret after_b.1]).
Proof.
  change ((λ plan, program plan) <$> plans) with [worker_a; worker_b].
  transitivity (after_a.2, [Ret after_a.1; worker_b]).
  - exact (pool_run (process_exec present) no_env answer worker_a st0 [worker_a; worker_b] 0
      fleet_answer_exec eq_refl).
  - exact (pool_run (process_exec present) no_env answer worker_b after_a.2
      [Ret after_a.1; worker_b] 1 fleet_answer_exec eq_refl).
Qed.

Lemma st0_ready plan : plan ∈ plans → plan_ready present "acr" snapshot creds p0 plan.
Proof.
  intros [->|[->|[]%not_elem_of_nil]%elem_of_cons]%elem_of_cons; (split; [done|]);
    (split; [apply (bool_decide_unpack _); vm_compute; exact I|]); (split; [done|]); (split; [done|]);
    (split; [|done]); intros l Hl; cbn in Hl; [|done].
  by injection Hl as <-.
Qed.

Lemma plans_distinct : NoDup plans.*1.
Proof. apply (bool_decide_unpack _). vm_compute. exact I. Qed.
Lemma plans_ready : Forall (plan_ready present "acr" snapshot creds p0) plans.
Proof. apply Forall_forall. exact st0_ready. Qed.
Lemma fleet_run :
  rtc (pool_step (process_exec present) no_env) ((∅, p0), (λ plan, program plan) <$> plans)
    ((after_b.2.1, after_b.2.2), [Ret after_a.1; Ret after_b.1]).
Proof. rewrite <-surjective_pairing. exact fleet_runs. Qed.
Lemma team_b_settled :
  let k := cluster (pr_sync after_b.2.2) in
  steady present "acr" snapshot creds "team-b" after_b.2.2 ∧ secret_converged "acr" snapshot creds "team-b" k ∧
  ∀ name, name ∈ ({["default"]} ∪ ∅ : gset string) → account_converged "acr" snapshot "team-b" name k.
Proof.
  pose proof (workers_inform present "acr" snapshot creds fleet_distinct fleet_valid plans no_env ∅ p0 after_b.2.1 after_b.2.2
    [Ret after_a.1; Ret after_b.1] plans_distinct plans_ready (λ _ _ _ H, False_ind _ H) fleet_run
    1 _ _ eq_refl eq_refl) as Hi.
  rewrite (proj2 results) in Hi. exact (informed_elim _ _ _ _ _ _ _ _ Hi).
Qed.

(** [team-a] is cleared, and [team-b] gets the Secret and one reference to it. *)
Lemma fleet_converges_witness :
  secret_converged "acr" snapshot creds "team-a" (cluster (pr_sync after_b.2.2)) ∧
  account_converged "acr" snapshot "team-b" "default" (cluster (pr_sync after_b.2.2)).
Proof.
  pose proof (fleet_converges present "acr" snapshot creds plans no_env ∅ p0 after_b.2.1 after_b.2.2
    [Ret after_a.1; Ret after_b.1] fleet_distinct fleet_valid plans_distinct plans_ready (λ _ _ _ H, False_ind _ H) fleet_run) as Hc.
  rewrite (proj1 results), (proj2 results) in Hc. split.
  - exact (proj1 (Hc 0 _ _ _ eq_refl eq_refl) eq_refl).
  - refine (proj2 (Hc 1 _ _ _ eq_refl eq_refl) "default" _). cbn. set_solver.
Defined.

Lemma converged_is_quiet_witness :
  rg (process_exec present)
    (λ a b : fleet, left_alone present "acr" "team-b" a.2 b.2)
    (λ a b, cluster (pr_sync b.2) = cluster (pr_sync a.2))
    (run_tasks "acr" "team-b" [AccountTask "default"; NamespaceTask]) after_b.2 (λ _ _, True).
Proof.
  rewrite (surjective_pairing after_b.2). destruct team_b_settled as (Hst & Hs & Ha).
  refine (converged_is_quiet present "acr" snapshot creds "team-b" [AccountTask "default"; NamespaceTask]
    after_b.2.1 after_b.2.2 fleet_distinct fleet_valid ltac:(discriminate) _ Hst Hs _).
  - apply (bool_decide_unpack _). vm_compute. exact I.
  - intros name Hin. assert (name = "default") as ->.
    { clear -Hin. by apply elem_of_cons in Hin as [[= ->]|[?|?%not_elem_of_nil]%elem_of_cons]. }
    apply Ha. clear. set_solver.
Defined.

Lemma converged_is_synced_witness :
  ∃ l, live (cluster (pr_sync after_b.2.2)) ("team-b", "acr") = Some l ∧
    (IsManaged (Some l) = false ∨ DeletionTimestamp l ≠ None ∨
     RegistryStatus (Inspect (Some l)) r (Inspect (Some (expected_secret (Build snapshot creds None).1))) Minute
     = (Synced, UTC (60 * Minute)%Z)).
Proof.
  destruct team_b_settled as (_ & Hs & _).
  exact (converged_is_synced "acr" snapshot creds "team-b" (cluster (pr_sync after_b.2.2)) (Key r) r vr Minute
    fleet_distinct fleet_valid eq_refl Hs eq_refl vr_ready ltac:(discriminate) ltac:(vm_compute; reflexivity)
    ltac:(vm_compute; reflexivity)).
Defined.
End FleetExample.
