(* ===== verification/GoFloat.v ===== *)
(** * float64 arithmetic

    What the code uses of binary64: conversions from and to integers, the four
    operations rounded to nearest (ties to even, no fused multiply-add),
    [time.Duration.Seconds] and [sort.Float64s].  Then the rounding of SpecFloat, bit
    by bit: what a shift keeps, which integers are exact.  On top of it a theory of
    values: [fval] is the value of a float that is not negative, a whole number of
    2^-1074; every operation computes the exact value rounded by [rnd], which is
    monotone, keeps what fits 53 bits, and errs by one part in 2^53.  From that:
    products of small integers are exact, and a linear interpolation stays between
    its ends and is monotone. *)
From S2P Require Import Prelude GoStrings ConfigTypes Credential.
From Stdlib Require Import SpecFloat.

Definition float_of_int (z : Z) : float64 := binary_normalize 53 1024 z 0 false.
Definition fadd : float64 → float64 → float64 := SFadd 53 1024.
Definition fsub : float64 → float64 → float64 := SFsub 53 1024.
Definition fmul : float64 → float64 → float64 := SFmul 53 1024.
Definition fdiv : float64 → float64 → float64 := SFdiv 53 1024.

(** [int(x)] for a finite [x] in range: truncation towards zero. *)
Definition int_of_float (x : float64) : Z :=
  match x with
  | S754_finite s m e => cond_Zopp s (if (0 <=? e)%Z then Z.shiftl (Zpos m) e else Z.shiftr (Zpos m) (- e))
  | _ => 0
  end.

Definition Seconds (d : Duration) : float64 :=
  fadd (float_of_int (Z.quot d Second)) (fdiv (float_of_int (Z.rem d Second)) (float_of_int Second)).

(** The order of [sort.Float64s]: NaN first.  On the other values it is total,
    and antisymmetric but for the two zeros. *)
Definition float_le (x y : float64) : Prop := is_nan x = true ∨ SFleb x y = true.
#[export] Instance float_le_dec x y : Decision (float_le x y) := _.
Definition sort_Float64s (l : list float64) : list float64 := merge_sort float_le l.

Definition not_nan (x : float64) : Prop := is_nan x = false.

Lemma SFleb_total x y : not_nan x → not_nan y → SFleb x y = true ∨ SFleb y x = true.
Proof.
  unfold not_nan, SFleb. destruct x as [[]|[]| |[] mx ex], y as [[]|[]| |[] my ey]; simpl; auto; intros _ _.
  all: destruct (Z.compare_spec ex ey), (Z.compare_spec ey ex); auto; try lia.
  all: change (Pos.compare_cont Eq ?a ?b) with (Pos.compare a b).
  all: destruct (Pos.compare_spec mx my), (Pos.compare_spec my mx); simpl; auto; lia.
Qed.

#[export] Instance float_le_total : Total float_le.
Proof.
  intros x y. unfold float_le. destruct (is_nan x) eqn:Hx; [by left; left|].
  destruct (is_nan y) eqn:Hy; [by right; left|].
  destruct (SFleb_total x y Hx Hy); auto.
Qed.

#[export] Instance float_le_trans : Transitive float_le.
Proof.
  intros x y z. unfold float_le, SFleb.
  destruct x as [[]|[]| |[] mx ex], y as [[]|[]| |[] my ey], z as [[]|[]| |[] mz ez]; simpl;
    try (by intuition discriminate).
  all: intros [?|Hxy] [?|Hyz]; try discriminate; right.
  all: change (Pos.compare_cont Eq ?a ?b) with (Pos.compare a b) in *.
  all: destruct (Z.compare_spec ex ey), (Z.compare_spec ey ez), (Z.compare_spec ex ez); try lia;
    try discriminate; try done.
  all: destruct (Pos.compare_spec mx my), (Pos.compare_spec my mz), (Pos.compare_spec mx mz);
    simpl in *; try discriminate; try done; lia.
Qed.

(** The values that are not negative and not -0. *)
Definition nonneg_float (x : float64) : Prop :=
  match x with
  | S754_zero s | S754_infinity s | S754_finite s _ _ => s = false
  | S754_nan => True
  end.

Lemma float_le_antisymm x y :
  nonneg_float x → nonneg_float y → float_le x y → float_le y x → x = y.
Proof.
  unfold float_le, SFleb. destruct x as [sx|sx| |sx mx ex], y as [sy|sy| |sy my ey]; simpl;
    intros Hx Hy; subst; try (by intuition discriminate).
  intros [?|Hxy] [?|Hyx]; try discriminate.
  change (Pos.compare_cont Eq ?a ?b) with (Pos.compare a b) in *.
  destruct (Z.compare_spec ex ey), (Z.compare_spec ey ex); try discriminate; try lia.
  destruct (Pos.compare_spec mx my), (Pos.compare_spec my mx); try discriminate; try lia; by subst.
Qed.

(** Rounding and the operations keep the sign of operands that are not negative. *)
Lemma binary_round_aux_nonneg m e l : nonneg_float (binary_round_aux 53 1024 false m e l).
Proof.
  unfold binary_round_aux. destruct (shr_fexp 53 1024 m e l) as [r e1].
  destruct (shr_fexp 53 1024 _ e1 loc_Exact) as [r' e2].
  destruct (shr_m r'); simpl; [done| |done]. by destruct (e2 <=? _)%Z.
Qed.

Lemma binary_normalize_nonneg z e : (0 ≤ z)%Z → nonneg_float (binary_normalize 53 1024 z e false).
Proof.
  intros Hz. unfold binary_normalize. destruct z as [|p|p]; [done| |lia].
  unfold binary_round. destruct (shl_align _ _ _) as [m e'].
  apply binary_round_aux_nonneg.
Qed.

Lemma float_of_int_nonneg z : (0 ≤ z)%Z → nonneg_float (float_of_int z).
Proof. apply binary_normalize_nonneg. Qed.

Lemma fadd_nonneg x y : nonneg_float x → nonneg_float y → nonneg_float (fadd x y).
Proof.
  destruct x as [sx|sx| |sx mx ex], y as [sy|sy| |sy my ey]; simpl; intros Hx Hy; subst; try done.
  apply binary_normalize_nonneg. by rewrite Pos2Z.inj_add || done.
Qed.

Lemma fdiv_nonneg x y : nonneg_float x → nonneg_float y → nonneg_float (fdiv x y).
Proof.
  destruct x as [sx|sx| |sx mx ex], y as [sy|sy| |sy my ey]; cbn [nonneg_float]; intros Hx Hy; subst; try done.
  unfold fdiv, SFdiv. destruct (SFdiv_core_binary _ _ _ _ _ _) as [[m e] l].
  apply binary_round_aux_nonneg.
Qed.

Lemma Seconds_nonneg d : (0 ≤ d)%Z → nonneg_float (Seconds d).
Proof.
  intros Hd. unfold Seconds.
  assert (0 ≤ Z.quot d Second)%Z by (apply Z.quot_pos; [done|by unfold Second]).
  assert (0 ≤ Z.rem d Second)%Z by (apply Z.rem_nonneg; [by unfold Second|done]).
  apply fadd_nonneg; [by apply float_of_int_nonneg|].
  apply fdiv_nonneg; by apply float_of_int_nonneg.
Qed.

(** Sorting does not depend on the order of its input. *)
Lemma sort_Float64s_permutation l1 l2 :
  Forall nonneg_float l1 → l1 ≡ₚ l2 → sort_Float64s l1 = sort_Float64s l2.
Proof.
  intros Hl Hp. unfold sort_Float64s.
  apply (Sorted_unique_strong float_le).
  - intros x1 x2. rewrite !merge_sort_Permutation, <-Hp. rewrite Forall_forall in Hl.
    intros ??. apply float_le_antisymm; auto.
  - apply Sorted_merge_sort, _.
  - apply Sorted_merge_sort, _.
  - by rewrite !merge_sort_Permutation.
Qed.

Example Seconds_90s : Seconds (1500 * Millisecond) = S754_finite false 6755399441055744 (-52).
Proof. vm_compute. reflexivity. Qed.

(** ** Shifting right drops bits *)
Lemma iter_pos_S {A} (f : A → A) p x : iter_pos f (Pos.succ p) x = f (iter_pos f p x).
Proof.
  assert (∀ p x, iter_pos f p (f x) = f (iter_pos f p x)) as Hcomm.
  { clear. intros p. induction p as [p IH|p IH|]; intros x; simpl; by rewrite ?IH. }
  revert x. induction p as [p IH|p IH|]; intros x; simpl; [|by rewrite Hcomm, !Hcomm|done].
  by rewrite !IH, !Hcomm.
Qed.

Lemma shr_1_m r : (0 ≤ shr_m r)%Z → shr_m (shr_1 r) = (shr_m r / 2)%Z.
Proof.
  destruct r as [[|[p|p|]|p] a b]; simpl; intros Hm; try done.
  all: Z.to_euclidean_division_equations; lia.
Qed.

Lemma shr_m_iter p r : (0 ≤ shr_m r)%Z → shr_m (iter_pos shr_1 p r) = (shr_m r / 2 ^ Zpos p)%Z.
Proof.
  intros Hr. induction p as [|p IH] using Pos.peano_ind; [by apply shr_1_m|].
  rewrite iter_pos_S, shr_1_m, IH.
  - rewrite Z.div_div by lia. f_equal. rewrite Pos2Z.inj_succ, Z.pow_succ_r; lia.
  - rewrite IH. apply Z.div_pos; lia.
Qed.

(** Rounding never exceeds one unit of the last place kept: the value of the
    result, in units of [2 ^ e1], where [e1] is the exponent after the shift. *)
Lemma round_le m l : (0 ≤ m)%Z → (m ≤ round_nearest_even m l ≤ m + 1)%Z.
Proof. unfold round_nearest_even. destruct l as [|[]]; [lia| |lia..]. destruct (Z.even m); lia. Qed.

(** ** Digits *)
Lemma digits2_bounds p :
  (2 ^ (Zpos (digits2_pos p) - 1) ≤ Zpos p < 2 ^ Zpos (digits2_pos p))%Z.
Proof.
  assert (∀ d x, (2 ^ (Zpos d - 1) ≤ x < 2 ^ Zpos d)%Z →
    (2 ^ (Zpos (Pos.succ d) - 1) ≤ 2 * x < 2 ^ Zpos (Pos.succ d))%Z ∧
    (2 ^ (Zpos (Pos.succ d) - 1) ≤ 2 * x + 1 < 2 ^ Zpos (Pos.succ d))%Z) as Hstep.
  { intros d x. rewrite Pos2Z.inj_succ.
    replace (Z.succ (Zpos d) - 1)%Z with (Z.succ (Zpos d - 1))%Z by lia.
    replace (Zpos d) with (Z.succ (Zpos d - 1)) at 2 4 6 by lia.
    rewrite !Z.pow_succ_r by lia. generalize (2 ^ (Zpos d - 1))%Z. lia. }
  induction p as [p IH|p IH|]; cbn [digits2_pos]; [| |done].
  - exact (proj2 (Hstep _ _ IH)).
  - exact (proj1 (Hstep _ _ IH)).
Qed.

Lemma digits2_unique p d : (0 < d)%Z → (2 ^ (d - 1) ≤ Zpos p < 2 ^ d)%Z → Zpos (digits2_pos p) = d.
Proof.
  intros Hd Hp. pose proof (digits2_bounds p) as Hb.
  assert (d - 1 < Zpos (digits2_pos p))%Z by (apply (Z.pow_lt_mono_r_iff 2); lia).
  assert (Zpos (digits2_pos p) - 1 < d)%Z by (apply (Z.pow_lt_mono_r_iff 2); lia). lia.
Qed.

Lemma iter_xO p n : Zpos (Pos.iter xO p n) = (Zpos p * 2 ^ Zpos n)%Z.
Proof.
  induction n as [|n IH] using Pos.peano_ind; [simpl; lia|].
  rewrite Pos.iter_succ, Pos2Z.inj_xO, IH, Pos2Z.inj_succ, Z.pow_succ_r; lia.
Qed.

Lemma shr_fexp_exact m e : fexp 53 1024 (Zpos (digits2_pos m) + e) = e →
  shr_fexp 53 1024 (Zpos m) e loc_Exact = (Build_shr_record (Zpos m) false false, e).
Proof. intros Hf. unfold shr_fexp. cbn [Zdigits2]. by rewrite Hf, Z.sub_diag. Qed.

Lemma round_exact m e : fexp 53 1024 (Zpos (digits2_pos m) + e) = e → (e ≤ 971)%Z →
  binary_round_aux 53 1024 false (Zpos m) e loc_Exact = S754_finite false m e.
Proof.
  intros Hf He. unfold binary_round_aux. rewrite shr_fexp_exact by done.
  cbn [shr_m loc_of_shr_record round_nearest_even]. rewrite shr_fexp_exact by done.
  cbn [shr_m]. change (1024 - 53)%Z with 971%Z. by rewrite (proj2 (Z.leb_le e 971) He).
Qed.

Lemma fexp_normal d : (-1021 ≤ d)%Z → fexp 53 1024 d = (d - 53)%Z.
Proof. intros Hd. unfold fexp, emin. lia. Qed.

(** A positive integer below 2^53 is exact, with a mantissa of 53 bits. *)
Lemma float_of_int_pos k : (0 < k < 2 ^ 53)%Z → ∃ m e, float_of_int k = S754_finite false m e ∧
  (-52 ≤ e ≤ 0)%Z ∧ (2 ^ 52 ≤ Zpos m < 2 ^ 53)%Z ∧ Zpos m = (k * 2 ^ (- e))%Z.
Proof.
  intros [Hk Hk']. destruct k as [|k|]; [lia| |lia]. pose proof (digits2_bounds k) as Hb.
  set (d := Zpos (digits2_pos k)) in *. assert (1 ≤ d ≤ 53)%Z as Hd.
  { split; [unfold d; lia|]. assert (d - 1 < 53)%Z; [|lia]. apply (Z.pow_lt_mono_r_iff 2); lia. }
  unfold float_of_int, binary_normalize, binary_round. fold d.
  rewrite fexp_normal by lia. replace (d + 0 - 53)%Z with (d - 53)%Z by lia.
  assert (∃ m, shl_align k 0 (d - 53) = (m, d - 53)%Z ∧ Zpos m = (Zpos k * 2 ^ (53 - d))%Z) as (m & -> & Hm).
  { unfold shl_align. rewrite Z.sub_0_r. destruct (d - 53)%Z as [|n|n] eqn:Hn; [|lia|].
    - exists k. split; [done|]. replace (53 - d)%Z with 0%Z by lia. lia.
    - exists (Pos.iter xO k n). split; [done|]. rewrite iter_xO. do 2 f_equal. lia. }
  assert (2 ^ 52 ≤ Zpos m < 2 ^ 53)%Z as Hmb.
  { assert (2 ^ 52 = 2 ^ (d - 1) * 2 ^ (53 - d))%Z as ->
      by (rewrite <-Z.pow_add_r by lia; f_equal; lia).
    assert (2 ^ 53 = 2 ^ d * 2 ^ (53 - d))%Z as -> by (rewrite <-Z.pow_add_r by lia; f_equal; lia).
    rewrite Hm. assert (0 < 2 ^ (53 - d))%Z by (apply Z.pow_pos_nonneg; lia).
    split; [apply Z.mul_le_mono_nonneg_r|apply Z.mul_lt_mono_pos_r]; lia. }
  exists m, (d - 53)%Z. rewrite round_exact; [|rewrite (digits2_unique m 53) by lia; rewrite fexp_normal; lia|lia].
  split; [done|]. split; [lia|]. split; [done|]. rewrite Hm. do 2 f_equal. lia.
Qed.

#[local] Open Scope Z_scope.

(** ** Rounding to nearest, ties to even *)
Definition round_half_even (num den : Z) : Z :=
  let q := num / den in
  let r := num mod den in
  if (2 * r <? den) || ((2 * r =? den) && Z.even q) then q else q + 1.

Lemma round_half_even_spec num den : 0 < den → 0 ≤ num →
  let q := round_half_even num den in 0 ≤ q ∧ 2 * Z.abs (num - q * den) ≤ den.
Proof.
  intros Hd Hn. cbv zeta. unfold round_half_even.
  pose proof (Z.div_mod num den ltac:(lia)) as Heq. pose proof (Z.mod_pos_bound num den Hd) as Hr.
  pose proof (Z.div_pos num den Hn ltac:(lia)) as Hq.
  assert (num - num / den * den = num mod den) as Hdown by lia.
  assert (num - (num / den + 1) * den = num mod den - den) as Hup by lia.
  destruct (Z.ltb_spec (2 * (num mod den)) den); cbn [orb]; [rewrite Hdown; lia|].
  destruct (Z.eqb_spec (2 * (num mod den)) den); cbn [andb]; [destruct (Z.even _)|];
    rewrite ?Hdown, ?Hup; lia.
Qed.

Lemma round_half_even_div num den : num / den ≤ round_half_even num den ≤ num / den + 1.
Proof. unfold round_half_even. destruct (_ || _); lia. Qed.

Lemma round_half_even_mono a b den : 0 < den → a ≤ b → round_half_even a den ≤ round_half_even b den.
Proof.
  intros Hd Hab. pose proof (Z.div_le_mono a b den Hd Hab) as Hq.
  pose proof (round_half_even_div a den). pose proof (round_half_even_div b den).
  destruct (decide (a / den = b / den)) as [E|]; [|lia].
  unfold round_half_even. pose proof (Z.div_mod a den ltac:(lia)). pose proof (Z.div_mod b den ltac:(lia)).
  assert (a mod den ≤ b mod den) by lia. rewrite E.
  destruct (Z.ltb_spec (2 * (a mod den)) den), (Z.ltb_spec (2 * (b mod den)) den),
    (Z.eqb_spec (2 * (a mod den)) den), (Z.eqb_spec (2 * (b mod den)) den);
    cbn [orb andb]; destruct (Z.even (b / den)); lia.
Qed.

Lemma round_half_even_exact q den : 0 < den → round_half_even (q * den) den = q.
Proof.
  intros Hd. unfold round_half_even. rewrite Z.div_mul, Z.mod_mul by lia.
  by rewrite (proj2 (Z.ltb_lt (2 * 0) den)) by lia.
Qed.

Lemma round_half_even_scale num den c : 0 < c → 0 < den →
  round_half_even (num * c) (den * c) = round_half_even num den.
Proof.
  intros Hc Hd. unfold round_half_even. rewrite Z.div_mul_cancel_r, Z.mul_mod_distr_r by lia.
  set (r := num mod den). clearbody r.
  assert ((2 * (r * c) <? den * c) = (2 * r <? den)) as ->.
  { apply Bool.eq_iff_eq_true. rewrite !Z.ltb_lt, Z.mul_assoc. symmetry. by apply Z.mul_lt_mono_pos_r. }
  assert ((2 * (r * c) =? den * c) = (2 * r =? den)) as ->; [|done].
  apply Bool.eq_iff_eq_true. rewrite !Z.eqb_eq, Z.mul_assoc. by rewrite Z.mul_cancel_r by lia.
Qed.

(** The bits a shift drops are those of a rounding to nearest. *)
Lemma shr_1_spec m r s : 0 ≤ m →
  shr_1 (Build_shr_record m r s) = Build_shr_record (m / 2) (Z.odd m) (r || s).
Proof.
  intros Hm. pose proof (shr_1_m (Build_shr_record m r s) Hm) as H. cbn [shr_m] in H. rewrite <-H.
  destruct m as [|[m|m|]|]; try lia; done.
Qed.

Lemma shr_iter_spec p m : 0 ≤ m →
  iter_pos shr_1 p (Build_shr_record m false false) =
  Build_shr_record (m / 2 ^ Zpos p) (Z.odd (m / 2 ^ (Zpos p - 1))) (negb (m mod 2 ^ (Zpos p - 1) =? 0)).
Proof.
  intros Hm. induction p as [|p IH] using Pos.peano_ind.
  - cbn [iter_pos]. rewrite shr_1_spec by done. cbn [Z.sub Z.pos_sub Z.add Z.opp].
    by rewrite Z.pow_0_r, Z.div_1_r, Z.mod_1_r.
  - rewrite iter_pos_S, IH, shr_1_spec by (apply Z.div_pos; lia).
    replace (Zpos (Pos.succ p) - 1) with (Zpos p) by lia.
    assert (0 < 2 ^ Zpos p) by lia. f_equal.
    + rewrite Z.div_div by lia. f_equal. rewrite Pos2Z.inj_succ, Z.pow_succ_r; lia.
    + set (h := 2 ^ (Zpos p - 1)). assert (0 < h) by (apply Z.pow_pos_nonneg; lia).
      assert (2 ^ Zpos p = h * 2) as -> by (unfold h; rewrite Z.mul_comm, <-Z.pow_succ_r by lia; f_equal; lia).
      rewrite Z.rem_mul_r by lia. pose proof (Z.mod_pos_bound m h ltac:(lia)).
      rewrite Zmod_odd. destruct (Z.odd (m / h)); cbn [orb].
      * symmetry. apply negb_true_iff, Z.eqb_neq. lia.
      * by rewrite Z.mul_0_r, Z.add_0_r.
Qed.

Lemma shr_round p m : 0 ≤ m →
  let r := iter_pos shr_1 p (Build_shr_record m false false) in
  round_nearest_even (shr_m r) (loc_of_shr_record r) = round_half_even m (2 ^ Zpos p).
Proof.
  intros Hm. cbv zeta. rewrite shr_iter_spec by done. cbn [shr_m].
  set (h := 2 ^ (Zpos p - 1)). assert (0 < h) by (apply Z.pow_pos_nonneg; lia).
  assert (2 ^ Zpos p = h * 2) as -> by (unfold h; rewrite Z.mul_comm, <-Z.pow_succ_r by lia; f_equal; lia).
  unfold round_half_even. rewrite (Z.rem_mul_r m h 2) by lia. rewrite Zmod_odd.
  pose proof (Z.mod_pos_bound m h ltac:(lia)).
  destruct (Z.odd (m / h)), (Z.eqb_spec (m mod h) 0); cbn [negb loc_of_shr_record round_nearest_even].
  - rewrite (proj2 (Z.ltb_ge _ _)), (proj2 (Z.eqb_eq _ _)) by lia. cbn [orb andb]. by destruct (Z.even _).
  - rewrite (proj2 (Z.ltb_ge _ _)), (proj2 (Z.eqb_neq _ _)) by lia. done.
  - by rewrite (proj2 (Z.ltb_lt _ _)) by lia.
  - by rewrite (proj2 (Z.ltb_lt _ _)) by lia.
Qed.

(** ** The values of floats *)

(** The value of a float64 that is not negative, in units of 2^-1074: every such value is a
    whole number of them.  [regular] floats are the finite ones, in normal form, without -0. *)
Definition fval (x : float64) : Z :=
  match x with S754_finite _ m e => Zpos m * 2 ^ (e + 1074) | _ => 0 end.
Definition regular (x : float64) : Prop :=
  match x with
  | S754_zero s => s = false
  | S754_finite s m e => s = false ∧ -1074 ≤ e ≤ 971 ∧ Zpos m < 2 ^ 53 ∧ (2 ^ 52 ≤ Zpos m ∨ e = -1074)
  | _ => False
  end.

(** [num / 2^s] units, rounded to a mantissa of 53 bits. *)
Definition rnd (num s : Z) : Z :=
  let n := Z.max (Z.log2 num + 1 - 53) s in round_half_even num (2 ^ n) * 2 ^ (n - s).

Lemma digits2_log2 m : Zpos (digits2_pos m) = Z.log2 (Zpos m) + 1.
Proof.
  pose proof (Z.log2_nonneg (Zpos m)). apply digits2_unique; [lia|].
  rewrite Z.add_simpl_r. apply Z.log2_spec. lia.
Qed.

Lemma regular_finite m e : -1074 ≤ e ≤ 971 → Zpos m < 2 ^ 53 → (2 ^ 52 ≤ Zpos m ∨ e = -1074) →
  regular (S754_finite false m e).
Proof. intros. cbn [regular]. auto. Qed.

Lemma fval_nonneg x : regular x → 0 ≤ fval x.
Proof. destruct x; simpl; try lia. Qed.

Lemma fval_le x y : regular x → regular y → float_le x y ↔ fval x ≤ fval y.
Proof.
  assert (∀ m e m' e', regular (S754_finite false m e) → regular (S754_finite false m' e') → e < e' →
    Zpos m * 2 ^ (e + 1074) < Zpos m' * 2 ^ (e' + 1074)) as Hlt.
  { intros m e m' e' (_ & He & Hm & _) (_ & He' & _ & Hm') Hee.
    apply Z.lt_le_trans with (2 ^ 53 * 2 ^ (e + 1074)); [apply Z.mul_lt_mono_pos_r; lia|].
    replace (2 ^ 53 * 2 ^ (e + 1074)) with (2 ^ 52 * 2 ^ (e + 1 + 1074)).
    - apply Z.mul_le_mono_nonneg; try lia. apply Z.pow_le_mono_r; lia.
    - rewrite <-!Z.pow_add_r by lia. f_equal. lia. }
  unfold float_le, SFleb. intros Hx Hy.
  destruct x as [sx| | |sx mx ex]; [..|pose proof Hx as [-> _]]; try done;
    (destruct y as [sy| | |sy my ey]; [..|pose proof Hy as [-> _]]; try done); cbn [is_nan SFcompare fval].
  - split; auto; lia.
  - split; auto. destruct Hy as (_ & ? & _). intros _. apply Z.mul_nonneg_nonneg; lia.
  - destruct Hx as (_ & ? & _). split; [by intros [|]|]. assert (0 < 2 ^ (ex + 1074)) by lia. nia.
  - change (Pos.compare_cont Eq ?a ?b) with (Pos.compare a b).
    destruct (Z.compare_spec ex ey) as [->|H|H].
    + assert (0 < 2 ^ (ey + 1074)) as Hp by (destruct Hy as (_ & ? & _); lia).
      rewrite <-Z.mul_le_mono_pos_r by done.
      destruct (Pos.compare_spec mx my); split; auto; try lia; by intros [|].
    + pose proof (Hlt _ _ _ _ Hx Hy H). split; auto; lia.
    + pose proof (Hlt _ _ _ _ Hy Hx H). split; [by intros [|]|lia].
Qed.

(** ** What rounding does to a value *)
Lemma rnd_zero s : 0 ≤ s → rnd 0 s = 0.
Proof.
  intros Hs. unfold rnd. set (n := Z.max _ s).
  pose proof (round_half_even_exact 0 (2 ^ n)) as E. rewrite Z.mul_0_l in E. rewrite E; lia.
Qed.

Lemma rnd_nonneg num s : 0 ≤ s → 0 ≤ num → 0 ≤ rnd num s.
Proof.
  intros Hs Hn. unfold rnd. apply Z.mul_nonneg_nonneg; [|lia].
  apply round_half_even_spec; [|done]. apply Z.pow_pos_nonneg; lia.
Qed.

Lemma rnd_mono a b s : 0 ≤ s → 0 ≤ a ≤ b → rnd a s ≤ rnd b s.
Proof.
  intros Hs [Ha Hab]. unfold rnd. pose proof (Z.log2_le_mono a b Hab) as Hlog.
  set (na := Z.max (Z.log2 a + 1 - 53) s). set (nb := Z.max (Z.log2 b + 1 - 53) s).
  assert (0 < 2 ^ na ∧ 0 < 2 ^ nb) as [Hpa Hpb] by (split; apply Z.pow_pos_nonneg; lia).
  destruct (decide (na = nb)) as [->|Hne].
  { apply Z.mul_le_mono_nonneg_r; [lia|]. by apply round_half_even_mono. }
  assert (s ≤ na < nb) as Hn by lia. assert (nb = Z.log2 b + 1 - 53) as Hnb by lia.
  apply Z.le_trans with (2 ^ (53 + na - s)).
  - replace (53 + na - s) with (53 + (na - s)) by lia. rewrite Z.pow_add_r by lia.
    apply Z.mul_le_mono_nonneg_r; [lia|]. rewrite <-(round_half_even_exact (2 ^ 53) (2 ^ na)) by done.
    apply round_half_even_mono; [done|]. rewrite <-Z.pow_add_r by lia.
    destruct (decide (a = 0)) as [->|]; [apply Z.pow_nonneg; lia|].
    apply Z.lt_le_incl. eapply Z.lt_le_trans; [apply (Z.log2_spec a); lia|]. apply Z.pow_le_mono_r; lia.
  - apply Z.le_trans with (2 ^ 52 * 2 ^ (nb - s)).
    { rewrite <-Z.pow_add_r by lia. apply Z.pow_le_mono_r; lia. }
    apply Z.mul_le_mono_nonneg_r; [lia|]. rewrite <-(round_half_even_exact (2 ^ 52) (2 ^ nb)) by done.
    apply round_half_even_mono; [done|]. rewrite <-Z.pow_add_r by lia.
    replace (52 + nb) with (Z.log2 b) by lia. apply (Z.log2_spec b).
    destruct (decide (b = 0)) as [->|]; [|lia]. change (Z.log2 0) with 0 in *. lia.
Qed.

(** A value of 53 bits is not changed. *)
Lemma rnd_exact q k s : 0 ≤ q < 2 ^ 53 → 0 ≤ k → 0 ≤ s → rnd (q * 2 ^ k * 2 ^ s) s = q * 2 ^ k.
Proof.
  intros Hq Hk Hs. destruct (decide (q = 0)) as [->|Hne]; [by apply rnd_zero|].
  rewrite <-Z.mul_assoc, <-Z.pow_add_r by lia. unfold rnd. cbv zeta.
  rewrite Z.log2_mul_pow2 by lia. set (n := Z.max _ _).
  assert (Z.log2 q < 53) as Hlog by (apply Z.log2_lt_pow2; lia).
  assert (s ≤ n ≤ k + s) as Hn by lia.
  replace (2 ^ (k + s)) with (2 ^ (k + s - n) * 2 ^ n) by (rewrite <-Z.pow_add_r by lia; f_equal; lia).
  rewrite Z.mul_assoc, round_half_even_exact by lia.
  rewrite <-Z.mul_assoc, <-Z.pow_add_r by lia. do 2 f_equal. lia.
Qed.

Lemma rnd_fval x s : regular x → 0 ≤ s → rnd (fval x * 2 ^ s) s = fval x.
Proof.
  intros Hx Hs. destruct x as [| | |? m e]; try done; cbn [fval].
  - by apply rnd_zero.
  - destruct Hx as (_ & ? & ? & _). apply rnd_exact; lia.
Qed.

(** Half a unit, or one part in 2^53. *)
Lemma rnd_error num s : 0 ≤ s → 0 ≤ num →
  2 * Z.abs (rnd num s * 2 ^ s - num) ≤ 2 ^ s ∨ 2 ^ 53 * Z.abs (rnd num s * 2 ^ s - num) ≤ num.
Proof.
  intros Hs Hnum. unfold rnd. set (n := Z.max _ s).
  assert (0 < 2 ^ n) as Hp by (apply Z.pow_pos_nonneg; lia).
  rewrite <-Z.mul_assoc, <-Z.pow_add_r by lia. rewrite Z.sub_add.
  destruct (round_half_even_spec num (2 ^ n) Hp Hnum) as [_ Herr].
  rewrite <-Z.abs_opp, Z.opp_sub_distr, Z.add_comm, Z.add_opp_r in Herr.
  destruct (Z.max_spec (Z.log2 num + 1 - 53) s) as [[? E]|[Hle E]]; fold n in E; rewrite E in *; [by left|right].
  assert (0 < num) by (destruct (decide (num = 0)) as [->|]; [change (Z.log2 0) with 0 in *; lia|lia]).
  destruct (Z.log2_spec num ltac:(lia)) as [Hlog _].
  replace (2 ^ Z.log2 num) with (2 ^ 52 * 2 ^ (Z.log2 num + 1 - 53)) in Hlog
    by (rewrite <-Z.pow_add_r by lia; f_equal; lia).
  lia.
Qed.

Lemma rnd_error_sum num : 0 ≤ num → 2 ^ 53 * Z.abs (rnd num 0 - num) ≤ num.
Proof.
  intros Hn. destruct (rnd_error num 0 ltac:(done) Hn) as [H|H]; rewrite Z.pow_0_r, Z.mul_1_r in H; [|done].
  assert (Z.abs (rnd num 0 - num) = 0) as -> by lia. lia.
Qed.

(** ** The rounding of SpecFloat is [rnd] *)

(** The second half of [binary_round_aux], which takes a carry back. *)
Definition round_carry (q e : Z) : float64 :=
  let '(mrs, e') := shr_fexp 53 1024 q e loc_Exact in
  match shr_m mrs with
  | Z0 => S754_zero false
  | Zpos m => if e' <=? 1024 - 53 then S754_finite false m e' else S754_infinity false
  | _ => S754_nan
  end.

Lemma round_carry_value q e : 0 ≤ q ≤ 2 ^ 53 → -1074 ≤ e ≤ 970 → (2 ^ 52 ≤ q ∨ e = -1074) →
  regular (round_carry q e) ∧ fval (round_carry q e) = q * 2 ^ (e + 1074).
Proof.
  intros Hq He Hn. unfold round_carry, shr_fexp. destruct q as [|m|]; [| |lia].
  { cbn [Zdigits2 shr_record_of_loc]. assert (fexp 53 1024 (0 + e) - e = 0) as ->
      by (unfold fexp, emin; destruct Hn; lia). done. }
  cbn [Zdigits2 shr_record_of_loc]. rewrite digits2_log2.
  destruct (decide (Zpos m = 2 ^ 53)) as [Hm|Hm].
  - rewrite Hm. change (Z.log2 (2 ^ 53)) with 53.
    assert (fexp 53 1024 (53 + 1 + e) - e = 1) as -> by (unfold fexp, emin; lia).
    change (2 ^ 53) with 9007199254740992 at 1 2. cbn [shr iter_pos shr_1 shr_m orb].
    rewrite (proj2 (Z.leb_le _ _)) by lia. split; [apply regular_finite; lia|cbn [fval]].
    replace (e + 1 + 1074) with (1 + (e + 1074)) by lia. rewrite Z.pow_add_r by lia. lia.
  - assert (Z.log2 (Zpos m) < 53) by (apply Z.log2_lt_pow2; lia).
    assert (fexp 53 1024 (Z.log2 (Zpos m) + 1 + e) - e = 0) as ->.
    { destruct Hn as [Hn| ->]; [|unfold fexp, emin; lia].
      assert (52 ≤ Z.log2 (Zpos m)) by (apply Z.log2_le_pow2; lia). unfold fexp, emin; lia. }
    cbn [shr shr_m]. rewrite (proj2 (Z.leb_le _ _)) by lia.
    split; [by apply regular_finite; lia|done].
Qed.

Lemma round_aux_value m e l : let e1 := fexp 53 1024 (Z.log2 (Zpos m) + 1 + e) in
  e ≤ e1 ≤ 970 →
  let r := fst (shr_fexp 53 1024 (Zpos m) e l) in
  let x := binary_round_aux 53 1024 false (Zpos m) e l in
  let q := round_nearest_even (shr_m r) (loc_of_shr_record r) in
  regular x ∧ fval x = q * 2 ^ (e1 + 1074) ∧ 0 ≤ q ≤ 2 ^ 53 ∧ (2 ^ 52 ≤ q ∨ e1 = -1074).
Proof.
  intros e1 He1. cbv zeta. unfold binary_round_aux.
  assert (∃ r, shr_fexp 53 1024 (Zpos m) e l = (r, e1) ∧ shr_m r = Zpos m / 2 ^ (e1 - e)) as (r & E & Hr).
  { unfold shr_fexp. cbn [Zdigits2]. rewrite digits2_log2. fold e1.
    assert (shr_m (shr_record_of_loc (Zpos m) l) = Zpos m) as Hl by by destruct l as [|[]].
    destruct (e1 - e) as [|n|] eqn:Hn; [| |lia].
    - eexists. split; [cbn [shr]; f_equal; lia|]. by rewrite Z.pow_0_r, Z.div_1_r.
    - eexists. split; [cbn [shr]; f_equal; lia|]. by rewrite shr_m_iter, Hl by (rewrite Hl; lia). }
  rewrite E. cbn [fst]. fold (round_carry (round_nearest_even (shr_m r) (loc_of_shr_record r)) e1).
  set (n := e1 - e) in *. assert (0 < 2 ^ n) by (apply Z.pow_pos_nonneg; lia).
  destruct (Z.log2_spec (Zpos m) ltac:(lia)) as [Hlo Hhi].
  assert (0 ≤ shr_m r < 2 ^ 53) as Hq.
  { rewrite Hr. split; [apply Z.div_pos; lia|]. apply Z.div_lt_upper_bound; [done|].
    rewrite <-Z.pow_add_r by lia. eapply Z.lt_le_trans; [exact Hhi|]. apply Z.pow_le_mono_r; [lia|].
    unfold n, e1, fexp. lia. }
  pose proof (round_le (shr_m r) (loc_of_shr_record r) ltac:(lia)) as Hround.
  assert (-1074 ≤ e1) by (unfold e1, fexp, emin; lia).
  set (q := round_nearest_even _ _) in *.
  enough (2 ^ 52 ≤ q ∨ e1 = -1074) as Hq52.
  { destruct (round_carry_value q e1 ltac:(lia) ltac:(lia) Hq52). split_and!; try done; lia. }
  destruct (decide (e1 = -1074)) as [|Hne]; [by right|left].
  assert (n = Z.log2 (Zpos m) - 52) as Hn by (unfold n, e1, fexp, emin in *; lia).
  enough (2 ^ 52 ≤ shr_m r) by lia. rewrite Hr. apply Z.div_le_lower_bound; [done|].
  rewrite <-Z.pow_add_r by lia. replace (n + 52) with (Z.log2 (Zpos m)) by lia. done.
Qed.

(** The product of a mantissa and a power of two, whatever the exponent [c] of the unit. *)
Lemma round_value m e c : 1074 ≤ c → 0 ≤ e + c →
  e ≤ fexp 53 1024 (Z.log2 (Zpos m) + 1 + e) ≤ 970 →
  let x := binary_round_aux 53 1024 false (Zpos m) e loc_Exact in
  regular x ∧ fval x = rnd (Zpos m * 2 ^ (e + c)) (c - 1074).
Proof.
  intros Hc Hec He. cbv zeta. destruct (round_aux_value m e loc_Exact He) as (Hreg & Hval & _).
  split; [done|]. rewrite Hval. clear Hreg Hval.
  set (e1 := fexp 53 1024 (Z.log2 (Zpos m) + 1 + e)) in *.
  assert (round_half_even (Zpos m) (2 ^ (e1 - e)) = round_nearest_even (shr_m (fst (shr_fexp 53 1024 (Zpos m) e loc_Exact)))
    (loc_of_shr_record (fst (shr_fexp 53 1024 (Zpos m) e loc_Exact)))) as <-.
  { unfold shr_fexp. cbn [Zdigits2]. rewrite digits2_log2. fold e1.
    destruct (e1 - e) as [|n|] eqn:Hn; [| |lia]; cbn [shr fst shr_record_of_loc].
    - rewrite Z.pow_0_r. cbn [shr_m loc_of_shr_record round_nearest_even].
      rewrite <-(Z.mul_1_r (Zpos m)) at 1. by apply round_half_even_exact.
    - symmetry. by apply shr_round. }
  unfold rnd. rewrite Z.log2_mul_pow2 by lia.
  assert ((e + c + Z.log2 (Zpos m) + 1 - 53) `max` (c - 1074) = e1 + c) as ->
    by (unfold e1, fexp, emin; lia).
  replace (2 ^ (e1 + c)) with (2 ^ (e1 - e) * 2 ^ (e + c)) by (rewrite <-Z.pow_add_r by lia; f_equal; lia).
  rewrite round_half_even_scale by (apply Z.pow_pos_nonneg; lia). do 2 f_equal. lia.
Qed.

Lemma binary_normalize_value z e : 0 ≤ z → -1074 ≤ e → Z.log2 (z * 2 ^ (e + 1074)) ≤ 1900 →
  let x := binary_normalize 53 1024 z e false in
  regular x ∧ fval x = rnd (z * 2 ^ (e + 1074)) 0.
Proof.
  intros Hz He Hlog. cbv zeta. destruct z as [|m|]; [|clear Hz|lia].
  { cbn [binary_normalize regular fval]. by rewrite Z.mul_0_l, rnd_zero. }
  rewrite Z.log2_mul_pow2 in Hlog by lia.
  unfold binary_normalize, binary_round. rewrite digits2_log2.
  set (e1 := fexp 53 1024 (Z.log2 (Zpos m) + 1 + e)).
  assert (∃ m' e', shl_align m e e1 = (m', e') ∧ -1074 ≤ e' ≤ e ∧ e' ≤ e1 ∧ Zpos m' = Zpos m * 2 ^ (e - e'))
    as (m' & e' & -> & He' & Hle & Hm').
  { unfold shl_align. destruct (e1 - e) as [|d|d] eqn:Hd.
    1,2: exists m, e; rewrite Z.sub_diag; repeat split; lia.
    exists (Pos.iter xO m d), e1. split; [done|]. rewrite iter_xO.
    split; [unfold e1, fexp, emin in *; lia|]. split; [lia|]. do 2 f_equal. lia. }
  assert (Z.log2 (Zpos m') + e' = Z.log2 (Zpos m) + e) as Hdig.
  { rewrite Hm', Z.log2_mul_pow2 by lia. lia. }
  assert (fexp 53 1024 (Z.log2 (Zpos m') + 1 + e') = e1) as Hexp by (unfold e1; f_equal; lia).
  destruct (round_value m' e' 1074) as [Hreg ->]; [lia|lia|rewrite Hexp; unfold e1, fexp, emin in *; lia|].
  split; [done|]. rewrite Hm', <-Z.mul_assoc, <-Z.pow_add_r by lia. do 3 f_equal. lia.
Qed.

(** ** The operations on values *)
Lemma rnd_fval_0 x : regular x → rnd (fval x) 0 = fval x.
Proof. intros Hx. rewrite <-(rnd_fval x 0) at 2 by done. by rewrite Z.pow_0_r, Z.mul_1_r. Qed.

Lemma align_value mx ex ez : -1074 ≤ ez ≤ ex →
  Zpos (fst (shl_align mx ex ez)) * 2 ^ (ez + 1074) = Zpos mx * 2 ^ (ex + 1074).
Proof.
  intros He. unfold shl_align. destruct (ez - ex) as [|d|d] eqn:Hd; [|lia|]; cbn [fst].
  - do 2 f_equal. lia.
  - rewrite iter_xO, <-Z.mul_assoc, <-Z.pow_add_r by lia. do 2 f_equal. lia.
Qed.

Lemma fadd_value x y : regular x → regular y → Z.log2 (fval x + fval y) ≤ 1900 →
  regular (fadd x y) ∧ fval (fadd x y) = rnd (fval x + fval y) 0.
Proof.
  intros Hx Hy Hlog.
  destruct x as [sx| | |sx mx ex]; [..|pose proof Hx as [-> _]]; try done;
    (destruct y as [sy| | |sy my ey]; [..|pose proof Hy as [-> _]]; try done).
  - cbn in Hx, Hy. by subst.
  - cbn [fadd SFadd]. split; [done|]. rewrite Z.add_0_l. symmetry. by apply (rnd_fval_0 (S754_finite false my ey)).
  - split; [done|]. rewrite Z.add_0_r. symmetry. by apply (rnd_fval_0 (S754_finite false mx ex)).
  - unfold fadd, SFadd. cbn [cond_Zopp]. destruct Hx as (_ & Hx & _), Hy as (_ & Hy & _).
    assert ((Zpos (fst (shl_align mx ex (ex `min` ey))) + Zpos (fst (shl_align my ey (ex `min` ey))))
      * 2 ^ (ex `min` ey + 1074) = fval (S754_finite false mx ex) + fval (S754_finite false my ey)) as E.
    { rewrite Z.mul_add_distr_r, !align_value by lia. done. }
    rewrite <-E in *. apply binary_normalize_value; [lia|lia|done].
Qed.

Lemma fsub_value x y : regular x → regular y → fval y ≤ fval x → Z.log2 (fval x - fval y) ≤ 1900 →
  regular (fsub x y) ∧ fval (fsub x y) = rnd (fval x - fval y) 0.
Proof.
  intros Hx Hy Hle Hlog.
  destruct x as [sx| | |sx mx ex]; [..|pose proof Hx as [-> _]]; try done;
    (destruct y as [sy| | |sy my ey]; [..|pose proof Hy as [-> _]]; try done).
  - cbn in Hx, Hy. by subst.
  - exfalso. cbn [fval] in Hle. destruct Hy as (_ & ? & _). assert (0 < 2 ^ (ey + 1074)) by lia. nia.
  - split; [done|]. rewrite Z.sub_0_r. symmetry. by apply (rnd_fval_0 (S754_finite false mx ex)).
  - unfold fsub, SFsub. cbn [cond_Zopp]. destruct Hx as (_ & Hx & _), Hy as (_ & Hy & _).
    assert ((Zpos (fst (shl_align mx ex (ex `min` ey))) - Zpos (fst (shl_align my ey (ex `min` ey))))
      * 2 ^ (ex `min` ey + 1074) = fval (S754_finite false mx ex) - fval (S754_finite false my ey)) as E.
    { rewrite Z.mul_sub_distr_r, !align_value by lia. done. }
    assert (0 < 2 ^ (ex `min` ey + 1074)) by lia.
    rewrite <-E in *. apply binary_normalize_value; [|lia|done].
    apply (Z.mul_le_mono_pos_r _ _ (2 ^ (ex `min` ey + 1074))); [done|]. rewrite E. lia.
Qed.

Lemma fmul_value x y : regular x → regular y → Z.log2 (fval x * fval y) ≤ 2900 →
  regular (fmul x y) ∧ fval (fmul x y) = rnd (fval x * fval y) 1074.
Proof.
  intros Hx Hy Hlog.
  destruct x as [sx| | |sx mx ex]; [..|pose proof Hx as [-> _]]; try done;
    (destruct y as [sy| | |sy my ey]; [..|pose proof Hy as [-> _]]; try done);
    cbn [fval] in *; rewrite ?Z.mul_0_l, ?Z.mul_0_r, ?rnd_zero by lia; try (cbn in *; by subst).
  destruct Hx as (_ & Hx & Hxm & Hxn), Hy as (_ & Hy & Hym & Hyn).
  unfold fmul, SFmul. cbn [xorb].
  assert (Zpos mx * 2 ^ (ex + 1074) * (Zpos my * 2 ^ (ey + 1074)) = Zpos (mx * my) * 2 ^ (ex + ey + 2148)) as E.
  { rewrite Pos2Z.inj_mul. replace (ex + ey + 2148) with ((ex + 1074) + (ey + 1074)) by lia.
    rewrite (Z.pow_add_r 2 (ex + 1074) (ey + 1074)) by lia. lia. }
  rewrite E in *. rewrite Z.log2_mul_pow2 in Hlog by lia.
  apply (round_value (mx * my) (ex + ey) 2148); [lia|lia|].
  assert (ex + ey = -2148 ∨ 52 ≤ Z.log2 (Zpos (mx * my))) as Hn.
  { destruct Hxn as [Hxn| ->]; [|destruct Hyn as [Hyn| ->]; [|by left]]; right; apply Z.log2_le_pow2; nia. }
  unfold fexp, emin. lia.
Qed.

(** A quotient, to within a factor of two: how it is rounded does not matter here. *)
Lemma fdiv_value x y : regular x → regular y → 0 < fval x → 0 < fval y →
  let D := Z.log2 (fval x) - Z.log2 (fval y) in -900 ≤ D ≤ 900 →
  regular (fdiv x y) ∧ 2 ^ (D + 1073) ≤ fval (fdiv x y) ≤ 2 ^ (D + 1075).
Proof.
  intros Hx Hy Hpx Hpy. destruct x as [| | |? mx ex], y as [| | |? my ey]; try done.
  destruct Hx as (-> & Hx & _), Hy as (-> & Hy & _). clear Hpx Hpy. cbn [fval].
  rewrite !Z.log2_mul_pow2 by lia.
  replace (ex + 1074 + Z.log2 (Zpos mx) - (ey + 1074 + Z.log2 (Zpos my)))
    with (Z.log2 (Zpos mx) + ex - (Z.log2 (Zpos my) + ey)) by lia.
  set (D := Z.log2 (Zpos mx) + ex - (Z.log2 (Zpos my) + ey)). cbv zeta. intros HD.
  unfold fdiv, SFdiv, SFdiv_core_binary. cbn [Zdigits2 xorb]. rewrite !digits2_log2.
  replace (Z.log2 (Zpos mx) + 1 + ex - (Z.log2 (Zpos my) + 1 + ey)) with D by (unfold D; lia).
  rewrite fexp_normal by lia. set (e' := (D - 53) `min` (ex - ey)). set (s := ex - ey - e').
  assert (match s with 0 => Zpos mx | Zpos _ => Z.shiftl (Zpos mx) s | Zneg _ => 0 end = Zpos mx * 2 ^ s) as ->.
  { assert (0 ≤ s) by (unfold s, e'; lia). destruct s; [by rewrite Z.pow_0_r, Z.mul_1_r| |lia].
    by rewrite Z.shiftl_mul_pow2 by lia. }
  assert (0 ≤ s) as Hs by (unfold s, e'; lia).
  destruct (Z.div_eucl (Zpos mx * 2 ^ s) (Zpos my)) as [q r] eqn:Hq.
  assert (q = Zpos mx * 2 ^ s / Zpos my) as Hqe by (unfold Z.div; by rewrite Hq). clear Hq.
  destruct (Z.log2_spec (Zpos mx) ltac:(lia)) as [Hmx Hmx'], (Z.log2_spec (Zpos my) ltac:(lia)) as [Hmy Hmy'].
  assert (0 ≤ Z.log2 (Zpos mx) ∧ 0 ≤ Z.log2 (Zpos my)) as [? ?] by (split; apply Z.log2_nonneg).
  assert (53 ≤ D - e') as HDe by (unfold e'; lia).
  assert (Z.log2 (Zpos mx) + s = Z.log2 (Zpos my) + D - e') as HDs by (unfold D, s; lia).
  assert (2 ^ (D - e' - 1) ≤ q < 2 ^ (D - e' + 1)) as Hqb.
  { rewrite Hqe. split; [apply Z.div_le_lower_bound; [lia|]|apply Z.div_lt_upper_bound; [lia|]].
    - apply Z.le_trans with (2 ^ Z.log2 (Zpos mx) * 2 ^ s); [|apply Z.mul_le_mono_nonneg_r; lia].
      apply Z.le_trans with (2 ^ Z.succ (Z.log2 (Zpos my)) * 2 ^ (D - e' - 1));
        [apply Z.mul_le_mono_nonneg_r; lia|].
      rewrite <-!Z.pow_add_r by lia. apply Z.pow_le_mono_r; lia.
    - apply Z.lt_le_trans with (2 ^ Z.succ (Z.log2 (Zpos mx)) * 2 ^ s); [apply Z.mul_lt_mono_pos_r; lia|].
      apply Z.le_trans with (2 ^ Z.log2 (Zpos my) * 2 ^ (D - e' + 1)); [|apply Z.mul_le_mono_nonneg_r; lia].
      rewrite <-!Z.pow_add_r by lia. apply Z.pow_le_mono_r; lia. }
  clear Hqe Hmx Hmx' Hmy Hmy'. assert (0 < 2 ^ (D - e' - 1)) by (apply Z.pow_pos_nonneg; lia).
  destruct q as [|q|]; [lia| |lia].
  assert (D - e' - 1 ≤ Z.log2 (Zpos q) < D - e' + 1) as Hlog
    by (split; [apply Z.log2_le_pow2|apply Z.log2_lt_pow2]; lia).
  assert (D - 53 ≤ fexp 53 1024 (Z.log2 (Zpos q) + 1 + e') ≤ D - 52) as He1 by (unfold fexp, emin; lia).
  destruct (round_aux_value q e' (new_location (Zpos my) r)) as (Hreg & -> & Hqm & Hqn); [lia|].
  split; [done|]. set (e1 := fexp _ _ _) in *. set (Q := round_nearest_even _ _) in *.
  assert (0 < 2 ^ (e1 + 1074)) by (apply Z.pow_pos_nonneg; lia). split.
  - apply Z.le_trans with (2 ^ 52 * 2 ^ (e1 + 1074)); [|apply Z.mul_le_mono_nonneg_r; lia].
    rewrite <-Z.pow_add_r by lia. apply Z.pow_le_mono_r; lia.
  - apply Z.le_trans with (2 ^ 53 * 2 ^ (e1 + 1074)); [apply Z.mul_le_mono_nonneg_r; lia|].
    rewrite <-Z.pow_add_r by lia. apply Z.pow_le_mono_r; lia.
Qed.

Lemma float_of_int_value z : 0 ≤ z < 2 ^ 53 →
  regular (float_of_int z) ∧ fval (float_of_int z) = z * 2 ^ 1074.
Proof.
  intros Hz. destruct (decide (z = 0)) as [->|Hne]; [done|].
  destruct (float_of_int_pos z ltac:(lia)) as (m & e & -> & He & Hm & Hmz).
  split; [by apply regular_finite; lia|]. cbn [fval]. rewrite Hmz, <-Z.mul_assoc, <-Z.pow_add_r by lia.
  do 2 f_equal. lia.
Qed.

(** Truncation of a regular float. *)
Lemma int_of_float_value x : regular x → int_of_float x = fval x / 2 ^ 1074.
Proof.
  destruct x as [| | |? m e]; try done. intros (-> & He & _). cbn [int_of_float cond_Zopp fval].
  destruct (Z.leb_spec 0 e).
  - rewrite Z.shiftl_mul_pow2, Z.pow_add_r, Z.mul_assoc, Z.div_mul by lia. done.
  - rewrite Z.shiftr_div_pow2 by lia.
    replace (2 ^ 1074) with (2 ^ (- e) * 2 ^ (e + 1074)) by (rewrite <-Z.pow_add_r by lia; f_equal; lia).
    rewrite Z.div_mul_cancel_r by (apply Z.pow_nonzero; lia). done.
Qed.

Lemma pow2_1074_pos : 0 < 2 ^ 1074.
Proof. by apply Z.pow_pos_nonneg. Qed.

Lemma fraction_value ns : 0 < ns < Second →
  regular (fdiv (float_of_int ns) (float_of_int Second)) ∧
  2 ^ 1000 ≤ fval (fdiv (float_of_int ns) (float_of_int Second)) ≤ 2 ^ 1100.
Proof.
  intros Hns. destruct (float_of_int_value ns) as [HN EN]; [unfold Second in *; lia|].
  destruct (float_of_int_value Second) as [HS ES]; [done|].
  assert (0 ≤ Z.log2 ns ≤ 29) as Hl.
  { split; [apply Z.log2_nonneg|]. change 29 with (Z.log2 (Second - 1)). apply Z.log2_le_mono. lia. }
  assert (Z.log2 (ns * 2 ^ 1074) = 1074 + Z.log2 ns) as E1 by (apply Z.log2_mul_pow2; lia).
  assert (Z.log2 (Second * 2 ^ 1074) = 1074 + 29) as E2 by (apply (Z.log2_mul_pow2 Second 1074); done).
  pose proof pow2_1074_pos as Hu.
  destruct (fdiv_value (float_of_int ns) (float_of_int Second) HN HS) as (? & Hlo & Hhi);
    rewrite ?EN, ?ES; [apply Z.mul_pos_pos; lia|by apply Z.mul_pos_pos|rewrite E1, E2; lia|].
  rewrite EN, ES, E1, E2 in *. split; [done|]. split.
  - eapply Z.le_trans; [|exact Hlo]. apply Z.pow_le_mono_r; lia.
  - eapply Z.le_trans; [exact Hhi|]. apply Z.pow_le_mono_r; lia.
Qed.

Lemma rnd_pow2 k : 0 ≤ k → rnd (2 ^ k) 0 = 2 ^ k.
Proof.
  intros Hk. pose proof (rnd_exact 1 k 0) as E. rewrite Z.pow_0_r, Z.mul_1_r, Z.mul_1_l in E. by apply E.
Qed.

(** Seconds of a duration: nothing, or at least 2^-74; and far from an overflow. *)
Lemma Seconds_value d : 0 ≤ d ≤ max_int64 →
  regular (Seconds d) ∧ (fval (Seconds d) = 0 ∨ 2 ^ 1000 ≤ fval (Seconds d)) ∧ fval (Seconds d) ≤ 2 ^ 1128.
Proof.
  intros Hd. unfold Seconds. set (s := Z.quot d Second). set (ns := Z.rem d Second).
  assert (0 ≤ s < 2 ^ 53 ∧ 0 ≤ ns < Second) as [Hs Hns].
  { unfold s, ns, Second, max_int64 in *. Z.to_euclidean_division_equations. lia. }
  destruct (float_of_int_value s Hs) as [HA EA]. set (B := fdiv _ _).
  assert (regular B ∧ (fval B = 0 ∨ 2 ^ 1000 ≤ fval B) ∧ fval B ≤ 2 ^ 1100) as (HB & Bl & Bu).
  { destruct (decide (ns = 0)) as [E|Hne]; [unfold B; rewrite E; split; [done|]; split; [by left|by apply Z.pow_nonneg]|].
    destruct (fraction_value ns) as (? & ? & ?); [lia|]. auto. }
  clearbody B. pose proof (fval_nonneg _ HB) as HB0.
  assert (2 ^ 1127 = 2 ^ 53 * 2 ^ 1074) as E1127 by by rewrite <-Z.pow_add_r.
  assert (2 ^ 1000 ≤ 2 ^ 1074) as H1000 by (apply Z.pow_le_mono_r; lia).
  assert (2 ^ 1100 ≤ 2 ^ 1127) as H1100 by (apply Z.pow_le_mono_r; lia).
  assert (2 ^ 1128 = 2 * 2 ^ 1127) as E1128 by by rewrite <-Z.pow_succ_r.
  pose proof (Z.log2_pow2 1128 ltac:(done)) as Hlog. pose proof (rnd_pow2 1128 ltac:(done)) as R1128.
  pose proof (rnd_pow2 1000 ltac:(done)) as R1000. pose proof pow2_1074_pos as Hu.
  assert (0 < 2 ^ 1000) as Hu' by by apply Z.pow_pos_nonneg.
  generalize dependent (2 ^ 1000). generalize dependent (2 ^ 1128). generalize dependent (2 ^ 1127).
  generalize dependent (2 ^ 1100). generalize dependent (2 ^ 1074).
  intros u HA' Hu p1100 Bu p1127 E1127 H1100 p1128 -> Hlog R1128 p1000 Bl H1000 R1000 Hp.
  assert (0 ≤ fval (float_of_int s) ≤ p1127) as HAb by (rewrite HA'; nia).
  destruct (fadd_value _ _ HA HB) as [HR ER].
  { apply Z.le_trans with (Z.log2 (2 * p1127)); [apply Z.log2_le_mono; lia|lia]. }
  split; [done|]. rewrite ER. set (V := _ + _). assert (0 ≤ V ≤ 2 * p1127) as HV by (unfold V; lia). split.
  - assert (V = 0 ∨ p1000 ≤ V) as [-> |Hlo]; [|left; by apply rnd_zero|right].
    { unfold V. destruct Bl as [->|]; [|right; lia]. rewrite HA'.
      destruct (decide (s = 0)) as [->|]; [by left|right; nia]. }
    rewrite <-R1000. apply rnd_mono; lia.
  - rewrite <-R1128. apply rnd_mono; lia.
Qed.

(** ** Truncation and exact products *)

(** 1, in units. *)
#[local] Abbreviation one := (2 ^ 1074).

(** The fractional part of a float is a float, and stays a one of the last place below 1. *)
Lemma fractional_part x : regular x →
  rnd (fval x mod one) 0 = fval x mod one ∧
  (one ≤ fval x → 2 ^ 52 * (fval x mod one) ≤ (2 ^ 52 - 1) * one).
Proof.
  destruct x as [| | |? m e]; try done; intros Hx.
  destruct Hx as (_ & He & Hm & _). cbn [fval]. destruct (Z.le_gt_cases 0 e) as [He0|He0].
  - rewrite Z.pow_add_r, Z.mul_assoc, Z.mod_mul by lia. split; [by apply rnd_zero|].
    intros _. pose proof pow2_1074_pos. lia.
  - assert (one = 2 ^ (- e) * 2 ^ (e + 1074)) as E by (rewrite <-Z.pow_add_r by lia; f_equal; lia).
    assert (0 < 2 ^ (- e) ∧ 0 < 2 ^ (e + 1074)) as [Hp Hp'] by (split; apply Z.pow_pos_nonneg; lia).
    rewrite E, Z.mul_mod_distr_r by lia. pose proof (Z.mod_pos_bound (Zpos m) (2 ^ (- e)) Hp) as Hr.
    pose proof (Z.mod_le (Zpos m) (2 ^ (- e)) ltac:(lia) Hp) as Hr'. split.
    + pose proof (rnd_exact (Zpos m mod 2 ^ (- e)) (e + 1074) 0) as Hex.
      rewrite Z.pow_0_r, Z.mul_1_r in Hex. apply Hex; lia.
    + intros Hle%Z.mul_le_mono_pos_r; [|done].
      assert (2 ^ (- e) ≤ 2 ^ 52) as H52.
      { apply Z.pow_le_mono_r; [lia|]. enough (- e < 53) by lia.
        apply (Z.pow_lt_mono_r_iff 2); lia. }
      rewrite !Z.mul_assoc. apply Z.mul_le_mono_nonneg_r; [lia|]. nia.
Qed.

Lemma fmul_exact a b : 0 < a → 0 < b → a * b < 2 ^ 53 →
  int_of_float (fmul (float_of_int a) (float_of_int b)) = a * b.
Proof.
  intros Ha Hb Hab. assert (a < 2 ^ 53 ∧ b < 2 ^ 53) as [Ha' Hb'] by nia.
  destruct (float_of_int_value a ltac:(lia)) as [HA EA], (float_of_int_value b ltac:(lia)) as [HB EB].
  assert (fval (float_of_int a) * fval (float_of_int b) = a * b * one * one) as E by (rewrite EA, EB; ring).
  destruct (fmul_value _ _ HA HB) as [HR ER]; rewrite E in *.
  - rewrite <-Z.mul_assoc, <-Z.pow_add_r, Z.log2_mul_pow2 by lia.
    enough (Z.log2 (a * b) < 53) by lia. apply Z.log2_lt_pow2; nia.
  - rewrite int_of_float_value, ER, rnd_exact by (done || nia). by apply Z.div_mul, Z.pow_nonzero.
Qed.

(** ** Interpolation *)
(** [a + (b - a) * f] as float64 computes it, each operation rounding once. *)
Definition interpolation (A B F : Z) : Z := rnd (A + rnd (rnd (B - A) 0 * F) 1074) 0.

Section interpolation.
Context (A B F : Z) (HA : 0 ≤ A ≤ B) (HF : 0 ≤ F) (HF1 : 2 ^ 52 * F ≤ (2 ^ 52 - 1) * one).

(** The three roundings never carry the step past the gap. *)
Lemma step_le : 0 ≤ rnd (rnd (B - A) 0 * F) 1074 ≤ B - A.
Proof.
  set (G := B - A). assert (0 ≤ G) as HG by (unfold G; lia).
  pose proof (rnd_nonneg G 0 ltac:(done) HG) as HD0. pose proof (rnd_error_sum G HG) as HD.
  assert (G < 2 ^ 53 → rnd G 0 = G) as Hexact.
  { intros Hlt. pose proof (rnd_exact G 0 0) as E. rewrite !Z.pow_0_r, !Z.mul_1_r in E. by apply E. }
  assert (G < 2 ^ 53 → rnd (G * one) 1074 = G) as Hexact'.
  { intros Hlt. pose proof (rnd_exact G 0 1074) as E. rewrite !Z.pow_0_r, !Z.mul_1_r in E. by apply E. }
  set (D := rnd G 0) in *. assert (0 ≤ D * F) as HDF by (by apply Z.mul_nonneg_nonneg).
  split; [by apply rnd_nonneg|].
  assert (G < 2 ^ 53 → rnd (D * F) 1074 ≤ G) as Hsmall.
  { intros Hlt. apply Z.le_trans with (rnd (G * one) 1074); [|by rewrite (Hexact' Hlt)]. apply rnd_mono; [done|]. split; [done|].
    rewrite (Hexact Hlt). apply Z.mul_le_mono_nonneg_l; lia. }
  clear Hexact Hexact'. destruct (Z.lt_ge_cases G (2 ^ 53)) as [Hlt|Hge]; [by apply Hsmall|clear Hsmall].
  pose proof (rnd_error (D * F) 1074 ltac:(done) HDF) as HP. pose proof pow2_1074_pos as Hu.
  set (P := rnd (D * F) 1074) in *. clearbody P D G. revert HF1 HP Hu. generalize one. intros U HU HP Hu.
  assert (2 ^ 53 * (D * F) ≤ (2 ^ 53 + 1) * (G * F)) as H1.
  { rewrite !Z.mul_assoc. apply Z.mul_le_mono_nonneg_r; lia. }
  assert (2 ^ 52 * (G * F) ≤ (2 ^ 52 - 1) * (G * U)) as H2.
  { replace (2 ^ 52 * (G * F)) with (G * (2 ^ 52 * F)) by lia.
    replace ((2 ^ 52 - 1) * (G * U)) with (G * ((2 ^ 52 - 1) * U)) by lia.
    by apply Z.mul_le_mono_nonneg_l. }
  assert (2 ^ 53 * U ≤ G * U) as H3 by (apply Z.mul_le_mono_nonneg_r; lia).
  apply (Z.mul_le_mono_pos_r _ _ U Hu). lia.
Qed.

Lemma interpolation_between : rnd A 0 = A → rnd B 0 = B → A ≤ interpolation A B F ≤ B.
Proof.
  intros EA EB. pose proof step_le as [Hs Hs']. unfold interpolation.
  set (P := rnd (_ * F) _) in *. split.
  - apply Z.le_trans with (rnd A 0); [by rewrite EA|apply rnd_mono; lia].
  - apply Z.le_trans with (rnd B 0); [apply rnd_mono; lia|by rewrite EB].
Qed.

Lemma interpolation_accurate :
  2 ^ 51 * Z.abs (one * (interpolation A B F - A) - (B - A) * F) ≤ one * (B + 2 ^ 50).
Proof.
  pose proof step_le as Hs. unfold interpolation. set (G := B - A) in *.
  assert (0 ≤ G ≤ B) as HG by (unfold G; lia).
  pose proof (rnd_nonneg G 0 ltac:(done) ltac:(lia)) as HD0. pose proof (rnd_error_sum G ltac:(lia)) as HD.
  set (D := rnd G 0) in *. assert (0 ≤ D * F) as HDF by (by apply Z.mul_nonneg_nonneg).
  pose proof (rnd_error (D * F) 1074 ltac:(done) HDF) as HP. pose proof pow2_1074_pos as Hu.
  set (P := rnd (D * F) 1074) in *. pose proof (rnd_error_sum (A + P) ltac:(lia)) as HS.
  set (S := rnd (A + P) 0) in *.
  assert (A + P ≤ B) as HAP by (unfold G in *; lia).
  clearbody P D S. revert HF1 HP Hu. generalize one. intros U HU HP Hu.
  assert (2 ^ 53 * Z.abs (D * F - G * F) ≤ G * U) as H1.
  { rewrite <-Z.mul_sub_distr_r, Z.abs_mul, (Z.abs_eq F), Z.mul_assoc by done.
    apply Z.mul_le_mono_nonneg; lia. }
  assert (2 ^ 53 * Z.abs (U * S - U * A - U * P) ≤ U * B) as H2.
  { replace (U * S - U * A - U * P) with (U * (S - (A + P))) by lia.
    rewrite Z.abs_mul, (Z.abs_eq U) by lia.
    replace (2 ^ 53 * (U * Z.abs (S - (A + P)))) with (U * (2 ^ 53 * Z.abs (S - (A + P)))) by lia.
    apply Z.mul_le_mono_nonneg_l; lia. }
  assert (0 ≤ G * F ≤ G * U) as H3.
  { split; [apply Z.mul_nonneg_nonneg; lia|]. apply Z.mul_le_mono_nonneg_l; lia. }
  assert (G * U ≤ U * B) as H4 by (rewrite (Z.mul_comm U); apply Z.mul_le_mono_nonneg_r; lia).
  assert (0 ≤ U * B) as H5 by lia.
  rewrite Z.mul_sub_distr_l, Z.mul_add_distr_l. rewrite (Z.mul_comm P U) in HP.
  generalize dependent (U * B). generalize dependent (U * S). generalize dependent (U * P).
  generalize dependent (U * A). generalize dependent (G * F). generalize dependent (G * U).
  generalize dependent (D * F). lia.
Qed.
End interpolation.

Lemma interpolation_mono A B F F' : 0 ≤ A ≤ B → 0 ≤ F ≤ F' → interpolation A B F ≤ interpolation A B F'.
Proof.
  intros HA HF. unfold interpolation. pose proof (rnd_nonneg (B - A) 0 ltac:(done) ltac:(lia)) as HD.
  assert (0 ≤ rnd (B - A) 0 * F) as HDF by (apply Z.mul_nonneg_nonneg; lia).
  pose proof (rnd_nonneg _ 1074 ltac:(done) HDF).
  apply rnd_mono; [done|]. split; [lia|]. apply Z.add_le_mono_l, rnd_mono; [done|].
  split; [done|]. apply Z.mul_le_mono_nonneg_l; lia.
Qed.
