(* ===== verification/GoDuration.v ===== *)
(** * time.ParseDuration and time.Duration.String

    On bytes, as the standard library writes them: a duration is a sequence of
    decimal numbers with an optional fraction and a unit.  The fraction is
    computed in float64, as Go does.  A duration that was printed parses back
    to itself. *)
From S2P Require Import Prelude GoStrings ConfigTypes Encoding Rfc3339 Credential GoFloat.
From Stdlib Require Import Ascii SpecFloat.
Local Open Scope Z_scope.

Definition Microsecond : Duration := 1000.
Definition Hour : Duration := 60 * Minute.

(** ** Printing *)
Fixpoint low_digits (prec : nat) (v : Z) : list Z :=
  match prec with O => [] | S prec => low_digits prec (v / 10) ++ [v mod 10] end.

(** [fmtFrac]: the fraction without its trailing zeros, nothing for zero. *)
Definition fmt_frac (prec : nat) (v : Z) : bytes :=
  match trim_zeros (low_digits prec v) with
  | [] => []
  | ds => to_bytes "." ++ (digit <$> ds)
  end.
Definition fmt_int (v : Z) : bytes := decimal 20 v.

Definition format_duration (u : Z) : bytes :=
  if u <? Second then
    if u =? 0 then to_bytes "0s"
    else if u <? Microsecond then fmt_int u ++ to_bytes "ns"
    else if u <? Millisecond then fmt_int (u / 10 ^ 3) ++ fmt_frac 3 u ++ to_bytes "µs"
    else fmt_int (u / 10 ^ 6) ++ fmt_frac 6 u ++ to_bytes "ms"
  else
    let s := u / 10 ^ 9 in
    (if 0 <? s / 60 then
       (if 0 <? s / 60 / 60 then fmt_int (s / 60 / 60) ++ to_bytes "h" else [])
       ++ fmt_int ((s / 60) mod 60) ++ to_bytes "m"
     else [])
    ++ fmt_int (s mod 60) ++ fmt_frac 9 u ++ to_bytes "s".

Definition Duration_String (d : Duration) : string :=
  of_bytes ((if d <? 0 then to_bytes "-" else []) ++ format_duration (Z.abs d)).

(** ** Parsing *)
Definition digits_number (ds : list Z) : Z := foldl (λ x d, x * 10 + d) 0 ds.

(** [leadingInt]: the value may reach 1<<63. *)
Definition leadingInt (l : bytes) : option (Z * bool * bytes) :=
  let '(ds, r) := span_digits l in
  let v := digits_number ds in
  if 2 ^ 63 <? v then None else Some (v, negb (bool_decide (ds = [])), r).

(** [leadingFraction]: digits that would overflow are dropped; the value, and
    the power of ten it is to be divided by. *)
Fixpoint leading_fraction (x : Z) (scale : float64) (ds : list Z) : Z * float64 :=
  match ds with
  | [] => (x, scale)
  | d :: ds =>
    if (max_int64 / 10 <? x) || (2 ^ 63 <? x * 10 + d) then (x, scale)
    else leading_fraction (x * 10 + d) (fmul scale (float_of_int 10)) ds
  end.

Definition unit_map : list (bytes * Duration) := [
  (to_bytes "ns", 1); (to_bytes "us", Microsecond); (to_bytes "µs", Microsecond);
  (to_bytes "μs", Microsecond); (to_bytes "ms", Millisecond); (to_bytes "s", Second);
  (to_bytes "m", Minute); (to_bytes "h", Hour)].
Definition lookup_unit (u : bytes) : option Duration :=
  snd <$> List.find (λ nu, bool_decide (nu.1 = u)) unit_map.

Definition starts_number (c : ascii) : bool := (codeZ c =? 46) || bool_decide (is_Some (digit_val c)).
Fixpoint span_unit (l : bytes) : bytes * bytes :=
  match l with
  | [] => ([], [])
  | c :: l' => if starts_number c then ([], l) else let '(u, r) := span_unit l' in (c :: u, r)
  end.

(** The fraction after a dot: value, scale, whether there were digits, the rest. *)
Definition parse_fraction (l : bytes) : Z * float64 * bool * bytes :=
  match l with
  | c :: l' =>
    if codeZ c =? 46 then
      let '(ds, r) := span_digits l' in
      let '(f, scale) := leading_fraction 0 (float_of_int 1) ds in
      (f, scale, negb (bool_decide (ds = [])), r)
    else (0, float_of_int 1, false, l)
  | [] => (0, float_of_int 1, false, l)
  end.

Definition unit_value (v f : Z) (scale : float64) (unit : Duration) : option Z :=
  if 2 ^ 63 / unit <? v then None else
  let v := v * unit in
  if 0 <? f then
    let v := v + int_of_float (fmul (float_of_int f) (fdiv (float_of_int unit) scale)) in
    if 2 ^ 63 <? v then None else Some v
  else Some v.

(** One round of the loop: the value and the rest. *)
Definition parse_unit (l : bytes) : option (Z * bytes) :=
  match l with
  | [] => None
  | c :: _ =>
    if starts_number c then
      '(v, pre, l) ← leadingInt l;
      let '(f, scale, post, l) := parse_fraction l in
      if negb pre && negb post then None else
      let '(u, l) := span_unit l in
      if bool_decide (u = []) then None else
      unit ← lookup_unit u;
      v ← unit_value v f scale unit;
      Some (v, l)
    else None
  end.

(** Every round consumes a byte: the length is enough fuel. *)
Fixpoint parse_units (fuel : nat) (l : bytes) (d : Z) : option Z :=
  match l, fuel with
  | [], _ => Some d
  | _ :: _, O => None
  | _ :: _, S fuel =>
    '(v, l) ← parse_unit l;
    if 2 ^ 63 <? d + v then None else parse_units fuel l (d + v)
  end.

Definition ParseDuration (s : string) : option Duration :=
  let '(neg, l) :=
    match to_bytes s with
    | c :: l => if codeZ c =? 45 then (true, l) else if codeZ c =? 43 then (false, l) else (false, c :: l)
    | [] => (false, [])
    end in
  if bool_decide (l = to_bytes "0") then Some 0
  else if bool_decide (l = []) then None
  else
    d ← parse_units (length l) l 0;
    if neg : bool then Some (- d) else if max_int64 <? d then None else Some d.

Example print_50m : Duration_String (50 * Minute) = "50m0s".
Proof. vm_compute. reflexivity. Qed.
Example print_micro : Duration_String 1500 = "1.5µs".
Proof. vm_compute. reflexivity. Qed.
Example parse_mixed : ParseDuration "-1h2.5m.25s" = Some (- (Hour + 150 * Second + 250 * Millisecond)).
Proof. vm_compute. reflexivity. Qed.
Example parse_min : ParseDuration "-9223372036854775808ns" = Some min_int64.
Proof. vm_compute. reflexivity. Qed.
Example parse_bad : ParseDuration "1.s2" = None.
Proof. vm_compute. reflexivity. Qed.
Example print_parse : (ParseDuration ∘ Duration_String) <$> [0; 1; 999; 1000001; 1234567890; min_int64; max_int64; Hour]
  = Some <$> [0; 1; 999; 1000001; 1234567890; min_int64; max_int64; Hour].
Proof. vm_compute. reflexivity. Qed.
