(* ===== verification/GoDurationTheory.v ===== *)
(** * Printing and parsing durations

    [time.ParseDuration] inverts [time.Duration.String] on every [int64]: the
    fraction that is printed is at most nine digits, so the float64 product
    that reads it is exact. *)
From S2P Require Import Prelude GoStrings ConfigTypes Encoding Rfc3339 Credential GoFloat GoDuration.
From Stdlib Require Import Ascii SpecFloat.
Local Open Scope Z_scope.

Local Abbreviation is_digits := (Forall (λ d, 0 <= d < 10)).

(** ** Digits and their number *)
Lemma digits_number_snoc ds d : digits_number (ds ++ [d]) = digits_number ds * 10 + d.
Proof. unfold digits_number. by rewrite foldl_app. Qed.

Lemma digits_number_bound ds : is_digits ds → 0 <= digits_number ds < 10 ^ Z.of_nat (length ds).
Proof.
  induction ds as [|d ds IH] using rev_ind; [done|]. rewrite Forall_app. intros [Hds Hd].
  apply Forall_cons in Hd as [Hd _]. rewrite digits_number_snoc, length_app, Nat2Z.inj_add.
  specialize (IH Hds). rewrite Z.pow_add_r by lia. change (10 ^ Z.of_nat (length [d])) with 10. lia.
Qed.

Lemma decimal_digits fuel n : 0 <= n < 10 ^ Z.of_nat fuel → (0 < fuel)%nat →
  ∃ ds, decimal fuel n = digit <$> ds ∧ is_digits ds ∧ ds ≠ [] ∧ digits_number ds = n.
Proof.
  revert n. induction fuel as [|fuel IH]; intros n Hn Hf; [lia|]. cbn [decimal].
  destruct (Z.ltb_spec n 10).
  - exists [n]. repeat split; [by apply Forall_cons; split; [lia|]|done].
  - rewrite Nat2Z.inj_succ, Z.pow_succ_r in Hn by lia.
    destruct fuel as [|fuel]; [simpl in Hn; lia|].
    destruct (IH (n / 10)) as (ds & -> & Hds & _ & Hv).
    { split; [by apply Z.div_pos; lia|]. apply Z.div_lt_upper_bound; lia. } { lia. }
    exists (ds ++ [n mod 10]). rewrite fmap_app, digits_number_snoc, Hv.
    split; [done|]. split; [|split; [by destruct ds|]].
    + apply Forall_app. split; [done|]. apply Forall_cons. split; [by apply Z.mod_pos_bound|done].
    + pose proof (Z.div_mod n 10). lia.
Qed.

Lemma map_digit_inj ds es : Forall (λ d, 0 <= d < 10) ds → Forall (λ d, 0 <= d < 10) es →
  digit <$> ds = digit <$> es → ds = es.
Proof.
  intros Hds. revert es. induction Hds as [|d ds Hd _ IH]; intros [|e es] Hes Heq; try done.
  apply Forall_cons in Hes as [He Hes]. rewrite !fmap_cons in Heq. injection Heq as Heq Hrest.
  f_equal; [|by apply IH]. apply (f_equal digit_val) in Heq. rewrite !digit_val_digit in Heq by done. congruence.
Qed.

Lemma decimal_inj a b : 0 <= a < 10 ^ 20 → 0 <= b < 10 ^ 20 → decimal 20 a = decimal 20 b → a = b.
Proof.
  intros Ha Hb Heq.
  destruct (decimal_digits 20 a Ha ltac:(lia)) as (ds & Eds & Hds & _ & <-).
  destruct (decimal_digits 20 b Hb ltac:(lia)) as (es & Ees & Hes & _ & <-).
  rewrite Eds, Ees in Heq. by rewrite (map_digit_inj ds es).
Qed.

Lemma low_digits_spec p v : is_digits (low_digits p v) ∧ length (low_digits p v) = p
  ∧ digits_number (low_digits p v) = v mod 10 ^ Z.of_nat p.
Proof.
  revert v. induction p as [|p IH]; intros v; cbn [low_digits].
  - by rewrite Z.pow_0_r, Z.mod_1_r.
  - destruct (IH (v / 10)) as (Hd & Hl & Hv). split_and!.
    + apply Forall_app. split; [done|]. apply Forall_cons. split; [by apply Z.mod_pos_bound|done].
    + rewrite length_app, Hl. simpl. lia.
    + rewrite digits_number_snoc, Hv, Nat2Z.inj_succ, Z.pow_succ_r by lia.
      rewrite Z.rem_mul_r by lia. lia.
Qed.

Lemma trim_zeros_number ds : ∃ k, length ds = (length (trim_zeros ds) + k)%nat
  ∧ digits_number ds = digits_number (trim_zeros ds) * 10 ^ Z.of_nat k.
Proof.
  enough (∃ k, ds = trim_zeros ds ++ replicate k 0) as [k Hk].
  { exists k. revert Hk. generalize (trim_zeros ds). intros t ->. rewrite length_app, length_replicate.
    split; [done|]. induction k as [|k IH]; [by rewrite app_nil_r; lia|].
    rewrite replicate_S_end, (assoc_L (++)), digits_number_snoc, IH, Nat2Z.inj_succ, Z.pow_succ_r by lia. lia. }
  induction ds as [|d ds [k IH]]; simpl; [by exists 0%nat|].
  destruct (trim_zeros ds) as [|e t]; simpl in *; [|exists k; by rewrite IH at 1].
  destruct (Z.eqb_spec d 0) as [->|]; [exists (S k)|exists k]; simpl; by rewrite IH at 1.
Qed.

(** ** Reading digits back *)
Definition scale_of (k : nat) : float64 := Nat.iter k (λ s, fmul s (float_of_int 10)) (float_of_int 1).

Lemma leading_fraction_app ds x k : is_digits ds → 0 <= x < 10 ^ Z.of_nat k → (length ds + k <= 9)%nat →
  leading_fraction x (scale_of k) ds = (foldl (λ x d, x * 10 + d) x ds, scale_of (length ds + k)).
Proof.
  revert x k. induction ds as [|d ds IH]; intros x k Hds Hx Hk; [done|].
  apply Forall_cons in Hds as [Hd Hds]. simpl in Hk. cbn [leading_fraction foldl].
  assert (10 ^ Z.of_nat (S k) <= 10 ^ 9) as Hp by (apply Z.pow_le_mono_r; lia).
  rewrite Nat2Z.inj_succ, Z.pow_succ_r in Hp by lia.
  change (10 ^ 9) with 1000000000 in Hp.
  rewrite (proj2 (Z.ltb_ge _ _)) by (change (max_int64 / 10) with 922337203685477580; lia).
  rewrite (proj2 (Z.ltb_ge _ _)) by (change (2 ^ 63) with 9223372036854775808; lia). cbn [orb].
  change (fmul (scale_of k) (float_of_int 10)) with (scale_of (S k)).
  rewrite IH; [by rewrite Nat.add_succ_r|done| |lia].
  rewrite Nat2Z.inj_succ, Z.pow_succ_r; lia.
Qed.

(** The divisions that occur are exact. *)
Lemma unit_scale p k : p ∈ [3; 6; 9]%nat → (k <= p)%nat →
  fdiv (float_of_int (10 ^ Z.of_nat p)) (scale_of k) = float_of_int (10 ^ Z.of_nat (p - k)).
Proof.
  intros Hp Hk. repeat (apply elem_of_cons in Hp as [->|Hp]); [..|by apply elem_of_nil in Hp];
    do 10 (destruct k as [|k]; [first [lia|vm_compute; reflexivity]|]); lia.
Qed.

Lemma prec_le p : p ∈ [3; 6; 9]%nat → (p <= 9)%nat.
Proof. intros Hp. repeat (apply elem_of_cons in Hp as [->|Hp]; [lia|]). by apply elem_of_nil in Hp. Qed.

Definition no_digit (l : bytes) : Prop := ∀ c l', l = c :: l' → digit_val c = None.
Definition number_next (l : bytes) : Prop := ∀ c l', l = c :: l' → starts_number c = true.

Lemma span_unit_app name l : Forall (λ c, starts_number c = false) name → number_next l →
  span_unit (name ++ l) = (name, l).
Proof.
  intros Hn Hl. induction Hn as [|c name Hc _ IH]; cbn [app span_unit]; [|by rewrite Hc, IH].
  destruct l as [|c l]; [done|]. simpl. by rewrite (Hl c l).
Qed.

Lemma starts_number_digit d : 0 <= d < 10 → starts_number (digit d) = true.
Proof.
  intros Hd. unfold starts_number. rewrite digit_val_digit by done.
  rewrite (bool_decide_true (is_Some (Some d))) by eauto. apply orb_true_r.
Qed.

Lemma decimal_next fuel n l : 0 <= n < 10 ^ Z.of_nat fuel → (0 < fuel)%nat → number_next (decimal fuel n ++ l).
Proof.
  intros Hn Hf. destruct (decimal_digits fuel n) as (ds & -> & Hds & Hne & _); [done..|].
  intros c l' Heq. destruct ds as [|d ds]; [done|]. injection Heq as <- _.
  apply Forall_cons in Hds as [Hd _]. by apply starts_number_digit.
Qed.

(** ** One component: a number, its fraction and its unit *)
Definition no_number (l : bytes) : Prop := ∀ c l', l = c :: l' → starts_number c = false.

Lemma no_number_no_digit l : no_number l → no_digit l.
Proof.
  intros Hl c l' Heq. specialize (Hl c l' Heq). unfold starts_number in Hl.
  apply orb_false_iff in Hl as [_ Hl]. apply bool_decide_eq_false in Hl. by apply eq_None_not_Some.
Qed.

Lemma no_number_no_dot l c l' : no_number l → l = c :: l' → (codeZ c =? 46) = false.
Proof. intros Hl Heq. specialize (Hl c l' Heq). by apply orb_false_iff in Hl as [Hl _]. Qed.

Lemma fmt_frac_no_digit p u l : no_number l → no_digit (fmt_frac p u ++ l).
Proof.
  intros Hl. unfold fmt_frac. destruct (trim_zeros _); [by apply no_number_no_digit|].
  intros c l' Heq. by injection Heq as <- _.
Qed.

Lemma parse_fraction_fmt p u l : (p <= 9)%nat → no_number l →
  ∃ f k post, parse_fraction (fmt_frac p u ++ l) = (f, scale_of k, post, l)
    ∧ (k <= p)%nat ∧ 0 <= f ∧ f * 10 ^ Z.of_nat (p - k) = u mod 10 ^ Z.of_nat p.
Proof.
  intros Hp Hl. unfold fmt_frac. destruct (low_digits_spec p u) as (Hd & Hlen & Hv).
  pose proof (trim_zeros_range _ Hd) as Htd. destruct (trim_zeros_number (low_digits p u)) as (k & Hk & Hn).
  destruct (trim_zeros (low_digits p u)) as [|d ds] eqn:Ht.
  - exists 0, 0%nat, false. rewrite Nat.sub_0_r, <-Hv, Hn. cbn [app].
    split; [|split; [lia|done]]. unfold parse_fraction. destruct l as [|c l]; [done|].
    by rewrite (no_number_no_dot _ c l Hl).
  - exists (digits_number (d :: ds)), (length (d :: ds)), true. pose proof (digits_number_bound _ Htd) as Hb.
    split; [|split; [lia|split; [lia|]]].
    + unfold parse_fraction. change (to_bytes ".") with [chr 46]. cbn [app].
      change (codeZ (chr 46) =? 46) with true. cbv iota.
      rewrite (span_digits_app (d :: ds)) by (done || by apply no_number_no_digit).
      change (float_of_int 1) with (scale_of 0).
      rewrite leading_fraction_app by (done || lia). by rewrite Nat.add_0_r.
    + rewrite <-Hv, Hn. do 3 f_equal. lia.
Qed.

Lemma leadingInt_fmt v l : 0 <= v <= 2 ^ 63 → no_digit l → leadingInt (fmt_int v ++ l) = Some (v, true, l).
Proof.
  intros Hv Hl. unfold leadingInt, fmt_int.
  destruct (decimal_digits 20 v) as (ds & -> & Hds & Hne & <-); [|lia|].
  { split; [lia|]. apply Z.le_lt_trans with (2 ^ 63); [lia|done]. }
  rewrite span_digits_app by done. rewrite (proj2 (Z.ltb_ge _ _)) by lia.
  by rewrite bool_decide_false.
Qed.

Lemma unit_value_exact p k v f unit : (0 < unit) → 0 <= v → 0 <= f →
  (p = 0%nat ∨ p ∈ [3; 6; 9]%nat ∧ unit = 10 ^ Z.of_nat p) → (k <= p)%nat →
  f * 10 ^ Z.of_nat (p - k) < 10 ^ Z.of_nat p →
  v * unit + f * 10 ^ Z.of_nat (p - k) <= 2 ^ 63 →
  unit_value v f (scale_of k) unit = Some (v * unit + f * 10 ^ Z.of_nat (p - k)).
Proof.
  intros Hu Hv Hf Hp Hk Hlt Hmax. unfold unit_value.
  assert (0 < 10 ^ Z.of_nat (p - k)) as Hpos by (apply Z.pow_pos_nonneg; lia).
  rewrite (proj2 (Z.ltb_ge _ _)) by (apply Z.div_le_lower_bound; nia).
  destruct (Z.ltb_spec 0 f); [|f_equal; nia].
  destruct Hp as [->|[Hp ->]].
  { assert (k = 0%nat) as -> by lia. simpl in Hlt. lia. }
  assert (10 ^ Z.of_nat p <= 10 ^ 9) as H9.
  { apply Z.pow_le_mono_r; [lia|]. apply prec_le in Hp. lia. }
  rewrite unit_scale, fmul_exact by (done || lia).
  by rewrite (proj2 (Z.ltb_ge _ _)).
Qed.

Lemma parse_unit_component p v u name unit l :
  Forall (λ c, starts_number c = false) name → name ≠ [] → lookup_unit name = Some unit →
  (0 < unit) → 0 <= v → (p = 0%nat ∨ p ∈ [3; 6; 9]%nat ∧ unit = 10 ^ Z.of_nat p) →
  v * unit + u mod 10 ^ Z.of_nat p <= 2 ^ 63 → number_next l →
  parse_unit (fmt_int v ++ fmt_frac p u ++ name ++ l) = Some (v * unit + u mod 10 ^ Z.of_nat p, l).
Proof.
  intros Hname Hne Hlook Hu Hv Hp Hmax Hl.
  assert (0 < 10 ^ Z.of_nat p) as Hpp by (apply Z.pow_pos_nonneg; lia).
  pose proof (Z.mod_pos_bound u _ Hpp) as Hub. assert (0 <= v <= 2 ^ 63) as Hvb by nia.
  assert (no_number (name ++ l)) as Hnn.
  { destruct name as [|c name]; [done|]. intros ?? Heq. injection Heq as <- _. by apply Forall_cons in Hname as [? _]. }
  destruct (parse_fraction_fmt p u (name ++ l)) as (f & k & post & Hpf & Hk & Hf & Hfv); [|done|].
  { destruct Hp as [->|[Hp _]]; [lia|by apply prec_le]. }
  pose proof (decimal_next 20 v (fmt_frac p u ++ name ++ l)) as Hnext.
  unfold parse_unit. fold (fmt_int v) in Hnext.
  destruct (fmt_int v ++ fmt_frac p u ++ name ++ l) as [|c m] eqn:Heq.
  - exfalso. apply app_eq_nil in Heq as [_ Heq]. apply app_eq_nil in Heq as [_ Heq].
    by apply app_eq_nil in Heq as [-> _].
  - rewrite (Hnext ltac:(change (10 ^ Z.of_nat 20) with (10 ^ 20); lia) ltac:(lia) c m eq_refl), <-Heq.
    rewrite leadingInt_fmt by (done || by apply fmt_frac_no_digit). cbn [mbind option_bind].
    rewrite Hpf. cbn [negb andb]. rewrite span_unit_app by done.
    rewrite bool_decide_false by done. rewrite Hlook. cbn [mbind option_bind].
    rewrite (unit_value_exact p) by (done || lia). by rewrite Hfv.
Qed.

(** ** Sequences of components *)
Inductive units_text : bytes → Z → Prop :=
  | units_nil : units_text [] 0
  | units_cons c l v t : c ≠ [] → 0 <= v → 0 <= t → parse_unit (c ++ l) = Some (v, l) → units_text l t →
      units_text (c ++ l) (v + t).

Lemma parse_units_text l t fuel d : units_text l t → (length l <= fuel)%nat → d + t <= 2 ^ 63 →
  parse_units fuel l d = Some (d + t).
Proof.
  intros Hl. revert fuel d. induction Hl as [|c l v t Hc Hv Ht Hp _ IH]; intros fuel d Hf Hd.
  - destruct fuel; cbn [parse_units]; by rewrite Z.add_0_r.
  - rewrite length_app in Hf. destruct c as [|a c]; [done|]. simpl in Hf. destruct fuel as [|fuel]; [lia|].
    change (parse_units (S fuel) ((a :: c) ++ l) d) with
      ('(v, l) ← parse_unit ((a :: c) ++ l);
       if 2 ^ 63 <? d + v then None else parse_units fuel l (d + v)).
    rewrite Hp. cbn [mbind option_bind]. rewrite (proj2 (Z.ltb_ge _ _)) by lia.
    rewrite IH by lia. f_equal. lia.
Qed.

Definition text_ok (l : bytes) (t : Z) : Prop := units_text l t ∧ number_next l ∧ 0 <= t.

Lemma text_ok_nil : text_ok [] 0.
Proof. split_and!; [constructor|done|done]. Qed.

Lemma text_ok_component p v u name unit l t :
  Forall (λ c, starts_number c = false) name → name ≠ [] → lookup_unit name = Some unit →
  (0 < unit) → 0 <= v → (p = 0%nat ∨ p ∈ [3; 6; 9]%nat ∧ unit = 10 ^ Z.of_nat p) →
  v * unit + u mod 10 ^ Z.of_nat p <= 2 ^ 63 → text_ok l t →
  text_ok (fmt_int v ++ fmt_frac p u ++ name ++ l) (v * unit + u mod 10 ^ Z.of_nat p + t).
Proof.
  intros Hname Hne Hlook Hu Hv Hp Hmax (Hl & Hn & Ht).
  assert (0 < 10 ^ Z.of_nat p) as Hpp by (apply Z.pow_pos_nonneg; lia).
  pose proof (Z.mod_pos_bound u _ Hpp) as Hub.
  assert (0 <= v <= 2 ^ 63) as Hvb by nia.
  assert (v < 10 ^ Z.of_nat 20) as Hlt by (change (10 ^ Z.of_nat 20) with (10 ^ 20); lia).
  split_and!; [|by apply decimal_next; lia|lia].
  replace (fmt_int v ++ fmt_frac p u ++ name ++ l) with ((fmt_int v ++ fmt_frac p u ++ name) ++ l)
    by by rewrite <-!(assoc_L (++)).
  constructor; [by destruct (fmt_int v), (fmt_frac p u)|lia|done| |done].
  rewrite <-!(assoc_L (++)). by apply parse_unit_component.
Qed.

(** The unit's name and value, and the precision of the fraction before it. *)
Definition unit_name (p : nat) (name : bytes) (unit : Z) : Prop :=
  Forall (λ c, starts_number c = false) name ∧ name ≠ [] ∧ lookup_unit name = Some unit ∧ 0 < unit
  ∧ (p = 0%nat ∨ p ∈ [3; 6; 9]%nat ∧ unit = 10 ^ Z.of_nat p).

Ltac unit_name_ok := split_and!; [refine (bool_decide_unpack _ _); vm_compute; exact I|discriminate|reflexivity|reflexivity|
  first [by left|right; split; [set_solver|reflexivity]]].
Lemma unit_ns : unit_name 0 (to_bytes "ns") 1. Proof. unit_name_ok. Qed.
Lemma unit_us : unit_name 3 (to_bytes "µs") Microsecond. Proof. unit_name_ok. Qed.
Lemma unit_ms : unit_name 6 (to_bytes "ms") Millisecond. Proof. unit_name_ok. Qed.
Lemma unit_s : unit_name 9 (to_bytes "s") Second. Proof. unit_name_ok. Qed.
Lemma unit_m : unit_name 0 (to_bytes "m") Minute. Proof. unit_name_ok. Qed.
Lemma unit_h : unit_name 0 (to_bytes "h") Hour. Proof. unit_name_ok. Qed.

Lemma text_ok_unit p v u name unit l t T :
  unit_name p name unit → text_ok l t → 0 <= v →
  v * unit + u mod 10 ^ Z.of_nat p <= 2 ^ 63 → T = v * unit + u mod 10 ^ Z.of_nat p + t →
  text_ok (fmt_int v ++ fmt_frac p u ++ name ++ l) T.
Proof. intros (? & ? & ? & ? & ?) ? ? ? ->. by apply text_ok_component. Qed.

Lemma text_ok_last p v u name unit T :
  unit_name p name unit → 0 <= v → T = v * unit + u mod 10 ^ Z.of_nat p → T <= 2 ^ 63 →
  text_ok (fmt_int v ++ fmt_frac p u ++ name) T.
Proof.
  intros Hu Hv HT Hmax. rewrite <-(app_nil_r name).
  apply (text_ok_unit p v u name unit [] 0); [done|apply text_ok_nil|done|lia|lia].
Qed.

Lemma div_mod_eq u k : 0 < k → u = u / k * k + u mod k.
Proof. intros. pose proof (Z.div_mod u k). lia. Qed.

Lemma format_duration_ok u : 0 <= u <= 2 ^ 63 → text_ok (format_duration u) u.
Proof.
  intros Hu. unfold format_duration.
  destruct (Z.ltb_spec u Second) as [Hs|Hs].
  - destruct (Z.eqb_spec u 0) as [->|H0]; [by apply (text_ok_last 9 0 0 _ _ 0 unit_s)|].
    destruct (Z.ltb_spec u Microsecond); [|destruct (Z.ltb_spec u Millisecond)].
    + apply (text_ok_last 0 u u _ _ _ unit_ns); [lia|rewrite Z.mod_1_r; lia|lia].
    + apply (text_ok_last 3 _ _ _ _ _ unit_us); [by apply Z.div_pos; lia|by apply (div_mod_eq u 1000)|lia].
    + apply (text_ok_last 6 _ _ _ _ _ unit_ms); [by apply Z.div_pos; lia|by apply (div_mod_eq u 1000000)|lia].
  - cbv zeta. pose proof (div_mod_eq u (10 ^ 9) ltac:(lia)) as Hu9.
    set (s := u / 10 ^ 9) in *. assert (0 <= s) as Hs0 by (apply Z.div_pos; lia).
    pose proof (div_mod_eq s 60 ltac:(lia)) as Hs60. pose proof (Z.mod_pos_bound s 60 ltac:(lia)).
    pose proof (div_mod_eq (s / 60) 60 ltac:(lia)) as Hm60. pose proof (Z.mod_pos_bound (s / 60) 60 ltac:(lia)).
    pose proof (Z.mod_pos_bound u (10 ^ 9) ltac:(lia)).
    assert (text_ok (fmt_int (s mod 60) ++ fmt_frac 9 u ++ to_bytes "s") (s mod 60 * Second + u mod 10 ^ 9)) as Hsec.
    { apply (text_ok_last 9 _ _ _ _ _ unit_s); [lia|done|]. unfold Second. lia. }
    assert (0 <= s / 60) by (apply Z.div_pos; lia). assert (0 <= s / 60 / 60) by (apply Z.div_pos; lia).
    destruct (Z.ltb_spec 0 (s / 60)); [|replace u with (s mod 60 * Second + u mod 10 ^ 9) at 2;
      [done|unfold Second in *; lia]].
    rewrite <-!(assoc_L (++)).
    assert (text_ok (fmt_int ((s / 60) mod 60) ++ to_bytes "m" ++ fmt_int (s mod 60) ++ fmt_frac 9 u ++ to_bytes "s")
      ((s / 60) mod 60 * Minute + (s mod 60 * Second + u mod 10 ^ 9))) as Hmin.
    { apply (text_ok_unit 0 _ 0 _ _ _ _ _ unit_m Hsec); [lia|..]; rewrite Z.mod_1_r; unfold Minute, Second; lia. }
    destruct (Z.ltb_spec 0 (s / 60 / 60)).
    + rewrite <-!(assoc_L (++)). apply (text_ok_unit 0 _ 0 _ _ _ _ _ unit_h Hmin); [lia|..];
        rewrite Z.mod_1_r; unfold Hour, Minute, Second; lia.
    + cbn [app]. replace u with ((s / 60) mod 60 * Minute + (s mod 60 * Second + u mod 10 ^ 9)) at 2;
        [done|unfold Minute, Second in *; lia].
Qed.

Lemma format_duration_end u : ∃ x, x ≠ [] ∧ format_duration u = x ++ to_bytes "s".
Proof.
  assert (∀ n y, fmt_int n ++ y ≠ []) as Hne.
  { intros n y Heq. apply app_eq_nil in Heq as [Heq _]. unfold fmt_int in Heq. cbn [decimal] in Heq.
    destruct (n <? 10); [done|]. by apply app_eq_nil in Heq as [_ Heq]. }
  unfold format_duration. destruct (_ <? _).
  - destruct (_ =? _); [by exists (to_bytes "0")|].
    destruct (_ <? _); [exists (fmt_int u ++ to_bytes "n"); split; [apply Hne|by rewrite <-app_assoc]|].
    destruct (_ <? _).
    + exists (fmt_int (u / 10 ^ 3) ++ fmt_frac 3 u ++ take 2 (to_bytes "µs")). split; [apply Hne|].
      rewrite <-!app_assoc. do 2 f_equal.
    + exists (fmt_int (u / 10 ^ 6) ++ fmt_frac 6 u ++ to_bytes "m"). split; [apply Hne|].
      rewrite <-!app_assoc. do 2 f_equal.
  - cbv zeta. match goal with |- ∃ x, _ ∧ ?a ++ _ = _ => generalize a end. intros h.
    exists (h ++ fmt_int (u / 10 ^ 9 mod 60) ++ fmt_frac 9 u). split; [|by rewrite <-!app_assoc].
    intros Heq. apply app_eq_nil in Heq as [_ Heq]. by apply Hne in Heq.
Qed.

(** ** The round trip *)

(** A printed duration is read back as the same duration, for every [int64]:
    through the float64 arithmetic of the fraction and at both ends of the range. *)
Lemma duration_roundtrip d : min_int64 <= d <= max_int64 → ParseDuration (Duration_String d) = Some d.
Proof.
  intros [Hlo Hhi]. unfold min_int64, max_int64 in *.
  destruct (format_duration_ok (Z.abs d)) as (Ht & Hn & _); [lia|].
  destruct (format_duration_end (Z.abs d)) as (x & Hx & Hend).
  unfold ParseDuration, Duration_String. rewrite to_of_bytes.
  assert ((let '(neg, l) := match (if d <? 0 then to_bytes "-" else []) ++ format_duration (Z.abs d) with
      | c :: l => if codeZ c =? 45 then (true, l) else if codeZ c =? 43 then (false, l) else (false, c :: l)
      | [] => (false, []) end in (neg, l)) = (d <? 0, format_duration (Z.abs d))) as Hsign.
  { destruct (d <? 0); [done|]. cbn [app].
    destruct (format_duration (Z.abs d)) as [|c l]; [by destruct x|].
    specialize (Hn c l eq_refl). unfold starts_number, digit_val in Hn.
    destruct (Z.eqb_spec (codeZ c) 45) as [He|]; [by rewrite He in Hn|].
    by destruct (Z.eqb_spec (codeZ c) 43) as [He|]; [rewrite He in Hn|]. }
  destruct (match _ with [] => _ | _ :: _ => _ end) as [neg l]. injection Hsign as -> ->.
  rewrite bool_decide_false.
  2: { rewrite Hend. intros Heq. apply (f_equal length) in Heq. rewrite length_app in Heq.
       change (length (to_bytes "s")) with 1%nat in Heq. change (length (to_bytes "0")) with 1%nat in Heq.
       destruct x; [done|]. simpl in Heq. lia. }
  rewrite bool_decide_false by (rewrite Hend; by destruct x).
  rewrite (parse_units_text _ _ _ 0 Ht) by lia. cbn [mbind option_bind].
  destruct (Z.ltb_spec d 0); [f_equal; lia|].
  rewrite (proj2 (Z.ltb_ge _ _)) by (unfold max_int64; lia). f_equal. lia.
Qed.
