(* ===== verification/GoCsv.v ===== *)
(** * encoding/csv and strconv.FormatFloat, as the performance driver uses them

    [csv.Writer] with its defaults (a comma, a line feed), and [FormatFloat] with
    format 'f' and three digits.  [read_csv] is the reference the files are
    checked against: the grammar of RFC 4180 with a line feed after each record.
    What was written reads back, whatever the fields hold. *)
From S2P Require Import Prelude GoStrings ConfigTypes Encoding Rfc3339 Credential GoFloat GoDuration GoDurationTheory.
From Stdlib Require Import Ascii SpecFloat.
Local Open Scope Z_scope.

(** ** csv.Writer *)
Definition quote : ascii := chr 34.
Definition comma : ascii := chr 44.
Definition newline : ascii := chr 10.
Definition carriage_return : ascii := chr 13.

Definition special (c : ascii) : bool :=
  bool_decide (c = newline) || bool_decide (c = carriage_return) || bool_decide (c = quote)
  || bool_decide (c = comma).
(** [unicode.IsSpace] of the first rune is asked last. *)
Definition fieldNeedsQuotes (field : bytes) : bool :=
  match field with
  | [] => false
  | _ => bool_decide (field = to_bytes "\.") || existsb special field
         || negb (bool_decide (trim_left field = field))
  end.
Fixpoint double_quotes (field : bytes) : bytes :=
  match field with
  | [] => []
  | c :: field => (if decide (c = quote) then [quote; quote] else [c]) ++ double_quotes field
  end.
Definition encode_field (field : bytes) : bytes :=
  if fieldNeedsQuotes field then [quote] ++ double_quotes field ++ [quote] else field.
Fixpoint encode_fields (record : list bytes) : bytes :=
  match record with
  | [] => []
  | [field] => encode_field field
  | field :: record => encode_field field ++ [comma] ++ encode_fields record
  end.
(** [Writer.Write] *)
Definition encode_record (record : list bytes) : bytes := encode_fields record ++ [newline].

(** ** A reader *)
Inductive csv_state :=
| FieldStart
| Unquoted (acc : bytes)
| Quoted (acc : bytes)
| QuoteInQuoted (acc : bytes).

Definition end_field (fields : list bytes) (acc : bytes) : list bytes := fields ++ [acc].

Fixpoint read_from (st : csv_state) (fields : list bytes) (records : list (list bytes)) (l : bytes) :
    option (list (list bytes)) :=
  match l with
  | [] => match st, fields with FieldStart, [] => Some records | _, _ => None end
  | c :: l =>
    let separator (acc : bytes) (otherwise : option (list (list bytes))) :=
      if decide (c = comma) then read_from FieldStart (end_field fields acc) records l
      else if decide (c = newline) then read_from FieldStart [] (records ++ [end_field fields acc]) l
      else otherwise in
    match st with
    | FieldStart =>
      if decide (c = quote) then read_from (Quoted []) fields records l
      else separator [] (read_from (Unquoted [c]) fields records l)
    | Unquoted acc =>
      if decide (c = quote) then None
      else separator acc (read_from (Unquoted (acc ++ [c])) fields records l)
    | Quoted acc =>
      if decide (c = quote) then read_from (QuoteInQuoted acc) fields records l
      else read_from (Quoted (acc ++ [c])) fields records l
    | QuoteInQuoted acc =>
      if decide (c = quote) then read_from (Quoted (acc ++ [quote])) fields records l
      else separator acc None
    end
  end.
Definition read_csv (l : bytes) : option (list (list bytes)) := read_from FieldStart [] [] l.

Definition is_separator (c : ascii) : Prop := c = comma ∨ c = newline.

(** What follows a complete field. *)
Definition after_field (fields : list bytes) (acc : bytes) (records : list (list bytes)) (c : ascii) (l : bytes) :
    option (list (list bytes)) :=
  if decide (c = comma) then read_from FieldStart (end_field fields acc) records l
  else read_from FieldStart [] (records ++ [end_field fields acc]) l.

Lemma read_separator fields acc records c l st :
  is_separator c → st = FieldStart ∧ acc = [] ∨ st = Unquoted acc ∨ st = QuoteInQuoted acc →
  read_from st fields records (c :: l) = after_field fields acc records c l.
Proof. intros [->| ->] [[-> ->]|[->| ->]]; done. Qed.

Lemma read_unquoted field fields records c l acc :
  existsb special field = false → is_separator c →
  read_from (Unquoted acc) fields records (field ++ c :: l)
  = after_field fields (acc ++ field) records c l.
Proof.
  revert acc. induction field as [|d field IH]; intros acc Hs Hc; cbn [app].
  - rewrite app_nil_r. apply read_separator; [done|tauto].
  - cbn [existsb] in Hs. apply orb_false_iff in Hs as [Hd Hs].
    unfold special in Hd. rewrite !orb_false_iff, !bool_decide_eq_false in Hd.
    destruct Hd as [[[Hn _] Hq] Hco]. cbn [read_from].
    rewrite !decide_False by done. rewrite IH by done. by rewrite <-(assoc_L (++)).
Qed.

Lemma read_quoted field fields records c l acc :
  is_separator c →
  read_from (Quoted acc) fields records (double_quotes field ++ quote :: c :: l)
  = after_field fields (acc ++ field) records c l.
Proof.
  intros Hc. revert acc. induction field as [|d field IH]; intros acc; cbn [app double_quotes].
  - rewrite app_nil_r. trans (read_from (QuoteInQuoted acc) fields records (c :: l)); [done|].
    apply read_separator; [done|tauto].
  - destruct (decide (d = quote)) as [->|Hd]; cbn [app].
    + trans (read_from (Quoted (acc ++ [quote])) fields records (double_quotes field ++ quote :: c :: l)); [done|].
      rewrite IH. by rewrite <-(assoc_L (++)).
    + cbn [read_from]. rewrite decide_False by done. rewrite IH. by rewrite <-(assoc_L (++)).
Qed.

Lemma read_field field fields records c l :
  is_separator c →
  read_from FieldStart fields records (encode_field field ++ c :: l) = after_field fields field records c l.
Proof.
  intros Hc. unfold encode_field. destruct (fieldNeedsQuotes field) eqn:Hq.
  - rewrite <-!(assoc_L (++)). cbn [app read_from]. rewrite decide_True by done. by apply read_quoted.
  - destruct field as [|d field]; [apply read_separator; [done|tauto]|].
    cbn [fieldNeedsQuotes] in Hq. apply orb_false_iff in Hq as [Hq _]. apply orb_false_iff in Hq as [_ Hs].
    cbn [existsb] in Hs. apply orb_false_iff in Hs as [Hd Hs].
    unfold special in Hd. rewrite !orb_false_iff, !bool_decide_eq_false in Hd.
    destruct Hd as [[[Hn _] Hqu] Hco]. cbn [app read_from]. rewrite !decide_False by done.
    by rewrite read_unquoted.
Qed.

Lemma read_record record fields records l :
  record ≠ [] →
  read_from FieldStart fields records (encode_record record ++ l)
  = read_from FieldStart [] (records ++ [fields ++ record]) l.
Proof.
  unfold encode_record. revert fields. induction record as [|field record IH]; intros fields Hne; [done|].
  destruct record as [|field2 record].
  - cbn [encode_fields]. rewrite <-(assoc_L (++)). cbn [app]. rewrite read_field by by right.
    unfold after_field. rewrite decide_False by done. done.
  - assert (∀ l, encode_fields (field :: field2 :: record) ++ l
      = encode_field field ++ comma :: (encode_fields (field2 :: record) ++ l)) as Heq
      by (intros l'; cbn [encode_fields app]; by rewrite <-!(assoc_L (++))).
    rewrite <-(assoc_L (++)), Heq, read_field by by left. unfold after_field. rewrite decide_True by done.
    rewrite (assoc_L (++)), IH by done. unfold end_field. by rewrite <-(assoc_L (++)).
Qed.

(** Whatever the fields hold (quotes, commas, line ends, leading spaces), the
    reader gets back the records that were written. *)
Theorem csv_roundtrip (records : list (list bytes)) :
  Forall (λ record, record ≠ []) records → read_csv (concat (encode_record <$> records)) = Some records.
Proof.
  assert (∀ pre, Forall (λ record, record ≠ []) records →
    read_from FieldStart [] pre (concat (encode_record <$> records)) = Some (pre ++ records)) as Hgen;
    [|by apply (Hgen [])].
  induction records as [|record records IH]; intros pre Hne; cbn [concat fmap list_fmap].
  - by rewrite app_nil_r.
  - apply Forall_cons in Hne as [Hr Hne]. rewrite read_record by done. rewrite IH by done.
    by rewrite <-(assoc_L (++)).
Qed.

(** ** FormatFloat(x, 'f', 3, 64) *)

(** The decimal digits of a float64 are those of its exact value: a tie is a tie
    of the exact value, and goes to even.  Thousandths of [m * 2^e]. *)
Definition thousandths (m : positive) (e : Z) : Z :=
  if 0 <=? e then Zpos m * 1000 * 2 ^ e else round_half_even (Zpos m * 1000) (2 ^ (- e)).

(** A number has no more decimal digits than bits. *)
Definition fixed3 (n : Z) : bytes :=
  decimal (S (Z.to_nat (Z.log2 (n / 1000)))) (n / 1000) ++ to_bytes "." ++ (digit <$> low_digits 3 n).
Definition FormatFloat3 (x : float64) : bytes :=
  let sign (s : bool) := if s then to_bytes "-" else [] in
  match x with
  | S754_nan => to_bytes "NaN"
  | S754_infinity s => if s then to_bytes "-Inf" else to_bytes "+Inf"
  | S754_zero s => sign s ++ fixed3 0
  | S754_finite s m e => sign s ++ fixed3 (thousandths m e)
  end.

(** Reading such a number without its sign: its thousandths. *)
Definition read_fixed3 (l : bytes) : option Z :=
  let '(ds, r) := span_digits l in
  match r with
  | c :: r =>
    if decide (c = chr 46) then
      match span_digits r with
      | (fs, []) => if bool_decide (ds ≠ [] ∧ length fs = 3%nat) then Some (digits_number (ds ++ fs)) else None
      | _ => None
      end
    else None
  | [] => None
  end.

Lemma log2_digits n : 0 <= n → n < 10 ^ Z.of_nat (S (Z.to_nat (Z.log2 n))).
Proof.
  intros Hn. destruct (decide (n = 0)) as [->|]; [done|].
  rewrite Nat2Z.inj_succ, Z2Nat.id by apply Z.log2_nonneg.
  destruct (Z.log2_spec n ltac:(lia)) as [_ Hlt]. eapply Z.lt_le_trans; [exact Hlt|].
  apply Z.pow_le_mono_l. lia.
Qed.

Lemma read_fixed3_fixed3 n : 0 ≤ n → read_fixed3 (fixed3 n) = Some n.
Proof.
  intros Hn. unfold read_fixed3, fixed3. pose proof (Z.div_pos n 1000 Hn ltac:(lia)) as Hq.
  destruct (decimal_digits (S (Z.to_nat (Z.log2 (n / 1000)))) (n / 1000)) as (ds & -> & Hds & Hne & Hv);
    [by split; [|apply log2_digits]|lia|].
  destruct (low_digits_spec 3 n) as (Hf & Hlen & Hfv).
  rewrite span_digits_app; [|done|by intros c l [= <- _]].
  change (to_bytes ".") with [chr 46]. cbn [app]. rewrite decide_True by done.
  rewrite <-(app_nil_r (digit <$> low_digits 3 n)), span_digits_app; [|done|done].
  rewrite bool_decide_true by done. f_equal.
  assert (∀ fs, digits_number (ds ++ fs) = foldl (λ x d, x * 10 + d) (digits_number ds) fs) as Happ
    by (intros fs; unfold digits_number; by rewrite foldl_app).
  rewrite Happ, Hv.
  destruct (low_digits 3 n) as [|a [|b [|c [|]]]] eqn:Hld; try discriminate Hlen.
  unfold digits_number in Hfv. simpl in Hfv |- *.
  pose proof (Z.div_mod n 1000 ltac:(lia)). change (10 ^ Z.of_nat 3) with 1000 in Hfv. lia.
Qed.

(** What is printed for a number that is not negative reads as its thousandths,
    rounded to the nearest integer. *)
Lemma FormatFloat3_finite m e : ∃ n, read_fixed3 (FormatFloat3 (S754_finite false m e)) = Some n ∧ 0 ≤ n ∧
  if 0 <=? e then n = Zpos m * 1000 * 2 ^ e
  else 2 * Z.abs (Zpos m * 1000 - n * 2 ^ (- e)) ≤ 2 ^ (- e).
Proof.
  exists (thousandths m e). cbn [FormatFloat3 app]. unfold thousandths.
  assert (0 ≤ thousandths m e) as Hpos.
  { unfold thousandths. destruct (Z.leb_spec 0 e); [lia|]. by apply round_half_even_spec; lia. }
  split; [by apply read_fixed3_fixed3|]. split; [done|].
  destruct (Z.leb_spec 0 e); [done|]. apply round_half_even_spec; lia.
Qed.
Lemma FormatFloat3_zero s : read_fixed3 (FormatFloat3 (S754_zero false)) = Some 0 ∧ FormatFloat3 (S754_zero s) = (if s then to_bytes "-" else []) ++ to_bytes "0.000".
Proof. by destruct s. Qed.

Example FormatFloat3_examples :
  of_bytes (FormatFloat3 (Seconds (1500 * Millisecond))) = "1.500" ∧
  of_bytes (FormatFloat3 (Seconds 0)) = "0.000" ∧
  of_bytes (FormatFloat3 (Seconds (3723 * Second + 500000))) = "3723.001" ∧
  of_bytes (FormatFloat3 (Seconds 62500000)) = "0.062".
Proof. vm_compute. done. Qed.
