(* ===== verification/Tracker.v ===== *)
(** * The convergence tracker (cmd/perf-driver/tracker.go, mutation.go)

    The performance driver watches Secrets and ServiceAccounts and records when
    each target converged.  [start] and [startConcurrentMutation] return
    pointers that their callers keep while the tracker's own pointer moves on:
    the phases and mutations live in a store indexed by pointer.  A channel is
    the number of times it was closed; a second close would panic.  An observed
    time is the instant of the reading, without the monotonic clock. *)
From S2P Require Import Prelude GoStrings ConfigTypes Encoding Rfc3339 Credential.
From S2P Require Import SecretCodec RegistrySecret ServiceAccount Controller GoFloat.
From Stdlib Require Import SpecFloat.

(** The zero [time.Time], [t.IsZero()] and [t.Before(u)]. *)
Definition ZeroTime : Time := unix_nano zero_time.
Definition time_IsZero (t : Time) : bool := bool_decide (t = ZeroTime).
Definition Before (t u : Time) : bool := (t <? u)%Z.

Inductive phaseKind := initialPhase | expiryPhase.
#[export] Instance phaseKind_eq_dec : EqDecision phaseKind.
Proof. solve_decision. Defined.
Definition phase_string (k : phaseKind) : string :=
  match k with initialPhase => "initial" | expiryPhase => "expiry" end.

Record trackedPhase := MkPhase {
  kind : phaseKind;
  startedAt : Time;
  completedAt : Time;
  secretTotal : nat;
  serviceAccountTotal : nat;
  secretDurations : gmap string Duration;
  secretFingerprints : gmap string string;
  serviceAccountDurations : gmap string Duration;
  unexpectedServiceAccounts : gset string;
  done : nat;
  doneOnce : bool
}.

Definition with_completed (p : trackedPhase) (at_ : Time) : trackedPhase :=
  MkPhase (kind p) (startedAt p) at_ (secretTotal p) (serviceAccountTotal p) (secretDurations p)
    (secretFingerprints p) (serviceAccountDurations p) (unexpectedServiceAccounts p) (S (done p)) true.
Definition with_secret (p : trackedPhase) (ns : string) (d : Duration) (fp : string) : trackedPhase :=
  MkPhase (kind p) (startedAt p) (completedAt p) (secretTotal p) (serviceAccountTotal p)
    (<[ns := d]> (secretDurations p)) (<[ns := fp]> (secretFingerprints p))
    (serviceAccountDurations p) (unexpectedServiceAccounts p) (done p) (doneOnce p).
Definition with_account (p : trackedPhase) (key : string) (d : Duration) : trackedPhase :=
  MkPhase (kind p) (startedAt p) (completedAt p) (secretTotal p) (serviceAccountTotal p)
    (secretDurations p) (secretFingerprints p) (<[key := d]> (serviceAccountDurations p))
    (unexpectedServiceAccounts p) (done p) (doneOnce p).
Definition with_unexpected (p : trackedPhase) (key : string) : trackedPhase :=
  MkPhase (kind p) (startedAt p) (completedAt p) (secretTotal p) (serviceAccountTotal p)
    (secretDurations p) (secretFingerprints p) (serviceAccountDurations p)
    ({[key]} ∪ unexpectedServiceAccounts p) (done p) (doneOnce p).

Record trackedConcurrentMutation := MkMutation {
  triggerPercent : Z;
  triggeredAt : Time;
  secretsCompleteAtTrigger : nat;
  secretsTotalAtTrigger : nat;
  existingNamespace : string;
  expectedCredentialFingerprint : string;
  lateServiceAccountName : string;
  lateNamespace : string;
  lateNamespaceAccounts : gset string;
  lateServiceAccountRequestStarted : Time;
  lateServiceAccountCreatedAt : Time;
  lateServiceAccountReadyAt : Time;
  lateNamespaceRequestStarted : Time;
  lateNamespaceCreatedAt : Time;
  lateNamespacePrerequisitesAt : Time;
  lateNamespaceSecretReadyAt : Time;
  lateNamespaceSecretFingerprint : string;
  lateNamespaceStaleFingerprints : gset string;
  lateNamespaceAccountReadyAt : gmap string Time;
  mutation_done : nat;
  mutation_doneOnce : bool
}.

(** The part of a mutation that is assigned after its creation. *)
Record mutation_marks := MkMarks {
  m_accountRequest : Time; m_accountCreated : Time; m_accountReady : Time;
  m_namespaceRequest : Time; m_namespaceCreated : Time; m_prerequisites : Time;
  m_secretReady : Time; m_secretFingerprint : string; m_stale : gset string;
  m_accountsReady : gmap string Time
}.
Definition marks (m : trackedConcurrentMutation) : mutation_marks :=
  MkMarks (lateServiceAccountRequestStarted m) (lateServiceAccountCreatedAt m)
    (lateServiceAccountReadyAt m) (lateNamespaceRequestStarted m) (lateNamespaceCreatedAt m)
    (lateNamespacePrerequisitesAt m) (lateNamespaceSecretReadyAt m)
    (lateNamespaceSecretFingerprint m) (lateNamespaceStaleFingerprints m)
    (lateNamespaceAccountReadyAt m).
Definition with_marks (m : trackedConcurrentMutation) (k : mutation_marks) : trackedConcurrentMutation :=
  MkMutation (triggerPercent m) (triggeredAt m) (secretsCompleteAtTrigger m) (secretsTotalAtTrigger m)
    (existingNamespace m) (expectedCredentialFingerprint m) (lateServiceAccountName m)
    (lateNamespace m) (lateNamespaceAccounts m) (m_accountRequest k) (m_accountCreated k)
    (m_accountReady k) (m_namespaceRequest k) (m_namespaceCreated k) (m_prerequisites k)
    (m_secretReady k) (m_secretFingerprint k) (m_stale k) (m_accountsReady k)
    (mutation_done m) (mutation_doneOnce m).
Definition close_mutation (m : trackedConcurrentMutation) : trackedConcurrentMutation :=
  MkMutation (triggerPercent m) (triggeredAt m) (secretsCompleteAtTrigger m) (secretsTotalAtTrigger m)
    (existingNamespace m) (expectedCredentialFingerprint m) (lateServiceAccountName m)
    (lateNamespace m) (lateNamespaceAccounts m) (lateServiceAccountRequestStarted m)
    (lateServiceAccountCreatedAt m) (lateServiceAccountReadyAt m) (lateNamespaceRequestStarted m)
    (lateNamespaceCreatedAt m) (lateNamespacePrerequisitesAt m) (lateNamespaceSecretReadyAt m)
    (lateNamespaceSecretFingerprint m) (lateNamespaceStaleFingerprints m)
    (lateNamespaceAccountReadyAt m) (S (mutation_done m)) true.

(** Pointers index the lists of everything that was allocated. *)
Record convergenceTracker := MkTracker {
  targetNamespaces : gset string;
  targetAccounts : gset string;
  baselineSecrets : gmap string string;
  baselineAccounts : gmap string string;
  current_phase : option nat;
  current_mutation : option nat;
  phases : list trackedPhase;
  mutations : list trackedConcurrentMutation
}.
Definition set_phases (t : convergenceTracker) (ps : list trackedPhase) : convergenceTracker :=
  MkTracker (targetNamespaces t) (targetAccounts t) (baselineSecrets t) (baselineAccounts t)
    (current_phase t) (current_mutation t) ps (mutations t).
Definition set_mutations (t : convergenceTracker) (ms : list trackedConcurrentMutation) :
    convergenceTracker :=
  MkTracker (targetNamespaces t) (targetAccounts t) (baselineSecrets t) (baselineAccounts t)
    (current_phase t) (current_mutation t) (phases t) ms.
Definition set_baseline_secret (t : convergenceTracker) (ns fp : string) : convergenceTracker :=
  MkTracker (targetNamespaces t) (targetAccounts t) (<[ns := fp]> (baselineSecrets t))
    (baselineAccounts t) (current_phase t) (current_mutation t) (phases t) (mutations t).
Definition set_baseline_account (t : convergenceTracker) (key rv : string) : convergenceTracker :=
  MkTracker (targetNamespaces t) (targetAccounts t) (baselineSecrets t)
    (<[key := rv]> (baselineAccounts t)) (current_phase t) (current_mutation t) (phases t) (mutations t).
Definition set_current (t : convergenceTracker) (p : nat) (ps : list trackedPhase) : convergenceTracker :=
  MkTracker (targetNamespaces t) (targetAccounts t) (baselineSecrets t) (baselineAccounts t)
    (Some p) (current_mutation t) ps (mutations t).

Definition account_key (ns name : string) : string := ns +:+ "/" +:+ name.

Definition newConvergenceTracker (namespaces serviceAccountNames : list string) : convergenceTracker :=
  let '(ns, accounts) := foldl (λ st namespace,
      ({[namespace]} ∪ st.1,
       foldl (λ accounts name, {[account_key namespace name]} ∪ accounts) st.2 serviceAccountNames))
    (∅, ∅) namespaces in
  MkTracker ns accounts ∅ ∅ None None [] [].

Definition start (kind : phaseKind) (startedAt : Time) (t : convergenceTracker) :
    nat * convergenceTracker :=
  let phase := MkPhase kind startedAt ZeroTime (size (targetNamespaces t))
    (if bool_decide (kind = expiryPhase) then 0 else size (targetAccounts t))
    ∅ ∅ ∅ ∅ 0 false in
  let p := length (phases t) in
  (p, set_current t p (phases t ++ [phase])).

Definition maybeCompleteLocked (phase : trackedPhase) (observedAt : Time) : trackedPhase :=
  let complete := (size (secretDurations phase) =? secretTotal phase)%nat in
  let complete := if bool_decide (kind phase = initialPhase)
    then complete && (size (serviceAccountDurations phase) =? serviceAccountTotal phase)%nat
    else complete in
  if negb complete then phase
  else if doneOnce phase then phase else with_completed phase observedAt.

Definition referencesManagedSecret (serviceAccount : ServiceAccount) : bool :=
  existsb (λ reference, bool_decide (reference = DefaultManagedSecretName))
    (ImagePullSecrets serviceAccount).

Definition secretFingerprint (secret : Secret) : string :=
  sha256_hex (default [] (Data secret !! DockerConfigJsonKey) ++ [chr 0]
              ++ to_bytes (default "" (Annotations secret !! StateAnnotationKey))).
#[global] Arguments secretFingerprint : simpl never.

(** ** Observations of the injected resources *)
Definition mutation_complete (m : trackedConcurrentMutation) : bool :=
  negb (negb (bool_decide (lateServiceAccountName m = ""))
        && (time_IsZero (lateServiceAccountCreatedAt m) || time_IsZero (lateServiceAccountReadyAt m)))
  && negb (time_IsZero (lateNamespaceCreatedAt m) || time_IsZero (lateNamespacePrerequisitesAt m)
           || time_IsZero (lateNamespaceSecretReadyAt m)
           || negb (size (lateNamespaceAccountReadyAt m) =? size (lateNamespaceAccounts m))%nat).

Definition maybeCompleteMutationLocked (m : trackedConcurrentMutation) : trackedConcurrentMutation :=
  if mutation_complete m then (if mutation_doneOnce m then m else close_mutation m) else m.

Definition observe_mutation_secret (fingerprint : string) (observedAt : Time)
    (m : trackedConcurrentMutation) : trackedConcurrentMutation :=
  let k := marks m in
  if negb (bool_decide (fingerprint = expectedCredentialFingerprint m)) then
    with_marks m (MkMarks (m_accountRequest k) (m_accountCreated k) (m_accountReady k)
      (m_namespaceRequest k) (m_namespaceCreated k) (m_prerequisites k) (m_secretReady k)
      (m_secretFingerprint k) ({[fingerprint]} ∪ m_stale k) (m_accountsReady k))
  else maybeCompleteMutationLocked
    (if time_IsZero (lateNamespaceSecretReadyAt m) then
       with_marks m (MkMarks (m_accountRequest k) (m_accountCreated k) (m_accountReady k)
         (m_namespaceRequest k) (m_namespaceCreated k) (m_prerequisites k) observedAt
         fingerprint (m_stale k) (m_accountsReady k))
     else m).

(** [mutation == nil || ...]: the current mutation, if the condition holds. *)
Definition on_mutation (f : trackedConcurrentMutation → trackedConcurrentMutation)
    (t : convergenceTracker) : convergenceTracker :=
  match current_mutation t with
  | None => t
  | Some p => set_mutations t (alter f p (mutations t))
  end.

Definition observeMutationSecretLocked (namespace fingerprint : string) (observedAt : Time)
    (t : convergenceTracker) : convergenceTracker :=
  on_mutation (λ m, if negb (bool_decide (namespace = lateNamespace m)) then m
                    else observe_mutation_secret fingerprint observedAt m) t.

Definition observe_mutation_account (serviceAccount : ServiceAccount) (observedAt : Time)
    (m : trackedConcurrentMutation) : trackedConcurrentMutation :=
  let k := marks m in
  let accountReady :=
    if bool_decide (sa_Namespace serviceAccount = existingNamespace m)
       && bool_decide (sa_Name serviceAccount = lateServiceAccountName m)
       && time_IsZero (lateServiceAccountReadyAt m)
    then observedAt else m_accountReady k in
  let accountsReady :=
    if bool_decide (sa_Namespace serviceAccount = lateNamespace m)
       && bool_decide (sa_Name serviceAccount ∈ lateNamespaceAccounts m)
       && bool_decide (lateNamespaceAccountReadyAt m !! sa_Name serviceAccount = None)
    then <[sa_Name serviceAccount := observedAt]> (m_accountsReady k) else m_accountsReady k in
  maybeCompleteMutationLocked
    (with_marks m (MkMarks (m_accountRequest k) (m_accountCreated k) accountReady
       (m_namespaceRequest k) (m_namespaceCreated k) (m_prerequisites k) (m_secretReady k)
       (m_secretFingerprint k) (m_stale k) accountsReady)).

Definition observeMutationServiceAccountLocked (serviceAccount : ServiceAccount) (observedAt : Time)
    (t : convergenceTracker) : convergenceTracker :=
  on_mutation (λ m, if negb (referencesManagedSecret serviceAccount) then m
                    else observe_mutation_account serviceAccount observedAt m) t.

(** ** Observations of the targets *)
Definition observe_phase_secret (ns fingerprint : string) (observedAt : Time) (phase : trackedPhase) :
    trackedPhase :=
  match secretDurations phase !! ns with
  | Some _ => phase
  | None => with_secret phase ns (time_Sub observedAt (startedAt phase)) fingerprint
  end.

Definition observeSecret (secret : option Secret) (observedAt : Time) (t : convergenceTracker) :
    convergenceTracker :=
  match secret with
  | None => t
  | Some s =>
    if negb (bool_decide (sec_Name s = DefaultManagedSecretName)) then t else
    if negb (IsUsableForServiceAccount (Some s)) then t else
    let fingerprint := secretFingerprint s in
    let ns := sec_Namespace s in
    let t := observeMutationSecretLocked ns fingerprint observedAt t in
    if bool_decide (ns ∉ targetNamespaces t) then t else
    match current_phase t with
    | None => t
    | Some p =>
      match phases t !! p with
      | None => t
      | Some phase =>
        if Before observedAt (startedAt phase) then t else
        let complete phase := maybeCompleteLocked phase observedAt in
        match kind phase with
        | initialPhase =>
          let t := set_baseline_secret t ns fingerprint in
          set_phases t (<[p := complete (observe_phase_secret ns fingerprint observedAt phase)]> (phases t))
        | expiryPhase =>
          match baselineSecrets t !! ns with
          | None => t
          | Some baseline =>
            if bool_decide (fingerprint = baseline) then t else
            set_phases t (<[p := complete (observe_phase_secret ns fingerprint observedAt phase)]> (phases t))
          end
        end
      end
    end
  end.

Definition observe_phase_account (key : string) (observedAt : Time) (phase : trackedPhase) :
    trackedPhase :=
  match serviceAccountDurations phase !! key with
  | Some _ => phase
  | None => with_account phase key (time_Sub observedAt (startedAt phase))
  end.

Definition observeServiceAccount (serviceAccount : option ServiceAccount) (observedAt : Time)
    (t : convergenceTracker) : convergenceTracker :=
  match serviceAccount with
  | None => t
  | Some a =>
    let key := account_key (sa_Namespace a) (sa_Name a) in
    let t := observeMutationServiceAccountLocked a observedAt t in
    if bool_decide (key ∉ targetAccounts t) then t else
    match current_phase t with
    | None => t
    | Some p =>
      match phases t !! p with
      | None => t
      | Some phase =>
        if Before observedAt (startedAt phase) then t else
        let complete phase := maybeCompleteLocked phase observedAt in
        match kind phase with
        | initialPhase =>
          if negb (referencesManagedSecret a) then t else
          let t := set_baseline_account t key (sa_ResourceVersion a) in
          set_phases t (<[p := complete (observe_phase_account key observedAt phase)]> (phases t))
        | expiryPhase =>
          let phase' := match baselineAccounts t !! key with
            | Some baseline => if bool_decide (sa_ResourceVersion a = baseline) then phase
                               else with_unexpected phase key
            | None => phase
            end in
          set_phases t (<[p := complete phase']> (phases t))
        end
      end
    end
  end.

(** ** The injected mutation *)
Definition startConcurrentMutation (triggerPercent : Z) (triggeredAt : Time)
    (secretsComplete secretsTotal : nat) (existingNamespace lateServiceAccountName lateNamespace : string)
    (lateNamespaceAccounts : list string) (expectedCredentialFingerprint : string)
    (t : convergenceTracker) : nat * convergenceTracker :=
  let m := MkMutation triggerPercent triggeredAt secretsComplete secretsTotal existingNamespace
    expectedCredentialFingerprint lateServiceAccountName lateNamespace
    (list_to_set lateNamespaceAccounts)
    ZeroTime ZeroTime ZeroTime ZeroTime ZeroTime ZeroTime ZeroTime "" ∅ ∅ 0 false in
  let p := length (mutations t) in
  (p, MkTracker (targetNamespaces t) (targetAccounts t) (baselineSecrets t) (baselineAccounts t)
        (current_phase t) (Some p) (phases t) (mutations t ++ [m])).

(** [if t.mutation == mutation { ... }] *)
Definition mark_mutation (mutation : nat) (f : trackedConcurrentMutation → trackedConcurrentMutation)
    (t : convergenceTracker) : convergenceTracker :=
  if bool_decide (current_mutation t = Some mutation)
  then set_mutations t (alter f mutation (mutations t)) else t.

Definition markLateServiceAccountRequestStarted (mutation : nat) (at_ : Time) :=
  mark_mutation mutation (λ m, let k := marks m in
    with_marks m (MkMarks at_ (m_accountCreated k) (m_accountReady k) (m_namespaceRequest k)
      (m_namespaceCreated k) (m_prerequisites k) (m_secretReady k) (m_secretFingerprint k)
      (m_stale k) (m_accountsReady k))).
Definition markLateServiceAccountCreated (mutation : nat) (at_ : Time) :=
  mark_mutation mutation (λ m, let k := marks m in maybeCompleteMutationLocked
    (with_marks m (MkMarks (m_accountRequest k) at_ (m_accountReady k) (m_namespaceRequest k)
      (m_namespaceCreated k) (m_prerequisites k) (m_secretReady k) (m_secretFingerprint k)
      (m_stale k) (m_accountsReady k)))).
Definition markLateNamespaceRequestStarted (mutation : nat) (at_ : Time) :=
  mark_mutation mutation (λ m, let k := marks m in
    with_marks m (MkMarks (m_accountRequest k) (m_accountCreated k) (m_accountReady k) at_
      (m_namespaceCreated k) (m_prerequisites k) (m_secretReady k) (m_secretFingerprint k)
      (m_stale k) (m_accountsReady k))).
Definition markLateNamespaceCreated (mutation : nat) (at_ : Time) :=
  mark_mutation mutation (λ m, let k := marks m in maybeCompleteMutationLocked
    (with_marks m (MkMarks (m_accountRequest k) (m_accountCreated k) (m_accountReady k)
      (m_namespaceRequest k) at_ (m_prerequisites k) (m_secretReady k) (m_secretFingerprint k)
      (m_stale k) (m_accountsReady k)))).
Definition markLateNamespacePrerequisitesReady (mutation : nat) (at_ : Time) :=
  mark_mutation mutation (λ m, let k := marks m in maybeCompleteMutationLocked
    (with_marks m (MkMarks (m_accountRequest k) (m_accountCreated k) (m_accountReady k)
      (m_namespaceRequest k) (m_namespaceCreated k) at_ (m_secretReady k) (m_secretFingerprint k)
      (m_stale k) (m_accountsReady k)))).

(** ** Progress *)
Record phaseProgress := MkProgress {
  Timestamp : Time;
  Elapsed : Duration;
  SecretsComplete : nat;
  SecretsTotal : nat;
  ServiceAccountsComplete : nat;
  ServiceAccountsTotal : nat;
  UnexpectedServiceAccounts : nat
}.

Definition elapsed (phase : trackedPhase) (now : Time) : Duration :=
  if time_IsZero (completedAt phase) then time_Sub now (startedAt phase)
  else time_Sub (completedAt phase) (startedAt phase).

Definition progress (phase : trackedPhase) (now : Time) : phaseProgress :=
  MkProgress now (elapsed phase now) (size (secretDurations phase)) (secretTotal phase)
    (size (serviceAccountDurations phase)) (serviceAccountTotal phase)
    (size (unexpectedServiceAccounts phase)).

Section ranges.
Context `{RangeOrder}.

Definition least_namespace (namespace candidate : string) : string :=
  if bool_decide (namespace = "") || String.ltb candidate namespace then candidate else namespace.

(** [now] is what [time.Now] answers; the unexpected updates are left out. *)
Definition mutationTriggerCandidate (phase : trackedPhase) (now : Time) :
    phaseProgress * string * string * bool :=
  let progress := MkProgress now (elapsed phase now) (size (secretDurations phase))
    (secretTotal phase) (size (serviceAccountDurations phase)) (serviceAccountTotal phase) 0 in
  let namespace := foldl least_namespace "" (range (secretDurations phase)).*1 in
  if bool_decide (namespace = "") then (progress, "", "", false) else
  match secretFingerprints phase !! namespace with
  | Some fingerprint => (progress, namespace, fingerprint, true)
  | None => (progress, namespace, "", false)
  end.

(** ** Statistics *)
Record completionStats := MkStats {
  Count : nat;
  P50Seconds : float64;
  P90Seconds : float64;
  P95Seconds : float64;
  P99Seconds : float64;
  MaximumSeconds : float64;
  ObjectsPerSecond : float64
}.

(** The constant [n/100]: the division is correctly rounded, as the constant is. *)
Definition hundredths (n : Z) : float64 := fdiv (float_of_int n) (float_of_int 100).

(** [None] is the panic of an index out of range. *)
Definition percentile (sorted : list float64) (quantile : float64) : option float64 :=
  match sorted with
  | [] => Some zero_float
  | [x] => Some x
  | _ =>
    let position := fmul quantile (float_of_int (Z.of_nat (length sorted) - 1)) in
    let lower := Z.to_nat (int_of_float position) in
    let upper := (lower + 1)%nat in
    if (length sorted <=? upper)%nat then sorted !! lower
    else
      let fraction := fsub position (float_of_int (Z.of_nat lower)) in
      low ← sorted !! lower; high ← sorted !! upper;
      mret (fadd low (fmul (fsub high low) fraction))
  end.

Definition calculateStats (values : gmap string Duration) : option completionStats :=
  let durations := sort_Float64s (Seconds <$> (range values).*2) in
  match last durations with
  | None => Some (MkStats 0 zero_float zero_float zero_float zero_float zero_float zero_float)
  | Some maximum =>
    p50 ← percentile durations (hundredths 50);
    p90 ← percentile durations (hundredths 90);
    p95 ← percentile durations (hundredths 95);
    p99 ← percentile durations (hundredths 99);
    mret (MkStats (length durations) p50 p90 p95 p99 maximum
      (if SFltb zero_float maximum then fdiv (float_of_int (Z.of_nat (length durations))) maximum
       else zero_float))
  end.

Record phaseSummary := MkPhaseSummary {
  ps_Name : string;
  ps_StartedAt : Time;
  ps_CompletedAt : Time;
  DurationSeconds : float64;
  SecretCompletion : completionStats;
  ServiceAccountCompletion : completionStats;
  ps_UnexpectedServiceAccounts : nat
}.

Definition summary (phase : trackedPhase) (now : Time) : option phaseSummary :=
  let completedAt := if time_IsZero (completedAt phase) then now else completedAt phase in
  let duration := time_Sub completedAt (startedAt phase) in
  secrets ← calculateStats (secretDurations phase);
  accounts ← calculateStats (serviceAccountDurations phase);
  mret (MkPhaseSummary (phase_string (kind phase)) (startedAt phase) completedAt
          (Seconds duration) secrets accounts (size (unexpectedServiceAccounts phase))).

(** ** The summary of a mutation *)
Definition mutationLatency (startedAt readyAt : Time) : float64 :=
  if time_IsZero startedAt || time_IsZero readyAt || Before readyAt startedAt then zero_float
  else Seconds (time_Sub readyAt startedAt).
Definition laterTime (left right : Time) : Time := if After right left then right else left.

Record mutationResourceSummary := MkResourceSummary {
  mr_Namespace : string;
  mr_Name : string;
  mr_CreateRequestStarted : Time;
  mr_CreatedAt : Time;
  mr_ReadyAt : Time;
  mr_ReadyLatencySeconds : float64
}.
Record mutationNamespaceSummary := MkNamespaceSummary {
  mn_Name : string;
  mn_CreateRequestStarted : Time;
  mn_CreatedAt : Time;
  mn_PrerequisitesReadyAt : Time;
  mn_SecretReadyAt : Time;
  mn_ServiceAccountsReadyAt : Time;
  mn_ReadyAt : Time;
  mn_SecretLatencySeconds : float64;
  mn_ServiceAccountsLatencySeconds : float64;
  mn_ReadyLatencySeconds : float64;
  mn_PrerequisitesToReadySeconds : float64;
  ObservedCredentialFingerprint : string;
  StaleCredentialFingerprints : nat;
  ExpectedServiceAccountCount : nat;
  ObservedPatchedServiceAccounts : nat
}.
Record mutationSummary := MkMutationSummary {
  NamespaceOnly : bool;
  ms_TriggerPercent : Z;
  ms_TriggeredAt : Time;
  ms_SecretsCompleteAtTrigger : nat;
  ms_SecretsTotalAtTrigger : nat;
  ms_ExistingNamespace : string;
  ExpectedCredentialFingerprint : string;
  LateServiceAccount : mutationResourceSummary;
  LateNamespace : mutationNamespaceSummary;
  Success : bool;
  Error : string
}.

Definition concurrentMutationSummary (m : trackedConcurrentMutation) : mutationSummary :=
  let serviceAccountsReadyAt := foldl laterTime ZeroTime (range (lateNamespaceAccountReadyAt m)).*2 in
  let readyAt := laterTime (lateNamespaceSecretReadyAt m) serviceAccountsReadyAt in
  MkMutationSummary (bool_decide (lateServiceAccountName m = "")) (triggerPercent m) (triggeredAt m)
    (secretsCompleteAtTrigger m) (secretsTotalAtTrigger m) (existingNamespace m)
    (expectedCredentialFingerprint m)
    (MkResourceSummary (existingNamespace m) (lateServiceAccountName m)
       (lateServiceAccountRequestStarted m) (lateServiceAccountCreatedAt m)
       (lateServiceAccountReadyAt m)
       (mutationLatency (lateServiceAccountCreatedAt m) (lateServiceAccountReadyAt m)))
    (MkNamespaceSummary (lateNamespace m) (lateNamespaceRequestStarted m) (lateNamespaceCreatedAt m)
       (lateNamespacePrerequisitesAt m) (lateNamespaceSecretReadyAt m) serviceAccountsReadyAt readyAt
       (mutationLatency (lateNamespaceCreatedAt m) (lateNamespaceSecretReadyAt m))
       (mutationLatency (lateNamespaceCreatedAt m) serviceAccountsReadyAt)
       (mutationLatency (lateNamespaceCreatedAt m) readyAt)
       (mutationLatency (lateNamespacePrerequisitesAt m) readyAt)
       (lateNamespaceSecretFingerprint m) (size (lateNamespaceStaleFingerprints m))
       (size (lateNamespaceAccounts m)) (size (lateNamespaceAccountReadyAt m)))
    false "".
End ranges.
