(* ===== verification/TrackerCorrect.v ===== *)
(** * Theorems about the convergence tracker

    A phase is specified by the list of observations made since it started:
    which of them count is a function of one observation, and everything the
    tracker records is the first, or the last, of those that count. *)
From S2P Require Import Prelude GoStrings Rfc3339 Credential SecretCodec RegistrySecret.
From S2P Require Import ServiceAccount Controller GoFloat Tracker.

Inductive observation :=
| SecretSeen (secret : option Secret) (observedAt : Time)
| AccountSeen (serviceAccount : option ServiceAccount) (observedAt : Time).
Definition seen_at (o : observation) : Time :=
  match o with SecretSeen _ at_ | AccountSeen _ at_ => at_ end.
Definition observe (t : convergenceTracker) (o : observation) : convergenceTracker :=
  match o with
  | SecretSeen s at_ => observeSecret s at_ t
  | AccountSeen a at_ => observeServiceAccount a at_ t
  end.

(** ** What counts *)

(** A usable Secret of the fixed name in a target Namespace, seen after the
    start; its Namespace, fingerprint and time. *)
Definition target_secret (t : convergenceTracker) (started : Time) (o : observation) :
    option (string * (string * Time)) :=
  match o with
  | SecretSeen (Some s) at_ =>
    if bool_decide (sec_Name s = DefaultManagedSecretName) && IsUsableForServiceAccount (Some s)
       && bool_decide (sec_Namespace s ∈ targetNamespaces t) && negb (Before at_ started)
    then Some (sec_Namespace s, (secretFingerprint s, at_)) else None
  | _ => None
  end.

(** A target account seen after the start: its key, whether it references the
    managed Secret, its version, and the time. *)
Definition target_account (t : convergenceTracker) (started : Time) (o : observation) :
    option (string * (ServiceAccount * Time)) :=
  match o with
  | AccountSeen (Some a) at_ =>
    let key := account_key (sa_Namespace a) (sa_Name a) in
    if bool_decide (key ∈ targetAccounts t) && negb (Before at_ started)
    then Some (key, (a, at_)) else None
  | _ => None
  end.

(** In the initial phase every such Secret counts, and every such account that
    has the reference; in the expiry phase the Secrets that differ from the
    baseline of their Namespace. *)
Definition secret_event (k : phaseKind) (t : convergenceTracker) (started : Time) (o : observation) :
    option (string * (string * Time)) :=
  '(ns, (fp, at_)) ← target_secret t started o;
  match k with
  | initialPhase => Some (ns, (fp, at_))
  | expiryPhase =>
    baseline ← baselineSecrets t !! ns;
    if bool_decide (fp = baseline) then None else Some (ns, (fp, at_))
  end.
Definition account_event (k : phaseKind) (t : convergenceTracker) (started : Time) (o : observation) :
    option (string * (string * Time)) :=
  '(key, (a, at_)) ← target_account t started o;
  if bool_decide (k = initialPhase) && referencesManagedSecret a
  then Some (key, (sa_ResourceVersion a, at_)) else None.
(** An account update that the expiry should not have caused. *)
Definition unexpected_event (k : phaseKind) (t : convergenceTracker) (started : Time) (o : observation) :
    option string :=
  '(key, (a, at_)) ← target_account t started o;
  baseline ← baselineAccounts t !! key;
  if bool_decide (k = expiryPhase) && negb (bool_decide (sa_ResourceVersion a = baseline))
  then Some key else None.

(** [list_to_map] keeps the first binding of a key. *)
Definition firsts {A} (l : list (string * A)) : gmap string A := list_to_map l.
Definition lasts {A} (l : list (string * A)) : gmap string A := list_to_map (reverse l).

Section phase.
Context (k : phaseKind) (t : convergenceTracker) (started : Time).

Abbreviation secrets ops := (omap (secret_event k t started) ops).
Abbreviation accounts ops := (omap (account_event k t started) ops).

(** Every target has been seen. *)
Definition phase_complete (ops : list observation) : Prop :=
  dom (firsts (secrets ops)) = targetNamespaces t ∧
  (k = initialPhase → dom (firsts (accounts ops)) = targetAccounts t).
#[export] Instance phase_complete_dec ops : Decision (phase_complete ops) := _.

Definition completed_at (ops : list observation) (at_ : Time) : Prop :=
  ∃ pre o post, ops = pre ++ o :: post ∧ ¬ phase_complete pre ∧ phase_complete (pre ++ [o]) ∧
    at_ = seen_at o.

(** What the tracker records of a phase, and of the baseline. *)
Record phase_fields (ops : list observation) (phase : trackedPhase) : Prop := {
  pr_kind : kind phase = k;
  pr_started : startedAt phase = started;
  pr_totals : secretTotal phase = size (targetNamespaces t) ∧
    serviceAccountTotal phase = if bool_decide (k = expiryPhase) then 0 else size (targetAccounts t);
  pr_secrets : secretDurations phase = (λ e, time_Sub e.2 started) <$> firsts (secrets ops);
  pr_fingerprints : secretFingerprints phase = fst <$> firsts (secrets ops);
  pr_accounts : serviceAccountDurations phase = (λ e, time_Sub e.2 started) <$> firsts (accounts ops);
  pr_unexpected : unexpectedServiceAccounts phase = list_to_set (omap (unexpected_event k t started) ops)
}.
(** The phase's channel is closed once, by the observation that completed it. *)
Definition completion_recorded (ops : list observation) (phase : trackedPhase) : Prop :=
  if bool_decide (phase_complete ops)
  then doneOnce phase = true ∧ done phase = 1 ∧ completed_at ops (completedAt phase)
  else doneOnce phase = false ∧ done phase = 0 ∧ completedAt phase = ZeroTime.
(** The initial phase keeps what it saw last as the baseline of the next. *)
Definition baseline_recorded (ops : list observation) (t' : convergenceTracker) : Prop :=
  targetNamespaces t' = targetNamespaces t ∧ targetAccounts t' = targetAccounts t ∧
  if bool_decide (k = initialPhase)
  then baselineSecrets t' = (fst <$> lasts (secrets ops)) ∪ baselineSecrets t ∧
       baselineAccounts t' = (fst <$> lasts (accounts ops)) ∪ baselineAccounts t
  else baselineSecrets t' = baselineSecrets t ∧ baselineAccounts t' = baselineAccounts t.

Definition records (p : nat) (ops : list observation) (t' : convergenceTracker) : Prop :=
  current_phase t' = Some p ∧ baseline_recorded ops t' ∧
  ∃ phase, phases t' !! p = Some phase ∧ phase_fields ops phase ∧ completion_recorded ops phase.

(** ** Maps of first and last bindings *)
Lemma firsts_snoc {A} (l : list (string * A)) x a :
  firsts (l ++ [(x, a)]) = match firsts l !! x with Some _ => firsts l | None => <[x := a]> (firsts l) end.
Proof.
  unfold firsts. induction l as [|[y b] l IH]; simpl; [by rewrite lookup_empty|].
  rewrite IH. destruct (decide (x = y)) as [->|Hne].
  - rewrite lookup_insert_eq. destruct (list_to_map l !! y); [done|]. by rewrite insert_insert_eq.
  - rewrite lookup_insert_ne by done. destruct (list_to_map l !! x); [done|].
    by rewrite insert_insert_ne by done.
Qed.
Lemma lasts_snoc {A} (l : list (string * A)) x a : lasts (l ++ [(x, a)]) = <[x := a]> (lasts l).
Proof. unfold lasts. by rewrite reverse_snoc. Qed.

Lemma secret_event_target o ns e : secret_event k t started o = Some (ns, e) → ns ∈ targetNamespaces t.
Proof.
  unfold secret_event, target_secret. destruct o as [[s|] at_|]; simpl; [|done..].
  destruct (_ && _) eqn:Hc; simpl; [|done]. rewrite !andb_true_iff, !bool_decide_eq_true in Hc.
  intros He. assert (ns = sec_Namespace s) as ->; [|naive_solver].
  destruct k; [naive_solver|]. destruct (baselineSecrets t !! _); simpl in He; [|done].
  case_bool_decide; naive_solver.
Qed.
Lemma account_event_target o key e : account_event k t started o = Some (key, e) → key ∈ targetAccounts t.
Proof.
  unfold account_event, target_account. destruct o as [|[a|] at_]; simpl; [done| |done].
  destruct (_ && _) eqn:Hc; simpl; [|done]. rewrite !andb_true_iff, !bool_decide_eq_true in Hc.
  destruct (_ && _); naive_solver.
Qed.

Lemma firsts_dom {A} (f : observation → option (string * A)) (X : gset string) ops :
  (∀ o x a, f o = Some (x, a) → x ∈ X) → dom (firsts (omap f ops)) ⊆ X.
Proof.
  intros Hf x. rewrite elem_of_dom. intros [a Ha]. unfold firsts in Ha.
  apply elem_of_list_to_map_2, list_elem_of_omap in Ha as (o & _ & Ho). by eapply Hf.
Qed.

Lemma full_size {A} (m : gmap string A) (X : gset string) :
  dom m ⊆ X → size m = size X ↔ dom m = X.
Proof.
  intros Hsub. rewrite <-(size_dom m). split; [|by intros ->].
  intros Hs. apply leibniz_equiv, set_subseteq_size_equiv; [done|lia].
Qed.

(** ** The completion test *)
Lemma complete_spec ops phase : phase_fields ops phase →
  ((size (secretDurations phase) =? secretTotal phase)%nat = true ∧
   (k = initialPhase → (size (serviceAccountDurations phase) =? serviceAccountTotal phase)%nat = true))
  ↔ phase_complete ops.
Proof.
  intros [_ _ [Hs Ha] Hsecrets _ Haccounts _]. unfold phase_complete.
  rewrite !Nat.eqb_eq, Hs, Ha, Hsecrets, Haccounts, !map_size_fmap.
  rewrite full_size by (apply firsts_dom; intros ? ? ?; apply secret_event_target).
  assert (size (firsts (accounts ops)) = size (targetAccounts t)
          ↔ dom (firsts (accounts ops)) = targetAccounts t) as Hacc
    by (apply full_size, firsts_dom; intros ? ? ?; apply account_event_target).
  apply and_iff_compat_l. split; intros Hc Hk; specialize (Hc Hk);
    rewrite bool_decide_false in * by congruence; tauto.
Qed.

Lemma omap_snoc {A} (f : observation → option A) ops o :
  omap f (ops ++ [o]) = omap f ops ++ option_list (f o).
Proof. rewrite omap_app. simpl. by destruct (f o). Qed.

Lemma complete_mono ops o : phase_complete ops → phase_complete (ops ++ [o]).
Proof.
  assert (∀ A (f : observation → option (string * A)) X, (∀ o x a, f o = Some (x, a) → x ∈ X) →
    dom (firsts (omap f ops)) = X → dom (firsts (omap f (ops ++ [o]))) = X) as Hg.
  { intros A f X Hf Hd. apply leibniz_equiv, (anti_symm (⊆)); [by apply firsts_dom|].
    rewrite <-Hd, omap_snoc. destruct (f o) as [[x a]|]; simpl; [|by rewrite app_nil_r].
    rewrite firsts_snoc. destruct (firsts _ !! x); [done|]. rewrite dom_insert. set_solver. }
  intros [Hs Ha]. split.
  - by apply Hg; [intros ???; apply secret_event_target|].
  - intros Hk. apply Hg; [intros ???; apply account_event_target|by apply Ha].
Qed.

Lemma completed_at_snoc ops o at_ : completed_at ops at_ → completed_at (ops ++ [o]) at_.
Proof.
  intros (pre & x & post & -> & ? & ? & ?). exists pre, x, (post ++ [o]).
  split; [by rewrite <-(assoc_L (++))|done].
Qed.

Lemma completion_later ops o phase :
  (phase_complete (ops ++ [o]) → phase_complete ops) →
  completion_recorded ops phase → completion_recorded (ops ++ [o]) phase.
Proof.
  intros Hback. unfold completion_recorded. pose proof (complete_mono ops o).
  repeat case_bool_decide; try tauto. naive_solver eauto using completed_at_snoc.
Qed.

Lemma maybeComplete_records ops o phase phase' :
  phase_fields (ops ++ [o]) phase' → completion_recorded ops phase →
  doneOnce phase' = doneOnce phase → done phase' = done phase →
  completedAt phase' = completedAt phase →
  phase_fields (ops ++ [o]) (maybeCompleteLocked phase' (seen_at o)) ∧
  completion_recorded (ops ++ [o]) (maybeCompleteLocked phase' (seen_at o)).
Proof.
  intros Hf Hc Ho Hd Ha. pose proof (complete_spec _ _ Hf) as Hspec.
  assert (completion_recorded ops phase') as Hc'.
  { unfold completion_recorded in *. by rewrite Ho, Hd, Ha. }
  unfold maybeCompleteLocked. rewrite (pr_kind _ _ Hf).
  destruct (negb _) eqn:Hn.
  { split; [done|]. apply completion_later; [|done]. intros Hcomp. exfalso.
    apply Hspec in Hcomp as [Hs Hacc]. rewrite Hs in Hn.
    case_bool_decide as Hk; simpl in Hn; [|done]. by rewrite (Hacc Hk) in Hn. }
  assert (phase_complete (ops ++ [o])) as Hcomp.
  { apply Hspec. apply negb_false_iff in Hn. case_bool_decide; [apply andb_true_iff in Hn|]; tauto. }
  unfold completion_recorded in Hc'. destruct (doneOnce phase') eqn:Honce.
  - split; [done|]. apply completion_later; [|by unfold completion_recorded; rewrite Honce].
    intros _. destruct (decide (phase_complete ops)) as [|Hpre]; [done|].
    rewrite bool_decide_false in Hc' by done. by destruct Hc'.
  - split; [by destruct Hf|]. unfold completion_recorded. rewrite bool_decide_true by done.
    destruct (decide (phase_complete ops)) as [Hpre|Hpre];
      [rewrite bool_decide_true in Hc' by done; by destruct Hc'|].
    rewrite bool_decide_false in Hc' by done. destruct Hc' as (_ & Hd0 & _).
    split; [done|]. split; [simpl; by rewrite Hd0|]. by exists ops, o, [].
Qed.

(** ** One observation *)
Definition same_targets (t1 t2 : convergenceTracker) : Prop :=
  current_phase t2 = current_phase t1 ∧ phases t2 = phases t1 ∧
  targetNamespaces t2 = targetNamespaces t1 ∧ targetAccounts t2 = targetAccounts t1 ∧
  baselineSecrets t2 = baselineSecrets t1 ∧ baselineAccounts t2 = baselineAccounts t1.

Lemma on_mutation_same f t1 : same_targets t1 (on_mutation f t1).
Proof. unfold on_mutation. by destruct (current_mutation t1). Qed.

(** An observation that does not count. *)
Lemma records_skip p ops o t1 t2 :
  secret_event k t started o = None → account_event k t started o = None →
  unexpected_event k t started o = None →
  records p ops t1 → same_targets t1 t2 → records p (ops ++ [o]) t2.
Proof.
  intros Hs Ha Hu (Hp & Hb & phase & Hph & Hf & Hc) (Hp2 & Hph2 & Hn2 & Ha2 & Hbs & Hba).
  assert (secrets (ops ++ [o]) = secrets ops) as Es by (rewrite omap_snoc, Hs; simpl; by rewrite app_nil_r).
  assert (accounts (ops ++ [o]) = accounts ops) as Ea by (rewrite omap_snoc, Ha; simpl; by rewrite app_nil_r).
  split; [by rewrite Hp2|]. split.
  { unfold baseline_recorded in *. rewrite Hn2, Ha2, Hbs, Hba, Es, Ea. done. }
  exists phase. rewrite Hph2. split; [done|]. split.
  - destruct Hf. split; rewrite ?Es, ?Ea; try done.
    rewrite omap_snoc, Hu. simpl. by rewrite app_nil_r.
  - apply completion_later; [|done]. unfold phase_complete. by rewrite Es, Ea.
Qed.

(** An observation of the phase [p] that leaves [phase'] before the test. *)
Lemma records_phase p ops o t1 t2 phase phase' :
  phase_fields (ops ++ [o]) phase' →
  phases t1 !! p = Some phase → completion_recorded ops phase →
  doneOnce phase' = doneOnce phase → done phase' = done phase →
  completedAt phase' = completedAt phase →
  current_phase t2 = Some p → baseline_recorded (ops ++ [o]) t2 → length (phases t2) = length (phases t1) →
  records p (ops ++ [o]) (set_phases t2 (<[p := maybeCompleteLocked phase' (seen_at o)]> (phases t2))).
Proof.
  intros Hf Hph Hc Ho Hd Hat Hcur Hb Hlen.
  destruct (maybeComplete_records ops o phase phase' Hf Hc Ho Hd Hat) as [Hf' Hc'].
  split; [done|]. split; [done|]. eexists. split; [|done].
  simpl. apply list_lookup_insert_eq. rewrite Hlen. by eapply lookup_lt_Some.
Qed.

Lemma records_same p ops t1 t2 : same_targets t1 t2 → records p ops t1 → records p ops t2.
Proof.
  intros (Hp2 & Hph2 & Hn2 & Ha2 & Hbs & Hba) (Hp & Hb & Hph).
  unfold records, baseline_recorded in *. by rewrite Hp2, Hph2, Hn2, Ha2, Hbs, Hba.
Qed.
End phase.

Lemma secret_step k t started p ops s at_ t1 :
  records k t started p ops t1 →
  records k t started p (ops ++ [SecretSeen (Some s) at_]) (observeSecret (Some s) at_ t1).
Proof.
  intros Hr. unfold observeSecret.
  assert (∀ t2, same_targets t1 t2 → target_secret t started (SecretSeen (Some s) at_) = None →
    records k t started p (ops ++ [SecretSeen (Some s) at_]) t2) as Hskip.
  { intros t2 Ht Hn. apply (records_skip k t started p ops _ t1 t2); try done.
    unfold secret_event. by rewrite Hn. }
  destruct (bool_decide (sec_Name s = _)) eqn:Hn; simpl; [|by apply Hskip; [|simpl; rewrite Hn]].
  destruct (IsUsableForServiceAccount _) eqn:Hu; cbn -[IsUsableForServiceAccount];
    [|by apply Hskip; [|cbn -[IsUsableForServiceAccount]; rewrite Hu, andb_false_r]].
  pose proof (on_mutation_same (λ m, if negb (bool_decide (sec_Namespace s = lateNamespace m)) then m
    else observe_mutation_secret (secretFingerprint s) at_ m) t1) as Ht2.
  fold (observeMutationSecretLocked (sec_Namespace s) (secretFingerprint s) at_ t1) in Ht2.
  revert Ht2. generalize (observeMutationSecretLocked (sec_Namespace s) (secretFingerprint s) at_ t1).
  intros t2 Ht2. pose proof (records_same _ _ _ _ _ _ _ Ht2 Hr) as (Hp & Hb & phase & Hph & Hf & Hc).
  pose proof Hb as (Htn & _ & _). rewrite Htn.
  destruct (decide (sec_Namespace s ∈ targetNamespaces t)) as [Hin|Hin];
    [rewrite bool_decide_false by tauto|rewrite bool_decide_true by done; apply Hskip; [done|]].
  2:{ cbn -[IsUsableForServiceAccount]. by rewrite (bool_decide_false _ Hin), andb_false_r. }
  rewrite Hp, Hph, (pr_started _ _ _ _ _ Hf).
  destruct (Before at_ started) eqn:Hbefore;
    [by apply Hskip; [|cbn -[IsUsableForServiceAccount]; rewrite Hbefore, andb_false_r]|].
  assert (target_secret t started (SecretSeen (Some s) at_)
          = Some (sec_Namespace s, (secretFingerprint s, at_))) as Htarget.
  { cbn -[IsUsableForServiceAccount]. by rewrite Hn, Hu, (bool_decide_true _ Hin), Hbefore. }
  rewrite (pr_kind _ _ _ _ _ Hf).
  set (ns := sec_Namespace s) in *. set (fp := secretFingerprint s) in *.
  (* the phase after the observation, when it counts *)
  assert (∀ o, o = SecretSeen (Some s) at_ → secret_event k t started o = Some (ns, (fp, at_)) →
    ∀ t3, current_phase t3 = Some p → phases t3 = phases t2 →
    baseline_recorded k t started (ops ++ [o]) t3 →
    records k t started p (ops ++ [o]) (set_phases t3 (<[p := maybeCompleteLocked
      (observe_phase_secret ns fp at_ phase) at_]> (phases t3)))) as Hcount.
  { intros o Ho He t3 Hp3 Hph3 Hb3. replace at_ with (seen_at o) at 2 by by rewrite Ho.
    apply (records_phase k t started p ops o t2 t3 phase); try done; [| | | |by rewrite Hph3];
      unfold observe_phase_secret; destruct (secretDurations phase !! ns) eqn:Hl; try done.
    all: destruct Hf as [? ? ? Hs Hfp Ha Hun]; rewrite Hs, lookup_fmap in Hl.
    all: split; cbn [kind startedAt secretTotal serviceAccountTotal secretDurations secretFingerprints
                     serviceAccountDurations unexpectedServiceAccounts with_secret]; try done.
    all: rewrite ?Hs, ?Hfp, ?Ha, ?Hun, ?omap_snoc, ?He; subst o; simpl; rewrite ?app_nil_r, ?firsts_snoc; try done.
    all: destruct (firsts _ !! ns); simplify_eq/=; try done.
    all: by rewrite ?fmap_insert. }
  destruct k.
  - refine (Hcount _ eq_refl _ (set_baseline_secret t2 ns fp) Hp eq_refl _);
      [by unfold secret_event; rewrite Htarget|].
    destruct Hb as (? & ? & Hbs & Hba). split; [done|]. split; [done|].
    cbn. rewrite !omap_snoc. unfold secret_event at 2. rewrite Htarget. simpl.
    rewrite lasts_snoc, fmap_insert, app_nil_r, Hbs, Hba. by rewrite insert_union_l.
  - destruct Hb as (? & ? & Hbs & Hba). cbn in Hbs, Hba. rewrite Hbs.
    assert (secret_event expiryPhase t started (SecretSeen (Some s) at_)
      = baseline ← baselineSecrets t !! ns; if bool_decide (fp = baseline) then None else Some (ns, (fp, at_))) as He.
    { unfold secret_event. by rewrite Htarget. }
    destruct (baselineSecrets t !! ns) as [b|] eqn:Hbl; simpl in He.
    + case_bool_decide as Hfp; [by apply (records_skip _ _ _ p ops _ t1)|].
      apply (Hcount _ eq_refl He t2 Hp eq_refl). split; [done|]. split; [done|]. done.
    + by apply (records_skip _ _ _ p ops _ t1).
Qed.

Lemma account_step k t started p ops a at_ t1 :
  records k t started p ops t1 →
  records k t started p (ops ++ [AccountSeen (Some a) at_]) (observeServiceAccount (Some a) at_ t1).
Proof.
  intros Hr. unfold observeServiceAccount. set (key := account_key (sa_Namespace a) (sa_Name a)).
  assert (∀ t2, same_targets t1 t2 → target_account t started (AccountSeen (Some a) at_) = None →
    records k t started p (ops ++ [AccountSeen (Some a) at_]) t2) as Hskip.
  { intros t2 Ht Hn. apply (records_skip k t started p ops _ t1 t2); try done;
      unfold account_event, unexpected_event; by rewrite Hn. }
  pose proof (on_mutation_same (λ m, if negb (referencesManagedSecret a) then m
    else observe_mutation_account a at_ m) t1) as Ht2.
  fold (observeMutationServiceAccountLocked a at_ t1) in Ht2.
  revert Ht2. generalize (observeMutationServiceAccountLocked a at_ t1).
  intros t2 Ht2. pose proof (records_same _ _ _ _ _ _ _ Ht2 Hr) as (Hp & Hb & phase & Hph & Hf & Hc).
  pose proof Hb as (_ & Hta & _). rewrite Hta.
  destruct (decide (key ∈ targetAccounts t)) as [Hin|Hin];
    [rewrite bool_decide_false by tauto|rewrite bool_decide_true by done; apply Hskip; [done|]].
  2:{ cbn. by rewrite (bool_decide_false _ Hin). }
  rewrite Hp, Hph, (pr_started _ _ _ _ _ Hf).
  destruct (Before at_ started) eqn:Hbefore;
    [by apply Hskip; [|cbn; rewrite Hbefore, andb_false_r]|].
  assert (target_account t started (AccountSeen (Some a) at_) = Some (key, (a, at_))) as Htarget.
  { cbn. by rewrite (bool_decide_true _ Hin), Hbefore. }
  rewrite (pr_kind _ _ _ _ _ Hf). destruct k.
  - destruct (referencesManagedSecret a) eqn:Href; cbn [negb].
    2:{ apply (records_skip initialPhase t started p ops _ t1 t2); try done;
          unfold account_event, unexpected_event; rewrite Htarget; simpl; [by rewrite Href|].
        by destruct (baselineAccounts t !! key). }
    assert (account_event initialPhase t started (AccountSeen (Some a) at_)
            = Some (key, (sa_ResourceVersion a, at_))) as He.
    { unfold account_event. rewrite Htarget. simpl. by rewrite Href. }
    assert (unexpected_event initialPhase t started (AccountSeen (Some a) at_) = None) as Hun.
    { unfold unexpected_event. rewrite Htarget. simpl. by destruct (baselineAccounts t !! key). }
    apply (records_phase initialPhase t started p ops (AccountSeen (Some a) at_) t2
             (set_baseline_account t2 key (sa_ResourceVersion a)) phase); try done.
    + unfold observe_phase_account. destruct Hf as [? ? ? Hs Hfp Ha Hux].
      destruct (serviceAccountDurations phase !! key) eqn:Hl; rewrite Ha, lookup_fmap in Hl;
        (split; cbn [kind startedAt secretTotal serviceAccountTotal secretDurations secretFingerprints
                     serviceAccountDurations unexpectedServiceAccounts with_account]; try done);
        rewrite ?Hs, ?Hfp, ?Ha, ?Hux, omap_snoc, ?He, ?Hun; simpl; rewrite ?app_nil_r, ?firsts_snoc; try done;
        destruct (firsts _ !! key); simplify_eq/=; try done; by rewrite fmap_insert.
    + unfold observe_phase_account. by destruct (serviceAccountDurations phase !! key).
    + unfold observe_phase_account. by destruct (serviceAccountDurations phase !! key).
    + unfold observe_phase_account. by destruct (serviceAccountDurations phase !! key).
    + destruct Hb as (? & ? & Hbs & Hba). split; [done|]. split; [done|].
      cbn. rewrite !omap_snoc, He. simpl. rewrite lasts_snoc, fmap_insert, app_nil_r, Hbs, Hba.
      by rewrite insert_union_l.
  - destruct Hb as (? & ? & Hbs & Hba). cbn in Hbs, Hba. rewrite Hba.
    assert (account_event expiryPhase t started (AccountSeen (Some a) at_) = None) as He.
    { unfold account_event. by rewrite Htarget. }
    assert (unexpected_event expiryPhase t started (AccountSeen (Some a) at_)
      = baseline ← baselineAccounts t !! key;
        if negb (bool_decide (sa_ResourceVersion a = baseline)) then Some key else None) as Hun.
    { unfold unexpected_event. by rewrite Htarget. }
    apply (records_phase expiryPhase t started p ops (AccountSeen (Some a) at_) t2 t2 phase); try done.
    + destruct Hf as [? ? ? Hs Hfp Ha Hux].
      destruct (baselineAccounts t !! key) as [b|]; simpl in Hun;
        [case_bool_decide as Hrv; simpl in Hun|];
        (split; cbn [kind startedAt secretTotal serviceAccountTotal secretDurations secretFingerprints
                     serviceAccountDurations unexpectedServiceAccounts with_unexpected]; try done);
        rewrite ?Hs, ?Hfp, ?Ha, ?Hux, omap_snoc, ?He, ?Hun; simpl; rewrite ?app_nil_r; try done.
      rewrite list_to_set_app_L. set_solver.
    + destruct (baselineAccounts t !! key); [by case_bool_decide|done].
    + destruct (baselineAccounts t !! key); [by case_bool_decide|done].
    + destruct (baselineAccounts t !! key); [by case_bool_decide|done].
Qed.

(** ** Properties *)

Lemma phase_records k t started ops :
  targetNamespaces t ≠ ∅ →
  let '(p, t0) := start k started t in
  records k t started p ops (foldl observe t0 ops).
Proof.
  intros Hne. unfold start. set (p := length (phases t)). set (t0 := set_current _ _ _).
  induction ops as [|o ops IH] using rev_ind.
  - split; [done|]. split.
    { split; [done|]. split; [done|]. destruct k; [|done]. cbn.
      by rewrite !fmap_empty, !(left_id_L ∅ (∪)). }
    eexists. split; [by apply list_lookup_middle|]. split; [by split; rewrite ?fmap_empty|].
    unfold completion_recorded. rewrite bool_decide_false; [done|].
    intros [Hd _]. apply Hne. rewrite <-Hd. apply dom_empty_L.
  - rewrite foldl_app. cbn [foldl]. destruct o as [[s|] at_|[a|] at_]; cbn [observe].
    + by apply secret_step.
    + by apply (records_skip _ _ _ p ops _ (foldl observe t0 ops)).
    + by apply account_step.
    + by apply (records_skip _ _ _ p ops _ (foldl observe t0 ops)).
Qed.

(** A phase records exactly what was observed since it started: for each
    target the first Secret or account that counts, with its time since the
    start, the updates the expiry should not have caused, and the new baseline;
    its channel is closed, once, exactly when every target has been seen, and
    its completion time is that of the observation that completed it. *)
Theorem phase_records_observations k t started ops :
  targetNamespaces t ≠ ∅ →
  let '(p, t0) := start k started t in
  records k t started p ops (foldl observe t0 ops).
Proof. apply phase_records. Qed.

Module TrackerExample.
Definition t : convergenceTracker := newConvergenceTracker ["a"; "b"] ["default"].
Definition secret (ns body : string) : Secret :=
  MkSecret ns DefaultManagedSecretName "u" "1" None SecretTypeDockerConfigJson
    {[ DockerConfigJsonKey := to_bytes body ]}
    (<[ManagedByLabelKey := ControllerIdentity]> {[ ApplicationNameLabelKey := ControllerIdentity ]}) ∅.
Definition account (ns : string) (refs : list string) : ServiceAccount :=
  MkServiceAccount ns "default" "u" "7" false refs.
Definition seen : list observation := [
  SecretSeen (Some (secret "a" "x")) 5;
  AccountSeen (Some (account "a" [DefaultManagedSecretName])) 9;
  SecretSeen (Some (secret "a" "y")) 12; SecretSeen (Some (secret "b" "x")) 20;
  SecretSeen None 21; AccountSeen (Some (account "b" [])) 30;
  AccountSeen (Some (account "b" ["own"; DefaultManagedSecretName])) 40;
  SecretSeen (Some (secret "b" "z")) 50].

(** The last target is seen at 40; the baseline keeps what was seen last. *)
Lemma phase_records_observations_witness :
  records initialPhase t 4 0 seen (foldl observe (start initialPhase 4 t).2 seen) ∧
  (λ phase, (done phase, completedAt phase, secretDurations phase !! "a"))
    <$> phases (foldl observe (start initialPhase 4 t).2 seen) !! 0 = Some (1, 40%Z, Some 1%Z).
Proof.
  split.
  - assert (targetNamespaces t ≠ ∅) as Hne by (intros Heq; by apply (f_equal size) in Heq).
    exact (phase_records_observations initialPhase t 4 seen Hne).
  - vm_compute. reflexivity.
Defined.
End TrackerExample.
