(* ===== verification/TrackerMutation.v ===== *)
(** * Theorems about the injected mutation and the tracker's channels

    The mutation's goroutine, the informers' callbacks and the benchmark share
    one tracker; each of its methods holds the mutex, so a run is a sequence of
    [tracker_op]s.  A method that takes a mutation takes a pointer, which may
    not be the current one. *)
From S2P Require Import Prelude GoStrings Rfc3339 Credential RegistrySecret ServiceAccount.
From S2P Require Import Controller GoFloat Tracker TrackerCorrect.
From Stdlib Require Import SpecFloat.

Inductive mark := AccountRequested | AccountCreated | NamespaceRequested | NamespaceCreated | PrerequisitesReady.
#[export] Instance mark_eq_dec : EqDecision mark.
Proof. solve_decision. Defined.

Inductive tracker_op :=
| Observed (o : observation)
| PhaseStarted (k : phaseKind) (at_ : Time)
| MutationStarted (percent : Z) (at_ : Time) (complete total : nat)
    (existing account late : string) (accounts : list string) (expected : string)
| Marked (k : mark) (mutation : nat) (at_ : Time).

Definition run_mark (k : mark) : nat → Time → convergenceTracker → convergenceTracker :=
  match k with
  | AccountRequested => markLateServiceAccountRequestStarted
  | AccountCreated => markLateServiceAccountCreated
  | NamespaceRequested => markLateNamespaceRequestStarted
  | NamespaceCreated => markLateNamespaceCreated
  | PrerequisitesReady => markLateNamespacePrerequisitesReady
  end.
Definition run_op (t : convergenceTracker) (op : tracker_op) : convergenceTracker :=
  match op with
  | Observed o => observe t o
  | PhaseStarted k at_ => (start k at_ t).2
  | MutationStarted pc at_ c n ex ac late accs fp =>
    (startConcurrentMutation pc at_ c n ex ac late accs fp t).2
  | Marked k m at_ => run_mark k m at_ t
  end.

(** ** No channel is closed twice *)
Definition phase_once (p : trackedPhase) : Prop := done p = if doneOnce p then 1 else 0.
Definition mutation_once (m : trackedConcurrentMutation) : Prop :=
  mutation_done m = if mutation_doneOnce m then 1 else 0.
Definition closed_once (t : convergenceTracker) : Prop :=
  Forall phase_once (phases t) ∧ Forall mutation_once (mutations t).

Lemma alter_Forall {A} (P : A → Prop) f i l : (∀ x, P x → P (f x)) → Forall P l → Forall P (alter f i l).
Proof. intros Hf Hl. apply Forall_alter; auto. Qed.

Lemma maybeComplete_once p at_ : phase_once p → phase_once (maybeCompleteLocked p at_).
Proof.
  unfold phase_once, maybeCompleteLocked. destruct (negb _); [done|].
  destruct (doneOnce p) eqn:Ho; [by rewrite Ho|]. simpl. by intros ->.
Qed.
Lemma maybeCompleteMutation_once m : mutation_once m → mutation_once (maybeCompleteMutationLocked m).
Proof.
  unfold mutation_once, maybeCompleteMutationLocked. destruct (mutation_complete m); [|done].
  destruct (mutation_doneOnce m) eqn:Ho; [by rewrite Ho|]. simpl. by intros ->.
Qed.

Lemma on_mutation_once f t :
  (∀ m, mutation_once m → mutation_once (f m)) → closed_once t → closed_once (on_mutation f t).
Proof.
  intros Hf [Hp Hm]. unfold on_mutation. destruct (current_mutation t); [|done].
  split; [done|]. by apply alter_Forall.
Qed.
Lemma set_phases_once t p phase :
  closed_once t → phase_once phase → closed_once (set_phases t (<[p := phase]> (phases t))).
Proof. intros [Hp Hm] Hph. split; [|done]. by apply Forall_insert. Qed.

Lemma observe_once t o : closed_once t → closed_once (observe t o).
Proof.
  intros Ht. destruct o as [[s|] at_|[a|] at_]; cbn [observe]; [|done| |done].
  - unfold observeSecret. destruct (negb _); [done|]. destruct (negb _); [done|].
    set (t2 := observeMutationSecretLocked _ _ _ _).
    assert (closed_once t2) as Ht2.
    { apply on_mutation_once; [|done]. intros m Hm. destruct (negb _); [done|].
      unfold observe_mutation_secret. destruct (negb _); [done|].
      apply maybeCompleteMutation_once. by destruct (time_IsZero _). }
    destruct (bool_decide _); [done|]. destruct (current_phase t2) as [p|]; [|done].
    destruct (phases t2 !! p) as [phase|] eqn:Hph; [|done]. destruct (Before _ _); [done|].
    assert (phase_once (maybeCompleteLocked (observe_phase_secret (sec_Namespace s)
      (secretFingerprint s) at_ phase) at_)) as Hnew.
    { apply maybeComplete_once. pose proof (Forall_lookup_1 _ _ _ _ (proj1 Ht2) Hph).
      unfold observe_phase_secret. by destruct (secretDurations phase !! _). }
    destruct (kind phase); [by apply (set_phases_once (set_baseline_secret t2 _ _))|].
    destruct (baselineSecrets t2 !! _); [|done]. destruct (bool_decide _); [done|].
    by apply set_phases_once.
  - unfold observeServiceAccount. set (t2 := observeMutationServiceAccountLocked _ _ _).
    assert (closed_once t2) as Ht2.
    { apply on_mutation_once; [|done]. intros m Hm. destruct (negb _); [done|].
      by apply maybeCompleteMutation_once. }
    destruct (bool_decide _); [done|]. destruct (current_phase t2) as [p|]; [|done].
    destruct (phases t2 !! p) as [phase|] eqn:Hph; [|done]. destruct (Before _ _); [done|].
    pose proof (Forall_lookup_1 _ _ _ _ (proj1 Ht2) Hph) as Hold.
    destruct (kind phase).
    + destruct (negb _); [done|].
      apply (set_phases_once (set_baseline_account t2 _ _)); [done|]. apply maybeComplete_once.
      unfold observe_phase_account. by destruct (serviceAccountDurations phase !! _).
    + apply set_phases_once; [done|]. apply maybeComplete_once.
      destruct (baselineAccounts t2 !! _); [by destruct (bool_decide _)|done].
Qed.

Lemma run_op_once t op : closed_once t → closed_once (run_op t op).
Proof.
  intros [Hp Hm]. destruct op as [o|k at_|pc at_ c n ex ac late accs fp|k m at_]; cbn [run_op].
  - by apply observe_once.
  - split; [|done]. apply Forall_app. by repeat constructor.
  - split; [done|]. apply Forall_app. by repeat constructor.
  - destruct k; unfold run_mark, markLateServiceAccountRequestStarted, markLateServiceAccountCreated,
      markLateNamespaceRequestStarted, markLateNamespaceCreated, markLateNamespacePrerequisitesReady,
      mark_mutation; destruct (bool_decide _); try done;
      (split; [done|apply alter_Forall; [|done]]); intros x Hx; try apply maybeCompleteMutation_once; done.
Qed.

(** Whatever methods are called, in whatever order and on whichever phase or
    mutation, no channel of the tracker is closed twice, which would panic. *)
Theorem channels_closed_once namespaces names ops :
  let t := foldl run_op (newConvergenceTracker namespaces names) ops in
  (∀ p, p ∈ phases t → done p ≤ 1) ∧ (∀ m, m ∈ mutations t → mutation_done m ≤ 1).
Proof.
  cbv zeta. assert (∀ t, closed_once t → closed_once (foldl run_op t ops)) as Hrun.
  { induction ops as [|op ops IH]; intros t Ht; simpl; [done|]. by apply IH, run_op_once. }
  destruct (Hrun (newConvergenceTracker namespaces names)) as [Hp Hm].
  { unfold newConvergenceTracker. destruct (foldl _ _ _). by split. }
  rewrite Forall_forall in Hp. rewrite Forall_forall in Hm. split.
  - intros p ->%Hp. destruct (doneOnce p); lia.
  - intros m ->%Hm. destruct (mutation_doneOnce m); lia.
Qed.

(** Readings of the clock are not the zero time, and no other mutation starts. *)
Definition op_ok (op : tracker_op) : Prop :=
  match op with
  | Observed o => seen_at o ≠ ZeroTime
  | Marked _ _ at_ => at_ ≠ ZeroTime
  | PhaseStarted _ _ => True
  | MutationStarted _ _ _ _ _ _ _ _ _ => False
  end.

(** ** What a mutation records

    For the mutation under [m], which of the operations count. *)
Section mutation.
Context (m : nat) (m0 : trackedConcurrentMutation).

(** A usable Secret seen in the injected Namespace: fingerprint and time. *)
Definition late_secret (op : tracker_op) : option (string * Time) :=
  match op with
  | Observed (SecretSeen (Some s) at_) =>
    if bool_decide (sec_Name s = DefaultManagedSecretName) && IsUsableForServiceAccount (Some s)
       && bool_decide (sec_Namespace s = lateNamespace m0)
    then Some (secretFingerprint s, at_) else None
  | _ => None
  end.
Definition expected_secret_at (op : tracker_op) : option Time :=
  '(fp, at_) ← late_secret op; if bool_decide (fp = expectedCredentialFingerprint m0) then Some at_ else None.
Definition stale_secret (op : tracker_op) : option string :=
  '(fp, _) ← late_secret op; if bool_decide (fp = expectedCredentialFingerprint m0) then None else Some fp.
(** An account with the managed reference. *)
Definition referencing (op : tracker_op) : option (ServiceAccount * Time) :=
  match op with
  | Observed (AccountSeen (Some a) at_) => if referencesManagedSecret a then Some (a, at_) else None
  | _ => None
  end.
Definition late_account_at (op : tracker_op) : option Time :=
  '(a, at_) ← referencing op;
  if bool_decide (sa_Namespace a = existingNamespace m0)
     && bool_decide (sa_Name a = lateServiceAccountName m0) then Some at_ else None.
Definition namespace_account (op : tracker_op) : option (string * Time) :=
  '(a, at_) ← referencing op;
  if bool_decide (sa_Namespace a = lateNamespace m0)
     && bool_decide (sa_Name a ∈ lateNamespaceAccounts m0) then Some (sa_Name a, at_) else None.
(** A mark of this mutation; those of another are ignored. *)
Definition marked (k : mark) (op : tracker_op) : option Time :=
  match op with
  | Marked k' m' at_ => if bool_decide (k' = k) && bool_decide (m' = m) then Some at_ else None
  | _ => None
  end.

Definition first_time (f : tracker_op → option Time) (ops : list tracker_op) : Time :=
  default ZeroTime (head (omap f ops)).
Definition last_time (f : tracker_op → option Time) (ops : list tracker_op) : Time :=
  default ZeroTime (last (omap f ops)).

Definition same_plan (mu : trackedConcurrentMutation) : Prop :=
  existingNamespace mu = existingNamespace m0 ∧ lateServiceAccountName mu = lateServiceAccountName m0 ∧
  lateNamespace mu = lateNamespace m0 ∧ lateNamespaceAccounts mu = lateNamespaceAccounts m0 ∧
  expectedCredentialFingerprint mu = expectedCredentialFingerprint m0.

Record mutation_records (ops : list tracker_op) (mu : trackedConcurrentMutation) : Prop := {
  mr_plan : same_plan mu;
  mr_accountRequest : lateServiceAccountRequestStarted mu = last_time (marked AccountRequested) ops;
  mr_accountCreated : lateServiceAccountCreatedAt mu = last_time (marked AccountCreated) ops;
  mr_accountReady : lateServiceAccountReadyAt mu = first_time late_account_at ops;
  mr_namespaceRequest : lateNamespaceRequestStarted mu = last_time (marked NamespaceRequested) ops;
  mr_namespaceCreated : lateNamespaceCreatedAt mu = last_time (marked NamespaceCreated) ops;
  mr_prerequisites : lateNamespacePrerequisitesAt mu = last_time (marked PrerequisitesReady) ops;
  mr_secretReady : lateNamespaceSecretReadyAt mu = first_time expected_secret_at ops;
  mr_stale : lateNamespaceStaleFingerprints mu = list_to_set (omap stale_secret ops);
  mr_accounts : lateNamespaceAccountReadyAt mu = firsts (omap namespace_account ops)
}.

(** Its channel is closed once everything the plan waits for has happened. *)
Definition mutation_done_ok (mu : trackedConcurrentMutation) : Prop :=
  mutation_doneOnce mu = mutation_complete mu ∧
  mutation_done mu = if mutation_complete mu then 1 else 0.

(** Everything the plan waits for has happened. *)
Definition plan_fulfilled (ops : list tracker_op) : Prop :=
  (lateServiceAccountName m0 ≠ "" → is_Some (head (omap (marked AccountCreated) ops)) ∧
     is_Some (head (omap late_account_at ops))) ∧
  is_Some (head (omap (marked NamespaceCreated) ops)) ∧
  is_Some (head (omap (marked PrerequisitesReady) ops)) ∧
  is_Some (head (omap expected_secret_at ops)) ∧
  dom (firsts (omap namespace_account ops)) = lateNamespaceAccounts m0.


(** ** Times of first and last events *)
Definition timed (f : tracker_op → option Time) : Prop :=
  ∀ op at_, op_ok op → f op = Some at_ → at_ ≠ ZeroTime.

Lemma omap_op_snoc {A} (f : tracker_op → option A) ops op :
  omap f (ops ++ [op]) = omap f ops ++ option_list (f op).
Proof. rewrite omap_app. simpl. by destruct (f op). Qed.

Lemma last_time_snoc f ops op : last_time f (ops ++ [op]) = default (last_time f ops) (f op).
Proof.
  unfold last_time. rewrite omap_op_snoc. destruct (f op); simpl; [by rewrite last_snoc|].
  by rewrite app_nil_r.
Qed.

Lemma timed_nonzero f ops at_ : timed f → Forall op_ok ops → at_ ∈ omap f ops → at_ ≠ ZeroTime.
Proof.
  intros Hf Hok (op & Hin & Hop)%list_elem_of_omap. rewrite Forall_forall in Hok. by eapply Hf; eauto.
Qed.

Lemma first_time_zero f ops : timed f → Forall op_ok ops →
  time_IsZero (first_time f ops) = false ↔ is_Some (head (omap f ops)).
Proof.
  intros Hf Hok. unfold first_time, time_IsZero. pose proof (timed_nonzero f ops) as Hnz.
  destruct (omap f ops) as [|x l]; simpl; [by split; [|intros []]|].
  split; [by eauto|]. intros _. apply bool_decide_eq_false. apply Hnz; [done..|left].
Qed.
Lemma last_time_zero f ops : timed f → Forall op_ok ops →
  time_IsZero (last_time f ops) = false ↔ is_Some (head (omap f ops)).
Proof.
  intros Hf Hok. unfold last_time, time_IsZero. pose proof (timed_nonzero f ops) as Hnz.
  destruct (omap f ops) as [|x l] eqn:Hl using rev_ind; simpl; [by split; [|intros []]|].
  rewrite last_snoc. simpl. split; [by destruct l; simpl; eauto|]. intros _.
  apply bool_decide_eq_false. apply Hnz; [done..|]. set_solver.
Qed.
Lemma first_time_snoc f ops op : timed f → Forall op_ok ops →
  first_time f (ops ++ [op]) =
  if time_IsZero (first_time f ops) then default ZeroTime (f op) else first_time f ops.
Proof.
  intros Hf Hok. pose proof (first_time_zero f ops Hf Hok) as Hz.
  unfold first_time in *. rewrite omap_op_snoc.
  destruct (omap f ops) as [|x l]; simpl in *; [by destruct (f op)|].
  destruct (time_IsZero x); [|done]. destruct Hz as [_ Hz]. by discriminate Hz; eauto.
Qed.

Lemma timed_expected : timed expected_secret_at.
Proof.
  intros op at_. unfold expected_secret_at, late_secret.
  destruct op as [[[s|] a|[s|] a]| | |]; simpl; try done. intros Hok.
  destruct (_ && _); simpl; [|done]. case_bool_decide; naive_solver.
Qed.
Lemma timed_late_account : timed late_account_at.
Proof.
  intros op at_. unfold late_account_at, referencing.
  destruct op as [[[s|] a|[s|] a]| | |]; simpl; try done. intros Hok.
  destruct (referencesManagedSecret s); simpl; [|done]. destruct (_ && _); naive_solver.
Qed.
Lemma timed_marked k : timed (marked k).
Proof.
  intros op at_. unfold marked. destruct op; try done. destruct (_ && _); naive_solver.
Qed.

(** ** Completion *)
Lemma namespace_account_wanted op x at_ :
  namespace_account op = Some (x, at_) → x ∈ lateNamespaceAccounts m0.
Proof.
  unfold namespace_account, referencing. destruct op as [[[s|] a|[s|] a]| | |]; simpl; try done.
  destruct (referencesManagedSecret s); simpl; [|done].
  destruct (_ && _) eqn:Hc; [|done]. apply andb_true_iff in Hc as [_ Hc%bool_decide_eq_true]. naive_solver.
Qed.
Lemma namespace_accounts_dom ops : dom (firsts (omap namespace_account ops)) ⊆ lateNamespaceAccounts m0.
Proof.
  intros x. rewrite elem_of_dom. intros [a Ha]. unfold firsts in Ha.
  apply elem_of_list_to_map_2, list_elem_of_omap in Ha as (op & _ & Ho).
  by eapply namespace_account_wanted.
Qed.

Lemma complete_plan ops mu : Forall op_ok ops → mutation_records ops mu →
  mutation_complete mu = true ↔ plan_fulfilled ops.
Proof.
  intros Hok [(Hex & Hname & Hlate & Haccs & Hexp) _ Hac Har _ Hnc Hpr Hsr _ Hacc].
  unfold mutation_complete, plan_fulfilled.
  rewrite Hac, Har, Hnc, Hpr, Hsr, Hname, Hacc, Haccs.
  rewrite <-!(first_time_zero _ ops timed_expected Hok).
  rewrite <-(first_time_zero _ ops timed_late_account Hok).
  rewrite <-!(last_time_zero _ ops (timed_marked _) Hok).
  rewrite <-(full_size _ _ (namespace_accounts_dom ops)).
  rewrite !andb_true_iff, !negb_true_iff, !andb_false_iff, !orb_false_iff, !negb_false_iff.
  rewrite Nat.eqb_eq, bool_decide_eq_true.
  destruct (decide (lateServiceAccountName m0 = "")); tauto.
Qed.

Lemma plan_fulfilled_mono ops op : plan_fulfilled ops → plan_fulfilled (ops ++ [op]).
Proof.
  assert (∀ A (f : tracker_op → option A), is_Some (head (omap f ops)) →
    is_Some (head (omap f (ops ++ [op])))) as Hh.
  { intros A f. rewrite omap_op_snoc. destruct (omap f ops); simpl; [by intros []|done]. }
  intros (Ha & Hn & Hp & Hs & Hd). split; [naive_solver|]. do 3 (split; [naive_solver|]).
  apply leibniz_equiv, (anti_symm (⊆)); [apply namespace_accounts_dom|].
  rewrite <-Hd, omap_op_snoc. destruct (namespace_account op) as [[x a]|]; simpl; [|by rewrite app_nil_r].
  rewrite firsts_snoc. destruct (firsts _ !! x); [done|]. rewrite dom_insert. set_solver.
Qed.

Lemma close_records ops mu : mutation_records ops mu → mutation_records ops (maybeCompleteMutationLocked mu).
Proof.
  unfold maybeCompleteMutationLocked. destruct (mutation_complete mu); [|done].
  destruct (mutation_doneOnce mu); [done|]. by intros [].
Qed.

(** A method that ends with the test. *)
Lemma step_tested ops op mu mu' : Forall op_ok (ops ++ [op]) →
  mutation_records ops mu → mutation_done_ok mu → mutation_records (ops ++ [op]) mu' →
  mutation_doneOnce mu' = mutation_doneOnce mu → mutation_done mu' = mutation_done mu →
  mutation_records (ops ++ [op]) (maybeCompleteMutationLocked mu') ∧
  mutation_done_ok (maybeCompleteMutationLocked mu').
Proof.
  intros Hok Hr [Ho Hd] Hr' Ho' Hd'. split; [by apply close_records|].
  assert (mutation_complete mu = true → mutation_complete mu' = true) as Hmono.
  { rewrite (complete_plan ops mu), (complete_plan _ mu' Hok Hr'); [apply plan_fulfilled_mono| |done].
    by apply Forall_app in Hok as [? _]. }
  assert (mutation_doneOnce mu' = mutation_complete mu ∧
          mutation_done mu' = if mutation_complete mu then 1 else 0) as [Ho2 Hd2] by (split; congruence).
  unfold maybeCompleteMutationLocked, mutation_done_ok.
  destruct (mutation_complete mu') eqn:Hc'.
  - rewrite Ho2. destruct (mutation_complete mu) eqn:Hc; [by rewrite Hc'|].
    change (mutation_complete (close_mutation mu')) with (mutation_complete mu').
    rewrite Hc'. simpl. by rewrite Hd2.
  - destruct (mutation_complete mu); [by specialize (Hmono eq_refl)|]. by rewrite Hc'.
Qed.

(** A method that leaves what the test looks at. *)
Lemma step_untested ops op mu mu' :
  mutation_done_ok mu → mutation_records (ops ++ [op]) mu' →
  mutation_doneOnce mu' = mutation_doneOnce mu → mutation_done mu' = mutation_done mu →
  mutation_complete mu' = mutation_complete mu →
  mutation_records (ops ++ [op]) mu' ∧ mutation_done_ok mu'.
Proof. intros [Ho Hd] Hr' Ho' Hd' Hc'. split; [done|]. unfold mutation_done_ok. by rewrite Ho', Hd', Hc'. Qed.

(** ** One operation *)
Definition first_after (x : Time) (o : option Time) : Time := if time_IsZero x then default ZeroTime o else x.
Definition marks_after (op : tracker_op) (k : mutation_marks) (fp : string) : mutation_marks :=
  MkMarks (default (m_accountRequest k) (marked AccountRequested op))
    (default (m_accountCreated k) (marked AccountCreated op))
    (first_after (m_accountReady k) (late_account_at op))
    (default (m_namespaceRequest k) (marked NamespaceRequested op))
    (default (m_namespaceCreated k) (marked NamespaceCreated op))
    (default (m_prerequisites k) (marked PrerequisitesReady op))
    (first_after (m_secretReady k) (expected_secret_at op)) fp
    (list_to_set (option_list (stale_secret op)) ∪ m_stale k)
    (match namespace_account op with
     | Some (x, at_) => match m_accountsReady k !! x with
                        | Some _ => m_accountsReady k | None => <[x := at_]> (m_accountsReady k) end
     | None => m_accountsReady k
     end).

Lemma first_after_None x : first_after x None = x.
Proof.
  unfold first_after. destruct (time_IsZero x) eqn:Hz; [|done].
  by apply bool_decide_eq_true in Hz.
Qed.

Lemma records_after ops op mu mu' :
  Forall op_ok (ops ++ [op]) → mutation_records ops mu → same_plan mu' →
  marks mu' = marks_after op (marks mu) (lateNamespaceSecretFingerprint mu') →
  mutation_records (ops ++ [op]) mu'.
Proof.
  intros [Hok _]%Forall_app [_ Har Hac Hay Hnr Hnc Hpr Hsr Hst Hacc] Hplan.
  intros [= E1 E2 E3 E4 E5 E6 E7 E8 E9]. unfold first_after in E3, E7.
  split; [done|..].
  - by rewrite E1, last_time_snoc, Har.
  - by rewrite E2, last_time_snoc, Hac.
  - by rewrite E3, (first_time_snoc _ ops op timed_late_account Hok), Hay.
  - by rewrite E4, last_time_snoc, Hnr.
  - by rewrite E5, last_time_snoc, Hnc.
  - by rewrite E6, last_time_snoc, Hpr.
  - by rewrite E7, (first_time_snoc _ ops op timed_expected Hok), Hsr.
  - rewrite E8, omap_op_snoc, list_to_set_app_L, Hst. apply (comm_L (∪)).
  - rewrite E9, omap_op_snoc, Hacc. destruct (namespace_account op) as [[x at_]|]; simpl.
    + by rewrite firsts_snoc.
    + by rewrite app_nil_r.
Qed.

(** An operation that does not count leaves the mutation alone. *)
Lemma step_skip ops op mu : Forall op_ok (ops ++ [op]) →
  mutation_records ops mu → mutation_done_ok mu →
  (∀ k, marked k op = None) → late_account_at op = None → late_secret op = None →
  namespace_account op = None →
  mutation_records (ops ++ [op]) mu ∧ mutation_done_ok mu.
Proof.
  intros Hok Hr Hd Hm Ha Hs Hn. apply (step_untested ops op mu mu); try done.
  apply (records_after ops op mu mu Hok Hr); [apply Hr|].
  unfold marks_after. rewrite !Hm, Ha, Hn. unfold expected_secret_at, stale_secret. rewrite Hs. simpl.
  by rewrite !first_after_None, (left_id_L ∅ (∪)).
Qed.

Lemma secret_records ops s at_ mu :
  let op := Observed (SecretSeen (Some s) at_) in
  Forall op_ok (ops ++ [op]) → mutation_records ops mu → mutation_done_ok mu →
  let mu' := if negb (bool_decide (sec_Name s = DefaultManagedSecretName)) then mu
             else if negb (IsUsableForServiceAccount (Some s)) then mu
             else if negb (bool_decide (sec_Namespace s = lateNamespace mu)) then mu
             else observe_mutation_secret (secretFingerprint s) at_ mu in
  mutation_records (ops ++ [op]) mu' ∧ mutation_done_ok mu'.
Proof.
  intros op Hok Hr Hd mu'. pose proof (mr_plan _ _ Hr) as (Hex & Hname & Hlate & Haccs & Hexp).
  assert (late_secret op = if bool_decide (sec_Name s = DefaultManagedSecretName)
    && IsUsableForServiceAccount (Some s) && bool_decide (sec_Namespace s = lateNamespace m0)
    then Some (secretFingerprint s, at_) else None) as Hls by done.
  subst mu'. rewrite Hlate. revert Hls.
  destruct (bool_decide (sec_Name s = _)); cbn [negb andb]; [|by intros; apply step_skip].
  destruct (IsUsableForServiceAccount (Some s)); cbn [negb andb]; [|by intros; apply step_skip].
  destruct (bool_decide (sec_Namespace s = _)); cbn [negb]; [|by intros; apply step_skip].
  intros Hls. unfold observe_mutation_secret. rewrite Hexp.
  case_bool_decide as Hfp; cbn [negb].
  - assert (∀ mu', same_plan mu' → marks mu' = marks_after op (marks mu) (lateNamespaceSecretFingerprint mu') →
      mutation_doneOnce mu' = mutation_doneOnce mu → mutation_done mu' = mutation_done mu →
      mutation_records (ops ++ [op]) (maybeCompleteMutationLocked mu') ∧
      mutation_done_ok (maybeCompleteMutationLocked mu')) as Hstep.
    { intros mu' Hp Hm Ho Hdn. apply (step_tested ops op mu mu' Hok Hr Hd); [|done..].
      by apply (records_after ops op mu). }
    unfold marks_after, expected_secret_at, stale_secret in Hstep. rewrite Hls in Hstep. simpl in Hstep.
    rewrite !(bool_decide_true _ Hfp) in Hstep. simpl in Hstep.
    rewrite !first_after_None, (left_id_L ∅ (∪)) in Hstep. unfold first_after in Hstep.
    destruct (time_IsZero (lateNamespaceSecretReadyAt mu)); by apply Hstep.
  - apply (step_untested ops op mu); try done. apply (records_after ops op mu); try done.
    unfold marks_after, expected_secret_at, stale_secret. rewrite Hls. simpl.
    rewrite !(bool_decide_false _ Hfp). simpl. rewrite !first_after_None. by rewrite (right_id_L ∅ (∪)).
Qed.

Lemma account_records ops a at_ mu :
  let op := Observed (AccountSeen (Some a) at_) in
  Forall op_ok (ops ++ [op]) → mutation_records ops mu → mutation_done_ok mu →
  let mu' := if negb (referencesManagedSecret a) then mu else observe_mutation_account a at_ mu in
  mutation_records (ops ++ [op]) mu' ∧ mutation_done_ok mu'.
Proof.
  intros op Hok Hr Hd mu'. pose proof (mr_plan _ _ Hr) as (Hex & Hname & Hlate & Haccs & Hexp).
  subst mu'. assert (referencing op = if referencesManagedSecret a then Some (a, at_) else None) as Href by done.
  revert Href. destruct (referencesManagedSecret a); cbn [negb]; intros Href.
  2:{ apply step_skip; try done; unfold late_account_at, namespace_account; by rewrite Href. }
  apply (step_tested ops op mu); try done. apply (records_after ops op mu); try done.
  unfold marks_after, late_account_at, namespace_account. rewrite Href. simpl.
  rewrite Hex, Hname, Hlate, Haccs, first_after_None, (left_id_L ∅ (∪)).
  unfold marks at 1. cbn [with_marks lateServiceAccountReadyAt lateNamespaceAccountReadyAt]. f_equal.
  - unfold first_after. cbn. destruct (bool_decide (sa_Namespace a = _) && _), (time_IsZero _) eqn:Hz;
      simpl; try done. by apply bool_decide_eq_true in Hz.
  - destruct (bool_decide (sa_Namespace a = lateNamespace m0) && _); simpl; [|done].
    by destruct (lateNamespaceAccountReadyAt mu !! _).
Qed.

Lemma mark_records ops k at_ mu :
  let op := Marked k m at_ in
  Forall op_ok (ops ++ [op]) → mutation_records ops mu → mutation_done_ok mu →
  ∀ t, current_mutation t = Some m → mutations t !! m = Some mu →
  ∃ mu', mutations (run_mark k m at_ t) !! m = Some mu' ∧
    mutation_records (ops ++ [op]) mu' ∧ mutation_done_ok mu'.
Proof.
  intros op Hok Hr Hd t Hc Hl. pose proof (mr_plan _ _ Hr) as Hplan.
  assert (∀ j, marked j op = if bool_decide (k = j) then Some at_ else None) as Hm.
  { intros j. unfold op, marked. rewrite (bool_decide_true (m = m)) by done. by rewrite andb_true_r. }
  assert (∀ f, mutations (mark_mutation m f t) !! m = Some (f mu)) as Hmark.
  { intros f. unfold mark_mutation. rewrite bool_decide_true by done. simpl.
    by rewrite list_lookup_alter_eq, Hl. }
  destruct k; unfold run_mark, markLateServiceAccountRequestStarted, markLateServiceAccountCreated,
    markLateNamespaceRequestStarted, markLateNamespaceCreated, markLateNamespacePrerequisitesReady;
    eexists; (split; [apply Hmark|]); cbv zeta.
  1,3: apply (step_untested ops op mu); try done.
  3-5: apply (step_tested ops op mu); try done.
  all: apply (records_after ops op mu); try done.
  all: unfold marks_after; rewrite !Hm; simpl; by rewrite !first_after_None, (left_id_L ∅ (∪)).
Qed.
End mutation.

(** ** The current mutation along a run *)
Lemma observeSecret_mutation s at_ t m mu :
  current_mutation t = Some m → mutations t !! m = Some mu →
  current_mutation (observeSecret (Some s) at_ t) = Some m ∧
  mutations (observeSecret (Some s) at_ t) !! m = Some
    (if negb (bool_decide (sec_Name s = DefaultManagedSecretName)) then mu
     else if negb (IsUsableForServiceAccount (Some s)) then mu
     else if negb (bool_decide (sec_Namespace s = lateNamespace mu)) then mu
     else observe_mutation_secret (secretFingerprint s) at_ mu).
Proof.
  intros Hc Hl. unfold observeSecret.
  destruct (negb (bool_decide _)); [done|]. destruct (negb (IsUsableForServiceAccount _)); [done|].
  set (t2 := observeMutationSecretLocked _ _ _ _).
  assert (current_mutation t2 = Some m ∧ mutations t2 !! m = Some
    (if negb (bool_decide (sec_Namespace s = lateNamespace mu)) then mu
     else observe_mutation_secret (secretFingerprint s) at_ mu)) as Ht2.
  { unfold t2, observeMutationSecretLocked, on_mutation. rewrite Hc. split; [done|].
    simpl. by rewrite list_lookup_alter_eq, Hl. }
  destruct (bool_decide (_ ∉ targetNamespaces t2)); [done|]. destruct (current_phase t2); [|done].
  destruct (phases t2 !! _) as [phase|]; [|done]. destruct (Before _ _); [done|].
  destruct (kind phase); [done|]. destruct (baselineSecrets t2 !! _) as [b|]; [|done].
  by destruct (bool_decide (_ = b)).
Qed.

Lemma observeServiceAccount_mutation a at_ t m mu :
  current_mutation t = Some m → mutations t !! m = Some mu →
  current_mutation (observeServiceAccount (Some a) at_ t) = Some m ∧
  mutations (observeServiceAccount (Some a) at_ t) !! m = Some
    (if negb (referencesManagedSecret a) then mu else observe_mutation_account a at_ mu).
Proof.
  intros Hc Hl. unfold observeServiceAccount. set (t2 := observeMutationServiceAccountLocked _ _ _).
  assert (current_mutation t2 = Some m ∧ mutations t2 !! m = Some
    (if negb (referencesManagedSecret a) then mu else observe_mutation_account a at_ mu)) as Ht2.
  { unfold t2, observeMutationServiceAccountLocked, on_mutation. rewrite Hc. split; [done|].
    simpl. by rewrite list_lookup_alter_eq, Hl. }
  destruct (bool_decide (_ ∉ targetAccounts t2)); [done|]. destruct (current_phase t2); [|done].
  destruct (phases t2 !! _) as [phase|]; [|done]. destruct (Before _ _); [done|].
  destruct (kind phase); [|done]. destruct (referencesManagedSecret a); simpl; [|done]. done.
Qed.

Lemma run_mark_other k m' at_ t m : m' ≠ m → current_mutation t = Some m → run_mark k m' at_ t = t.
Proof.
  intros Hne Hc. destruct k; unfold run_mark, markLateServiceAccountRequestStarted,
    markLateServiceAccountCreated, markLateNamespaceRequestStarted, markLateNamespaceCreated,
    markLateNamespacePrerequisitesReady, mark_mutation; by rewrite bool_decide_false by congruence.
Qed.
Lemma run_mark_current k m' at_ t : current_mutation (run_mark k m' at_ t) = current_mutation t.
Proof.
  destruct k; unfold run_mark, markLateServiceAccountRequestStarted, markLateServiceAccountCreated,
    markLateNamespaceRequestStarted, markLateNamespaceCreated, markLateNamespacePrerequisitesReady,
    mark_mutation; by destruct (bool_decide _).
Qed.

Lemma run_op_records m m0 ops op t mu :
  Forall op_ok (ops ++ [op]) → current_mutation t = Some m → mutations t !! m = Some mu →
  mutation_records m m0 ops mu → mutation_done_ok mu →
  current_mutation (run_op t op) = Some m ∧
  ∃ mu', mutations (run_op t op) !! m = Some mu' ∧
    mutation_records m m0 (ops ++ [op]) mu' ∧ mutation_done_ok mu'.
Proof.
  intros Hok Hc Hl Hr Hd.
  destruct op as [[[s|] at_|[a|] at_]|k at_|pc at_ c n ex ac late accs fp|k m' at_]; cbn [run_op observe].
  - destruct (observeSecret_mutation s at_ t m mu Hc Hl) as [? Hm].
    split; [done|]. eexists. split; [exact Hm|]. by apply secret_records.
  - split; [done|]. exists mu. split; [done|]. by apply step_skip.
  - destruct (observeServiceAccount_mutation a at_ t m mu Hc Hl) as [? Hm].
    split; [done|]. eexists. split; [exact Hm|]. by apply account_records.
  - split; [done|]. exists mu. split; [done|]. by apply step_skip.
  - split; [done|]. exists mu. split; [done|]. by apply step_skip.
  - apply Forall_app in Hok as [_ Hok]. by inversion Hok.
  - split; [by rewrite run_mark_current|]. destruct (decide (m' = m)) as [->|Hne].
    + by apply (mark_records m m0 ops k at_ mu).
    + rewrite (run_mark_other _ _ _ _ m) by done. exists mu. split; [done|].
      apply step_skip; try done. intros k'. unfold marked. by rewrite (bool_decide_false _ Hne), andb_false_r.
Qed.

(** An injected mutation records, of whatever happens after it started, the
    last marks made through its own pointer, the first usable Secret of the
    expected fingerprint and every other fingerprint seen in its Namespace, and
    the first time each of its accounts had the reference; its channel is
    closed exactly when everything it waits for has happened. *)
Theorem mutation_tracks percent at_ complete total existing account late accounts expected t ops :
  Forall op_ok ops →
  let '(m, t0) := startConcurrentMutation percent at_ complete total existing account late
                    accounts expected t in
  ∀ m0, mutations t0 !! m = Some m0 →
  ∃ mu, mutations (foldl run_op t0 ops) !! m = Some mu ∧ mutation_records m m0 ops mu ∧
    (mutation_done mu = 1 ↔ plan_fulfilled m m0 ops) ∧ (mutation_done mu = 0 ↔ ¬ plan_fulfilled m m0 ops).
Proof.
  intros Hok. unfold startConcurrentMutation. cbv zeta. set (m := length (mutations t)).
  set (t0 := MkTracker _ _ _ _ _ _ _ _). intros m0 Hm0.
  assert (current_mutation (foldl run_op t0 ops) = Some m ∧
    ∃ mu, mutations (foldl run_op t0 ops) !! m = Some mu ∧ mutation_records m m0 ops mu ∧
      mutation_done_ok mu) as (_ & mu & Hl & Hr & Hd).
  { induction ops as [|op ops IH] using rev_ind.
    - split; [done|]. exists m0. split; [done|]. simpl in Hm0. rewrite list_lookup_middle in Hm0 by done.
      simplify_eq. split; [done|]. unfold mutation_done_ok.
      assert (time_IsZero ZeroTime = true) as Hz by by apply bool_decide_eq_true.
      unfold mutation_complete. cbn -[time_IsZero ZeroTime]. by rewrite Hz, andb_false_r.
    - rewrite foldl_app. pose proof Hok as [Hok' _]%Forall_app.
      destruct (IH Hok') as (Hc & mu & Hl & Hr & Hd). by apply (run_op_records m m0 ops op _ mu). }
  exists mu. split; [done|]. split; [done|]. destruct Hd as [_ ->].
  rewrite <-(complete_plan m m0 ops mu Hok Hr). destruct (mutation_complete mu); naive_solver.
Qed.

Module MutationExample.
Import TrackerExample.
Definition expected : string := secretFingerprint (secret "late" "new").
Definition ops : list tracker_op := [
  Marked NamespaceRequested 0 101; Observed (SecretSeen (Some (secret "late" "old")) 102);
  Marked NamespaceCreated 0 103; Marked AccountCreated 0 104;
  Observed (SecretSeen (Some (secret "late" "new")) 105);
  Observed (AccountSeen (Some (account "late" [DefaultManagedSecretName])) 106);
  Observed (AccountSeen (Some (MkServiceAccount "a" "late-workload" "u" "1" false [DefaultManagedSecretName])) 107);
  PhaseStarted expiryPhase 107; Marked PrerequisitesReady 9 108; Marked PrerequisitesReady 0 109].

(** Complete after the last mark, with one stale fingerprint seen. *)
Lemma mutation_tracks_witness :
  Forall op_ok ops ∧
  ∃ m0 mu, mutations (foldl run_op (startConcurrentMutation 25 100 1 2 "a" "late-workload" "late"
             ["default"] expected t).2 ops) !! 0 = Some mu ∧
    mutation_records 0 m0 ops mu ∧ mutation_done mu = 1 ∧ size (lateNamespaceStaleFingerprints mu) = 1.
Proof.
  assert (Forall op_ok ops) as Hok by (repeat constructor; done).
  split; [exact Hok|]. eexists.
  destruct (mutation_tracks 25 100 1 2 "a" "late-workload" "late" ["default"] expected t ops Hok
              _ eq_refl) as (mu & Hl & Hr & _).
  exists mu. split; [exact Hl|]. split; [exact Hr|].
  assert ((λ mu, (mutation_done mu, size (lateNamespaceStaleFingerprints mu))) <$> Some mu = Some (1, 1)) as Heq.
  { rewrite <-Hl. vm_compute. reflexivity. }
  clear Hl. injection Heq as H1 H2. split; [exact H1|exact H2].
Defined.
End MutationExample.
