(* ===== verification/TrackerStats.v ===== *)
(** * Theorems about the completion statistics

    Percentiles interpolate at a float64 position.  What they promise is stated on the
    values of the floats, whole numbers of 2^-1074 ([GoFloat.fval]): a percentile lies
    between the two values next to its position, where the line between them is, to
    within the roundings of the position and of the result.  The proofs bound every
    rounding of the position, of the gap, of the step and of the sum. *)
From S2P Require Import Prelude GoStrings ConfigTypes Credential GoFloat Tracker.
From Stdlib Require Import SpecFloat.

#[local] Open Scope Z_scope.
#[local] Abbreviation one := (2 ^ 1074).
#[local] Abbreviation quantiles := [50; 90; 95; 99].

(** ** What the statistics promise *)

(** Seconds as the tracker has them. *)
Definition measured (x : float64) : Prop :=
  regular x ∧ (fval x = 0 ∨ 2 ^ 1000 ≤ fval x) ∧ fval x ≤ 2 ^ 1128.

(** [p] is the value at [n] percent of the sorted list [l]: between the two values next to
    the position [n * (length l - 1) / 100], and where the straight line between them is, to
    within the roundings of the position and of the value. *)
Definition interpolates (l : list float64) (n : Z) (p : float64) : Prop :=
  let k := Z.of_nat (length l) - 1 in
  ∃ (i : nat) a b, l !! i = Some a ∧ l !! Nat.min (S i) (length l - 1) = Some b ∧
    100 * Z.of_nat i ≤ n * k ≤ 100 * (Z.of_nat i + 1) ∧ float_le a p ∧ float_le p b ∧
    2 ^ 52 * Z.abs (100 * (fval p - fval a) - (fval b - fval a) * (n * k - 100 * Z.of_nat i))
      ≤ 100 * (4 * fval b + k * (fval b - fval a)).

(** The statistics of some durations, whatever their order. *)
Record statistics_of (durations : list float64) (stats : completionStats) : Prop := MkStatisticsOf {
  st_count : Count stats = length durations;
  st_nothing : durations = [] → stats =
    MkStats 0 zero_float zero_float zero_float zero_float zero_float zero_float;
  st_values : durations ≠ [] → ∃ l, l ≡ₚ durations ∧ Sorted float_le l ∧
    last l = Some (MaximumSeconds stats) ∧
    interpolates l 50 (P50Seconds stats) ∧ interpolates l 90 (P90Seconds stats) ∧
    interpolates l 95 (P95Seconds stats) ∧ interpolates l 99 (P99Seconds stats);
  st_ordered : Sorted float_le
    [P50Seconds stats; P90Seconds stats; P95Seconds stats; P99Seconds stats; MaximumSeconds stats];
  st_rate : ObjectsPerSecond stats =
    if 0 <? fval (MaximumSeconds stats)
    then fdiv (float_of_int (Z.of_nat (Count stats))) (MaximumSeconds stats) else zero_float
}.

(** ** Positions *)
Lemma hundredths_value n : n ∈ quantiles → ∃ mq, regular (hundredths n) ∧
  fval (hundredths n) = mq * 2 ^ 1021 ∧ 2 ^ 52 ≤ mq ∧ 1000 * mq ≤ 991 * 2 ^ 53 ∧
  Z.abs (100 * mq - n * 2 ^ 53) ≤ 50.
Proof.
  intros Hn. assert (∃ mq, hundredths n = S754_finite false mq (-53) ∧ 2 ^ 52 ≤ Zpos mq ∧
    1000 * Zpos mq ≤ 991 * 2 ^ 53 ∧ Z.abs (100 * Zpos mq - n * 2 ^ 53) ≤ 50) as (mq & -> & H).
  { repeat (apply elem_of_cons in Hn as [->|Hn]); [..|by apply not_elem_of_nil in Hn].
    all: eexists; split; [vm_compute; reflexivity|lia]. }
  exists (Zpos mq). split; [by apply regular_finite; lia|done].
Qed.

Definition position (n k : Z) : float64 := fmul (hundredths n) (float_of_int k).

Lemma position_rnd n k : n ∈ quantiles → 0 < k < 2 ^ 53 →
  regular (position n k) ∧ fval (position n k) = rnd (fval (hundredths n) * (k * one)) 1074.
Proof.
  intros Hn Hk. destruct (hundredths_value n Hn) as (mq & Hq & Eq & Hlo & Hhi & _).
  destruct (float_of_int_value k ltac:(lia)) as [HK EK]. rewrite <-EK.
  apply fmul_value; [done|done|]. rewrite EK, Eq.
  replace (mq * 2 ^ 1021 * (k * one)) with (mq * k * 2 ^ 2095).
  2:{ replace 2095 with (1021 + 1074) by done. rewrite Z.pow_add_r by done. ring. }
  rewrite Z.log2_mul_pow2 by lia. enough (Z.log2 (mq * k) < 106) by lia. apply Z.log2_lt_pow2; nia.
Qed.

Lemma rnd_one : rnd (1 * one * one) 1074 = one.
Proof. rewrite (rnd_exact 1 1074 1074) by lia. apply Z.mul_1_l. Qed.

Lemma position_value n k : n ∈ quantiles → 0 < k < 2 ^ 53 →
  let X := fval (position n k) in
  0 ≤ X < k * one ∧ 2 ^ 52 * Z.abs (100 * X - n * k * one) ≤ 100 * k * one ∧
  2 ^ 52 * (X mod one) ≤ (2 ^ 52 - 1) * one.
Proof.
  intros Hn Hk. cbv zeta. destruct (position_rnd n k Hn Hk) as [Hreg EX].
  destruct (hundredths_value n Hn) as (mq & _ & Eq & Hlo & Hhi & Hq). rewrite Eq in EX.
  pose proof (fractional_part _ Hreg) as [_ Hfrac]. pose proof (fval_nonneg _ Hreg) as HX0.
  assert (one = 2 ^ 53 * 2 ^ 1021) as EU by by rewrite <-Z.pow_add_r.
  assert (0 < 2 ^ 1021) as Hw by by apply Z.pow_pos_nonneg.
  assert (1 * one * one ≤ mq * 2 ^ 1021 * (k * one) → one ≤ fval (position n k)) as Hone.
  { intros Hle. rewrite EX. eapply Z.le_trans; [apply Z.eq_le_incl; symmetry; apply rnd_one|].
    apply rnd_mono; [lia|]. split; [|exact Hle]. pose proof pow2_1074_pos as Hu. clear -Hu. nia. }
  pose proof (rnd_error (mq * 2 ^ 1021 * (k * one)) 1074 ltac:(done)) as Herr. rewrite <-EX in Herr.
  set (X := fval (position n k)) in *. clearbody X. clear EX Eq Hreg.
  revert Hfrac Hone Herr. rewrite EU. clear EU. generalize dependent (2 ^ 1021). intros w Hw Hfrac Hone Herr.
  set (W := mq * k * w). assert (0 < W) as HW by (unfold W; apply Z.mul_pos_pos; nia).
  replace (mq * w * (k * (2 ^ 53 * w))) with (W * (2 ^ 53 * w)) in * by (unfold W; ring).
  assert (2 ^ 53 * Z.abs (X - W) ≤ W) as HX.
  { specialize (Herr ltac:(nia)). rewrite <-Z.mul_sub_distr_r, Z.abs_mul, (Z.abs_eq (2 ^ 53 * w)) in Herr by lia.
    assert (0 < 2 ^ 53 * w) as Hv by lia. revert Herr. generalize (2 ^ 53 * w) as v, Hv. intros v Hv' Herr.
    destruct Herr as [Herr|Herr]; [|apply (Z.mul_le_mono_pos_r _ _ v); lia].
    assert (2 * Z.abs (X - W) ≤ 1) by (apply (Z.mul_le_mono_pos_r _ _ v); lia). lia. }
  assert (0 < k * w) as Hkw by (apply Z.mul_pos_pos; lia).
  assert (1000 * W ≤ 991 * (2 ^ 53 * (k * w))) as HWk.
  { replace (1000 * W) with (1000 * mq * (k * w)) by (unfold W; ring).
    replace (991 * (2 ^ 53 * (k * w))) with (991 * 2 ^ 53 * (k * w)) by ring.
    apply Z.mul_le_mono_nonneg_r; lia. }
  assert (100 * W - n * k * (2 ^ 53 * w) = (100 * mq - n * 2 ^ 53) * (k * w)) as HWn by (unfold W; ring).
  split; [lia|]. split.
  - assert (Z.abs (100 * W - n * k * (2 ^ 53 * w)) ≤ 50 * (k * w)) as HWa.
    { rewrite HWn, Z.abs_mul, (Z.abs_eq (k * w)) by lia. apply Z.mul_le_mono_nonneg_r; lia. }
    clear HWn. replace (100 * k * (2 ^ 53 * w)) with (100 * 2 ^ 53 * (k * w)) by ring. lia.
  - destruct (decide (k = 1)) as [->|].
    + rewrite Z.mod_small; lia.
    + apply Hfrac, Hone. apply Z.mul_le_mono_nonneg_r; [lia|]. unfold W.
      rewrite Z.mul_1_l. apply Z.mul_le_mono_nonneg_r; [lia|].
      apply Z.le_trans with (2 ^ 52 * 2); [lia|]. apply Z.mul_le_mono_nonneg; lia.
Qed.

Lemma position_mono n n' k : n ∈ quantiles → n' ∈ quantiles → n ≤ n' → 0 < k < 2 ^ 53 →
  fval (position n k) ≤ fval (position n' k).
Proof.
  intros Hn Hn' Hle Hk. destruct (position_rnd n k Hn Hk) as [_ ->], (position_rnd n' k Hn' Hk) as [_ ->].
  destruct (hundredths_value n Hn) as (mq & _ & -> & ? & _ & Hq), (hundredths_value n' Hn') as (mq' & _ & -> & _ & _ & Hq').
  pose proof pow2_1074_pos. assert (0 < 2 ^ 1021) by by apply Z.pow_pos_nonneg.
  assert (mq ≤ mq') by (destruct (decide (n = n')) as [->|]; lia).
  apply rnd_mono; [done|]. split; [apply Z.mul_nonneg_nonneg; nia|]. apply Z.mul_le_mono_nonneg_r; nia.
Qed.

(** ** Percentiles *)
#[local] Instance float_le_reflexive : Reflexive float_le.
Proof. intros x. by destruct (total float_le x x). Qed.

Lemma Sorted_float_lookup l i j x y : Sorted float_le l → (i ≤ j)%nat → l !! i = Some x → l !! j = Some y →
  float_le x y.
Proof. intros Hs. apply StronglySorted_lookup; [apply _|]. by apply Sorted_StronglySorted; [apply float_le_trans|]. Qed.

Lemma interpolation_float a b f : measured a → measured b → float_le a b → regular f →
  2 ^ 52 * fval f ≤ (2 ^ 52 - 1) * one →
  let p := fadd a (fmul (fsub b a) f) in
  regular p ∧ fval p = interpolation (fval a) (fval b) (fval f).
Proof.
  intros (Ha & _ & Ha') (Hb & _ & Hb') Hab Hf Hf1. cbv zeta. apply fval_le in Hab; [|done..].
  pose proof (fval_nonneg _ Ha). pose proof (fval_nonneg _ Hf) as HF0.
  pose proof (step_le (fval a) (fval b) (fval f) ltac:(lia) HF0 Hf1) as Hstep.
  pose proof pow2_1074_pos as Hu.
  assert (∀ v, 0 ≤ v → v ≤ 2 ^ 1128 → Z.log2 v ≤ 1128) as Hlog.
  { intros v Hv0 Hv. rewrite <-(Z.log2_pow2 1128) by done. by apply Z.log2_le_mono. }
  destruct (fsub_value b a Hb Ha Hab) as [HD ED]; [specialize (Hlog (fval b - fval a)); lia|].
  pose proof (rnd_error_sum (fval b - fval a) ltac:(lia)) as Herr. rewrite <-ED in Herr.
  pose proof (fval_nonneg _ HD) as HD0.
  destruct (fmul_value (fsub b a) f HD Hf) as [HP EP].
  { assert (fval (fsub b a) ≤ 2 * fval b) as Hd2 by lia.
    assert (Z.log2 (fval (fsub b a)) ≤ 1129) as H1.
    { apply Z.le_trans with (Z.log2 (2 ^ 1 * 2 ^ 1128)); [apply Z.log2_le_mono; lia|].
      by rewrite <-Z.pow_add_r, Z.log2_pow2. }
    assert (Z.log2 (fval f) ≤ 1074) as H2.
    { apply Z.le_trans with (Z.log2 one); [apply Z.log2_le_mono|by rewrite Z.log2_pow2].
      generalize dependent one. lia. }
    pose proof (Z.log2_mul_above (fval (fsub b a)) (fval f) ltac:(lia) HF0). lia. }
  rewrite ED in EP. rewrite <-EP in Hstep.
  destruct (fadd_value a (fmul (fsub b a) f) Ha HP) as [HS ES].
  { specialize (Hlog (fval a + fval (fmul (fsub b a) f))). lia. }
  split; [done|]. by rewrite ES, EP.
Qed.

(** What [percentile] computes at two values or more. *)
Lemma percentile_value l n : n ∈ quantiles → Forall measured l → Sorted float_le l →
  2 ≤ Z.of_nat (length l) < 2 ^ 53 →
  let X := fval (position n (Z.of_nat (length l) - 1)) in
  let i := Z.to_nat (X / one) in
  ∃ a b p, l !! i = Some a ∧ l !! S i = Some b ∧ float_le a b ∧
    percentile l (hundredths n) = Some p ∧ regular p ∧
    fval p = interpolation (fval a) (fval b) (X mod one).
Proof.
  intros Hn Hm Hs Hlen. set (k := Z.of_nat (length l) - 1). cbv zeta.
  pose proof (position_rnd n k Hn ltac:(lia)) as [Hreg _].
  pose proof (position_value n k Hn ltac:(lia)) as (HX & _ & Hfrac).
  pose proof (fractional_part _ Hreg) as [Hexact _]. pose proof (int_of_float_value _ Hreg) as Hint.
  set (X := fval (position n k)) in *. set (i := Z.to_nat (X / one)). pose proof pow2_1074_pos as Hu.
  assert (0 ≤ X / one < k) as Hi by (split; [apply Z.div_pos; lia|apply Z.div_lt_upper_bound; lia]).
  assert (Z.of_nat i = X / one) as Ei by (unfold i; lia).
  destruct (lookup_lt_is_Some_2 l i) as [a Ha]; [lia|]. destruct (lookup_lt_is_Some_2 l (S i)) as [b Hb]; [lia|].
  assert (float_le a b) as Hab.
  { by apply (Sorted_float_lookup l i (S i)); [|lia|..]. }
  destruct (float_of_int_value (Z.of_nat i)) as [HI EI]; [lia|].
  assert (X - fval (float_of_int (Z.of_nat i)) = X mod one) as EF.
  { rewrite EI, Ei, (Z.div_mod X one) at 1 by lia. ring. }
  pose proof (Z.mod_pos_bound X one Hu) as HFb.
  destruct (fsub_value (position n k) (float_of_int (Z.of_nat i)) Hreg HI) as [Hf Ef]; fold X.
  { lia. }
  { rewrite EF. apply Z.le_trans with (Z.log2 one); [apply Z.log2_le_mono; lia|by rewrite Z.log2_pow2]. }
  fold X in Ef. rewrite EF, Hexact in Ef.
  assert (measured a ∧ measured b) as [Hma Hmb].
  { rewrite Forall_lookup in Hm. eauto. }
  destruct (interpolation_float a b (fsub (position n k) (float_of_int (Z.of_nat i))) Hma Hmb Hab Hf) as [Hp Ep];
    [by rewrite Ef|]. rewrite Ef in Ep.
  exists a, b, (fadd a (fmul (fsub b a) (fsub (position n k) (float_of_int (Z.of_nat i))))).
  split_and!; try done.
  destruct l as [|x [|y l]]; [simpl in Hlen; lia..|]. unfold percentile. cbv zeta.
  change (fmul (hundredths n) (float_of_int (Z.of_nat (length (x :: y :: l)) - 1))) with (position n k).
  rewrite Hint. fold i. rewrite Nat.add_1_r, (proj2 (Nat.leb_gt _ _)) by lia. by rewrite Ha, Hb.
Qed.

(** The index is the position rounded down, below 2^40 values. *)
Lemma position_index n k : n ∈ quantiles → 0 < k < 2 ^ 40 →
  let i := fval (position n k) / one in 100 * i ≤ n * k ≤ 100 * (i + 1).
Proof.
  intros Hn Hk. cbv zeta. destruct (position_value n k Hn) as (HX & Herr & _); [lia|].
  pose proof pow2_1074_pos as Hu. set (X := fval (position n k)) in *.
  pose proof (Z.div_mod X one ltac:(lia)) as Hdm. pose proof (Z.mod_pos_bound X one Hu) as Hm.
  set (i := X / one) in *. set (r := X mod one) in *. clearbody X i r. revert Herr Hu Hdm Hm. clear HX.
  generalize one. intros U Herr Hu Hdm Hm.
  assert (2 ^ 52 * Z.abs (100 * X - n * k * U) < 2 ^ 52 * U) as Hlt.
  { eapply Z.le_lt_trans; [exact Herr|]. apply Z.mul_lt_mono_pos_r; lia. }
  assert ((100 * i) * U < (n * k + 1) * U) as H1 by lia.
  assert ((n * k) * U < (100 * (i + 1) + 1) * U) as H2 by lia.
  apply Z.mul_lt_mono_pos_r in H1, H2; lia.
Qed.

(** The error of the position and that of the value add up. *)
Lemma interpolation_error U n k i X F A B P : 0 < U → 0 ≤ A ≤ B → X = U * i + F →
  2 ^ 52 * Z.abs (100 * X - n * k * U) ≤ 100 * k * U →
  2 ^ 51 * Z.abs (U * (P - A) - (B - A) * F) ≤ U * (2 * B) →
  2 ^ 52 * Z.abs (100 * (P - A) - (B - A) * (n * k - 100 * i)) ≤ 100 * (4 * B + k * (B - A)).
Proof.
  intros Hu HAB HX Hpos Hacc. apply (Z.mul_le_mono_pos_r _ _ U Hu).
  assert (2 ^ 52 * Z.abs ((B - A) * (100 * X - n * k * U)) ≤ (B - A) * (100 * k * U)) as Hpos'.
  { rewrite Z.abs_mul, (Z.abs_eq (B - A)) by lia.
    replace (2 ^ 52 * ((B - A) * Z.abs (100 * X - n * k * U)))
      with ((B - A) * (2 ^ 52 * Z.abs (100 * X - n * k * U))) by ring.
    apply Z.mul_le_mono_nonneg_l; lia. }
  rewrite <-Z.mul_assoc, <-(Z.abs_eq U) at 1 by lia. rewrite <-Z.abs_mul.
  replace ((100 * (P - A) - (B - A) * (n * k - 100 * i)) * U)
    with (100 * (U * (P - A) - (B - A) * F) + (B - A) * (100 * X - n * k * U)) by (rewrite HX; ring).
  replace (100 * (4 * B + k * (B - A)) * U) with (200 * (U * (2 * B)) + (B - A) * (100 * k * U)) by ring.
  lia.
Qed.

Lemma percentile_interpolates l n : n ∈ quantiles → Forall measured l → Sorted float_le l →
  1 ≤ Z.of_nat (length l) ≤ 2 ^ 40 →
  ∃ p, percentile l (hundredths n) = Some p ∧ regular p ∧ interpolates l n p.
Proof.
  intros Hn Hm Hs Hlen. destruct (decide (length l = 1%nat)) as [H1|H1].
  { destruct l as [|x [|]]; simplify_eq/=. apply Forall_singleton in Hm as (Hx & _).
    exists x. split; [done|]. split; [done|]. exists 0%nat, x, x. pose proof (fval_nonneg x Hx).
    split_and!; simpl; try done; try apply float_le_reflexive; lia. }
  destruct (percentile_value l n Hn Hm Hs) as (a & b & p & Ha & Hb & Hab & Hp & Hreg & Ep); [lia|].
  set (k := Z.of_nat (length l) - 1) in *. exists p. split; [done|]. split; [done|].
  assert (measured a ∧ measured b) as [(Hra & _ & _) (Hrb & Hb0 & _)] by (rewrite Forall_lookup in Hm; eauto).
  pose proof (position_value n k Hn ltac:(lia)) as (HX & Herr & Hfrac).
  pose proof (position_index n k Hn ltac:(lia)) as Hidx. pose proof pow2_1074_pos as Hu.
  set (X := fval (position n k)) in *. pose proof (Z.div_pos X one ltac:(lia) Hu) as Hi0.
  pose proof (Z.div_mod X one ltac:(lia)) as Hdm. pose proof (Z.mod_pos_bound X one Hu) as Hmod.
  set (F := X mod one) in *. set (i := X / one) in *.
  apply fval_le in Hab as HAB; [|done..]. pose proof (fval_nonneg a Hra) as HA0.
  exists (Z.to_nat i), a, b. fold k. rewrite Z2Nat.id by done.
  assert (S (Z.to_nat i) < length l)%nat by by eapply lookup_lt_Some.
  rewrite Nat.min_l by lia.
  pose proof (interpolation_between (fval a) (fval b) F ltac:(lia) ltac:(lia) Hfrac
    (rnd_fval_0 a Hra) (rnd_fval_0 b Hrb)) as Hbetween.
  pose proof (interpolation_accurate (fval a) (fval b) F ltac:(lia) ltac:(lia) Hfrac) as Hacc.
  rewrite <-Ep in Hbetween, Hacc. rewrite !fval_le by done. split_and!; try done; try lia.
  assert (fval b = 0 ∨ 2 ^ 50 ≤ fval b) as [Eb|Hb50].
  { destruct Hb0 as [|Hb0]; [by left|right]. eapply Z.le_trans; [|exact Hb0]. apply Z.pow_le_mono_r; lia. }
  { assert (fval a = 0 ∧ fval p = 0) as [-> ->] by lia. rewrite Eb. lia. }
  apply (interpolation_error one n k i X F); [done|lia|done|done|].
  eapply Z.le_trans; [exact Hacc|]. apply Z.mul_le_mono_nonneg_l; lia.
Qed.

Lemma interpolation_measured a b F : measured a → measured b → float_le a b → 0 ≤ F →
  2 ^ 52 * F ≤ (2 ^ 52 - 1) * one → fval a ≤ interpolation (fval a) (fval b) F ≤ fval b.
Proof.
  intros (Ha & _) (Hb & _) Hab HF HF1. apply fval_le in Hab; [|done..]. pose proof (fval_nonneg a Ha).
  apply interpolation_between; try done; try lia; by apply rnd_fval_0.
Qed.

(** A higher percentage never gives a lower value, and none exceeds the last value. *)
Lemma percentile_mono l n n' p p' : n ∈ quantiles → n' ∈ quantiles → n ≤ n' →
  Forall measured l → Sorted float_le l → 1 ≤ Z.of_nat (length l) ≤ 2 ^ 40 →
  percentile l (hundredths n) = Some p → percentile l (hundredths n') = Some p' → float_le p p'.
Proof.
  intros Hn Hn' Hnn Hm Hs Hlen. destruct (decide (length l = 1%nat)) as [H1|H1].
  { destruct l as [|x [|]]; simplify_eq/=. intros [= <-] [= <-]. apply float_le_reflexive. }
  assert (2 ≤ Z.of_nat (length l) < 2 ^ 53) as Hlen' by lia.
  destruct (percentile_value l n Hn Hm Hs Hlen') as (a & b & q & Ha & Hb & Hab & -> & Hq & Eq).
  destruct (percentile_value l n' Hn' Hm Hs Hlen') as (a' & b' & q' & Ha' & Hb' & Hab' & -> & Hq' & Eq').
  set (k := Z.of_nat (length l) - 1) in *. intros [= <-] [= <-].
  pose proof (position_mono n n' k Hn Hn' Hnn ltac:(lia)) as HXX.
  pose proof (position_value n k Hn ltac:(lia)) as (HX & _ & Hfrac).
  pose proof (position_value n' k Hn' ltac:(lia)) as (HX' & _ & Hfrac'). pose proof pow2_1074_pos as Hu.
  set (X := fval (position n k)) in *. set (X' := fval (position n' k)) in *.
  pose proof (Z.div_le_mono X X' one Hu HXX) as Hii. pose proof (Z.div_pos X one ltac:(lia) Hu).
  pose proof (Z.mod_pos_bound X one Hu). pose proof (Z.mod_pos_bound X' one Hu).
  assert (measured a ∧ measured b ∧ measured a' ∧ measured b') as (Hma & Hmb & Hma' & Hmb')
    by (rewrite Forall_lookup in Hm; eauto 10).
  apply fval_le; [done..|]. rewrite Eq, Eq'.
  destruct (decide (X / one = X' / one)) as [E|Hne].
  - rewrite <-E in Ha', Hb'. rewrite Ha in Ha'. rewrite Hb in Hb'. simplify_eq.
    apply fval_le in Hab'; [|apply Hma'|apply Hmb']. pose proof (fval_nonneg a' (proj1 Hma')).
    apply interpolation_mono; [lia|]. split; [lia|]. pose proof (Z.div_mod X one) as E1.
    pose proof (Z.div_mod X' one) as E2. rewrite E in E1. lia.
  - apply Z.le_trans with (fval b); [apply interpolation_measured; (done || lia)|].
    apply Z.le_trans with (fval a'); [|apply interpolation_measured; (done || lia)].
    apply fval_le; [apply Hmb|apply Hma'|]. eapply (Sorted_float_lookup l); [done| |done|done]. lia.
Qed.

Lemma percentile_last l n p x : n ∈ quantiles → Forall measured l → Sorted float_le l →
  1 ≤ Z.of_nat (length l) ≤ 2 ^ 40 → percentile l (hundredths n) = Some p → last l = Some x → float_le p x.
Proof.
  intros Hn Hm Hs Hlen Hp Hx.
  destruct (percentile_interpolates l n Hn Hm Hs Hlen) as (p' & Hp' & _ & i & a & b & _ & Hb & _ & _ & Hpb & _).
  rewrite Hp in Hp'. injection Hp' as <-. trans b; [done|]. rewrite last_lookup in Hx.
  eapply (Sorted_float_lookup l); [done| |done|done]. lia.
Qed.

(** ** The statistics *)
Lemma positive_float x : regular x → 0 < fval x → SFltb zero_float x = true.
Proof. by destruct x as [| | |[] m e]; [..|intros []|]. Qed.

Lemma statistics_sorted durations : Forall measured durations → Z.of_nat (length durations) ≤ 2 ^ 40 →
  let l := sort_Float64s durations in
  l ≡ₚ durations ∧ Sorted float_le l ∧ Forall measured l ∧ length l = length durations.
Proof.
  intros Hm Hlen. cbv zeta. unfold sort_Float64s.
  pose proof (merge_sort_Permutation float_le durations) as Hp.
  split; [done|]. split; [apply Sorted_merge_sort, _|]. by rewrite Hp.
Qed.

Lemma measured_Seconds d : 0 ≤ d ≤ max_int64 → measured (Seconds d).
Proof. apply Seconds_value. Qed.

Lemma calculateStats_total durations : Forall measured durations → Z.of_nat (length durations) ≤ 2 ^ 40 →
  ∃ stats, statistics_of durations stats ∧
    (let l := sort_Float64s durations in
     match last l with
     | None => Some (MkStats 0 zero_float zero_float zero_float zero_float zero_float zero_float)
     | Some maximum =>
       p50 ← percentile l (hundredths 50); p90 ← percentile l (hundredths 90);
       p95 ← percentile l (hundredths 95); p99 ← percentile l (hundredths 99);
       mret (MkStats (length l) p50 p90 p95 p99 maximum
         (if SFltb zero_float maximum then fdiv (float_of_int (Z.of_nat (length l))) maximum else zero_float))
     end) = Some stats.
Proof.
  intros Hm Hlen. destruct (statistics_sorted durations Hm Hlen) as (Hp & Hs & Hml & Hl). cbv zeta.
  set (l := sort_Float64s durations) in *. destruct (last l) as [x|] eqn:Hx.
  - assert (durations ≠ []) as Hne by (intros ->; apply Permutation_nil_r in Hp as E; by rewrite E in Hx).
    assert (1 ≤ Z.of_nat (length l) ≤ 2 ^ 40) as Hlen'.
    { assert (length durations ≠ 0%nat) by by rewrite length_zero_iff_nil. lia. }
    assert (∀ n, n ∈ quantiles → ∃ p, percentile l (hundredths n) = Some p ∧ interpolates l n p) as Hper.
    { intros n Hn. destruct (percentile_interpolates l n Hn Hml Hs Hlen') as (p & ? & _ & ?). eauto. }
    assert (∀ n n' p p', n ∈ quantiles → n' ∈ quantiles → n ≤ n' → percentile l (hundredths n) = Some p →
      percentile l (hundredths n') = Some p' → float_le p p') as Hmono by (intros; by apply (percentile_mono l n n')).
    destruct (Hper 50) as (p50 & E50 & H50); [set_solver|]. destruct (Hper 90) as (p90 & E90 & H90); [set_solver|].
    destruct (Hper 95) as (p95 & E95 & H95); [set_solver|]. destruct (Hper 99) as (p99 & E99 & H99); [set_solver|].
    rewrite E50, E90, E95, E99. eexists. split; [|done]. constructor; cbn [Count P50Seconds P90Seconds P95Seconds
      P99Seconds MaximumSeconds ObjectsPerSecond].
    + done.
    + done.
    + intros _. by exists l.
    + assert (float_le p50 p90) by (apply (Hmono 50 90); [set_solver..|lia|done|done]).
      assert (float_le p90 p95) by (apply (Hmono 90 95); [set_solver..|lia|done|done]).
      assert (float_le p95 p99) by (apply (Hmono 95 99); [set_solver..|lia|done|done]).
      assert (float_le p99 x) by (apply (percentile_last l 99); [set_solver|done..]).
      by repeat (apply Sorted_cons || apply HdRel_cons || apply Sorted_nil || apply HdRel_nil).
    + assert (measured x) as (Hx' & _) by (rewrite last_lookup in Hx; by eapply Forall_lookup_1).
      destruct (Z.ltb_spec 0 (fval x)) as [Hpos|Hnp]; [by rewrite positive_float|].
      destruct x as [| | |? m e]; try done. destruct Hx' as (_ & He & _). cbn [fval] in Hnp. assert (0 < 2 ^ (e + 1074)) by lia. nia.
  - apply last_None in Hx. rewrite Hx in Hl. symmetry in Hl. apply length_zero_iff_nil in Hl as ->.
    eexists. split; [|done]. constructor; try done.
    by repeat (apply Sorted_cons || apply HdRel_cons || apply Sorted_nil || apply HdRel_nil || apply float_le_reflexive).
Qed.

(** C33.  Below 2^40 durations that are not negative, the statistics are computed (no index out
    of range), do not depend on the order in which Go ranges over the map, count every
    duration, and are those of the sorted seconds: the maximum is the last of them; each of
    P50, P90, P95 and P99 lies between the two values next to its position and is the linear
    interpolation of them to within the roundings; P50 ≤ P90 ≤ P95 ≤ P99 ≤ maximum; the
    rate is the count over the maximum, or 0 where that is 0; all are 0 of no durations. *)
Theorem calculateStats_correct (R1 R2 : RangeOrder) (values : gmap string Duration) :
  map_Forall (λ _ d, 0 ≤ d ≤ max_int64) values → Z.of_nat (size values) ≤ 2 ^ 40 →
  ∃ stats, calculateStats (H := R1) values = Some stats ∧ calculateStats (H := R2) values = Some stats ∧
    statistics_of (Seconds <$> (map_to_list values).*2) stats.
Proof.
  intros Hd Hsize. set (durations := Seconds <$> (map_to_list values).*2).
  assert (Forall measured durations) as Hm.
  { apply Forall_fmap, Forall_fmap, Forall_forall. intros [k d] Hin%elem_of_map_to_list.
    by apply measured_Seconds, (Hd k). }
  assert (Z.of_nat (length durations) ≤ 2 ^ 40) as Hlen
    by (unfold durations; by rewrite !length_fmap, length_map_to_list).
  assert (∀ R : RangeOrder, sort_Float64s (Seconds <$> (range (RangeOrder := R) values).*2) = sort_Float64s durations)
    as Hsort.
  { intros R. symmetry. apply sort_Float64s_permutation; [|unfold durations; by rewrite range_perm].
    eapply Forall_impl; [exact Hm|]. intros x (Hx & _). destruct x as [| | |? m e]; try done. by destruct Hx. }
  destruct (calculateStats_total durations Hm Hlen) as (stats & Hstats & E).
  exists stats. unfold calculateStats. rewrite !Hsort. by split_and!.
Qed.

Module StatsExample.
Definition values : gmap string Duration :=
  <["a" := Second]> (<["b" := (3 * Second)]> {[ "c" := (2 * Second) ]}).
Example stats_values : P50Seconds <$> calculateStats (H := range_forward) values = Some (Seconds (2 * Second)).
Proof. vm_compute. reflexivity. Qed.
(** 2.8 s. *)
Example stats_interpolated :
  P90Seconds <$> calculateStats (H := range_forward) values = Some (Seconds (2800 * Millisecond)).
Proof. vm_compute. reflexivity. Qed.
Lemma calculateStats_correct_witness :
  map_Forall (λ _ d, 0 ≤ d ≤ max_int64) values ∧
  ∃ stats, calculateStats (H := range_forward) values = Some stats ∧
    statistics_of (Seconds <$> (map_to_list values).*2) stats.
Proof.
  assert (map_Forall (λ _ d, 0 ≤ d ≤ max_int64) values) as Hd
    by (apply (bool_decide_unpack _); vm_compute; exact I).
  split; [exact Hd|].
  destruct (calculateStats_correct range_forward range_backward values Hd) as (stats & Hs & _ & Hc);
    [vm_compute; discriminate|].
  exists stats. split; [exact Hs|exact Hc].
Defined.
End StatsExample.
