(* ===== verification/Parallel.v ===== *)
(** * The worker pool of the performance driver (cmd/perf-driver/main.go)

    [runParallel] starts workers that receive items from an unbuffered channel,
    a feeder that sends them, and a derived context that the first error
    cancels.  A state is what the goroutines share and where each of them is; a
    step is one synchronisation.  The operation on an item is the caller's: it
    answers anything, in any order. *)
From S2P Require Import Prelude.

Section pool.
Context {Item E : Type}.

(** A worker waits for a job, runs the operation, or has put its error in
    [errCh] and is about to cancel. *)
Inductive worker := Receiving | Operating (item : Item) | Cancelling | Returned.
Inductive feeder := Sending (items : list Item) | Closed.

Record Pool := MkPool {
  jobs : feeder;
  pool_workers : list worker;
  errCh : option E;
  canceled : bool;
  ctx_ended : bool;
  succeeded : list Item;
  failed : list (Item * E)
}.

(** [min(workers, max(1, len(items)))]; a range over a negative number is empty. *)
Definition worker_count (workers : Z) (items : list Item) : nat :=
  Z.to_nat (Z.min workers (Z.max 1 (Z.of_nat (length items)))).

Definition runParallel (items : list Item) (workers : Z) : Pool :=
  MkPool (Sending items) (replicate (worker_count workers items) Receiving) None false false [] [].

Definition set_worker (i : nat) (w : worker) (p : Pool) : list worker := <[i := w]> (pool_workers p).

Inductive pool_step : Pool → Pool → Prop :=
(** [jobs <- item] meets [range jobs]. *)
| step_dispatch p i x rest :
    jobs p = Sending (x :: rest) → pool_workers p !! i = Some Receiving →
    pool_step p (MkPool (Sending rest) (set_worker i (Operating x) p) (errCh p) (canceled p)
                   (ctx_ended p) (succeeded p) (failed p))
(** [<-workerCtx.Done()] in the feeder, whose [close(jobs)] is deferred. *)
| step_feeder_canceled p rest :
    jobs p = Sending rest → rest ≠ [] → canceled p = true →
    pool_step p (MkPool Closed (pool_workers p) (errCh p) (canceled p) (ctx_ended p)
                   (succeeded p) (failed p))
| step_feeder_done p :
    jobs p = Sending [] →
    pool_step p (MkPool Closed (pool_workers p) (errCh p) (canceled p) (ctx_ended p)
                   (succeeded p) (failed p))
(** The channel is closed: the worker's range ends. *)
| step_worker_done p i :
    jobs p = Closed → pool_workers p !! i = Some Receiving →
    pool_step p (MkPool (jobs p) (set_worker i Returned p) (errCh p) (canceled p) (ctx_ended p)
                   (succeeded p) (failed p))
| step_ok p i x :
    pool_workers p !! i = Some (Operating x) →
    pool_step p (MkPool (jobs p) (set_worker i Receiving p) (errCh p) (canceled p) (ctx_ended p)
                   (succeeded p ++ [x]) (failed p))
(** [case errCh <- err:], then [cancel()]. *)
| step_error p i x e :
    pool_workers p !! i = Some (Operating x) → errCh p = None →
    pool_step p (MkPool (jobs p) (set_worker i Cancelling p) (Some e) (canceled p) (ctx_ended p)
                   (succeeded p) (failed p ++ [(x, e)]))
| step_cancel p i :
    pool_workers p !! i = Some Cancelling →
    pool_step p (MkPool (jobs p) (set_worker i Returned p) (errCh p) true (ctx_ended p)
                   (succeeded p) (failed p))
(** [default:] another error is in the channel. *)
| step_error_dropped p i x e e' :
    pool_workers p !! i = Some (Operating x) → errCh p = Some e' →
    pool_step p (MkPool (jobs p) (set_worker i Returned p) (errCh p) (canceled p) (ctx_ended p)
                   (succeeded p) (failed p ++ [(x, e)]))
(** The caller's context ends, and the derived one with it. *)
| step_ctx p :
    ctx_ended p = false →
    pool_step p (MkPool (jobs p) (pool_workers p) (errCh p) true true (succeeded p) (failed p)).

(** [group.Wait()] has returned; then the error in [errCh], or [ctx.Err()]. *)
Definition finished (p : Pool) : Prop := Forall (λ w, w = Returned) (pool_workers p).
Definition pool_result (p : Pool) : result (option E) () :=
  match errCh p with
  | Some e => Err (Some e)
  | None => if ctx_ended p then Err None else Ok tt
  end.

(** ** Every item is in one place *)
Definition operating (w : worker) : list Item := match w with Operating x => [x] | _ => [] end.
Definition in_flight (p : Pool) : list Item := pool_workers p ≫= operating.
Definition unsent (p : Pool) : list Item := match jobs p with Sending l => l | Closed => [] end.
Definition attempted (p : Pool) : list Item := succeeded p ++ in_flight p ++ (failed p).*1.

Record pool_inv (items : list Item) (count : nat) (p : Pool) : Prop := {
  pi_count : length (pool_workers p) = count;
  (** What was not attempted is to be sent, or was dropped after a cancellation. *)
  pi_items : ∃ dropped, items ≡ₚ attempted p ++ unsent p ++ dropped ∧
    (dropped ≠ [] → canceled p = true);
  pi_error : match errCh p with
             | Some e => ∃ x, (x, e) ∈ failed p
             | None => failed p = []
             end;
  pi_canceled : canceled p = true → is_Some (errCh p) ∨ ctx_ended p = true;
  pi_cancelling : Cancelling ∈ pool_workers p → is_Some (errCh p);
  pi_returned : Returned ∈ pool_workers p → jobs p = Closed ∨ is_Some (errCh p)
}.

Lemma in_flight_update p i w w' : pool_workers p !! i = Some w →
  ∃ l, in_flight p ≡ₚ operating w ++ l ∧ (set_worker i w' p ≫= operating) ≡ₚ operating w' ++ l.
Proof.
  intros Hi. exists ((take i (pool_workers p) ++ drop (S i) (pool_workers p)) ≫= operating).
  unfold in_flight, set_worker. split.
  - rewrite <-(take_drop_middle _ _ _ Hi) at 1. rewrite !bind_app, bind_cons. solve_Permutation.
  - rewrite insert_take_drop by by eapply lookup_lt_Some. rewrite !bind_app, bind_cons. solve_Permutation.
Qed.

Lemma elem_of_set_worker w' p i w : w' ∈ set_worker i w p → w = w' ∨ w' ∈ pool_workers p.
Proof.
  unfold set_worker. intros [j Hj]%list_elem_of_lookup. destruct (decide (i = j)) as [<-|Hne].
  - apply list_lookup_insert_Some in Hj as [(_ & Hw & _)|[? _]]; [by left|done].
  - rewrite list_lookup_insert_ne in Hj by done. right. by eapply list_elem_of_lookup_2.
Qed.

Lemma attempted_update p i w w' s' (f' : list (Item * E)) extra :
  pool_workers p !! i = Some w →
  operating w' ++ s' ++ f'.*1 ≡ₚ operating w ++ succeeded p ++ (failed p).*1 ++ extra →
  s' ++ (set_worker i w' p ≫= operating) ++ f'.*1 ≡ₚ attempted p ++ extra.
Proof.
  intros Hi Hp. destruct (in_flight_update p i w w' Hi) as (l & H1 & H2).
  unfold attempted. rewrite H1, H2.
  transitivity ((operating w' ++ s' ++ f'.*1) ++ l); [solve_Permutation|]. rewrite Hp. solve_Permutation.
Qed.

Lemma pool_step_inv items count p p' : pool_inv items count p → pool_step p p' → pool_inv items count p'.
Proof.
  intros [Hcount (dropped & Hitems & Hdrop) Herr Hcanc Hing Hret] Hstep. unfold unsent in Hitems.
  assert (∀ i w, Cancelling ∈ set_worker i w p → w ≠ Cancelling → is_Some (errCh p)) as Hing'.
  { intros i w [?|?]%elem_of_set_worker ?; [done|auto]. }
  assert (∀ i w, Returned ∈ set_worker i w p → w ≠ Returned → jobs p = Closed ∨ is_Some (errCh p)) as Hret'.
  { intros i w [?|?]%elem_of_set_worker ?; [done|auto]. }
  destruct Hstep as [p i x rest Hj Hi|p rest Hj Hrest Hc|p Hj|p i Hj Hi|p i x Hi|p i x e Hi He
    |p i Hi|p i x e e' Hi He|p Hctx];
  (split; cbn [jobs pool_workers errCh canceled ctx_ended succeeded failed];
    [unfold set_worker; by rewrite ?length_insert| | | | |]); try done;
  try (by intros ?%Hing'); try (by intros _; left); try (by intros _; right);
  try (rewrite Hj in Hitems);
  try (unfold attempted, in_flight, unsent; cbn [jobs pool_workers succeeded failed]).
  - exists dropped. split; [|done]. rewrite (attempted_update p i Receiving _ _ _ [x] Hi) by solve_Permutation.
    rewrite Hitems. solve_Permutation.
  - intros Hr%Hret'; [|done]. destruct Hr; [congruence|by right].
  - exists (rest ++ dropped). split; [|done]. rewrite Hitems. unfold attempted, in_flight. solve_Permutation.
  - exists dropped. split; [|done]. rewrite Hitems. unfold attempted, in_flight. solve_Permutation.
  - exists dropped. split; [|done]. rewrite (attempted_update p i Receiving _ _ _ [] Hi) by solve_Permutation.
    rewrite Hj, Hitems. solve_Permutation.
  - exists dropped. split; [|done].
    rewrite (attempted_update p i (Operating x) _ _ _ [] Hi) by (simpl; solve_Permutation).
    rewrite Hitems. solve_Permutation.
  - by intros ?%Hret'.
  - exists dropped. split; [|done].
    rewrite (attempted_update p i (Operating x) _ _ _ [] Hi) by (rewrite fmap_app; simpl; solve_Permutation).
    rewrite Hitems. solve_Permutation.
  - exists x. set_solver.
  - exists dropped. split; [|done].
    rewrite (attempted_update p i Cancelling _ _ _ [] Hi) by solve_Permutation.
    rewrite Hitems. solve_Permutation.
  - intros _. left. apply Hing. by eapply list_elem_of_lookup_2.
  - intros _. right. apply Hing. by eapply list_elem_of_lookup_2.
  - exists dropped. split; [|done].
    rewrite (attempted_update p i (Operating x) _ _ _ [] Hi) by (rewrite fmap_app; simpl; solve_Permutation).
    rewrite Hitems. solve_Permutation.
  - rewrite He in *. destruct Herr as [y Hy]. exists y. set_solver.
  - exists dropped. split; [|done]. rewrite Hitems. unfold attempted, in_flight. solve_Permutation.
Qed.

Lemma pool_inv_start items workers :
  pool_inv items (worker_count workers items) (runParallel items workers).
Proof.
  split; simpl; try done.
  - apply length_replicate.
  - exists []. split; [|done]. unfold attempted, in_flight, unsent. simpl.
    assert ((replicate (worker_count workers items) Receiving ≫= operating) = []) as ->.
    { induction (worker_count workers items) as [|n IH]; [done|exact IH]. }
    simpl. by rewrite app_nil_r.
  - by intros [[=] _]%elem_of_replicate.
  - by intros [[=] _]%elem_of_replicate.
Qed.

Lemma pool_reach_inv items workers p :
  rtc pool_step (runParallel items workers) p → pool_inv items (worker_count workers items) p.
Proof.
  intros Hr. pose proof (pool_inv_start items workers) as Hi. revert Hi.
  induction Hr; eauto using pool_step_inv.
Qed.

(** ** Termination

    Every step consumes: an item that is sent, a worker's way to its return, the
    feeder's end, or the end of the context. *)
Definition worker_fuel (w : worker) : nat :=
  match w with Receiving => 1 | Operating _ => 3 | Cancelling => 1 | Returned => 0 end.
Definition pool_fuel (p : Pool) : nat :=
  match jobs p with Sending l => S (3 * length l) | Closed => 0 end
  + sum_list (worker_fuel <$> pool_workers p) + (if ctx_ended p then 0 else 1).

Lemma sum_set_worker p i w w' : pool_workers p !! i = Some w →
  sum_list (worker_fuel <$> set_worker i w' p) + worker_fuel w
  = sum_list (worker_fuel <$> pool_workers p) + worker_fuel w'.
Proof.
  intros Hi. unfold set_worker. rewrite insert_take_drop by by eapply lookup_lt_Some.
  rewrite <-(take_drop_middle _ _ _ Hi) at 3. rewrite !fmap_app, !fmap_cons.
  assert (∀ l1 l2, sum_list (l1 ++ l2) = sum_list l1 + sum_list l2) as Happ.
  { intros l1 l2. induction l1 as [|n l1 IH]; simpl; [done|]. rewrite IH. lia. }
  rewrite !Happ. simpl. lia.
Qed.

Lemma pool_step_fuel p p' : pool_step p p' → pool_fuel p' < pool_fuel p.
Proof.
  intros Hstep. destruct Hstep as [p i x rest Hj Hi|p rest Hj Hrest Hc|p Hj|p i Hj Hi|p i x Hi|p i x e Hi He
    |p i Hi|p i x e e' Hi He|p Hctx]; unfold pool_fuel; simpl; rewrite ?Hj, ?Hctx; try (simpl; lia).
  all: match goal with |- context [set_worker ?i ?w' ?p] => pose proof (sum_set_worker p i _ w' Hi) as Hs end.
  all: simpl in *; lia.
Qed.

(** A pool that has not finished can move, with no help from the context. *)
Lemma pool_progress p : ¬ finished p → ∃ p', pool_step p p'.
Proof.
  intros Hf. apply not_Forall_Exists in Hf; [|intros [| | |]; [right|right|right|left]; done].
  apply Exists_exists in Hf as (w & [i Hi]%list_elem_of_lookup & Hw).
  destruct w as [|x| |]; [|by eexists; eapply step_ok|by eexists; eapply step_cancel|by destruct Hw].
  destruct (jobs p) as [[|x rest]|] eqn:Hj; eexists;
    [by eapply step_feeder_done|by eapply step_dispatch|by eapply step_worker_done].
Qed.

(** ** Properties *)

(** C34.  Whatever the operations answer, whenever the context ends, and however
    the goroutines are scheduled: every run of [runParallel] is finite (by a
    bound linear in the items and the workers), a run that cannot go on has
    finished, and no more operations run at once than there are workers. *)
Theorem runParallel_terminates items workers p n :
  nsteps pool_step n (runParallel items workers) p →
  n ≤ 2 + 3 * length items + worker_count workers items ∧
  (¬ finished p → ∃ p', pool_step p p') ∧
  length (in_flight p) ≤ worker_count workers items.
Proof.
  intros Hn. split; [|split; [apply pool_progress|]].
  - assert (∀ p0, nsteps pool_step n p0 p → n + pool_fuel p ≤ pool_fuel p0) as Hfuel.
    { clear Hn. induction n as [|n IH]; intros p0 Hn; inversion Hn as [|? ? p1 ? Hs Hr]; subst; [lia|].
      apply IH in Hr. apply pool_step_fuel in Hs. lia. }
    apply Hfuel in Hn. unfold pool_fuel at 2 in Hn. simpl in Hn.
    assert (sum_list (worker_fuel <$> replicate (worker_count workers items) Receiving)
            = worker_count workers items) as Hsum.
    { rewrite fmap_replicate, sum_list_replicate. simpl. lia. }
    lia.
  - pose proof (pi_count _ _ _ (pool_reach_inv items workers p (rtc_nsteps_2 _ _ _ Hn))) as <-.
    unfold in_flight. generalize (pool_workers p). intros l.
    induction l as [|w l IH]; [simpl; lia|]. rewrite bind_cons, length_app. destruct w; simpl in *; lia.
Qed.

Lemma pool_answer items workers p :
  (1 ≤ workers)%Z → rtc pool_step (runParallel items workers) p →
  (∃ left, items ≡ₚ attempted p ++ left) ∧
  (finished p →
   match pool_result p with
   | Ok _ => succeeded p ≡ₚ items ∧ failed p = []
   | Err (Some e) => ∃ x, (x, e) ∈ failed p
   | Err None => ctx_ended p = true ∧ failed p = []
   end).
Proof.
  intros Hw Hr. pose proof (pool_reach_inv items workers p Hr)
    as [Hcount (dropped & Hitems & Hdrop) Herr Hcanc _ Hret].
  split; [by eexists|]. intros Hf. unfold pool_result.
  destruct (errCh p) as [e|]; [done|]. destruct (ctx_ended p); [done|]. split; [|done].
  assert (in_flight p = []) as Hfl.
  { unfold in_flight. clear -Hf. unfold finished in Hf. induction Hf as [|w l -> Hl IH]; [done|].
    by rewrite bind_cons. }
  assert (jobs p = Closed) as Hj.
  { destruct Hret as [?|[]]; [|done|done]. unfold finished in Hf.
    destruct (pool_workers p) as [|w l]; [unfold worker_count in Hcount; simpl in Hcount; lia|].
    inversion Hf; subst. left. }
  assert (dropped = []) as ->.
  { destruct dropped; [done|]. destruct Hcanc as [[]|]; [by apply Hdrop|done..]. }
  rewrite Hitems. unfold attempted, unsent. rewrite Hfl, Hj, Herr. simpl. by rewrite !app_nil_r.
Qed.

(** C35.  What the answer of [runParallel] means, with at least one worker: it
    succeeds only after every item was processed, once, without an error; a
    failure is the error of an operation that failed, or the end of the
    context; and no item is ever processed twice. *)
Theorem runParallel_result items workers p :
  (1 ≤ workers)%Z → rtc pool_step (runParallel items workers) p →
  (∃ left, items ≡ₚ attempted p ++ left) ∧
  (finished p →
   match pool_result p with
   | Ok _ => succeeded p ≡ₚ items ∧ failed p = []
   | Err (Some e) => ∃ x, (x, e) ∈ failed p
   | Err None => ctx_ended p = true ∧ failed p = []
   end).
Proof. apply pool_answer. Qed.
End pool.
Arguments Pool : clear implicits.

Module ParallelExample.
(** Two workers, three items; the second item fails, the first succeeds. *)
Definition start : Pool nat string := runParallel [1; 2; 3] 2.
Definition stopped : Pool nat string :=
  MkPool Closed [Returned; Returned] (Some "boom") true false [1] [(2, "boom")].

Lemma stopped_reached : nsteps pool_step 7 start stopped.
Proof.
  eapply nsteps_l; [eapply (step_dispatch _ 0); reflexivity|].
  eapply nsteps_l; [eapply (step_dispatch _ 1); reflexivity|].
  eapply nsteps_l; [eapply (step_error _ 1 _ "boom"); reflexivity|].
  eapply nsteps_l; [eapply (step_cancel _ 1); reflexivity|].
  eapply nsteps_l; [eapply (step_feeder_canceled _ [3]); done|].
  eapply nsteps_l; [eapply (step_ok _ 0); reflexivity|].
  eapply nsteps_l; [eapply (step_worker_done _ 0); reflexivity|].
  exact (nsteps_O _ _).
Qed.

Lemma runParallel_terminates_witness : nsteps pool_step 7 start stopped ∧ 7 ≤ 13.
Proof.
  split; [exact stopped_reached|].
  exact (proj1 (runParallel_terminates [1; 2; 3] 2 stopped 7 stopped_reached)).
Defined.

Lemma runParallel_result_witness :
  (1 ≤ 2)%Z ∧ rtc pool_step start stopped ∧ ∃ x, (x, "boom") ∈ failed stopped.
Proof.
  assert (1 ≤ 2)%Z as H1 by lia.
  assert (rtc pool_step start stopped) as Hr by (eapply rtc_nsteps_2; exact stopped_reached).
  split; [exact H1|]. split; [exact Hr|].
  apply (proj2 (runParallel_result [1; 2; 3] 2 stopped H1 Hr)).
  repeat constructor.
Defined.
End ParallelExample.
