(* ===== verification/GoFlag.v ===== *)
(** * Command lines: the flag package and strconv's integers

    [flag.FlagSet.Parse] on a set of declared flags, with the values that the
    variables hold.  The kind of a flag is the kind of its default. *)
From S2P Require Import Prelude GoStrings ConfigTypes ConfigParser Encoding Rfc3339 Credential GoDuration.
From Stdlib Require Import Ascii.
Local Open Scope Z_scope.

(** ** strconv.ParseUint and ParseInt with base 0, 64 bits *)
Definition max_uint64 : Z := 2 ^ 64 - 1.
Definition lower_code (c : ascii) : Z := Z.lor (codeZ c) 32.

Definition is_base_letter (c : ascii) : option Z :=
  if lower_code c =? 98 then Some 2 else if lower_code c =? 111 then Some 8
  else if lower_code c =? 120 then Some 16 else None.

(** The base and the digits. *)
Definition base_prefix (l : bytes) : Z * bytes :=
  match l with
  | z :: l' =>
    if codeZ z =? 48 then
      match l' with
      | p :: ((_ :: _) as r) => match is_base_letter p with Some b => (b, r) | None => (8, l') end
      | _ => (8, l')
      end
    else (10, l)
  | [] => (10, [])
  end.

Definition alnum_value (c : ascii) : option Z :=
  if (48 <=? codeZ c) && (codeZ c <=? 57) then Some (codeZ c - 48)
  else if (97 <=? lower_code c) && (lower_code c <=? 122) then Some (lower_code c - 97 + 10)
  else None.

Inductive number_error := SyntaxError | RangeError.

(** The digits so far and whether an underscore was seen. *)
Fixpoint uint_digits (base n : Z) (underscores : bool) (l : bytes) : result number_error (Z * bool) :=
  match l with
  | [] => Ok (n, underscores)
  | c :: l =>
    if codeZ c =? 95 then uint_digits base n true l else
    match alnum_value c with
    | None => Err SyntaxError
    | Some d =>
      if base <=? d then Err SyntaxError
      else if max_uint64 <? n * base + d then Err RangeError
      else uint_digits base (n * base + d) underscores l
    end
  end.

(** [underscoreOK] after the sign: what the last byte was. *)
Inductive last_byte := LastDigit | LastUnderscore | LastOther | LastNone.
Fixpoint underscores_ok (hex : bool) (last : last_byte) (l : bytes) : bool :=
  match l with
  | [] => match last with LastUnderscore => false | _ => true end
  | c :: l =>
    if ((48 <=? codeZ c) && (codeZ c <=? 57)) || (hex && (97 <=? lower_code c) && (lower_code c <=? 102))
    then underscores_ok hex LastDigit l
    else if codeZ c =? 95
    then match last with LastDigit => underscores_ok hex LastUnderscore l | _ => false end
    else match last with LastUnderscore => false | _ => underscores_ok hex LastOther l end
  end.
Definition underscoreOK (l : bytes) : bool :=
  match l with
  | z :: p :: l' =>
    match (if codeZ z =? 48 then is_base_letter p else None) with
    | Some b => underscores_ok (b =? 16) LastDigit l'
    | None => underscores_ok false LastNone l
    end
  | _ => underscores_ok false LastNone l
  end.

Definition parse_uint (l : bytes) : result number_error Z :=
  match l with
  | [] => Err SyntaxError
  | _ =>
    let '(base, ds) := base_prefix l in
    match uint_digits base 0 false ds with
    | Err e => Err e
    | Ok (n, underscores) => if underscores && negb (underscoreOK l) then Err SyntaxError else Ok n
    end
  end.
Definition ParseUint (s : string) : option Z :=
  match parse_uint (to_bytes s) with Ok n => Some n | Err _ => None end.

Definition ParseInt (s : string) : option Z :=
  let '(neg, l) :=
    match to_bytes s with
    | c :: l => if codeZ c =? 45 then (true, l) else if codeZ c =? 43 then (false, l) else (false, c :: l)
    | [] => (false, [])
    end in
  match parse_uint l with
  | Err _ => None
  | Ok n => if neg : bool then if 2 ^ 63 <? n then None else Some (- n)
            else if 2 ^ 63 <=? n then None else Some n
  end.

Lemma alnum_value_nonneg c d : alnum_value c = Some d → 0 <= d.
Proof.
  unfold alnum_value. destruct (Z.leb_spec 48 (codeZ c)), (Z.leb_spec (codeZ c) 57); cbn [andb];
    try (intros [= <-]; lia);
    destruct (Z.leb_spec 97 (lower_code c)), (Z.leb_spec (lower_code c) 122); cbn [andb]; try done;
    intros [= <-]; lia.
Qed.

Lemma uint_digits_bounds base n u l m v : 0 <= base → 0 <= n <= max_uint64 →
  uint_digits base n u l = Ok (m, v) → 0 <= m <= max_uint64.
Proof.
  intros Hb. revert n u. induction l as [|c l IH]; intros n u Hn; cbn [uint_digits]; [by intros [= <- _]|].
  destruct (_ =? _); [by apply IH|]. destruct (alnum_value c) as [d|] eqn:Hd; [|done].
  apply alnum_value_nonneg in Hd. destruct (_ <=? _); [done|].
  destruct (Z.ltb_spec max_uint64 (n * base + d)); [done|]. apply IH. nia.
Qed.

Lemma base_prefix_nonneg l : 0 <= (base_prefix l).1.
Proof.
  unfold base_prefix, is_base_letter. destruct l as [|z [|p [|a l]]]; try done; destruct (_ =? _); try done.
  repeat destruct (_ =? _); done.
Qed.

Lemma parse_uint_bounds l n : parse_uint l = Ok n → 0 <= n <= max_uint64.
Proof.
  unfold parse_uint. destruct l; [done|]. pose proof (base_prefix_nonneg (a :: l)) as Hb.
  destruct (base_prefix (a :: l)) as [b ds]. destruct (uint_digits b 0 false ds) as [[m u]|] eqn:Hd; [|done].
  destruct (_ && _); [done|]. intros [= <-]. by apply uint_digits_bounds in Hd.
Qed.

Lemma ParseInt_range s v : ParseInt s = Some v → min_int64 <= v <= max_int64.
Proof.
  unfold ParseInt, min_int64, max_int64. destruct (match to_bytes s with [] => _ | _ => _ end) as [neg l].
  destruct (parse_uint l) as [n|] eqn:Hn; [|done]. apply parse_uint_bounds in Hn.
  destruct neg; [destruct (Z.ltb_spec (2 ^ 63) n)|destruct (Z.leb_spec (2 ^ 63) n)]; try done; intros [= <-]; lia.
Qed.

(** ** strconv.ParseBool *)
Definition ParseBool (s : string) : option bool :=
  if bool_decide (s ∈ ["1"; "t"; "T"; "true"; "TRUE"; "True"]) then Some true
  else if bool_decide (s ∈ ["0"; "f"; "F"; "false"; "FALSE"; "False"]) then Some false
  else None.

(** ** Flags *)
Inductive flag_value :=
| BoolValue (b : bool)
| StringValue (s : string)
| IntValue (z : Z)
| Uint64Value (z : Z)
| Float64Value (f : float64)
| DurationValue (d : Duration).

(** The variables of the declared flags, by name. *)
Abbreviation flag_values := (gmap string flag_value).

Inductive flag_error :=
| ErrHelp
| BadFlagSyntax (arg : string)
| FlagNotDefined (name : string)
| InvalidBoolean (value name : string)
| FlagNeedsArgument (name : string)
| InvalidValue (value name : string).

Section flags.
Context `{FloatParser}.

(** [flag.Value.Set] *)
Definition Set_value (old : flag_value) (s : string) : option flag_value :=
  match old with
  | BoolValue _ => BoolValue <$> ParseBool s
  | StringValue _ => Some (StringValue s)
  | IntValue _ => IntValue <$> ParseInt s
  | Uint64Value _ => Uint64Value <$> ParseUint s
  | Float64Value _ => Float64Value <$> ParseFloat s
  | DurationValue _ => DurationValue <$> ParseDuration s
  end.

(** An argument that is a flag: its name and the value after an equals sign. *)
Inductive arg_syntax :=
| Positional
| Terminator
| BadSyntax
| FlagArg (name : string) (value : option string).

Fixpoint split_equals (l : bytes) : bytes * option bytes :=
  match l with
  | [] => ([], None)
  | c :: l => if codeZ c =? 61 then ([], Some l) else let '(n, v) := split_equals l in (c :: n, v)
  end.
Definition flag_arg (name : bytes) : arg_syntax :=
  match name with
  | [] => BadSyntax
  | c :: l =>
    if (codeZ c =? 45) || (codeZ c =? 61) then BadSyntax
    else let '(n, v) := split_equals l in FlagArg (of_bytes (c :: n)) (of_bytes <$> v)
  end.
Definition classify (arg : string) : arg_syntax :=
  match to_bytes arg with
  | m :: ((c :: l') as l) =>
    if codeZ m =? 45 then
      if codeZ c =? 45 then match l' with [] => Terminator | _ => flag_arg l' end
      else flag_arg l
    else Positional
  | _ => Positional
  end.

(** [FlagSet.Parse]: the variables and the arguments that remain. *)
Fixpoint Parse_flags (values : flag_values) (args : list string) :
    result flag_error (flag_values * list string) :=
  match args with
  | [] => Ok (values, [])
  | arg :: rest =>
    match classify arg with
    | Positional => Ok (values, args)
    | Terminator => Ok (values, rest)
    | BadSyntax => Err (BadFlagSyntax arg)
    | FlagArg name given =>
      match values !! name with
      | None =>
        if bool_decide (name = "help") || bool_decide (name = "h") then Err ErrHelp
        else Err (FlagNotDefined name)
      | Some ((BoolValue _) as old) =>
        let value := default "true" given in
        match Set_value old value with
        | None => Err (InvalidBoolean value name)
        | Some new => Parse_flags (<[name := new]> values) rest
        end
      | Some old =>
        match given, rest with
        | Some value, _ =>
          match Set_value old value with
          | None => Err (InvalidValue value name)
          | Some new => Parse_flags (<[name := new]> values) rest
          end
        | None, value :: rest =>
          match Set_value old value with
          | None => Err (InvalidValue value name)
          | Some new => Parse_flags (<[name := new]> values) rest
          end
        | None, [] => Err (FlagNeedsArgument name)
        end
      end
    end
  end.
End flags.

(** Reading the variables. *)
Definition bool_var (values : flag_values) (name : string) : bool :=
  match values !! name with Some (BoolValue b) => b | _ => false end.
Definition string_var (values : flag_values) (name : string) : string :=
  match values !! name with Some (StringValue s) => s | _ => "" end.
Definition int_var (values : flag_values) (name : string) : Z :=
  match values !! name with Some (IntValue z) | Some (Uint64Value z) => z | _ => 0 end.
Definition float_var (values : flag_values) (name : string) : float64 :=
  match values !! name with Some (Float64Value f) => f | _ => zero_float end.
Definition duration_var (values : flag_values) (name : string) : Duration :=
  match values !! name with Some (DurationValue d) => d | _ => 0 end.

Example parse_ints : ParseInt <$> ["0x1F"; "-0b101"; "017"; "1_000"; "0_7"; "_1"; "1__0"; "+9223372036854775807";
    "9223372036854775808"; "-9223372036854775808"; ""; "-"; "08"]
  = [Some 31; Some (-5); Some 15; Some 1000; Some 7; None; None; Some max_int64; None; Some min_int64; None; None; None].
Proof. vm_compute. reflexivity. Qed.
