(* ===== verification/ControllerMain.v ===== *)
(** * The controller process (cmd/controller, internal/observability/server.go)

    The command line, and [run]: what the process builds, in the order it
    builds it, from the outcomes of the calls that leave the program.  [run]
    returns the assembled controller when the manager ran and stopped without
    an error, and nothing when it was cancelled while it started. *)
From S2P Require Import Prelude GoStrings Validation ConfigTypes ConfigParser ConfigStore Credential.
From S2P Require Import CredentialCorrect Scheduler SecretSyncer ServiceAccount Kube Kubeclient Controller Metrics GoFlag.
From Stdlib Require Import SpecFloat.
Local Open Scope Z_scope.

(** ** Metrics server options (server.go) *)
Record ServerOptions_t := MkServerOptions {
  BindAddress : string;
  SecureServing : bool;
  CertDir : string;
  authenticated : bool
}.
(** [load] is the outcome of loading tls.crt and tls.key of the directory. *)
Definition ServerOptions (address : string) (secure : bool) (certDir : string)
    (load : string → result string ()) : result string ServerOptions_t :=
  if negb secure || bool_decide (address = "0") then Ok (MkServerOptions address false "" false)
  else if bool_decide (certDir = "")
  then Err "secure metrics requires --metrics-cert-dir containing tls.crt and tls.key"
  else match load certDir with
  | Err _ => Err "cannot load metrics TLS certificate and key"
  | Ok _ => Ok (MkServerOptions address true certDir true)
  end.

(** ** The command line *)
Record commandOptions := MkCommandOptions {
  metricsSecure : bool;
  metricsCertDir : string;
  logLevel : string;
  kubeconfig : string;
  metricsAddress : string;
  healthAddress : string;
  leaderElection : bool;
  kubeAPIQPS : float64;
  kubeAPIBurst : Z;
  maxConcurrentNamespaceReconciles : Z;
  maxConcurrentServiceAccountReconciles : Z
}.

Definition controller_flags : flag_values := list_to_map [
  ("metrics-secure", BoolValue false);
  ("metrics-cert-dir", StringValue "");
  ("log-level", StringValue "info");
  ("kubeconfig", StringValue "");
  ("metrics-bind-address", StringValue ":8080");
  ("health-probe-bind-address", StringValue ":8081");
  ("leader-elect", BoolValue true);
  ("kube-api-qps", Float64Value DefaultKubeAPIQPS);
  ("kube-api-burst", IntValue DefaultKubeAPIBurst);
  ("max-concurrent-namespace-reconciles", IntValue DefaultMaxConcurrentNamespaceReconciles);
  ("max-concurrent-service-account-reconciles", IntValue DefaultMaxConcurrentServiceAccountReconciles)].

Inductive options_problem :=
| FlagProblem (e : flag_error)
| LogLevelProblem (message : string)
| PositionalArguments (args : list string)
| QPSProblem
| BurstProblem (n : Z)
| NamespaceReconcilesProblem (n : Z)
| ServiceAccountReconcilesProblem (n : Z).

Definition options_of (v : flag_values) : commandOptions :=
  MkCommandOptions (bool_var v "metrics-secure") (string_var v "metrics-cert-dir")
    (string_var v "log-level") (string_var v "kubeconfig") (string_var v "metrics-bind-address")
    (string_var v "health-probe-bind-address") (bool_var v "leader-elect") (float_var v "kube-api-qps")
    (int_var v "kube-api-burst") (int_var v "max-concurrent-namespace-reconciles")
    (int_var v "max-concurrent-service-account-reconciles").

Definition parseCommandOptions `{FloatParser} (args : list string) : result options_problem commandOptions :=
  match Parse_flags controller_flags args with
  | Err e => Err (FlagProblem e)
  | Ok (v, rest) =>
    let options := options_of v in
    match LogLevel (logLevel options) with
    | Err m => Err (LogLevelProblem m)
    | Ok _ =>
      if negb (bool_decide (rest = [])) then Err (PositionalArguments rest)
      else if negb (ValidateQPS (kubeAPIQPS options)) then Err QPSProblem
      else if kubeAPIBurst options <? 1 then Err (BurstProblem (kubeAPIBurst options))
      else if maxConcurrentNamespaceReconciles options <? 1
      then Err (NamespaceReconcilesProblem (maxConcurrentNamespaceReconciles options))
      else if maxConcurrentServiceAccountReconciles options <? 1
      then Err (ServiceAccountReconcilesProblem (maxConcurrentServiceAccountReconciles options))
      else Ok options
    end
  end.

(** [main]: the exit status, given what [run] returns. *)
Definition main_exit `{FloatParser} (args : list string) (run : commandOptions → bool) : Z :=
  match parseCommandOptions args with
  | Err (FlagProblem ErrHelp) => 0
  | Err _ => 2
  | Ok options => if run options then 0 else 1
  end.

(** ** The outcomes of the calls that leave the program *)
Record Environment := MkEnvironment {
  loadRESTConfig : string → result string ();
  AddToScheme : result string ();
  bootstrap_client : result string ();
  get_ConfigMap : string * string → result api_error (gmap string string);
  context_canceled : bool;
  load_key_pair : string → result string ();
  NewManager : result string ();
  register_metrics : result string ();
  Add : string → result string ();
  complete_controller : Registration → result string ();
  AddCheck : string → result string ();
  Start : result string ()
}.

Inductive run_error :=
| BootstrapFailed (e : bootstrap_error)
| CacheFailed (e : Controller.options_error)
| MetricsServerFailed (message : string)
| SchedulerFailed (e : new_scheduler_error)
| SetupFailed (e : setup_error)
| StepFailed (what message : string).

Definition step {A} (what : string) (r : result string A) : result run_error A :=
  match r with Ok a => Ok a | Err m => Err (StepFailed what m) end.
Definition wrap {E A} (f : E → run_error) (r : result E A) : result run_error A :=
  match r with Ok a => Ok a | Err e => Err (f e) end.

(** What is built before the manager starts. *)
Record Components := MkComponents {
  c_requests : Requests;
  c_scheduler : SchedulerOptions * Scheduler.State;
  c_secrets : SecretSyncer.Syncer () ();
  c_accounts : ServiceAccount.ServiceAccountSyncer ();
  c_controllers : list Registration
}.

(** The stores, the scheduler, the syncers, the controllers and the checks, as
    both processes wire them: the clients and recorders come from the manager
    and are not nil. *)
Definition components `{DNSValidation} (env : Environment) (scheduler : SchedulerOptions)
    (controllers : ControllerOptions) : result run_error Components :=
  let configStore := ConfigStore.empty in
  let credentialStore := CredentialStore.empty in
  obs ← step "create observability"
    (New (MkMetricsArguments true true true true true DefaultManagedSecretName) (register_metrics env));
  _ ← step "register observability" (Add env "observability");
  sched ← wrap SchedulerFailed
    (NewScheduler (Some configStore) (Some credentialStore) true true true scheduler);
  _ ← step "register credential scheduler" (Add env "credential scheduler");
  secrets ← step "create namespace Secret syncer"
    (NewSyncer (Some tt) (Some configStore) (Some credentialStore) DefaultManagedSecretName (Some tt));
  accounts ← step "create ServiceAccount syncer"
    (NewServiceAccountSyncer (Some tt) (Some configStore) DefaultManagedSecretName);
  regs ← wrap SetupFailed
    (SetupWithManager (MkSetupArguments true true true true true true) controllers (complete_controller env));
  _ ← step "register liveness check" (AddCheck env "ping");
  _ ← step "register configuration readiness check" (AddCheck env "configuration");
  Ok (MkComponents obs sched secrets accounts regs).

(** What [Bootstrap] resolved and the controllers' options taken from it. *)
Definition bootstrap `{TokenBucket, RangeOrder, DNSValidation, YAML, FloatParser} (env : Environment)
    (fallback : Settings) : result bootstrap_error Runtime :=
  Bootstrap (bootstrap_client env) (get_ConfigMap env (DefaultControllerNamespace, DefaultConfigMapName)) fallback.
Definition controllerOptions (initial : Settings) : ControllerOptions :=
  MkControllerOptions "" "" "" (NamespaceWorkers initial) (ServiceAccountWorkers initial).

(** [rest.Config] and [ctrl.Options], as far as the program sets them. *)
Record ManagerOptions := MkManagerOptions {
  UserAgent : string;
  rest_QPS : spec_float;
  rest_Burst : Z;
  Cache : CacheOptions;
  LeaderElection : bool;
  LeaderElectionID : string;
  LeaderElectionNamespace : string;
  LeaderElectionReleaseOnCancel : bool;
  Metrics_options : ServerOptions_t;
  HealthProbeBindAddress : string;
  GracefulShutdownTimeout : Duration
}.

Section run.
Context `{TokenBucket, RangeOrder, DNSValidation, YAML, FloatParser}.

Record Process := MkProcess {
  p_manager : ManagerOptions;
  p_runtime : Runtime;
  p_components : Components
}.

(** A cancelled start is not an error. *)
Definition unless_cancelled (env : Environment) (r : result bootstrap_error Runtime)
    (k : Runtime → result run_error (option Process)) : result run_error (option Process) :=
  match r with
  | Err ((ReadConfigMapFailed Canceled) as e) =>
    if context_canceled env then Ok None else Err (BootstrapFailed e)
  | Err e => Err (BootstrapFailed e)
  | Ok rt => k rt
  end.

Definition fallback_settings (o : commandOptions) : Settings :=
  MkSettings (kubeAPIQPS o) (kubeAPIBurst o) (maxConcurrentNamespaceReconciles o)
    (maxConcurrentServiceAccountReconciles o).

Definition run (env : Environment) (o : commandOptions) : result run_error (option Process) :=
  _ ← step "load Kubernetes client configuration" (loadRESTConfig env (kubeconfig o));
  _ ← step "register Kubernetes scheme" (AddToScheme env);
  unless_cancelled env (bootstrap env (fallback_settings o)) (λ runtimeSettings,
  let controllers := controllerOptions (rt_current runtimeSettings) in
  cache ← wrap CacheFailed (NewCacheOptions controllers);
  metrics ← wrap MetricsServerFailed
    (ServerOptions (metricsAddress o) (metricsSecure o) (metricsCertDir o) (load_key_pair env));
  _ ← step "create controller manager" (NewManager env);
  let manager := MkManagerOptions "kubernetes-registry-secret-controller" (to_float32 (kubeAPIQPS o))
    (kubeAPIBurst o) cache (leaderElection o) "kubernetes-registry-secret-controller"
    DefaultControllerNamespace true metrics (healthAddress o) (30 * Second) in
  c ← components env (MkSchedulerOptions 0 0 0 0 0) controllers;
  _ ← step "run controller manager" (Start env);
  Ok (Some (MkProcess manager runtimeSettings c))).
End run.
