(* ===== verification/ControllerMainCorrect.v ===== *)
(** * Correctness of the controller's startup

    Of the options that the command line accepts only one combination is refused
    later, and the parts that the process wires together agree on names, limits
    and workers. *)
From S2P Require Import Prelude GoStrings Validation ConfigTypes ConfigParser ConfigParserTheory.
From S2P Require Import ConfigParserCorrect ConfigStore Credential CredentialCorrect Scheduler SecretSyncer.
From S2P Require Import ServiceAccount Kube Kubeclient KubeclientCorrect Controller ControllerCorrect Metrics GoFlag ControllerMain.
From Stdlib Require Import SpecFloat.
Local Open Scope Z_scope.

Lemma step_ok {A} what (r : result string A) a : r = Ok a → step what r = Ok a.
Proof. by intros ->. Qed.
Lemma step_inv {A} what (r : result string A) a : step what r = Ok a → r = Ok a.
Proof. destruct r; simpl; [by intros [= ->]|done]. Qed.

(** [inv_run H]: the successful steps of a monadic [H : ... = Ok _]. *)
Ltac inv_run H :=
  repeat (let E := fresh "E" in
    match type of H with
    | context [result_bind _ _ _ (step ?w ?r)] => destruct (step w r) eqn:E; cbn [mbind result_bind] in H; [|discriminate H]
    | (?r ≫= _) = Ok _ => destruct r eqn:E; cbn [mbind result_bind] in H; [|discriminate H]
    end).

Lemma parseCommandOptions_valid `{FloatParser} args o :
  parseCommandOptions args = Ok o → valid_settings (fallback_settings o) ∧ is_ok (LogLevel (logLevel o)) = true.
Proof.
  unfold parseCommandOptions. destruct (Parse_flags _ _) as [[v rest]|]; [|done].
  generalize (options_of v). intros op. destruct (LogLevel (logLevel op)) as [l|] eqn:Hl; [|done].
  destruct (negb (bool_decide _)); [done|]. destruct (ValidateQPS (kubeAPIQPS op)) eqn:Hq; [|done]. cbn [negb].
  destruct (Z.ltb_spec (kubeAPIBurst op) 1); [done|].
  destruct (Z.ltb_spec (maxConcurrentNamespaceReconciles op) 1); [done|].
  destruct (Z.ltb_spec (maxConcurrentServiceAccountReconciles op) 1); [done|].
  intros [= <-]. rewrite Hl. split; [|done]. split; [done|]. cbn. lia.
Qed.

(** The names the process uses are valid Kubernetes names. *)
Definition default_names_valid `{DNSValidation} : Prop :=
  IsDNS1123Label DefaultControllerNamespace = [] ∧ IsDNS1123Subdomain DefaultConfigMapName = [] ∧
  IsDNS1123Subdomain DefaultManagedSecretName = [].

Definition wired_names (cache : CacheOptions) (c : Components) : Prop :=
  cache = MkCacheOptions true [DefaultControllerNamespace] DefaultConfigMapName DefaultManagedSecretName ∧
  sync_secretName () () (c_secrets c) = secret_name cache ∧ sas_secretName () (c_accounts c) = secret_name cache.

Definition wired_controllers (initial : Settings) (c : Components) : Prop :=
  let o := controller_withDefaults (controllerOptions initial) in
  c_controllers c = [namespace_registration o; account_registration o; configuration_registration] ∧
  MaxConcurrentReconciles (namespace_registration o) = NamespaceWorkers initial ∧
  MaxConcurrentReconciles (account_registration o) = ServiceAccountWorkers initial.

(** Every call that leaves the program succeeds. *)
Record Wiring_ok (env : Environment) : Prop := {
  metrics_registered : register_metrics env = Ok tt;
  runnables_added n : Add env n = Ok tt;
  controllers_completed reg : complete_controller env reg = Ok tt;
  checks_added n : AddCheck env n = Ok tt
}.

Section components.
Context `{DNSValidation}.

Lemma controllerOptions_defaults s : 1 <= NamespaceWorkers s → 1 <= ServiceAccountWorkers s →
  controller_withDefaults (controllerOptions s) =
  MkControllerOptions DefaultControllerNamespace DefaultConfigMapName DefaultManagedSecretName
    (NamespaceWorkers s) (ServiceAccountWorkers s).
Proof.
  intros Hn Ha. unfold controller_withDefaults, controllerOptions, default_int. cbn.
  destruct (Z.eqb_spec (NamespaceWorkers s) 0), (Z.eqb_spec (ServiceAccountWorkers s) 0); (done || lia).
Qed.

Lemma controllerOptions_valid s : default_names_valid → 1 <= NamespaceWorkers s → 1 <= ServiceAccountWorkers s →
  controller_validate (controller_withDefaults (controllerOptions s)) = Ok tt ∧
  NewCacheOptions (controllerOptions s) =
    Ok (MkCacheOptions true [DefaultControllerNamespace] DefaultConfigMapName DefaultManagedSecretName).
Proof.
  intros (H1 & H2 & H3) Hn Ha. unfold NewCacheOptions. rewrite controllerOptions_defaults by done.
  unfold controller_validate. cbn [ControllerNamespace ConfigMapName ManagedSecretName
    MaxConcurrentNamespaceReconciles MaxConcurrentServiceAccountReconciles].
  rewrite H1, H2, H3. rewrite !(proj2 (Z.ltb_ge _ _)) by lia. done.
Qed.

Lemma components_ok env sched s : default_names_valid → Wiring_ok env →
  1 <= NamespaceWorkers s → 1 <= ServiceAccountWorkers s → validate (withDefaults sched) = Ok tt →
  ∃ c, components env sched (controllerOptions s) = Ok c.
Proof.
  intros Hd Henv Hn Ha Hs. destruct (controllerOptions_valid s Hd Hn Ha) as [Hv _].
  unfold components, New, NewScheduler. rewrite Hs, (metrics_registered env Henv).
  cbn -[DefaultManagedSecretName Scheduler.withDefaults SetupWithManager].
  rewrite !(runnables_added env Henv). cbn -[DefaultManagedSecretName Scheduler.withDefaults SetupWithManager].
  unfold SetupWithManager. cbn -[controller_withDefaults]. rewrite Hv, !(controllers_completed env Henv).
  cbn -[controller_withDefaults]. rewrite !(checks_added env Henv). cbn. eauto.
Qed.

Lemma components_wired env sched s c cache :
  components env sched (controllerOptions s) = Ok c → NewCacheOptions (controllerOptions s) = Ok cache →
  1 <= NamespaceWorkers s → 1 <= ServiceAccountWorkers s →
  wired_names cache c ∧ wired_controllers s c ∧ (c_scheduler c).1 = withDefaults sched ∧
  validate (c_scheduler c).1 = Ok tt.
Proof.
  intros Hc Hcache Hn Ha. unfold components in Hc. inv_run Hc.
  injection Hc as <-. apply step_inv in E3, E4. injection E3 as <-. injection E4 as <-.
  unfold wrap in E1, E5. destruct (SetupWithManager _ _ _) as [regs|] eqn:Hs; [|done].
  injection E5 as <-. apply setup_correct in Hs as (Hregs & Hv & Hc & _).
  rewrite Hc in Hcache. injection Hcache as <-.
  destruct (NewScheduler _ _ _ _ _ _) as [sc|] eqn:Hsc; [|done]. injection E1 as <-.
  unfold NewScheduler in Hsc. cbn [negb] in Hsc.
  destruct (validate (withDefaults sched)) as [[]|] eqn:Hval; [|done]. injection Hsc as <-.
  cbn [c_secrets c_accounts c_controllers c_scheduler fst].
  unfold wired_names, wired_controllers. cbn [c_secrets c_accounts c_controllers].
  rewrite Hregs, controllerOptions_defaults by done. done.
Qed.
End components.

(** ** The process *)
Section process.
Context `{B : TokenBucket} `{!TokenBucketLaws B} `{RangeOrder} `{D : DNSValidation} `{!DNSValidationLaws D}
  `{YAML} `{F : FloatParser}.

(** The calls of [run] that leave the program succeed. *)
Record Startup_ok (env : Environment) (o : commandOptions) : Prop := {
  config_loaded : loadRESTConfig env (kubeconfig o) = Ok tt;
  scheme_added : AddToScheme env = Ok tt;
  client_built : bootstrap_client env = Ok tt;
  ConfigMap_read : get_ConfigMap env (DefaultControllerNamespace, DefaultConfigMapName) = Err NotFound ∨
    is_ok (get_ConfigMap env (DefaultControllerNamespace, DefaultConfigMapName)) = true;
  certificate_loads : metricsSecure o = true → metricsAddress o ≠ "0" → metricsCertDir o ≠ "" →
    load_key_pair env (metricsCertDir o) = Ok tt;
  manager_made : NewManager env = Ok tt;
  wiring : Wiring_ok env;
  started : Start env = Ok tt
}.

(** Flags that pass the command line and not [ServerOptions]. *)
Definition certificate_missing (o : commandOptions) : bool :=
  metricsSecure o && negb (bool_decide (metricsAddress o = "0")) && bool_decide (metricsCertDir o = "").

Lemma ServerOptions_startup env o : Startup_ok env o →
  if certificate_missing o
  then ServerOptions (metricsAddress o) (metricsSecure o) (metricsCertDir o) (load_key_pair env)
    = Err "secure metrics requires --metrics-cert-dir containing tls.crt and tls.key"
  else ∃ s, ServerOptions (metricsAddress o) (metricsSecure o) (metricsCertDir o) (load_key_pair env) = Ok s.
Proof.
  intros Hstart. pose proof (certificate_loads env o Hstart) as Hload.
  unfold certificate_missing, ServerOptions. destruct (metricsSecure o); cbn [negb orb andb]; [|eauto].
  destruct (bool_decide_reflect (metricsAddress o = "0")); cbn [negb andb]; [eauto|].
  destruct (bool_decide_reflect (metricsCertDir o = "")) as [|Hdir]; [done|].
  rewrite (Hload eq_refl) by done. eauto.
Qed.

Lemma bootstrap_valid env f : valid_settings f → bootstrap_client env = Ok tt →
  get_ConfigMap env (DefaultControllerNamespace, DefaultConfigMapName) = Err NotFound ∨
    is_ok (get_ConfigMap env (DefaultControllerNamespace, DefaultConfigMapName)) = true →
  ∃ r, bootstrap env f = Ok r.
Proof.
  intros Hf Hc Hg. unfold bootstrap, Bootstrap. rewrite Hc.
  destruct (get_ConfigMap env _) as [data|e].
  - destruct (runtimeFromConfigMap_valid (Some data) f Hf) as (r & -> & _). eauto.
  - destruct Hg as [[= ->]|]; [|done]. destruct (runtimeFromConfigMap_valid None f Hf) as (r & -> & _). eauto.
Qed.

Lemma bootstrap_inv env f r : valid_settings f → bootstrap env f = Ok r → runtime_inv r ∧ fallback r = f.
Proof.
  intros Hf. unfold bootstrap, Bootstrap. destruct (bootstrap_client env); [|done].
  assert (∀ cm, (match runtimeFromConfigMap cm f with Ok r => Ok r | Err e => Err (BootstrapSettings e) end
    : result bootstrap_error Runtime) = Ok r → runtime_inv r ∧ fallback r = f) as Hfin.
  { intros cm. destruct (runtimeFromConfigMap_valid cm f Hf) as (r' & -> & ? & ? & _). by intros [= <-]. }
  destruct (get_ConfigMap env _) as [data|[]]; [apply Hfin|apply Hfin|done..].
Qed.

Lemma ServerOptions_spec address secure dir load s : ServerOptions address secure dir load = Ok s →
  BindAddress s = address ∧ authenticated s = SecureServing s ∧
  (SecureServing s = true ↔ secure = true ∧ address ≠ "0").
Proof.
  unfold ServerOptions. destruct secure; cbn [negb orb]; [|intros [= <-]; naive_solver].
  destruct (bool_decide_reflect (address = "0")); [intros [= <-]; naive_solver|].
  destruct (bool_decide _); [done|]. destruct (load dir); [|done]. intros [= <-]; naive_solver.
Qed.

(** C22.  Of the options that the command line accepts only one combination is
    refused later: metrics that are to be secured and served, without a
    certificate directory.  With any other, when the calls that leave the program
    succeed and the ConfigMap is missing or holds anything, valid or not, the
    process starts.  A process that starts watches, reads and writes one set of
    names, runs the resolved worker counts, and serves metrics without
    authentication only when not asked to secure them. *)
Theorem startup_correct env args o :
  parseCommandOptions args = Ok o →
  (default_names_valid → Startup_ok env o →
   if certificate_missing o
   then run env o = Err (MetricsServerFailed "secure metrics requires --metrics-cert-dir containing tls.crt and tls.key")
   else ∃ p, run env o = Ok (Some p)) ∧
  ∀ p, run env o = Ok (Some p) →
    runtime_inv (p_runtime p) ∧ fallback (p_runtime p) = fallback_settings o ∧
    wired_names (Cache (p_manager p)) (p_components p) ∧
    wired_controllers (rt_current (p_runtime p)) (p_components p) ∧
    validate (c_scheduler (p_components p)).1 = Ok tt ∧
    (let m := Metrics_options (p_manager p) in
     authenticated m = SecureServing m ∧
     (SecureServing m = true ↔ metricsSecure o = true ∧ BindAddress m ≠ "0")).
Proof.
  intros Hparse. apply parseCommandOptions_valid in Hparse as [Hf _]. split.
  - intros Hd Hok. pose proof (ServerOptions_startup env o Hok) as Hserver.
    destruct Hok as [Hcfg Hsch Hcl Hcm _ Hman Hwire Hstart]. unfold run, unless_cancelled.
    rewrite Hcfg, Hsch. cbn [step mbind result_bind].
    destruct (bootstrap_valid env _ Hf Hcl Hcm) as [r Hr]. rewrite Hr.
    destruct (bootstrap_inv env _ r Hf Hr) as [(_ & (_ & _ & Hn & Ha) & _) _].
    destruct (controllerOptions_valid _ Hd Hn Ha) as [_ ->]. cbn [wrap mbind result_bind].
    destruct (certificate_missing o); [by rewrite Hserver|]. destruct Hserver as [s ->].
    cbn [wrap mbind result_bind]. rewrite Hman. cbn [step mbind result_bind].
    destruct (components_ok env (MkSchedulerOptions 0 0 0 0 0) (rt_current r)) as [c ->]; [done..|].
    cbn [mbind result_bind]. rewrite Hstart. cbn [step mbind result_bind]. eauto.
  - intros p Hrun. unfold run in Hrun. inv_run Hrun. unfold unless_cancelled in Hrun.
    destruct (bootstrap env (fallback_settings o)) as [r|e] eqn:Hr; [|by destruct e as [|[]|], (context_canceled env)].
    destruct (bootstrap_inv env _ r Hf Hr) as [Hinv Hfb]. pose proof Hinv as (_ & (_ & _ & Hn & Ha) & _).
    inv_run Hrun. injection Hrun as <-. cbn [p_runtime p_manager p_components Cache Metrics_options].
    unfold wrap in E1. destruct (NewCacheOptions _) as [cache|] eqn:Hcache; [|done]. injection E1 as <-.
    unfold wrap in E2. destruct (ServerOptions _ _ _ _) as [so|] eqn:Hso; [|done]. injection E2 as <-.
    destruct (components_wired env _ _ _ cache E4 Hcache Hn Ha) as (Hnames & Hctl & _ & Hval).
    apply ServerOptions_spec in Hso as (<- & Hauth & Hsec). done.
Qed.
End process.

(** ** Examples *)
Module ControllerMainExample.
Import ParserExample KubeclientExample.
#[local] Existing Instance bucket_pair.
#[local] Existing Instance bucket_pair_laws.

Definition args : list string :=
  ["--kube-api-burst=0x10"; "-leader-elect=false"; "--metrics-secure"; "-metrics-cert-dir"; "/certs";
   "--kube-api-qps"; "25"; "-max-concurrent-namespace-reconciles=3"; "--"].
Definition options : commandOptions :=
  MkCommandOptions true "/certs" "info" "" ":8080" ":8081" false DefaultKubeAPIQPS 16 3 8.
Definition env : Environment :=
  MkEnvironment (λ _, Ok tt) (Ok tt) (Ok tt) (λ _, Ok data) false
    (λ dir, if bool_decide (dir = "/certs") then Ok tt else Err "no pair") (Ok tt) (Ok tt)
    (λ _, Ok tt) (λ _, Ok tt) (λ _, Ok tt) (Ok tt).

Lemma parse_args : parseCommandOptions args = Ok options.
Proof. vm_compute. reflexivity. Qed.
Example parse_positional : parseCommandOptions ["-metrics-secure"; "true"] = Err (PositionalArguments ["true"]).
Proof. vm_compute. reflexivity. Qed.
Example parse_help : main_exit ["-leader-elect=0"; "-h"] (λ _, false) = 0.
Proof. vm_compute. reflexivity. Qed.

Example no_certificate : certificate_missing options = false ∧
  (certificate_missing <$> (match parseCommandOptions ["--metrics-secure"] with Ok o => Some o | Err _ => None end)) = Some true.
Proof. vm_compute. done. Qed.

Lemma names_valid : default_names_valid.
Proof. vm_compute. done. Qed.
Lemma env_ok : Startup_ok env options.
Proof. split; (done || by right || by split). Qed.

Lemma startup_correct_witness :
  parseCommandOptions args = Ok options ∧ default_names_valid ∧ Startup_ok env options ∧
  ∃ p, run env options = Ok (Some p).
Proof.
  split; [exact parse_args|]. split; [exact names_valid|]. split; [exact env_ok|].
  exact (proj1 (startup_correct env args options parse_args) names_valid env_ok).
Defined.
End ControllerMainExample.
