(* ===== verification/E2E.v ===== *)
(** * The end-to-end controller (cmd/e2e-controller)

    The mock token provider, whose calls run concurrently on two atomic
    counters; the endpoint that moves the fake clock; and the process, which is
    the controller's with these two in place of the real ones. *)
From S2P Require Import Prelude GoStrings Validation ConfigTypes ConfigParser ConfigStore Rfc3339 Credential.
From S2P Require Import CredentialCorrect Scheduler Kube Kubeclient Controller Metrics GoDuration GoFlag ControllerMain.
From Stdlib Require Import SpecFloat.
Local Open Scope Z_scope.

(** ** The mock token provider (main.go)

    A call is at one of these points; [call] is the number it took. *)
Inductive call_outcome :=
| ContextError
| IntentionalFailure
| Issued (token : Token).
Inductive call_state :=
| Arriving
| Counted (call : Z)
| Loaded (call remaining : Z)
| Answered (call : option Z) (outcome : call_outcome).

Record mockTokenProvider := MkMockTokenProvider {
  calls : Z;
  remainingFailures : Z;
  in_calls : list call_state
}.
Definition newMockTokenProvider (failures : Z) (clients : nat) : mockTokenProvider :=
  MkMockTokenProvider 0 failures (replicate clients Arriving).

Definition mock_password (providerID : string) (call : Z) : string :=
  "mock-token-" +:+ providerID +:+ "-" +:+ of_bytes (decimal 20 call).
Definition mock_token (providerID : string) (ttl : Duration) (call : Z) (now : Time) : Token :=
  MkToken "mock-user" (mock_password providerID call) (time_Add now ttl).

Section provider.
Context (providerID : string) (tokenTTL : Duration).

(** The next atomic action of call [i]: [ended] is whether its context is done,
    [now] the clock. *)
Definition call_step (p : mockTokenProvider) (i : nat) (ended : bool) (now : Time) : mockTokenProvider :=
  let set c := <[i := c]> (in_calls p) in
  match in_calls p !! i with
  | Some Arriving =>
    if ended then MkMockTokenProvider (calls p) (remainingFailures p) (set (Answered None ContextError))
    else let call := u64_succ (calls p) in
         MkMockTokenProvider call (remainingFailures p) (set (Counted call))
  | Some (Counted call) =>
    MkMockTokenProvider (calls p) (remainingFailures p) (set (Loaded call (remainingFailures p)))
  | Some (Loaded call remaining) =>
    if remaining =? 0 then
      MkMockTokenProvider (calls p) (remainingFailures p)
        (set (Answered (Some call) (Issued (mock_token providerID tokenTTL call now))))
    else if remainingFailures p =? remaining then
      MkMockTokenProvider (calls p) (remaining - 1) (set (Answered (Some call) IntentionalFailure))
    else MkMockTokenProvider (calls p) (remainingFailures p) (set (Counted call))
  | Some (Answered _ _) | None => p
  end.

Definition run_calls (p : mockTokenProvider) (schedule : list (nat * bool * Time)) : mockTokenProvider :=
  foldl (λ p '(i, ended, now), call_step p i ended now) p schedule.
End provider.

(** ** The clock endpoint (clock_control.go)

    The fake clock is a third-party value. *)
Class FakeClock := {
  fake_clock : Type;
  clock_Now : fake_clock → Time;
  clock_Step : fake_clock → Duration → fake_clock
}.
Class FakeClockLaws (C : FakeClock) : Prop :=
  Now_Step c d : clock_Now (clock_Step c d) = time_Add (clock_Now c) d.

Definition maximumClockAdvance : Duration := 7 * 24 * Hour.

Record AdvanceReply := MkAdvanceReply { advancedBy : string; before : Time; after : Time }.

(** [POST /advance] with the duration of the query: the reply, or none for a
    bad request, and the clock.  One request at a time: the server may interleave
    requests, and then the instants of a reply may include another's step. *)
Definition handle_advance `{FakeClock} (c : fake_clock) (query : string) : option AdvanceReply * fake_clock :=
  match ParseDuration query with
  | None => (None, c)
  | Some duration =>
    if (duration <=? 0) || (maximumClockAdvance <? duration) then (None, c)
    else
      let c' := clock_Step c duration in
      (Some (MkAdvanceReply (Duration_String duration) (clock_Now c) (clock_Now c')), c')
  end.

(** ** The process (main.go) *)
Definition defaultMockTokenTTL : Duration := 30 * Second.
Definition defaultRefreshBefore : Duration := 10 * Second.

Record e2eOptions := MkE2EOptions {
  e_logLevel : string;
  e_metricsAddress : string;
  e_healthAddress : string;
  e_leaderElection : bool;
  e_allowMock : bool;
  e_mockTokenTTL : Duration;
  e_refreshBefore : Duration;
  e_mockFailures : Z;
  e_clockControl : string;
  e_settings : Settings;
  e_kubeconfig : string
}.

(** The kubeconfig flag is the one controller-runtime declares. *)
Definition e2e_flags : flag_values := list_to_map [
  ("kubeconfig", StringValue "");
  ("log-level", StringValue "info");
  ("metrics-bind-address", StringValue ":8080");
  ("health-probe-bind-address", StringValue ":8081");
  ("leader-elect", BoolValue true);
  ("allow-mock-provider", BoolValue false);
  ("mock-token-ttl", DurationValue defaultMockTokenTTL);
  ("credential-refresh-before", DurationValue defaultRefreshBefore);
  ("mock-initial-failures", Uint64Value 0);
  ("mock-clock-control-address", StringValue "");
  ("kube-api-qps", Float64Value DefaultKubeAPIQPS);
  ("kube-api-burst", IntValue DefaultKubeAPIBurst);
  ("max-concurrent-namespace-reconciles", IntValue DefaultMaxConcurrentNamespaceReconciles);
  ("max-concurrent-service-account-reconciles", IntValue DefaultMaxConcurrentServiceAccountReconciles)].

Definition e2e_options_of (v : flag_values) : e2eOptions :=
  MkE2EOptions (string_var v "log-level") (string_var v "metrics-bind-address")
    (string_var v "health-probe-bind-address") (bool_var v "leader-elect") (bool_var v "allow-mock-provider")
    (duration_var v "mock-token-ttl") (duration_var v "credential-refresh-before")
    (int_var v "mock-initial-failures") (string_var v "mock-clock-control-address")
    (MkSettings (float_var v "kube-api-qps") (int_var v "kube-api-burst")
       (int_var v "max-concurrent-namespace-reconciles")
       (int_var v "max-concurrent-service-account-reconciles"))
    (string_var v "kubeconfig").

Inductive e2e_problem :=
| E2EFlags (e : flag_error)
| E2ELogLevel (message : string)
| MockNotAllowed
| TTLNotAboveRefreshBefore (ttl refreshBefore : Duration)
| E2EQPS
| E2EBurst (n : Z)
| E2ENamespaceReconciles (n : Z)
| E2EServiceAccountReconciles (n : Z)
| E2ERun (e : run_error).

(** The checks of [run] before it calls anything. *)
Definition e2e_options `{FloatParser} (args : list string) : result e2e_problem e2eOptions :=
  match Parse_flags e2e_flags args with
  | Err e => Err (E2EFlags e)
  | Ok (v, _) =>
    let o := e2e_options_of v in
    match LogLevel (e_logLevel o) with
    | Err m => Err (E2ELogLevel m)
    | Ok _ =>
      if negb (e_allowMock o) then Err MockNotAllowed
      else if e_mockTokenTTL o <=? e_refreshBefore o
      then Err (TTLNotAboveRefreshBefore (e_mockTokenTTL o) (e_refreshBefore o))
      else if negb (ValidateQPS (QPS (e_settings o))) then Err E2EQPS
      else if set_Burst (e_settings o) <? 1 then Err (E2EBurst (set_Burst (e_settings o)))
      else if NamespaceWorkers (e_settings o) <? 1 then Err (E2ENamespaceReconciles (NamespaceWorkers (e_settings o)))
      else if ServiceAccountWorkers (e_settings o) <? 1
      then Err (E2EServiceAccountReconciles (ServiceAccountWorkers (e_settings o)))
      else Ok o
    end
  end.

Definition e2e_scheduler_options (o : e2eOptions) : SchedulerOptions :=
  MkSchedulerOptions (e_refreshBefore o) (5 * Second) DefaultWorkerCount Second (5 * Second).

Section run.
Context `{TokenBucket, RangeOrder, DNSValidation, YAML, FloatParser}.

Definition e2e_run (env : Environment) (args : list string) : result e2e_problem (option Process) :=
  match e2e_options args with
  | Err e => Err e
  | Ok o =>
    match
      (_ ← step "load Kubernetes client configuration" (loadRESTConfig env (e_kubeconfig o));
       _ ← step "register Kubernetes scheme" (AddToScheme env);
       unless_cancelled env (bootstrap env (e_settings o)) (λ runtimeSettings,
       let controllers := controllerOptions (rt_current runtimeSettings) in
       cache ← wrap CacheFailed (NewCacheOptions controllers);
       _ ← step "create controller manager" (NewManager env);
       let manager := MkManagerOptions "kubernetes-registry-secret-controller-e2e"
         (to_float32 (QPS (e_settings o))) (set_Burst (e_settings o)) cache (e_leaderElection o)
         "kubernetes-registry-secret-controller-e2e" DefaultControllerNamespace true
         (MkServerOptions (e_metricsAddress o) false "" false) (e_healthAddress o) (10 * Second) in
       _ ← (if bool_decide (e_clockControl o = "") then Ok tt
            else step "register mock clock control server" (Add env "mock clock control"));
       c ← components env (e2e_scheduler_options o) controllers;
       _ ← step "run controller manager" (Start env);
       Ok (Some (MkProcess manager runtimeSettings c))))
    with
    | Ok p => Ok p
    | Err e => Err (E2ERun e)
    end
  end.
(** [main]: the exit status.  The flags of the command line exit by themselves. *)
Definition e2e_main (env : Environment) (args : list string) : Z :=
  match e2e_run env args with
  | Err (E2EFlags ErrHelp) => 0
  | Err (E2EFlags _) => 2
  | Err _ => 1
  | Ok _ => 0
  end.
End run.
