(* ===== verification/E2ECorrect.v ===== *)
(** * Correctness of the end-to-end controller *)
From S2P Require Import Prelude GoStrings Validation ConfigTypes ConfigParser ConfigParserCorrect ConfigStore Rfc3339.
From S2P Require Import Credential CredentialCorrect Scheduler Kube Kubeclient KubeclientCorrect Controller Metrics.
From S2P Require Import GoDuration GoDurationTheory GoFlag ControllerMain ControllerMainCorrect E2E.
Local Open Scope Z_scope.

(** ** Sums over the calls *)
Definition total (f : call_state → Z) (l : list call_state) : Z := foldr (λ c n, f c + n) 0 l.

Lemma total_insert f l i c c' : l !! i = Some c → total f (<[i := c']> l) = total f l - f c + f c'.
Proof.
  revert i. induction l as [|x l IH]; intros [|i] Hi; try done; simpl in *.
  - injection Hi as ->. lia.
  - rewrite (IH i Hi). lia.
Qed.
Lemma total_replicate f n c : total f (replicate n c) = Z.of_nat n * f c.
Proof. induction n as [|n IH]; simpl replicate; simpl total; [done|rewrite IH; lia]. Qed.
Lemma total_le f g l : Forall (λ c, f c <= g c) l → total f l <= total g l.
Proof. induction 1; simpl; lia. Qed.
Lemma total_zero l : total (λ _, 0) l = 0.
Proof. induction l; simpl; lia. Qed.
Lemma total_one l : total (λ _, 1) l = Z.of_nat (length l).
Proof. induction l; simpl length; simpl total; lia. Qed.
Lemma total_plus f g l : total (λ c, f c + g c) l = total f l + total g l.
Proof. induction l; simpl; lia. Qed.

Definition is_failed (c : call_state) : Z := match c with Answered _ IntentionalFailure => 1 | _ => 0 end.
Definition is_cancelled (c : call_state) : Z := match c with Answered _ ContextError => 1 | _ => 0 end.
Definition is_issued (c : call_state) : Z := match c with Answered _ (Issued _) => 1 | _ => 0 end.
Definition answered (c : call_state) : Prop := match c with Answered _ _ => True | _ => False end.
Definition number (c : call_state) : option Z :=
  match c with Arriving => None | Counted k | Loaded k _ => Some k | Answered k _ => k end.
Definition numbered (c : call_state) : Z := match number c with Some _ => 1 | None => 0 end.

Section provider.
Context (id : string) (ttl : Duration).

(** What a call knows of the counters. *)
Definition call_ok (calls remaining : Z) (c : call_state) : Prop :=
  match c with
  | Arriving | Answered None ContextError => True
  | Counted k | Answered (Some k) IntentionalFailure => 1 <= k <= calls
  | Loaded k r => 1 <= k <= calls ∧ remaining <= r
  | Answered (Some k) (Issued t) => 1 <= k <= calls ∧ remaining = 0 ∧ ∃ now, t = mock_token id ttl k now
  | Answered _ _ => False
  end.

Lemma call_ok_mono n r n' r' c : n <= n' → 0 <= r' <= r → call_ok n r c → call_ok n' r' c.
Proof.
  destruct c as [|k|k r0|[k|] [| |t]]; simpl; try lia; try done. intros ? ? (? & ? & ?). split_and!; (lia || done).
Qed.

Record provider_inv (failures : Z) (clients : nat) (p : mockTokenProvider) : Prop := {
  inv_len : length (in_calls p) = clients;
  inv_rem : 0 <= remainingFailures p;
  inv_failed : total is_failed (in_calls p) + remainingFailures p = failures;
  inv_calls : calls p = total numbered (in_calls p);
  inv_ok : Forall (call_ok (calls p) (remainingFailures p)) (in_calls p);
  inv_uniq i j c d k : in_calls p !! i = Some c → in_calls p !! j = Some d →
    number c = Some k → number d = Some k → i = j
}.

Lemma numbered_le c : 0 <= numbered c <= 1.
Proof. unfold numbered. destruct (number c); lia. Qed.

Lemma provider_inv_init failures clients : 0 <= failures →
  provider_inv failures clients (newMockTokenProvider failures clients).
Proof.
  intros Hf. split; simpl; rewrite ?total_replicate, ?length_replicate; try (done || (unfold numbered; simpl; lia)).
  - by apply Forall_replicate.
  - intros i j c d k [-> _]%lookup_replicate_1 _ Hk. done.
Qed.

(** A call moves on, the counters and the other calls permitting. *)
Lemma provider_inv_update failures clients p i c c' n r :
  provider_inv failures clients p → in_calls p !! i = Some c →
  calls p <= n → 0 <= r <= remainingFailures p →
  is_failed c' - is_failed c = remainingFailures p - r →
  n - calls p = numbered c' - numbered c →
  call_ok n r c' →
  (number c' = number c ∨ ∃ k, number c' = Some k ∧ calls p < k) →
  provider_inv failures clients (MkMockTokenProvider n r (<[i := c']> (in_calls p))).
Proof.
  intros [Hlen Hrem Hfail Hcalls Hok Huniq] Hi Hn Hr Hfc Hnc Hc' Hnum.
  split; cbn [calls remainingFailures in_calls].
  - by rewrite length_insert.
  - lia.
  - rewrite (total_insert _ _ _ c) by done. lia.
  - rewrite (total_insert _ _ _ c) by done. lia.
  - apply Forall_insert; [|done]. eapply Forall_impl; [exact Hok|]. intros d. by apply call_ok_mono.
  - assert (∀ j d k, i ≠ j → in_calls p !! j = Some d → number d = Some k → number c' ≠ Some k) as Hne.
    { intros j d k Hij Hj Hd Hk. destruct Hnum as [Heq|(k' & Heq & Hlt)].
      - apply Hij. apply (Huniq i j c d k); congruence.
      - rewrite Forall_lookup in Hok. specialize (Hok j d Hj). rewrite Hk in Heq. injection Heq as <-.
        destruct d as [|x|x y|[x|] [| |t]]; simpl in *; simplify_eq; lia. }
    assert (∀ b y, <[i := c']> (in_calls p) !! b = Some y → b = i ∧ y = c' ∨ i ≠ b ∧ in_calls p !! b = Some y) as Hcase.
    { intros b y [(-> & -> & _)|[? ?]]%list_lookup_insert_Some; eauto. }
    intros a b x y k Ha Hb Hx Hy.
    destruct (Hcase a x Ha) as [[-> ->]|[Hia Ha']], (Hcase b y Hb) as [[-> ->]|[Hib Hb']]; [done| | |].
    + by destruct (Hne b y k).
    + by destruct (Hne a x k).
    + by eapply Huniq.
Qed.

Lemma call_step_inv failures clients p i ended now :
  provider_inv failures clients p → Z.of_nat clients < u64_modulus →
  provider_inv failures clients (call_step id ttl p i ended now).
Proof.
  intros Hp Hsmall. unfold call_step. destruct (in_calls p !! i) as [c|] eqn:Hi; [|done].
  pose proof (inv_rem _ _ _ Hp) as Hrem. pose proof (inv_ok _ _ _ Hp) as Hok.
  rewrite Forall_lookup in Hok. specialize (Hok i c Hi).
  destruct c as [|k|k r|]; [| | |done]; cbv zeta.
  - destruct ended.
    { apply (provider_inv_update _ _ _ _ _ _ _ _ Hp Hi); unfold numbered; simpl; (lia || done || by left). }
    assert (calls p + 1 <= Z.of_nat clients) as Hlt.
    { rewrite (inv_calls _ _ _ Hp), <-(inv_len _ _ _ Hp), <-total_one.
      assert (total numbered (<[i := Counted 0]> (in_calls p)) <= total (λ _, 1) (<[i := Counted 0]> (in_calls p))) as H1.
      { apply total_le, Forall_forall. intros. apply numbered_le. }
      rewrite !(total_insert _ _ _ Arriving) in H1 by done. simpl in H1. unfold numbered in *. simpl in *. lia. }
    pose proof (total_le (λ _, 0) numbered (in_calls p)) as Hpos. rewrite total_zero in Hpos.
    rewrite <-(inv_calls _ _ _ Hp) in Hpos. specialize (Hpos ltac:(apply Forall_forall; intros; apply numbered_le)).
    assert (u64_succ (calls p) = calls p + 1) as -> by (unfold u64_succ; apply Z.mod_small; lia).
    apply (provider_inv_update _ _ _ _ _ _ _ _ Hp Hi); simpl; unfold numbered; simpl; try lia.
    right. exists (calls p + 1). split; [done|lia].
  - simpl in Hok. apply (provider_inv_update _ _ _ _ _ _ _ _ Hp Hi); simpl; unfold numbered; simpl; try lia. by left.
  - simpl in Hok. destruct (Z.eqb_spec r 0) as [->|Hr].
    { apply (provider_inv_update _ _ _ _ _ _ _ _ Hp Hi); simpl; unfold numbered; simpl; try lia; [|by left].
      split; [lia|]. split; [lia|]. by exists now. }
    destruct (Z.eqb_spec (remainingFailures p) r).
    + apply (provider_inv_update _ _ _ _ _ _ _ _ Hp Hi); simpl; unfold numbered; simpl; try lia. by left.
    + apply (provider_inv_update _ _ _ _ _ _ _ _ Hp Hi); simpl; unfold numbered; simpl; try lia. by left.
Qed.

Lemma run_calls_inv failures clients p schedule :
  provider_inv failures clients p → Z.of_nat clients < u64_modulus →
  provider_inv failures clients (run_calls id ttl p schedule).
Proof.
  intros Hp Hs. revert p Hp. induction schedule as [|[[i e] t] s IH]; intros p Hp; [done|].
  apply IH. by apply call_step_inv.
Qed.
End provider.

(** ** Passwords *)
Lemma mock_password_inj id a b : 0 <= a < u64_modulus → 0 <= b < u64_modulus →
  mock_password id a = mock_password id b → a = b.
Proof.
  intros Ha Hb Heq. unfold mock_password in Heq.
  assert (∀ x y : string, ∀ s, s +:+ x = s +:+ y → x = y) as Hinj.
  { intros x y s. induction s as [|c s IH]; simpl; [done|]. intros [= ?]. by apply IH. }
  apply Hinj, Hinj, Hinj in Heq. unfold u64_modulus in *.
  apply decimal_inj; [lia|lia|]. by rewrite <-(to_of_bytes (decimal 20 a)), Heq, to_of_bytes.
Qed.

(** ** Retries *)
Definition call_fuel (remaining : Z) (c : call_state) : Z :=
  match c with
  | Arriving => 2 * remaining + 3
  | Counted _ => 2 * remaining + 2
  | Loaded _ r => 2 * r + 1
  | Answered _ _ => 0
  end.

(** A schedule whose every action is of a call that has not answered. *)
Fixpoint acts (id : string) (ttl : Duration) (p : mockTokenProvider) (schedule : list (nat * bool * Time)) : Prop :=
  match schedule with
  | [] => True
  | (i, ended, now) :: schedule =>
    (∃ c, in_calls p !! i = Some c ∧ ¬ answered c) ∧ acts id ttl (call_step id ttl p i ended now) schedule
  end.

Definition fuel (p : mockTokenProvider) : Z := total (call_fuel (remainingFailures p)) (in_calls p).

Lemma call_step_fuel id ttl failures clients p i ended now :
  provider_inv id ttl failures clients p → (∃ c, in_calls p !! i = Some c ∧ ¬ answered c) →
  fuel (call_step id ttl p i ended now) < fuel p.
Proof.
  intros Hp (c & Hi & Hc). pose proof (inv_rem _ _ _ _ _ Hp) as Hrem. pose proof (inv_ok _ _ _ _ _ Hp) as Hok.
  rewrite Forall_lookup in Hok. specialize (Hok i c Hi).
  assert (∀ r c', r <= remainingFailures p → call_fuel r c' < call_fuel (remainingFailures p) c →
    ∀ n, fuel (MkMockTokenProvider n r (<[i := c']> (in_calls p))) < fuel p) as Hdec.
  { intros r c' Hr Hlt n. unfold fuel. cbn [remainingFailures in_calls]. rewrite (total_insert _ _ _ c) by done.
    assert (total (call_fuel r) (in_calls p) + call_fuel (remainingFailures p) c - call_fuel r c
      <= total (call_fuel (remainingFailures p)) (in_calls p)); [|lia].
    rewrite <-(list_insert_id _ _ _ Hi) at 1. rewrite (total_insert _ _ _ c) by done.
    assert (∀ d, call_fuel r d <= call_fuel (remainingFailures p) d) as Hmono by (intros []; simpl; lia).
    clear -Hi Hmono. revert i Hi. induction (in_calls p) as [|x l IH]; intros [|i] Hi; try done; simpl in *.
    - injection Hi as ->. assert (total (call_fuel r) l <= total (call_fuel (remainingFailures p)) l); [|lia].
      apply total_le, Forall_forall. intros; apply Hmono.
    - specialize (IH i Hi). specialize (Hmono x). lia. }
  unfold call_step. rewrite Hi. cbv zeta. destruct c as [|k|k r|]; [| | |by destruct Hc].
  - destruct ended; apply Hdec; simpl; lia.
  - apply Hdec; simpl; lia.
  - simpl in Hok. destruct (Z.eqb_spec r 0); [apply Hdec; simpl; lia|].
    destruct (Z.eqb_spec (remainingFailures p) r); apply Hdec; simpl; lia.
Qed.

Lemma acts_bounded id ttl failures clients p schedule :
  provider_inv id ttl failures clients p → Z.of_nat clients < u64_modulus → acts id ttl p schedule →
  Z.of_nat (length schedule) + fuel (run_calls id ttl p schedule) <= fuel p.
Proof.
  intros Hp Hs. revert p Hp. induction schedule as [|[[i e] t] s IH]; intros p Hp Ha; [simpl; lia|].
  destruct Ha as [Hi Ha]. pose proof (call_step_fuel id ttl _ _ p i e t Hp Hi) as Hdec.
  apply (IH _ (call_step_inv id ttl _ _ _ i e t Hp Hs)) in Ha.
  change (run_calls id ttl p ((i, e, t) :: s)) with (run_calls id ttl (call_step id ttl p i e t) s).
  simpl length. lia.
Qed.

(** C23.  The mock provider under concurrent calls, whatever their interleaving
    on the atomic counters: exactly the configured number of calls fail (all of
    them, when fewer arrive), no token is issued before that, no two tokens have
    the same password, and the compare-and-swap loop ends. *)
Theorem mock_provider_correct id ttl failures clients schedule :
  0 <= failures → Z.of_nat clients < u64_modulus →
  let p := run_calls id ttl (newMockTokenProvider failures clients) schedule in
  total is_failed (in_calls p) + remainingFailures p = failures ∧
  (0 < total is_issued (in_calls p) → total is_failed (in_calls p) = failures) ∧
  (Forall answered (in_calls p) →
    total is_failed (in_calls p) = Z.min failures (Z.of_nat clients - total is_cancelled (in_calls p))) ∧
  (∀ i j a b t u, in_calls p !! i = Some (Answered a (Issued t)) → in_calls p !! j = Some (Answered b (Issued u)) →
    i ≠ j → tok_Password t ≠ tok_Password u) ∧
  (acts id ttl (newMockTokenProvider failures clients) schedule →
    Z.of_nat (length schedule) <= Z.of_nat clients * (2 * failures + 3)).
Proof.
  intros Hf Hs p. pose proof (provider_inv_init id ttl failures clients Hf) as H0.
  assert (provider_inv id ttl failures clients p) as Hp by by apply run_calls_inv.
  pose proof Hp as [Hlen Hrem Hfail Hcalls Hok Huniq].
  assert (0 < total is_issued (in_calls p) → remainingFailures p = 0) as Hiss.
  { clear -Hok. induction Hok as [|c l Hc Hl IH]; simpl; [lia|]. intros Hpos.
    destruct c as [| | |[k|] [| |t]]; simpl in *; try (by apply IH); try done. by destruct Hc as (_ & ? & _). }
  split; [done|]. split; [intros Hpos; specialize (Hiss Hpos); lia|]. split; [|split].
  - intros Hall.
    assert (total is_failed (in_calls p) + total is_cancelled (in_calls p) + total is_issued (in_calls p)
      = Z.of_nat clients) as Hsum.
    { rewrite <-Hlen, <-total_one, <-!total_plus. clear -Hall. induction Hall as [|c l Hc _ IH]; simpl; [done|].
      destruct c as [| | |k [| |t]]; simpl in *; try done; lia. }
    assert (0 <= total is_issued (in_calls p)) as Hnn.
    { rewrite <-(total_zero (in_calls p)). apply total_le, Forall_forall. by intros [| | |? []] _. }
    destruct (Z.eq_dec (total is_issued (in_calls p)) 0); [|specialize (Hiss ltac:(lia))]; lia.
  - intros i j a b t u Hi Hj Hij Heq. pose proof Hok as Hok'. rewrite Forall_lookup in Hok'.
    pose proof (Hok' i _ Hi) as Ha. pose proof (Hok' j _ Hj) as Hb. simpl in Ha, Hb.
    destruct a as [a|], b as [b|]; [|done..].
    destruct Ha as (Ha & _ & now1 & ->), Hb as (Hb & _ & now2 & ->). apply Hij.
    assert (calls p <= Z.of_nat clients) as Hle.
    { rewrite Hcalls, <-Hlen, <-total_one. apply total_le, Forall_forall. intros. apply numbered_le. }
    apply (Huniq i j _ _ a Hi Hj); [done|]. simpl. f_equal.
    apply (mock_password_inj id) in Heq; (done || lia).
  - intros Ha. apply (acts_bounded _ _ failures clients) in Ha; [|done..]. fold p in Ha.
    assert (0 <= fuel p) as Hnn.
    { unfold fuel. rewrite <-(total_zero (in_calls p)). apply total_le. eapply Forall_impl; [exact Hok|].
      intros [|k|k r|]; simpl; lia. }
    unfold fuel in Ha at 2. simpl in Ha. rewrite total_replicate in Ha. simpl in Ha. lia.
Qed.

(** ** The clock *)

(** C25.  The clock endpoint never moves the clock backwards or by more than a
    week, its reply says what it did, and a duration sent as it prints (what the
    performance driver sends) moves the clock by exactly that duration, to the
    nanosecond, whenever it is in range. *)
Theorem clock_advance_correct `{C : FakeClock} `{!FakeClockLaws C} (c : fake_clock) (query : string) :
  (let '(reply, c') := handle_advance c query in
   match reply with
   | Some r => before r = clock_Now c ∧ after r = clock_Now c' ∧ 0 < after r - before r <= maximumClockAdvance ∧
       ParseDuration (advancedBy r) = Some (after r - before r)
   | None => c' = c
   end) ∧
  ∀ d, query = Duration_String d → 0 < d <= maximumClockAdvance →
    clock_Now (handle_advance c query).2 = clock_Now c + d ∧ is_Some (handle_advance c query).1.
Proof.
  assert (maximumClockAdvance <= max_int64) as Hmax by done.
  split.
  - unfold handle_advance. destruct (ParseDuration query) as [d|]; [|done].
    destruct (Z.leb_spec d 0); [done|]. destruct (Z.ltb_spec maximumClockAdvance d); [done|]. cbn [orb advancedBy before after].
    rewrite Now_Step. unfold time_Add. rewrite duration_roundtrip by (unfold min_int64; lia).
    replace (clock_Now c + d - clock_Now c) with d by lia. done.
  - intros d -> Hd. unfold handle_advance. rewrite duration_roundtrip by (unfold min_int64; lia).
    rewrite (proj2 (Z.leb_gt _ _)), (proj2 (Z.ltb_ge _ _)) by lia. cbn [orb fst snd].
    rewrite Now_Step. split; [done|by eexists].
Qed.

(** ** The process *)
Section process.
Context `{B : TokenBucket} `{!TokenBucketLaws B} `{RangeOrder} `{D : DNSValidation} `{!DNSValidationLaws D}
  `{YAML} `{F : FloatParser}.

Lemma e2e_options_inv args o : e2e_options args = Ok o →
  e_allowMock o = true ∧ e_refreshBefore o < e_mockTokenTTL o ∧ valid_settings (e_settings o).
Proof.
  unfold e2e_options. destruct (Parse_flags _ _) as [[v rest]|]; [|done].
  generalize (e2e_options_of v). intros op. destruct (LogLevel (e_logLevel op)); [|done].
  destruct (e_allowMock op) eqn:Ha; [|done]. cbn [negb].
  destruct (Z.leb_spec (e_mockTokenTTL op) (e_refreshBefore op)); [done|].
  destruct (ValidateQPS (QPS (e_settings op))) eqn:Hq; [|done]. cbn [negb].
  destruct (Z.ltb_spec (set_Burst (e_settings op)) 1); [done|].
  destruct (Z.ltb_spec (NamespaceWorkers (e_settings op)) 1); [done|].
  destruct (Z.ltb_spec (ServiceAccountWorkers (e_settings op)) 1); [done|].
  intros [= <-]. done.
Qed.

(** C24.  The fake provider runs only with the acknowledgement flag, and on the
    same wiring as the real process.  Its tokens are accepted by the scheduler's
    validity check exactly while more than the refresh window remains; when the
    window is given, they are accepted when issued.  A window of zero passes the
    command line's check but means the scheduler's default of five minutes, so
    shorter tokens are then never accepted. *)
Theorem e2e_tokens_accepted env args p :
  e2e_run env args = Ok (Some p) →
  ∃ o, e2e_options args = Ok o ∧ e_allowMock o = true ∧
    wired_names (Cache (p_manager p)) (p_components p) ∧
    wired_controllers (rt_current (p_runtime p)) (p_components p) ∧
    let refreshBefore := RefreshBefore (c_scheduler (p_components p)).1 in
    let token := mock_token "host" (e_mockTokenTTL o) in
    (∀ call issued now, validateToken (token call issued) now refreshBefore = Ok tt ↔
       now - issued < e_mockTokenTTL o - refreshBefore) ∧
    (e_refreshBefore o ≠ 0 → ∀ call now, validateToken (token call now) now refreshBefore = Ok tt) ∧
    (e_refreshBefore o = 0 → e_mockTokenTTL o <= DefaultRefreshBefore →
       ∀ call issued now, issued <= now → validateToken (token call issued) now refreshBefore ≠ Ok tt).
Proof.
  unfold e2e_run. destruct (e2e_options args) as [o|] eqn:Ho; [|done]. intros Hrun.
  match type of Hrun with match ?r with Ok _ => _ | Err _ => _ end = _ => destruct r as [q|] eqn:Hr; [|done] end.
  injection Hrun as ->. apply e2e_options_inv in Ho as Hinv. destruct Hinv as (Hmock & Httl & Hset).
  exists o. split; [done|]. split; [done|].
  inv_run Hr. unfold unless_cancelled in Hr.
  destruct (bootstrap env (e_settings o)) as [r|e] eqn:Hb; [|by destruct e as [|[]|], (context_canceled env)].
  destruct (bootstrap_inv env _ r Hset Hb) as [(_ & (_ & _ & Hn & Ha) & _) _].
  inv_run Hr. injection Hr as <-. cbn [p_runtime p_manager p_components Cache].
  unfold wrap in E1. destruct (NewCacheOptions _) as [cache|] eqn:Hcache; [|done]. injection E1 as <-.
  destruct (components_wired env _ _ _ cache E4 Hcache Hn Ha) as (Hnames & Hctl & Hsched & _).
  split; [done|]. split; [done|]. rewrite Hsched. cbv zeta.
  set (rb := RefreshBefore (Scheduler.withDefaults (e2e_scheduler_options o))).
  assert (rb = default_if_zero (e_refreshBefore o) DefaultRefreshBefore) as Hrb by done. clearbody rb.
  assert (∀ call issued now, validateToken (mock_token "host" (e_mockTokenTTL o) call issued) now rb = Ok tt ↔
    now - issued < e_mockTokenTTL o - rb) as Hval.
  { intros call issued now. unfold validateToken, mock_token, After, time_Add. cbn [tok_Username tok_Password tok_ExpiresAt].
    rewrite !bool_decide_false by done. destruct (Z.ltb_spec (now + rb) (issued + e_mockTokenTTL o)); cbn [negb];
      split; (done || lia). }
  unfold default_if_zero in Hrb. split; [done|]. split.
  - intros Hz call now. apply Hval. destruct (Z.eqb_spec (e_refreshBefore o) 0); [done|]. lia.
  - intros Hz Hle call issued now Hnow. rewrite Hval. rewrite Hz in Hrb. simpl in Hrb. lia.
Qed.
End process.

(** ** Examples *)
Module E2EExample.
Import ParserExample KubeclientExample ControllerMainExample.
#[local] Existing Instance bucket_pair.
#[local] Existing Instance bucket_pair_laws.
#[local] Instance clock_Z : FakeClock := {| fake_clock := Z; clock_Now c := c; clock_Step c d := c + d |}.
#[local] Instance clock_Z_laws : FakeClockLaws clock_Z.
Proof. by intros. Qed.

(** Two calls load the same count; the second retries and is answered a token. *)
Definition race : list (nat * bool * Time) :=
  [(0%nat, false, 0); (1%nat, false, 0); (0%nat, false, 0); (1%nat, false, 0); (0%nat, false, 0);
   (1%nat, false, 0); (1%nat, false, 0); (1%nat, false, 5)].
Example race_answers : in_calls (run_calls "h" 30 (newMockTokenProvider 1 2) race) =
  [Answered (Some 1) IntentionalFailure; Answered (Some 2) (Issued (MkToken "mock-user" "mock-token-h-2" 35))].
Proof. vm_compute. reflexivity. Qed.

Lemma mock_provider_correct_witness :
  0 <= 1 ∧ Z.of_nat 2 < u64_modulus ∧
  let p := run_calls "h" 30 (newMockTokenProvider 1 2) race in
  Forall answered (in_calls p) ∧
  total is_failed (in_calls p) = Z.min 1 (2 - total is_cancelled (in_calls p)).
Proof.
  assert (0 <= 1) as H1 by lia. assert (Z.of_nat 2 < u64_modulus) as H2 by (vm_compute; reflexivity).
  split; [exact H1|]. split; [exact H2|]. cbv zeta.
  assert (Forall answered (in_calls (run_calls "h" 30 (newMockTokenProvider 1 2) race))) as Ha
    by (vm_compute; repeat constructor).
  split; [exact Ha|].
  exact (proj1 (proj2 (proj2 (mock_provider_correct "h" 30 1 2 race H1 H2))) Ha).
Defined.

Example advance_50m : handle_advance (0 : fake_clock) "50m0s"
  = (Some (MkAdvanceReply "50m0s" 0 (50 * Minute)), 50 * Minute).
Proof. vm_compute. reflexivity. Qed.
Lemma clock_advance_correct_witness :
  FakeClockLaws clock_Z ∧ clock_Now (handle_advance (7 : fake_clock) (Duration_String (50 * Minute))).2
    = clock_Now (7 : fake_clock) + 50 * Minute.
Proof.
  split; [exact clock_Z_laws|].
  destruct (clock_advance_correct (C := clock_Z) 7 (Duration_String (50 * Minute))) as [_ Hmoves].
  assert (0 < 50 * Minute <= maximumClockAdvance) as Hrange by (split; [reflexivity|discriminate]).
  exact (proj1 (Hmoves (50 * Minute) eq_refl Hrange)).
Defined.

Definition accepted_args : list string := ["--allow-mock-provider"; "-mock-token-ttl=1m30s"; "ignored"].
Definition accepted : option Process :=
  match e2e_run env accepted_args with Ok p => p | Err _ => None end.
Lemma accepted_run : ∃ p, e2e_run env accepted_args = Ok (Some p).
Proof. vm_compute. eexists. reflexivity. Qed.
Example exit_codes : (λ args, e2e_main env args) <$> [accepted_args; ["-h"]; ["--no-such-flag"]; []] = [0; 0; 2; 1].
Proof. vm_compute. reflexivity. Qed.
Lemma e2e_tokens_accepted_witness :
  ∃ p o, e2e_run env accepted_args = Ok (Some p) ∧ e2e_options accepted_args = Ok o.
Proof.
  destruct accepted_run as [p Hp]. exists p.
  destruct (e2e_tokens_accepted env accepted_args p Hp) as (o & Ho & _). exists o. exact (conj Hp Ho).
Defined.

(** A window of zero is accepted with the default validity of thirty seconds. *)
Example zero_window : is_ok (e2e_options ["-allow-mock-provider"; "-credential-refresh-before=0"]) = true.
Proof. vm_compute. reflexivity. Qed.
Example no_acknowledgement : e2e_run env [] = Err MockNotAllowed.
Proof. vm_compute. reflexivity. Qed.
End E2EExample.
