(* ===== verification/PerfOptions.v ===== *)
(** * The performance driver's command line and targets (cmd/perf-driver/main.go)

    [parseOptions], the names it generates, the ConfigMap that selects them and
    the references that a reset removes. *)
From S2P Require Import Prelude GoStrings Validation ConfigTypes ConfigParser Encoding Rfc3339 Credential.
From S2P Require Import GoFloat GoDuration GoFlag Controller.
From Stdlib Require Import Ascii SpecFloat.
Local Open Scope Z_scope.

Definition performanceRunLabel : string := "registry-secret-controller.io/performance-run".
Definition serviceAccountDefault : string := "default".
Definition serviceAccountWorkload : string := "workload".
Definition serviceAccountLate : string := "late-workload".
Definition targetServiceAccounts : list string := [serviceAccountDefault; serviceAccountWorkload].
Definition maximumConfigMapDataSize : Z := 900 * 1024.

(** ** Names *)

(** [%05d] of a number that is not negative *)
Definition pad5 (n : Z) : bytes :=
  let d := decimal 20 n in replicate (5 - length d) (digit 0) ++ d.

Definition namespaceName (runID : string) (index : Z) : string :=
  "krsc-perf-" +:+ runID +:+ "-" +:+ of_bytes (pad5 index).
Definition namespaceNames (runID : string) (count : Z) : list string :=
  (λ i, namespaceName runID (Z.of_nat i)) <$> seq 0 (Z.to_nat count).
Definition concurrentNamespaceName (runID : string) : string := "krsc-perf-" +:+ runID +:+ "-late".

(** ** Options *)
Record perfOptions := MkPerfOptions {
  kubeconfig : string;
  contextName : string;
  runID : string;
  datasetID : string;
  outputDirectory : string;
  namespaceCount : Z;
  setupConcurrency : Z;
  clientQPS : float64;
  clientBurst : Z;
  initialTimeout : Duration;
  expiryTimeout : Duration;
  cleanupTimeout : Duration;
  clockAdvance : Duration;
  cleanupOnly : bool;
  keepResources : bool;
  reuseDataset : bool;
  retainDataset : bool;
  injectDuringExpiry : bool;
  injectNamespaceOnly : bool;
  injectionPercent : Z;
  injectionTimeout : Duration;
  environmentNote : string
}.

Definition perf_flags : flag_values := list_to_map [
  ("kubeconfig", StringValue "");
  ("context", StringValue "");
  ("run-id", StringValue "");
  ("dataset-id", StringValue "");
  ("output-dir", StringValue "test/performance/results");
  ("namespaces", IntValue 0);
  ("setup-concurrency", IntValue 25);
  ("client-qps", Float64Value (float_of_int 100));
  ("client-burst", IntValue 200);
  ("initial-timeout", DurationValue (3 * Hour));
  ("expiry-timeout", DurationValue (90 * Minute));
  ("cleanup-timeout", DurationValue (30 * Minute));
  ("clock-advance", DurationValue (50 * Minute));
  ("cleanup-only", BoolValue false);
  ("keep-resources", BoolValue false);
  ("reuse-dataset", BoolValue false);
  ("retain-dataset", BoolValue false);
  ("inject-during-expiry", BoolValue false);
  ("inject-namespace-only", BoolValue false);
  ("injection-percent", IntValue 25);
  ("injection-timeout", DurationValue (10 * Minute));
  ("environment-note", StringValue "")].

(** The variables after parsing; an empty dataset is the run's. *)
Definition perf_options_of (v : flag_values) : perfOptions :=
  MkPerfOptions (string_var v "kubeconfig") (string_var v "context") (string_var v "run-id")
    (default_string (string_var v "dataset-id") (string_var v "run-id"))
    (string_var v "output-dir") (int_var v "namespaces") (int_var v "setup-concurrency")
    (float_var v "client-qps") (int_var v "client-burst") (duration_var v "initial-timeout")
    (duration_var v "expiry-timeout") (duration_var v "cleanup-timeout") (duration_var v "clock-advance")
    (bool_var v "cleanup-only") (bool_var v "keep-resources") (bool_var v "reuse-dataset")
    (bool_var v "retain-dataset") (bool_var v "inject-during-expiry") (bool_var v "inject-namespace-only")
    (int_var v "injection-percent") (duration_var v "injection-timeout") (string_var v "environment-note").

Inductive perf_problem :=
| PerfFlags (e : flag_error)
| PerfPositional (args : list string)
| RunIDRequired
| InjectNamespaceOnlyAlone
| InvalidRunID (problems : list string)
| InvalidDatasetID (problems : list string)
| NamespacesNotPositive
| InvalidNamespaceName (name : string) (problems : list string)
| ConcurrencyNotPositive
| TimeoutsNotPositive
| InjectionTimeoutNotPositive
| InjectionPercentOutOfRange.

Section options.
Context `{FloatParser} `{DNSValidation}.

Fixpoint check_names (names : list string) : result perf_problem () :=
  match names with
  | [] => Ok tt
  | name :: names =>
    match IsDNS1123Label name with
    | [] => check_names names
    | problems => Err (InvalidNamespaceName name problems)
    end
  end.

(** The names that are generated: the first, the last and the injected one. *)
Definition generated_names (o : perfOptions) : list string :=
  let names := namespaceNames (datasetID o) (namespaceCount o) in
  [default "" (head names); default "" (last names)]
  ++ if injectDuringExpiry o then [concurrentNamespaceName (datasetID o)] else [].

Definition check_limits (o : perfOptions) : result perf_problem perfOptions :=
  if (setupConcurrency o <=? 0) || SFleb (clientQPS o) zero_float || (clientBurst o <=? 0)
  then Err ConcurrencyNotPositive
  else if (initialTimeout o <=? 0) || (expiryTimeout o <=? 0) || (cleanupTimeout o <=? 0) || (clockAdvance o <=? 0)
  then Err TimeoutsNotPositive
  else if injectionTimeout o <=? 0 then Err InjectionTimeoutNotPositive
  else if (injectionPercent o <? 1) || (99 <? injectionPercent o) then Err InjectionPercentOutOfRange
  else Ok o.

Definition parseOptions (arguments : list string) : result perf_problem perfOptions :=
  match Parse_flags perf_flags arguments with
  | Err e => Err (PerfFlags e)
  | Ok (v, rest) =>
    let o := perf_options_of v in
    if negb (bool_decide (rest = [])) then Err (PerfPositional rest)
    else if bool_decide (runID o = "") then Err RunIDRequired
    else if injectNamespaceOnly o && negb (injectDuringExpiry o) then Err InjectNamespaceOnlyAlone
    else match IsDNS1123Label (runID o) with
    | (_ :: _) as problems => Err (InvalidRunID problems)
    | [] =>
    match IsDNS1123Label (datasetID o) with
    | (_ :: _) as problems => Err (InvalidDatasetID problems)
    | [] =>
      if negb (cleanupOnly o) && (namespaceCount o <=? 0) then Err NamespacesNotPositive
      else
        match (if cleanupOnly o then Ok tt else check_names (generated_names o)) with
        | Err e => Err e
        | Ok _ => check_limits o
        end
    end end
  end.
End options.

(** ** Targets *)

(** The configured namespaces and ServiceAccounts of a run. *)
Definition configured_namespaces (o : perfOptions) : list string :=
  namespaceNames (datasetID o) (namespaceCount o)
  ++ if injectDuringExpiry o then [concurrentNamespaceName (datasetID o)] else [].
Definition configured_accounts (o : perfOptions) : list string :=
  targetServiceAccounts
  ++ if injectDuringExpiry o && negb (injectNamespaceOnly o) then [serviceAccountLate] else [].

Definition newline : string := of_bytes [chr 10].
Definition mock_registries : string :=
  "- regionID: mock-region" +:+ newline +:+
  "  instanceID: mock-registry" +:+ newline +:+
  "  accessKeyID: mock-access-key" +:+ newline +:+
  "  accessKeySecret: mock-access-secret" +:+ newline +:+
  "  domains:" +:+ newline +:+
  "    - registry.mock.example" +:+ newline.

(** The data [configureTargets] writes, replacing what the ConfigMap held;
    nothing when the list of namespaces is too long for a ConfigMap. *)
Definition target_data (namespaces serviceAccounts : list string) : option (gmap string string) :=
  let namespaceValue := Join namespaces "," in
  if maximumConfigMapDataSize <? Z.of_nat (String.length namespaceValue) then None
  else Some (<[NamespaceKey := namespaceValue]>
    (<[ServiceAccountKey := Join serviceAccounts ","]> {[ RegistriesKey := mock_registries ]})).

Definition removeManagedSecretReference (references : list string) : list string :=
  List.filter (λ reference, negb (bool_decide (reference = DefaultManagedSecretName))) references.
