(* ===== verification/PerfOptionsCorrect.v ===== *)
(** * Correctness of the performance driver's names and targets *)
From S2P Require Import Prelude GoStrings Validation ConfigTypes ConfigParser ConfigParserTheory ConfigParserCorrect.
From S2P Require Import Encoding Rfc3339 Credential RenderedConfiguration Controller GoFloat GoDuration GoDurationTheory.
From S2P Require Import GoFlag PerfOptions.
From Stdlib Require Import Ascii SpecFloat.
Local Open Scope Z_scope.

(** A label is accepted exactly when it has the documented form and length. *)
Class DNSLabelForm (D : DNSValidation) : Prop :=
  label_form s : IsDNS1123Label s = [] ↔ dns_label (to_bytes s) = true ∧ (String.length s <= 63)%nat.
#[export] Instance dns1123_form : DNSLabelForm dns1123.
Proof.
  intros s. cbn [IsDNS1123Label dns1123]. unfold dns1123_label.
  destruct (dns_label (to_bytes s)); destruct (Nat.leb_spec (String.length s) 63); cbn [andb]; naive_solver lia.
Qed.

(** ** Flags: integers stay in range *)
Lemma Parse_flags_inv `{FloatParser} (P : flag_value → Prop) values args values' rest :
  (∀ old s new, P old → Set_value old s = Some new → P new) →
  map_Forall (λ _, P) values → Parse_flags values args = Ok (values', rest) → map_Forall (λ _, P) values'.
Proof.
  intros Hset. revert values.
  induction args as [args IH] using (well_founded_induction (Wf_nat.well_founded_ltof _ length)).
  intros values Hv. destruct args as [|arg rest0]; [by intros [= <- _]|]. cbn [Parse_flags].
  destruct (classify arg) as [| | |name given]; [by intros [= <- _]|by intros [= <- _]|done|].
  destruct (values !! name) as [old|] eqn:Hold; [|by destruct (_ || _)].
  assert (∀ e v more, (length more <= length rest0)%nat →
    match Set_value old v with None => Err e | Some new => Parse_flags (<[name := new]> values) more end
    = Ok (values', rest) → map_Forall (λ _, P) values') as Hgo.
  { intros e v more Hlen. destruct (Set_value old v) eqn:Hs; [|done].
    apply IH; [unfold Wf_nat.ltof; simpl; lia|]. apply map_Forall_insert_2; [|done].
    by eapply Hset; [apply (Hv name)|]. }
  destruct old; (destruct given as [v|]; [by eapply Hgo|]); try (by eapply Hgo);
    (destruct rest0 as [|v more]; [done|eapply Hgo; simpl; lia]).
Qed.

Definition int_in_range (v : flag_value) : Prop :=
  match v with IntValue z => min_int64 <= z <= max_int64 | Uint64Value _ => False | _ => True end.

#[export] Instance int_in_range_dec v : Decision (int_in_range v).
Proof. destruct v; apply _. Defined.

Lemma Set_value_in_range `{FloatParser} old s new : int_in_range old → Set_value old s = Some new → int_in_range new.
Proof.
  destruct old; cbn [Set_value]; intros Hr; try (intros Hn; simplify_option_eq; done).
  destruct (ParseInt s) as [z'|] eqn:Hz; [|done]. intros [= <-]. by apply ParseInt_range in Hz.
Qed.

Lemma int_var_range values name : map_Forall (λ _, int_in_range) values →
  min_int64 <= int_var values name <= max_int64.
Proof.
  intros Hv. unfold int_var. destruct (values !! name) as [v|] eqn:Hl; [|done].
  specialize (Hv name v Hl). by destruct v.
Qed.

(** ** Joined names *)
Lemma split_on_free sep p : sep ∉ p → split_on sep p = [p].
Proof.
  induction p as [|c p IH]; intros Hp; [done|]. apply not_elem_of_cons in Hp as [Hc Hp].
  cbn [split_on]. rewrite IH by done. by destruct (decide (c = sep)).
Qed.
Lemma split_on_sep sep p l : sep ∉ p → split_on sep (p ++ sep :: l) = p :: split_on sep l.
Proof.
  induction p as [|c p IH]; intros Hp; cbn [app split_on]; [by rewrite decide_True|].
  apply not_elem_of_cons in Hp as [Hc Hp]. rewrite IH by done. by destruct (decide (c = sep)).
Qed.
Lemma Split_Join sep l : l ≠ [] → Forall (λ s, sep ∉ to_bytes s) l → Split (Join l (of_bytes [sep])) sep = l.
Proof.
  unfold Split, Join. intros Hne Hl. induction Hl as [|s l Hs Hl IH]; [done|]. destruct l as [|s' l].
  - simpl. rewrite split_on_free by done. simpl. by rewrite of_to_bytes.
  - change (String.concat (of_bytes [sep]) (s :: s' :: l)) with
      (s +:+ of_bytes [sep] +:+ String.concat (of_bytes [sep]) (s' :: l)).
    rewrite !to_bytes_append, to_of_bytes. cbn [app]. rewrite split_on_sep by done.
    rewrite fmap_cons, of_to_bytes, IH; done.
Qed.

Definition plain_name (s : string) : Prop :=
  s ≠ "" ∧ Forall (λ c, is_lower_alnum c || is_hyphen c || is_dot c) (to_bytes s).

Lemma plain_name_TrimSpace s : plain_name s → TrimSpace s = s.
Proof.
  intros [_ Hs]. apply TrimSpace_plain. eapply Forall_impl; [exact Hs|]. intros c Hc.
  apply Is_true_true in Hc. by destruct (plain_char c Hc) as (? & _ & ?).
Qed.
Lemma plain_name_no_comma s : plain_name s → ","%char ∉ to_bytes s.
Proof. intros [_ Hs] Hin. rewrite Forall_forall in Hs. by specialize (Hs _ Hin). Qed.
Lemma plain_name_not_wildcard s : plain_name s → s ≠ Wildcard.
Proof. intros [_ Hs] ->. by apply Forall_cons in Hs as [? _]. Qed.

Lemma Join_TrimSpace l : l ≠ [] → Forall plain_name l → TrimSpace (Join l ",") = Join l "," ∧ Join l "," ≠ "".
Proof.
  intros Hne Hl. assert (Forall (λ a, space1 a = false ∧ (code a < 128)%N) (to_bytes (Join l ","))) as Hc.
  { clear Hne. unfold Join. induction Hl as [|s l [_ Hs] Hl IH]; [by constructor|].
    assert (Forall (λ a, space1 a = false ∧ (code a < 128)%N) (to_bytes s)) as Hs'.
    { eapply Forall_impl; [exact Hs|]. intros c Hc. apply Is_true_true in Hc.
      by destruct (plain_char c Hc) as (? & _ & ?). }
    destruct l as [|s' l]; [done|].
    change (String.concat "," (s :: s' :: l)) with (s +:+ "," +:+ String.concat "," (s' :: l)).
    rewrite !to_bytes_append. apply Forall_app. split; [done|]. by constructor. }
  split; [by apply TrimSpace_plain|]. intros He. destruct Hl as [|s l [Hs _] _]; [done|].
  apply Hs. destruct l; [done|]. unfold Join in He. simpl in He. by destruct s.
Qed.

Section selector.
Context (field : string) (validate : string → list string).

Lemma parseNameSelector_Join l : l ≠ [] → Forall plain_name l → Forall (λ n, validate n = []) l →
  parseNameSelector (Join l ",") field validate = Ok (MkSelector false (sortedUnique l)).
Proof.
  intros Hne Hl Hv. destruct (Join_TrimSpace l Hne Hl) as [Ht Hn].
  assert (names_of (Join l ",") = l) as Hnames.
  { unfold names_of. rewrite (Split_Join ","%char) by (done || (eapply Forall_impl; [exact Hl|apply plain_name_no_comma])).
    clear -Hl. induction Hl as [|s l Hs _ IH]; [done|]. by rewrite fmap_cons, plain_name_TrimSpace, IH. }
  apply parseNameSelector_spec. rewrite Ht, Hnames. split; [done|]. split; [|right; split; [|done]].
  - rewrite Forall_forall in Hl, Hv |- *. intros n Hin. split; [by apply Hl|right; by apply Hv].
  - intros Hin. rewrite Forall_forall in Hl. by apply (plain_name_not_wildcard _ (Hl _ Hin)).
Qed.
End selector.

Lemma Matches_sortedUnique l n : Matches (MkSelector false (sortedUnique l)) n = true ↔ n ∈ l.
Proof. unfold Matches. simpl. apply containsSorted_sortedUnique. Qed.

(** ** Generated names *)
Definition pad5_digits (ds : list Z) : list Z := replicate (5 - length ds) 0 ++ ds.

Lemma digits_number_zeros k ds : digits_number (replicate k 0 ++ ds) = digits_number ds.
Proof. induction k as [|k IH]; [done|]. simpl. unfold digits_number in *. simpl. done. Qed.

Lemma pad5_spec n : 0 <= n < 10 ^ 20 →
  ∃ ds, pad5 n = digit <$> pad5_digits ds ∧ Forall (λ d, 0 <= d < 10) (pad5_digits ds)
    ∧ pad5_digits ds ≠ [] ∧ digits_number (pad5_digits ds) = n.
Proof.
  intros Hn. destruct (decimal_digits 20 n Hn ltac:(lia)) as (ds & Hds & Hr & Hne & Hv).
  exists ds. unfold pad5, pad5_digits. rewrite Hds, length_fmap, fmap_app, fmap_replicate, digits_number_zeros.
  split_and!; [done| |by destruct (replicate _ _); destruct ds|done].
  apply Forall_app. split; [|done]. apply Forall_replicate. lia.
Qed.

Lemma pad5_inj a b : 0 <= a < 10 ^ 20 → 0 <= b < 10 ^ 20 → pad5 a = pad5 b → a = b.
Proof.
  intros Ha Hb Heq. destruct (pad5_spec a Ha) as (ds & Eds & Hds & _ & <-).
  destruct (pad5_spec b Hb) as (es & Ees & Hes & _ & <-). rewrite Eds, Ees in Heq.
  by rewrite (map_digit_inj _ _ Hds Hes).
Qed.

Lemma decimal_length_mono fuel a b : 0 <= a <= b → (length (decimal fuel a) <= length (decimal fuel b))%nat.
Proof.
  revert a b. induction fuel as [|fuel IH]; intros a b Hab; [done|]. cbn [decimal].
  destruct (Z.ltb_spec a 10), (Z.ltb_spec b 10); rewrite ?length_app; simpl; try lia.
  assert (0 <= a / 10 <= b / 10) as Hdiv by (split; [apply Z.div_pos|apply Z.div_le_mono]; lia).
  specialize (IH _ _ Hdiv). lia.
Qed.

Lemma pad5_length_mono a b : 0 <= a <= b → (length (pad5 a) <= length (pad5 b))%nat.
Proof.
  intros Hab. unfold pad5. rewrite !length_app, !length_replicate.
  pose proof (decimal_length_mono 20 a b Hab). lia.
Qed.

Lemma digit_alnum d : 0 <= d < 10 → is_lower_alnum (digit d) = true.
Proof.
  intros Hd. assert (d ∈ [0; 1; 2; 3; 4; 5; 6; 7; 8; 9]) as Hin.
  { assert (d = 0 ∨ d = 1 ∨ d = 2 ∨ d = 3 ∨ d = 4 ∨ d = 5 ∨ d = 6 ∨ d = 7 ∨ d = 8 ∨ d = 9) as H by lia.
    set_solver. }
  repeat (apply elem_of_cons in Hin as [->|Hin]; [reflexivity|]). by apply elem_of_nil in Hin.
Qed.

Lemma length_of_bytes l : String.length (of_bytes l) = length l.
Proof. induction l; simpl; auto. Qed.
Lemma length_append s t : String.length (s +:+ t) = (String.length s + String.length t)%nat.
Proof. induction s; simpl; auto. Qed.

Lemma dns_label_app (x y z : bytes) :
  (∃ c x', x = c :: x' ∧ is_lower_alnum c = true) → forallb (λ c, is_lower_alnum c || is_hyphen c) (x ++ y ++ z) = true →
  (∃ z' c, z = z' ++ [c] ∧ is_lower_alnum c = true) → dns_label (x ++ y ++ z) = true.
Proof.
  intros (c & x' & -> & Hc) Hall (z' & d & -> & Hd). unfold dns_label. cbn [app].
  rewrite Hc. change (c :: x' ++ y ++ z' ++ [d]) with ((c :: x') ++ y ++ z' ++ [d]).
  rewrite Hall, !app_assoc, last_snoc. cbn [from_option]. by rewrite Hd.
Qed.

Section names.
Context `{D : DNSValidation} `{!DNSValidationLaws D} `{!DNSLabelForm D}.

Lemma label_forallb s : IsDNS1123Label s = [] → forallb (λ c, is_lower_alnum c || is_hyphen c) (to_bytes s) = true.
Proof.
  intros [_ Hc]%label_chars. apply forallb_forall. intros c Hin.
  rewrite Forall_forall in Hc. apply Is_true_true, Hc. by apply list_elem_of_In.
Qed.

Lemma namespaceName_label run i : IsDNS1123Label run = [] → 0 <= i < 10 ^ 20 →
  (String.length (namespaceName run i) <= 63)%nat → IsDNS1123Label (namespaceName run i) = [].
Proof.
  intros Hrun Hi Hlen. apply label_form. split; [|done]. unfold namespaceName.
  rewrite !to_bytes_append, to_of_bytes. destruct (pad5_spec i Hi) as (ds & -> & Hds & Hne & _).
  apply label_forallb in Hrun.
  assert (Forall (λ c, is_lower_alnum c = true) (digit <$> pad5_digits ds)) as Hd.
  { apply Forall_fmap. eapply Forall_impl; [exact Hds|]. intros d Hd. by apply digit_alnum. }
  apply dns_label_app.
  - by eexists _, _.
  - rewrite !forallb_app, Hrun. cbn. apply forallb_forall. intros c Hin%list_elem_of_In.
    rewrite Forall_forall in Hd. by rewrite (Hd c Hin).
  - destruct (digit <$> pad5_digits ds) as [|c l _] eqn:Heq using rev_ind.
    { by apply fmap_nil_inv in Heq. }
    exists (to_bytes "-" ++ l), c. split; [by rewrite app_assoc|].
    apply Forall_app in Hd as [_ Hd]. by apply Forall_cons in Hd as [? _].
Qed.

Lemma namespaceNames_lookup run count i n :
  namespaceNames run count !! i = Some n ↔ n = namespaceName run (Z.of_nat i) ∧ Z.of_nat i < count.
Proof.
  unfold namespaceNames. rewrite list_lookup_fmap_Some. setoid_rewrite lookup_seq. split.
  - intros (x & -> & -> & ?). split; [done|lia].
  - intros [-> ?]. exists i. split; [done|]. split; [done|lia].
Qed.

Lemma append_inj_r (s t u : string) : s +:+ t = s +:+ u → t = u.
Proof. induction s as [|c s IH]; simpl; [done|]. intros [= ?]. by apply IH. Qed.

Lemma namespaceName_inj run i j : 0 <= i < 10 ^ 20 → 0 <= j < 10 ^ 20 →
  namespaceName run i = namespaceName run j → i = j.
Proof.
  intros Hi Hj Heq. apply append_inj_r, append_inj_r, append_inj_r in Heq.
  apply pad5_inj; [done|done|]. by rewrite <-(to_of_bytes (pad5 i)), Heq, to_of_bytes.
Qed.

(** Checking the first and the last name checks them all. *)
Lemma namespaceNames_valid run count : IsDNS1123Label run = [] → 0 < count <= max_int64 →
  IsDNS1123Label (default "" (last (namespaceNames run count))) = [] →
  NoDup (namespaceNames run count) ∧ Forall (λ n, IsDNS1123Label n = []) (namespaceNames run count).
Proof.
  unfold max_int64. intros Hrun Hcount Hlast. split.
  - apply NoDup_alt. intros i j n [-> Hi]%namespaceNames_lookup [Heq Hj]%namespaceNames_lookup.
    apply namespaceName_inj in Heq; lia.
  - rewrite last_lookup in Hlast.
    assert (namespaceNames run count !! Nat.pred (length (namespaceNames run count))
      = Some (namespaceName run (count - 1))) as Hl.
    { apply namespaceNames_lookup. unfold namespaceNames. rewrite length_fmap, length_seq.
      replace (Z.of_nat (Nat.pred (Z.to_nat count))) with (count - 1) by lia. split; [done|lia]. }
    rewrite Hl in Hlast. simpl in Hlast. apply label_form in Hlast as [_ Hlen].
    apply Forall_lookup. intros i n [-> Hi]%namespaceNames_lookup. apply namespaceName_label; [done|lia|].
    unfold namespaceName in *. rewrite !length_append, length_of_bytes in *.
    pose proof (pad5_length_mono (Z.of_nat i) (count - 1)). lia.
Qed.

Lemma concurrentNamespaceName_fresh run count : 0 < count <= max_int64 →
  concurrentNamespaceName run ∉ namespaceNames run count.
Proof.
  unfold max_int64. intros Hc [i [Heq Hi]%namespaceNames_lookup]%list_elem_of_lookup.
  unfold concurrentNamespaceName, namespaceName in Heq. apply append_inj_r, append_inj_r in Heq.
  destruct (pad5_spec (Z.of_nat i) ltac:(lia)) as (ds & Hp & Hds & Hne & _). rewrite Hp in Heq.
  destruct (pad5_digits ds) as [|d l]; [done|]. simpl in Heq. injection Heq as Heq _.
  apply Forall_cons in Hds as [Hd _]. apply (f_equal digit_val) in Heq. by rewrite digit_val_digit in Heq.
Qed.
End names.

(** ** The options *)
Section options.
Context `{F : FloatParser} `{D : DNSValidation} `{!DNSValidationLaws D} `{!DNSLabelForm D}.

Lemma check_names_ok names : check_names names = Ok tt → Forall (λ n, IsDNS1123Label n = []) names.
Proof.
  induction names as [|n names IH]; simpl; [done|]. destruct (IsDNS1123Label n) eqn:Hn; [|done]. auto.
Qed.

Lemma parseOptions_inv args o : parseOptions args = Ok o →
  IsDNS1123Label (datasetID o) = [] ∧ namespaceCount o <= max_int64 ∧
  (cleanupOnly o = false → 0 < namespaceCount o ∧ Forall (λ n, IsDNS1123Label n = []) (generated_names o)).
Proof.
  unfold parseOptions. destruct (Parse_flags perf_flags args) as [[v rest]|] eqn:Hp; [|done].
  apply (Parse_flags_inv int_in_range) in Hp; [|apply Set_value_in_range|by apply (bool_decide_unpack _); vm_compute].
  assert (namespaceCount (perf_options_of v) <= max_int64) as Hmax by (by apply (int_var_range v "namespaces")).
  revert Hmax. generalize (perf_options_of v). intros op Hmax.
  destruct (negb _); [done|]. destruct (bool_decide _); [done|]. destruct (_ && negb (injectDuringExpiry op)); [done|].
  destruct (IsDNS1123Label (runID op)); [|done]. destruct (IsDNS1123Label (datasetID op)) eqn:Hd; [|done].
  destruct (_ && (_ <=? 0)) eqn:Hpos; [done|].
  destruct (if cleanupOnly op then _ else _) as [[]|] eqn:Hnames; [|done].
  unfold check_limits. destruct (_ || _ || _); [done|]. destruct (_ || _ || _ || _); [done|]. destruct (injectionTimeout op <=? 0); [done|].
  destruct (_ || _); [done|]. intros [= <-]. split; [done|]. split; [done|]. intros Hc.
  rewrite Hc in Hpos, Hnames. cbn [negb andb] in Hpos. apply Z.leb_gt in Hpos. split; [done|by apply check_names_ok].
Qed.

(** The driver checks only the first, the last and the injected namespace
    name it would generate; that is enough: every name of the run is a valid
    namespace name, no two are equal, and there are as many as asked for. *)
Theorem parseOptions_names args o : parseOptions args = Ok o → cleanupOnly o = false →
  NoDup (configured_namespaces o) ∧ Forall (λ n, IsDNS1123Label n = []) (configured_namespaces o) ∧
  Z.of_nat (length (namespaceNames (datasetID o) (namespaceCount o))) = namespaceCount o ∧ 0 < namespaceCount o.
Proof.
  intros (Hd & Hmax & Hgen)%parseOptions_inv Hc. destruct (Hgen Hc) as [Hpos Hnames]. clear Hgen Hc.
  unfold generated_names in Hnames. apply Forall_app in Hnames as [Hfl Hlate].
  apply Forall_cons in Hfl as [_ [Hlast _]%Forall_cons].
  destruct (namespaceNames_valid _ _ Hd (conj Hpos Hmax) Hlast) as [Hnd Hall].
  split; [|split; [by apply Forall_app|]].
  - unfold configured_namespaces. apply NoDup_app. split; [done|]. split.
    + intros n Hn. destruct (injectDuringExpiry o); [|apply not_elem_of_nil].
      intros ->%list_elem_of_singleton. by eapply concurrentNamespaceName_fresh.
    + destruct (injectDuringExpiry o); [apply NoDup_singleton|constructor].
  - unfold namespaceNames. rewrite length_fmap, length_seq. lia.
Qed.

(** ** The targets *)
Definition mock_registry : RegistryConfig :=
  MkRegistry "mock-region" "mock-registry" "mock-access-key" "mock-access-secret" ["registry.mock.example"].

Context `{R : RangeOrder} `{Y : YAML}.

Lemma parse_mock_registries : UnmarshalStrict mock_registries = Ok [mock_registry] →
  IsDNS1123Subdomain "registry.mock.example" = [] →
  parseRegistries mock_registries = Ok {[ Key mock_registry := mock_registry ]}.
Proof.
  intros Hy Hdom. apply parseRegistries_spec. exists [mock_registry], [mock_registry].
  destruct (wf_registries_values {[ Key mock_registry := mock_registry ]} [mock_registry]) as (Hn & Hc & Hs).
  - split.
    + intros k r [<- <-]%lookup_singleton_Some. split; [done|]. unfold normal_registry.
      assert (normalizeDomain "registry.mock.example" = Ok "registry.mock.example") as Hnd.
      { apply normalizeDomain_spec. vm_compute in Hdom |- *. repeat split; done. }
      unfold normalizeRegistry. cbn [mock_registry reg_RegionID reg_InstanceID AccessKeyID AccessKeySecret Domains].
      change (mapM normalizeDomain ["registry.mock.example"]) with
        (y ← normalizeDomain "registry.mock.example"; k ← mret (M := result registry_error) []; mret (y :: k)).
      rewrite Hnd. vm_compute. reflexivity.
    + intros k1 k2 r1 r2 d [<- _]%lookup_singleton_Some [<- _]%lookup_singleton_Some. done.
  - rewrite map_to_list_singleton. done.
  - split; [by vm_compute|]. done.
Qed.

(** The ConfigMap that the driver writes is accepted by the controller's
    parser, and selects exactly what the run measures: the generated namespaces
    and the injected one, the ServiceAccounts of the run, one registry, and no
    tuning (the flags stay in force). *)
Theorem configureTargets_effective args o data :
  parseOptions args = Ok o → cleanupOnly o = false →
  UnmarshalStrict mock_registries = Ok [mock_registry] →
  Forall (λ n, IsDNS1123Subdomain n = []) ["registry.mock.example"; "default"; "workload"; "late-workload"] →
  target_data (configured_namespaces o) (configured_accounts o) = Some data →
  ∃ s, Parse data = Ok s ∧ (∀ n, MatchesNamespace s n = true ↔ n ∈ configured_namespaces o) ∧
    (∀ a, Matches (ServiceAccounts s) a = true ↔ a ∈ configured_accounts o) ∧
    Registries s = {[ Key mock_registry := mock_registry ]} ∧ Runtime s = zero_runtime.
Proof.
  intros (Hd & Hmax & Hgen)%parseOptions_inv Hc Hy Hsub Hdata. destruct (Hgen Hc) as [Hpos Hnames].
  unfold generated_names in Hnames. apply Forall_app in Hnames as [Hfl Hlate].
  apply Forall_cons in Hfl as [_ [Hlast _]%Forall_cons].
  destruct (namespaceNames_valid _ _ Hd (conj Hpos Hmax) Hlast) as [_ Hall].
  assert (Forall (λ n, IsDNS1123Label n = []) (configured_namespaces o)) as Hns by by apply Forall_app.
  apply Forall_cons in Hsub as [Hdom Hsub].
  assert (Forall (λ n, IsDNS1123Subdomain n = []) (configured_accounts o)) as Hsa.
  { repeat (apply Forall_cons in Hsub as [? Hsub]). unfold configured_accounts, targetServiceAccounts.
    destruct (_ && _); simpl; repeat constructor; done. }
  unfold target_data in Hdata. destruct (_ <? _); [done|]. injection Hdata as <-.
  set (data := <[NamespaceKey := _]> _).
  assert (configured_namespaces o ≠ []) as Hne.
  { unfold configured_namespaces, namespaceNames. destruct (Z.to_nat (namespaceCount o)) eqn:Hz; [lia|done]. }
  exists (MkSnapshot 0 (MkSelector false (sortedUnique (configured_namespaces o))) []
    (MkSelector false (sortedUnique (configured_accounts o))) {[ Key mock_registry := mock_registry ]} zero_runtime).
  split; [|split; [|split; [|done]]].
  - apply Parse_spec. cbn [Namespaces ExcludedNamespaces ServiceAccounts Registries Runtime Generation].
    split; [|split; [|split; [|split; [|split; [|split; [|done]]]]]].
    + intros k v Hk. unfold data in Hk. rewrite !lookup_insert_Some, lookup_singleton_Some in Hk.
      destruct Hk as [[<- _]|[_ [[<- _]|[_ [<- _]]]]]; set_solver.
    + apply parseNameSelector_Join; [done| |done]. eapply Forall_impl; [exact Hns|].
      intros n [? Hf]%label_chars. split; [done|]. eapply Forall_impl; [exact Hf|]. intros c Hor.
      apply Is_true_true in Hor. apply Is_true_true. by rewrite Hor.
    + done.
    + assert (data_get data ServiceAccountKey = Join (configured_accounts o) ",") as -> by done.
      apply parseNameSelector_Join; [by destruct (configured_accounts o) eqn:?| |done].
      eapply Forall_impl; [exact Hsa|]. by intros n ?%subdomain_chars.
    + by apply parse_mock_registries.
    + by apply parseRuntime_spec.
  - intros n. unfold MatchesNamespace. cbn [Namespaces ExcludedNamespaces].
    rewrite andb_true_iff, Matches_sortedUnique. unfold containsSorted. naive_solver.
  - intros a. apply Matches_sortedUnique.
Qed.
End options.

(** ** Examples *)
Module PerfOptionsExample.
#[local] Existing Instance dns1123.
#[local] Existing Instance range_forward.
#[local] Existing Instance ParserExample.floats.
(** A decoder of the one document the driver writes. *)
#[local] Instance mock_yaml : YAML := {|
  UnmarshalStrict raw := if bool_decide (raw = mock_registries) then Ok [mock_registry] else Err "not a document"
|}.

Definition args : list string := ["--run-id=bench-1"; "-namespaces"; "3"; "--inject-during-expiry"; "--clock-advance=50m"].
Definition options : perfOptions :=
  Eval vm_compute in match parseOptions args with Ok o => o | Err _ => perf_options_of ∅ end.

Lemma parse_run : parseOptions args = Ok options.
Proof. vm_compute. reflexivity. Qed.

Example names : configured_namespaces options =
  ["krsc-perf-bench-1-00000"; "krsc-perf-bench-1-00001"; "krsc-perf-bench-1-00002"; "krsc-perf-bench-1-late"].
Proof. vm_compute. reflexivity. Qed.
Example no_namespaces : parseOptions ["--run-id=a"] = Err NamespacesNotPositive.
Proof. vm_compute. reflexivity. Qed.
Example inject_alone : parseOptions ["--run-id=a"; "--inject-namespace-only"; "--namespaces=1"] = Err InjectNamespaceOnlyAlone.
Proof. vm_compute. reflexivity. Qed.
Example references : removeManagedSecretReference ["a"; DefaultManagedSecretName; "b"] = ["a"; "b"].
Proof. vm_compute. reflexivity. Qed.

Lemma parseOptions_names_witness :
  parseOptions args = Ok options ∧ cleanupOnly options = false ∧ NoDup (configured_namespaces options).
Proof.
  assert (cleanupOnly options = false) as Hc by reflexivity.
  split; [exact parse_run|]. split; [exact Hc|].
  exact (proj1 (parseOptions_names args options parse_run Hc)).
Defined.

Definition data : gmap string string :=
  default ∅ (target_data (configured_namespaces options) (configured_accounts options)).

Lemma configureTargets_effective_witness :
  ∃ s, Parse data = Ok s ∧ MatchesNamespace s "krsc-perf-bench-1-late" = true.
Proof.
  assert (cleanupOnly options = false) as Hc by reflexivity.
  assert (UnmarshalStrict mock_registries = Ok [mock_registry]) as Hy by (vm_compute; reflexivity).
  assert (Forall (λ n, IsDNS1123Subdomain n = []) ["registry.mock.example"; "default"; "workload"; "late-workload"])
    as Hs by (repeat constructor).
  assert (target_data (configured_namespaces options) (configured_accounts options) = Some data) as Hdata
    by (vm_compute; reflexivity).
  destruct (configureTargets_effective args options data parse_run Hc Hy Hs Hdata) as (s & Hp & Hns & _).
  exists s. split; [exact Hp|]. apply Hns. apply (bool_decide_unpack _). vm_compute. exact I.
Defined.
End PerfOptionsExample.
