(* ===== verification/PerfProfile.v ===== *)
(** * The controller's profile (cmd/perf-driver/profile.go)

    The driver reads the controller's arguments from its Deployment.  It scans
    them by hand; for arguments of the form [--name=value], which the manifest
    uses, it reports what the controller's own flag parser reads. *)
From S2P Require Import Prelude GoStrings Validation ConfigTypes ConfigParser Encoding Rfc3339 Credential Scheduler.
From S2P Require Import RenderedConfiguration Kubeclient Controller GoDuration GoDurationTheory GoFlag ControllerMain E2E.
From Stdlib Require Import Ascii.
Local Open Scope Z_scope.

(** ** Definitions *)
Record Container := MkContainer { container_Name : string; container_Image : string; container_Args : list string }.
Record Deployment := MkDeployment {
  dep_Generation : Z;
  dep_Replicas : option Z;
  dep_Containers : list Container
}.

Record controllerProfile := MkProfile {
  prof_Replicas : Z;
  prof_Image : string;
  prof_Arguments : list string;
  prof_DeploymentGeneration : Z;
  prof_ObservedAt : Time;
  prof_VerifiedAt : Time;
  prof_ConfigurationStable : bool;
  NamespaceReconcileConcurrency : Z;
  ServiceAccountReconcileConcurrency : Z;
  RESTClientRateLimit : string;
  TokenTTL : string;
  prof_RefreshBefore : string;
  ExpiryTrigger : string
}.

Fixpoint argument_loop (prefix flagName value : string) (args : list string) : string :=
  match args with
  | [] => value
  | arg :: rest =>
    if HasPrefix arg prefix then argument_loop prefix flagName (TrimPrefix arg prefix) rest
    else if bool_decide (arg = flagName) then
      match rest with
      | [] => value
      | next :: rest => argument_loop prefix flagName next rest
      end
    else argument_loop prefix flagName value rest
  end.
Definition argumentValue (args : list string) (name fallback : string) : string :=
  argument_loop ("--" +:+ name +:+ "=") ("--" +:+ name) fallback args.

Definition Itoa (n : Z) : string := of_bytes ((if n <? 0 then to_bytes "-" else []) ++ decimal 20 (Z.abs n)).

Inductive profile_error :=
| NilDeployment
| NoControllerContainer
| BadIntegerArgument (name raw : string).

Definition integerArgument (args : list string) (name : string) (fallback : Z) : result profile_error Z :=
  let raw := argumentValue args name (Itoa fallback) in
  match Atoi raw with Some value => Ok value | None => Err (BadIntegerArgument name raw) end.

(** The first container named controller. *)
Definition controller_container (d : Deployment) : option Container :=
  List.find (λ c, bool_decide (container_Name c = "controller")) (dep_Containers d).

Definition profileFromDeployment (deployment : option Deployment) (observedAt : Time) :
    result profile_error controllerProfile :=
  match deployment with
  | None => Err NilDeployment
  | Some deployment =>
    let image := from_option container_Image "" (controller_container deployment) in
    let args := from_option container_Args [] (controller_container deployment) in
    if bool_decide (image = "") then Err NoControllerContainer else
    namespaces ← integerArgument args "max-concurrent-namespace-reconciles" DefaultMaxConcurrentNamespaceReconciles;
    accounts ← integerArgument args "max-concurrent-service-account-reconciles"
                 DefaultMaxConcurrentServiceAccountReconciles;
    let qps := argumentValue args "kube-api-qps" "25" in
    let burst := argumentValue args "kube-api-burst" (Itoa DefaultKubeAPIBurst) in
    Ok (MkProfile 1 image args (dep_Generation deployment) observedAt
      (unix_nano zero_time) false namespaces accounts
      ("configured QPS " +:+ qps +:+ ", burst " +:+ burst)
      (argumentValue args "mock-token-ttl" "controller default")
      (argumentValue args "credential-refresh-before" "controller default")
      "fake clock advanced 50m; real scheduler and Kubernetes writes")
  end.

(** ** Arguments of the form --name=value *)
Definition assign (nv : string * string) : string := "--" +:+ nv.1 +:+ "=" +:+ nv.2.
Definition plain_flag (name : string) : Prop :=
  "="%char ∉ to_bytes name ∧ match to_bytes name with [] => False | c :: _ => c ≠ "-"%char end.
Definition last_value (name : string) (asg : list (string * string)) : option string :=
  foldl (λ acc nv, if bool_decide (nv.1 = name) then Some nv.2 else acc) None asg.

Lemma length_to_bytes s : String.length s = length (to_bytes s).
Proof. induction s; simpl; auto. Qed.

Lemma equals_code c : (codeZ c =? 61) = true ↔ c = "="%char.
Proof.
  split; [|by intros ->]. intros H%Z.eqb_eq. rewrite <-(byteZ_codeZ c), H. reflexivity.
Qed.
Lemma hyphen_code c : (codeZ c =? 45) = true ↔ c = "-"%char.
Proof.
  split; [|by intros ->]. intros H%Z.eqb_eq. rewrite <-(byteZ_codeZ c), H. reflexivity.
Qed.

Lemma split_equals_app n v : "="%char ∉ n → split_equals (n ++ "="%char :: v) = (n, Some v).
Proof.
  induction n as [|c n IH]; intros Hn; [done|]. apply not_elem_of_cons in Hn as [Hc Hn].
  cbn [app split_equals]. rewrite IH by done.
  destruct (codeZ c =? 61) eqn:He; [by apply equals_code in He; subst|done].
Qed.

Lemma classify_assign nv : plain_flag nv.1 → classify (assign nv) = FlagArg nv.1 (Some nv.2).
Proof.
  intros [Heq Hhead]. unfold classify, assign. rewrite !to_bytes_append.
  change (to_bytes "--") with ["-"%char; "-"%char]. change (to_bytes "=") with ["="%char].
  destruct (to_bytes nv.1) as [|c l] eqn:Hn; [done|]. cbn [app]. apply not_elem_of_cons in Heq as [Hc Hl].
  change (codeZ "-" =? 45) with true. cbv iota. unfold flag_arg.
  destruct (codeZ c =? 45) eqn:H1; [by apply hyphen_code in H1; subst|].
  destruct (codeZ c =? 61) eqn:H2; [by apply equals_code in H2; subst|]. cbn [orb].
  rewrite split_equals_app by done. rewrite <-Hn. cbn [fmap option_fmap option_map]. by rewrite !of_to_bytes.
Qed.

Lemma Set_value_kind `{FloatParser} old s new s' : Set_value old s = Some new → Set_value new s' = Set_value old s'.
Proof. destruct old; cbn [Set_value]; intros Hn; simplify_option_eq; done. Qed.

(** The variables after the assignments hold the last value given. *)
Definition holds `{FloatParser} (old : flag_value) (given : option string) (v : option flag_value) : Prop :=
  match given with None => v = Some old | Some s => ∃ new, v = Some new ∧ Set_value old s = Some new end.

Lemma Parse_flags_assign `{FloatParser} asg values values' rest :
  Forall (λ nv, plain_flag nv.1) asg → Parse_flags values (assign <$> asg) = Ok (values', rest) →
  rest = [] ∧ ∀ name old, values !! name = Some old → holds old (last_value name asg) (values' !! name).
Proof.
  intros Hasg Hp.
  assert (∀ vals name old acc, holds old acc (vals !! name) →
    Parse_flags vals (assign <$> asg) = Ok (values', rest) → rest = [] ∧
    holds old (foldl (λ acc nv, if bool_decide (nv.1 = name) then Some nv.2 else acc) acc asg) (values' !! name)) as Hgen.
  { clear Hp values. induction Hasg as [|nv asg Hnv _ IH]; intros vals name old acc Hacc; [by intros [= <- <-]|].
    rewrite fmap_cons. cbn [Parse_flags foldl]. rewrite classify_assign by done.
    destruct (vals !! nv.1) as [cur|] eqn:Hcur; [|by destruct (_ || _)].
    assert (∀ e, match Set_value cur nv.2 with None => Err e
      | Some new => Parse_flags (<[nv.1 := new]> vals) (assign <$> asg) end = Ok (values', rest) → rest = [] ∧
      holds old (foldl (λ acc nv, if bool_decide (nv.1 = name) then Some nv.2 else acc)
        (if bool_decide (nv.1 = name) then Some nv.2 else acc) asg) (values' !! name)) as Hgo.
    { intros e. destruct (Set_value cur nv.2) as [new|] eqn:Hnew; [|done]. apply IH.
      destruct (bool_decide_reflect (nv.1 = name)) as [<-|Hne]; [|by rewrite lookup_insert_ne].
      rewrite lookup_insert_eq. exists new. split; [done|].
      rewrite Hcur in Hacc. destruct acc as [s|]; simpl in Hacc; [|by simplify_eq].
      destruct Hacc as (x & [= <-] & Hx). by rewrite <-(Set_value_kind _ _ _ nv.2 Hx). }
    destruct cur; by eapply Hgo. }
  split.
  - destruct asg as [|nv asg]; [by injection Hp as _ <-|].
    apply Forall_cons in Hasg as Hasg'. destruct Hasg' as [Hnv _].
    destruct (values !! nv.1) as [old|] eqn:Hold.
    + by destruct (Hgen values nv.1 old None Hold Hp).
    + rewrite fmap_cons in Hp. cbn [Parse_flags] in Hp. rewrite classify_assign, Hold in Hp by done.
      by destruct (_ || _).
  - intros name old Hold. by apply (Hgen values name old None).
Qed.

Lemma has_prefix_assign name nv : plain_flag name → plain_flag nv.1 →
  HasPrefix (assign nv) ("--" +:+ name +:+ "=") = bool_decide (nv.1 = name).
Proof.
  intros [Hn _] [Hnv _]. unfold HasPrefix, assign. rewrite !to_bytes_append.
  change (to_bytes "--") with ["-"%char; "-"%char]. cbn [app has_prefix].
  rewrite !(bool_decide_true ("-"%char = "-"%char)) by done. cbn [andb].
  change (to_bytes "=") with ["="%char].
  assert (bool_decide (nv.1 = name) = bool_decide (to_bytes nv.1 = to_bytes name)) as ->.
  { apply bool_decide_ext. split; [by intros ->|by intros ?%(inj to_bytes)]. }
  revert Hn Hnv. generalize (to_bytes name) (to_bytes nv.1). intros p q.
  revert q. induction p as [|c p IH]; intros q Hp Hq.
  - destruct q as [|d q]; cbn [app has_prefix]; [done|].
    apply not_elem_of_cons in Hq as [Hd _]. rewrite bool_decide_false by done. by rewrite bool_decide_false.
  - apply not_elem_of_cons in Hp as [Hc Hp]. destruct q as [|d q]; cbn [app has_prefix].
    + rewrite (bool_decide_false (c = "="%char)) by congruence. by rewrite bool_decide_false.
    + apply not_elem_of_cons in Hq as [Hd Hq]. rewrite IH by done.
      destruct (bool_decide_reflect (c = d)) as [<-|Hcd]; cbn [andb].
      * apply bool_decide_ext. split; [by intros ->|by intros [= ?]].
      * symmetry. apply bool_decide_false. by intros [= ? _].
Qed.

Lemma argumentValue_assign asg name fallback : plain_flag name → Forall (λ nv, plain_flag nv.1) asg →
  argumentValue (assign <$> asg) name fallback = default fallback (last_value name asg).
Proof.
  intros Hname Hasg. unfold argumentValue, last_value.
  assert (∀ acc, argument_loop ("--" +:+ name +:+ "=") ("--" +:+ name) (default fallback acc) (assign <$> asg)
    = default fallback (foldl (λ acc nv, if bool_decide (nv.1 = name) then Some nv.2 else acc) acc asg)) as Hgen; [|apply (Hgen None)].
  induction Hasg as [|nv asg Hnv _ IH]; intros acc; [done|]. rewrite fmap_cons. cbn [argument_loop foldl].
  rewrite has_prefix_assign by done. destruct (bool_decide_reflect (nv.1 = name)) as [<-|Hne].
  - assert (TrimPrefix (assign nv) ("--" +:+ nv.1 +:+ "=") = nv.2) as ->; [|apply (IH (Some nv.2))].
    unfold TrimPrefix. rewrite has_prefix_assign, bool_decide_true, length_to_bytes by done.
    unfold assign. rewrite !to_bytes_append, !app_assoc, drop_app_length. apply of_to_bytes.
  - rewrite bool_decide_false; [apply IH|]. intros Heq. apply (f_equal to_bytes) in Heq.
    unfold assign in Heq. rewrite !to_bytes_append in Heq. apply app_inj_1 in Heq as [_ Heq]; [|done].
    destruct Hname as [Hn _]. rewrite <-Heq in Hn. apply Hn. rewrite elem_of_app. right. left.
Qed.
