(* ===== verification/PerfProfileCorrect.v ===== *)
(** * The profile agrees with the controller's flags *)
From S2P Require Import Prelude GoStrings Validation ConfigTypes ConfigParser ConfigParserCorrect Encoding Rfc3339.
From S2P Require Import Credential Scheduler RenderedConfiguration Kubeclient Controller GoDuration GoDurationTheory.
From S2P Require Import Metrics GoFlag ControllerMain E2E PerfProfile.
From Stdlib Require Import Ascii.
Local Open Scope Z_scope.

(** A literal flag name is plain. *)
Ltac plain := split; [apply (bool_decide_unpack _); vm_compute; exact I|discriminate].

(** ** Decimal integers *)
Definition canonical (s : string) : Prop := ∃ n, 0 <= n <= max_int64 ∧ s = of_bytes (decimal 20 n).

Lemma codeZ_digit d : 0 <= d < 10 → codeZ (digit d) = 48 + d.
Proof. intros Hd. unfold digit. apply codeZ_byteZ. lia. Qed.

Lemma digit_value_digit d : 0 <= d < 10 → digit_value (digit d) = Some d.
Proof.
  intros Hd. pose proof (codeZ_digit d Hd) as Hc. unfold codeZ in Hc. unfold digit_value, in_range.
  destruct (N.leb_spec 48 (code (digit d))), (N.leb_spec (code (digit d)) 57); cbn [andb]; try lia.
  f_equal. lia.
Qed.

Lemma digits_value_digits ds acc : Forall (λ d, 0 <= d < 10) ds →
  digits_value acc (digit <$> ds) = Some (foldl (λ x d, x * 10 + d) acc ds).
Proof.
  intros Hds. revert acc. induction Hds as [|d ds Hd _ IH]; intros acc; [done|].
  rewrite fmap_cons. cbn [digits_value foldl]. rewrite digit_value_digit by done. cbn [mbind option_bind]. apply IH.
Qed.

Lemma foldl_digits_mono ds acc : Forall (λ d, 0 <= d < 10) ds → 0 <= acc → acc <= foldl (λ x d, x * 10 + d) acc ds.
Proof.
  intros Hds. revert acc. induction Hds as [|d ds Hd _ IH]; intros acc Hacc; cbn [foldl]; [lia|].
  specialize (IH (acc * 10 + d) ltac:(lia)). lia.
Qed.

Lemma uint_digits_decimal ds acc : Forall (λ d, 0 <= d < 10) ds → 0 <= acc →
  foldl (λ x d, x * 10 + d) acc ds <= max_uint64 →
  uint_digits 10 acc false (digit <$> ds) = Ok (foldl (λ x d, x * 10 + d) acc ds, false).
Proof.
  intros Hds. revert acc. induction Hds as [|d ds Hd Hds IH]; intros acc Hacc Hmax; [done|].
  rewrite fmap_cons. cbn [uint_digits foldl] in *. pose proof (foldl_digits_mono ds (acc * 10 + d) Hds ltac:(lia)).
  rewrite codeZ_digit by done. rewrite (proj2 (Z.eqb_neq _ _)) by lia.
  assert (alnum_value (digit d) = Some d) as ->.
  { unfold alnum_value. rewrite codeZ_digit by done.
    destruct (Z.leb_spec 48 (48 + d)), (Z.leb_spec (48 + d) 57); cbn [andb]; try lia. f_equal. lia. }
  rewrite (proj2 (Z.leb_gt 10 d)) by lia. rewrite (proj2 (Z.ltb_ge _ _)) by lia. apply IH; lia.
Qed.

Lemma decimal_head fuel n : 0 < n < 10 ^ Z.of_nat fuel → ∃ d l, decimal fuel n = digit d :: l ∧ 1 <= d <= 9.
Proof.
  revert n. induction fuel as [|fuel IH]; intros n Hn; [simpl in Hn; lia|]. cbn [decimal].
  destruct (Z.ltb_spec n 10); [by exists n, []; split; [|lia]|].
  rewrite Nat2Z.inj_succ, Z.pow_succ_r in Hn by lia.
  destruct (IH (n / 10)) as (d & l & -> & Hd).
  { split; [apply Z.div_str_pos; lia|apply Z.div_lt_upper_bound; lia]. }
  by exists d, (l ++ [digit (n mod 10)]).
Qed.

Lemma sign_split_digit {A} d (neg pos plain : A) : 0 <= d < 10 →
  (if codeZ (digit d) =? 45 then neg else if codeZ (digit d) =? 43 then pos else plain) = plain.
Proof.
  intros Hd. rewrite codeZ_digit by done. by rewrite !(proj2 (Z.eqb_neq _ _)) by lia.
Qed.

Lemma Atoi_decimal n : 0 <= n <= max_int64 → Atoi (of_bytes (decimal 20 n)) = Some n.
Proof.
  intros Hn. unfold max_int64 in Hn. unfold Atoi. rewrite to_of_bytes.
  destruct (decimal_digits 20 n ltac:(lia) ltac:(lia)) as (ds & -> & Hds & Hne & <-).
  destruct Hds as [|d ds Hd Hds]; [done|]. rewrite fmap_cons.
  assert (∀ k, codeZ (digit d) ≠ Z.of_N k → code (digit d) ≠ k) as Hcode.
  { intros k Hk Heq. apply Hk. unfold codeZ. by rewrite Heq. }
  rewrite codeZ_digit in Hcode by done.
  rewrite decide_False by (apply Hcode; lia). rewrite decide_False by (apply Hcode; lia).
  rewrite <-fmap_cons, digits_value_digits by (by constructor). cbn [mbind option_bind].
  unfold digits_number in *. unfold min_int64, max_int64. set (v := foldl _ _ _) in *.
  by rewrite (proj2 (Z.leb_le _ _)), (proj2 (Z.leb_le _ _)) by lia.
Qed.

Lemma ParseInt_decimal n : 0 <= n <= max_int64 → ParseInt (of_bytes (decimal 20 n)) = Some n.
Proof.
  intros Hn. unfold max_int64 in Hn. unfold ParseInt. rewrite to_of_bytes.
  destruct (Z.eq_dec n 0) as [->|Hz]; [reflexivity|].
  destruct (decimal_head 20 n ltac:(lia)) as (h & t & Hhead & Hh).
  destruct (decimal_digits 20 n ltac:(lia) ltac:(lia)) as (ds & Hdec & Hds & Hne & Hv).
  rewrite Hhead, sign_split_digit by (done || lia).
  unfold parse_uint, base_prefix. rewrite codeZ_digit by lia. rewrite (proj2 (Z.eqb_neq _ _)) by lia.
  rewrite <-Hhead, Hdec, uint_digits_decimal; [|done|lia|].
  - cbn [andb]. change (foldl _ 0 ds) with (digits_number ds). rewrite Hv. cbv iota.
    by rewrite (proj2 (Z.leb_gt _ _)) by lia.
  - change (foldl _ 0 ds) with (digits_number ds). rewrite Hv. unfold max_uint64. lia.
Qed.

Lemma canonical_agree s : canonical s → ParseInt s = Atoi s.
Proof. intros (n & Hn & ->). by rewrite ParseInt_decimal, Atoi_decimal. Qed.

(** ** The profile *)
Section profile.
Context `{F : FloatParser}.

Lemma e2e_options_vars args o : e2e_options args = Ok o →
  ∃ v rest, Parse_flags e2e_flags args = Ok (v, rest) ∧ o = e2e_options_of v.
Proof.
  unfold e2e_options. destruct (Parse_flags _ _) as [[v rest]|]; [|done]. intros Ho. exists v, rest. split; [done|].
  revert Ho. generalize (e2e_options_of v). intros op. destruct (LogLevel _); [|done].
  repeat (destruct (negb _); [done|]). destruct (_ <=? _); [done|]. destruct (negb _); [done|].
  repeat (destruct (_ <? _); [done|]). by intros [= <-].
Qed.

(** A concurrency as both read it. *)
Lemma int_flag_agrees asg v name fallback n :
  plain_flag name → Forall (λ nv, plain_flag nv.1) asg →
  Forall (λ nv, nv.1 = name → canonical nv.2) asg → 0 <= fallback <= max_int64 →
  holds (IntValue fallback) (last_value name asg) (v !! name) →
  integerArgument (assign <$> asg) name fallback = Ok n → n = int_var v name.
Proof.
  intros Hname Hasg Hcan Hf Hv. unfold integerArgument. rewrite argumentValue_assign by done.
  assert (∀ s, last_value name asg = Some s → canonical s) as Hlast.
  { unfold last_value. assert (∀ acc, (∀ s, acc = Some s → canonical s) → ∀ s,
      foldl (λ acc nv, if bool_decide (nv.1 = name) then Some nv.2 else acc) acc asg = Some s → canonical s) as Hgen;
      [|by apply Hgen].
    clear -Hcan. induction Hcan as [|nv asg Hnv _ IH]; intros acc Hacc; [done|]. cbn [foldl]. apply IH.
    destruct (bool_decide_reflect (nv.1 = name)); [|done]. intros s [= <-]. auto. }
  unfold int_var. destruct (last_value name asg) as [s|]; cbn [default from_option id holds] in *.
  - destruct Hv as (new & -> & Hset). cbn [Set_value] in Hset. rewrite canonical_agree in Hset by auto.
    destruct (Atoi s) as [z|]; [|done]. injection Hset as <-. by intros [= <-].
  - rewrite Hv. unfold Itoa. rewrite (proj2 (Z.ltb_ge _ _)), Z.abs_eq by lia. cbn [app].
    rewrite Atoi_decimal by done. by intros [= <-].
Qed.

Lemma duration_flag_agrees asg v name fallback raw :
  plain_flag name → Forall (λ nv, plain_flag nv.1) asg →
  holds (DurationValue fallback) (last_value name asg) (v !! name) →
  raw = argumentValue (assign <$> asg) name "controller default" →
  (last_value name asg = None ∧ duration_var v name = fallback) ∨ ParseDuration raw = Some (duration_var v name).
Proof.
  intros Hname Hasg Hv ->. rewrite argumentValue_assign by done. unfold duration_var.
  destruct (last_value name asg) as [s|]; cbn [default from_option id holds] in *.
  - destruct Hv as (new & -> & Hset). cbn [Set_value] in Hset.
    destruct (ParseDuration s) eqn:Hs; [|done]. injection Hset as <-. by right.
  - rewrite Hv. by left.
Qed.

(** The profile that a benchmark reports is that of the controller it
    measures: for a Deployment whose controller takes --name=value arguments
    with plain decimal concurrencies, the reported concurrencies are the ones
    the controller's own flag parser reads (the last assignment counts), and the
    reported validity and window are texts of the durations it reads, or the
    defaults when they are not given. *)
Theorem profile_matches_controller asg d c o p now :
  controller_container d = Some c → container_Args c = assign <$> asg →
  Forall (λ nv, plain_flag nv.1) asg →
  Forall (λ nv, nv.1 ∈ ["max-concurrent-namespace-reconciles"; "max-concurrent-service-account-reconciles"] →
    canonical nv.2) asg →
  e2e_options (container_Args c) = Ok o → profileFromDeployment (Some d) now = Ok p →
  prof_Arguments p = container_Args c ∧ prof_Image p = container_Image c ∧
  NamespaceReconcileConcurrency p = NamespaceWorkers (e_settings o) ∧
  ServiceAccountReconcileConcurrency p = ServiceAccountWorkers (e_settings o) ∧
  (ParseDuration (TokenTTL p) = Some (e_mockTokenTTL o) ∨
   last_value "mock-token-ttl" asg = None ∧ e_mockTokenTTL o = defaultMockTokenTTL) ∧
  (ParseDuration (prof_RefreshBefore p) = Some (e_refreshBefore o) ∨
   last_value "credential-refresh-before" asg = None ∧ e_refreshBefore o = defaultRefreshBefore).
Proof.
  intros Hc Hargs Hasg Hcan Ho Hp. apply e2e_options_vars in Ho as (v & rest & Hparse & ->).
  rewrite Hargs in Hparse. apply Parse_flags_assign in Hparse as [_ Hvars]; [|done].
  unfold profileFromDeployment in Hp. rewrite Hc in Hp. cbn [from_option] in Hp. rewrite Hargs in Hp |- *.
  destruct (bool_decide _); [done|].
  destruct (integerArgument _ "max-concurrent-namespace-reconciles" _) as [n|] eqn:Hn; [|done].
  cbn [mbind result_bind] in Hp.
  destruct (integerArgument _ "max-concurrent-service-account-reconciles" _) as [a|] eqn:Ha; [|done].
  cbn [mbind result_bind] in Hp. injection Hp as <-.
  cbn [prof_Arguments prof_Image NamespaceReconcileConcurrency ServiceAccountReconcileConcurrency TokenTTL
    prof_RefreshBefore e2e_options_of e_settings NamespaceWorkers ServiceAccountWorkers e_mockTokenTTL e_refreshBefore].
  assert (∀ name old, e2e_flags !! name = Some old → holds old (last_value name asg) (v !! name)) as Hv by done.
  rewrite Forall_forall in Hcan.
  split; [done|]. split; [done|]. split; [|split; [|split]].
  - apply (int_flag_agrees asg v _ _ _) in Hn; [done|plain|done| |done|by apply Hv].
    apply Forall_forall. intros nv Hin Heq. apply Hcan; [done|]. rewrite Heq. set_solver.
  - apply (int_flag_agrees asg v _ _ _) in Ha; [done|plain|done| |done|by apply Hv].
    apply Forall_forall. intros nv Hin Heq. apply Hcan; [done|]. rewrite Heq. set_solver.
  - assert (e2e_flags !! "mock-token-ttl" = Some (DurationValue defaultMockTokenTTL)) as HX by (vm_compute; reflexivity).
    destruct (duration_flag_agrees asg v "mock-token-ttl" defaultMockTokenTTL _
      ltac:(plain) Hasg (Hv _ _ HX) eq_refl); auto.
  - assert (e2e_flags !! "credential-refresh-before" = Some (DurationValue defaultRefreshBefore)) as HX
      by (vm_compute; reflexivity).
    destruct (duration_flag_agrees asg v "credential-refresh-before" defaultRefreshBefore _
      ltac:(plain) Hasg (Hv _ _ HX) eq_refl); auto.
Qed.
End profile.

(** ** Examples *)
Module ProfileExample.
#[local] Existing Instance ParserExample.floats.

Definition asg : list (string * string) :=
  [("allow-mock-provider", "true"); ("mock-token-ttl", "1h"); ("max-concurrent-namespace-reconciles", "4");
   ("max-concurrent-namespace-reconciles", "16")].
Definition container : Container := MkContainer "controller" "registry.example/e2e:1" (assign <$> asg).
Definition deployment : Deployment := MkDeployment 3 (Some 1) [MkContainer "sidecar" "x" []; container].
Definition options : e2eOptions :=
  Eval vm_compute in match e2e_options (container_Args container) with Ok o => o | Err _ => e2e_options_of ∅ end.
Definition profile : controllerProfile :=
  Eval vm_compute in match profileFromDeployment (Some deployment) 7 with Ok p => p
    | Err _ => MkProfile 0 "" [] 0 0 0 false 0 0 "" "" "" "" end.

(** An octal text that the two read differently: eight, and ten. *)
Example octal : Atoi "010" = Some 10 ∧ ParseInt "010" = Some 8.
Proof. split; reflexivity. Qed.

Lemma profile_matches_controller_witness :
  e2e_options (container_Args container) = Ok options ∧ profileFromDeployment (Some deployment) 7 = Ok profile ∧
  NamespaceReconcileConcurrency profile = NamespaceWorkers (e_settings options).
Proof.
  assert (Forall (λ nv, plain_flag nv.1) asg) as Hasg.
  { apply Forall_forall. intros nv Hin. repeat (apply elem_of_cons in Hin as [->|Hin]; [plain|]).
    by apply elem_of_nil in Hin. }
  assert (Forall (λ nv, nv.1 ∈ ["max-concurrent-namespace-reconciles"; "max-concurrent-service-account-reconciles"] →
    canonical nv.2) asg) as Hcan.
  { apply Forall_forall. intros nv Hin. repeat (apply elem_of_cons in Hin as [->|Hin]; [cbn [fst snd]|]);
      [intros Hb; exfalso|intros Hb; exfalso| | |by apply elem_of_nil in Hin].
    1,2: repeat (apply elem_of_cons in Hb as [Hb|Hb]; [discriminate|]); by apply elem_of_nil in Hb.
    all: intros _.
    - exists 4. split; [split; discriminate|reflexivity].
    - exists 16. split; [split; discriminate|reflexivity]. }
  assert (e2e_options (container_Args container) = Ok options) as Ho by (vm_compute; reflexivity).
  assert (profileFromDeployment (Some deployment) 7 = Ok profile) as Hp by (vm_compute; reflexivity).
  split; [exact Ho|]. split; [exact Hp|].
  exact (proj1 (proj2 (proj2 (profile_matches_controller asg deployment container options profile 7
    eq_refl eq_refl Hasg Hcan Ho Hp)))).
Defined.
End ProfileExample.
