(* ===== verification/PerfBenchmark.v ===== *)
(** * A benchmark run (cmd/perf-driver/main.go: runBenchmark)

    The run as a program over the driver's own stages; its deferred functions
    run on every way out.  An error is its text.  The elapsed times, the
    summaries and the profile are the answers of the calls that produce them. *)
From S2P Require Import Prelude Prog GoStrings ConfigTypes Encoding Rfc3339 Credential GoFloat GoDuration.
From S2P Require Import Validation ConfigTypes ConfigParser PerfOptions PerfProfile Tracker.
Local Open Scope Z_scope.

(** ** Log diagnostics *)
Record diagnosticsSummary := MkDiagnostics {
  ControllerLogBytes : nat;
  ControllerErrorLogLines : nat;
  ControllerLogComplete : bool;
  ControllerLogWarning : string;
  CollectionError : string
}.

(** [bytes.Count] of a pattern that is not empty: occurrences that do not overlap. *)
Fixpoint count_from (fuel : nat) (l p : bytes) : nat :=
  match fuel, l with
  | O, _ | _, [] => 0
  | S fuel, _ :: l' => if has_prefix p l then S (count_from fuel (drop (length p) l) p) else count_from fuel l' p
  end.
Definition Count (l p : bytes) : nat := count_from (length l) l p.

Definition quote : string := of_bytes [chr 34].
(** ["key":"value"] *)
Definition quoted (key value : string) : bytes :=
  to_bytes (quote +:+ key +:+ quote +:+ ":" +:+ quote +:+ value +:+ quote).

Definition summarizeControllerLogs (data : bytes) : diagnosticsSummary :=
  let complete := contains data (quoted "msg" "starting E2E controller manager with mock provider") in
  MkDiagnostics (length data) (Count data (quoted "level" "error") + Count data (quoted "level" "ERROR"))
    complete
    (if negb (bool_decide (data = [])) && negb complete
     then "startup marker absent; Kubernetes container log rotation may have truncated earlier lines" else "")
    "".

(** ** The calls of a run *)
Inductive run_context := RunCtx | CleanupCtx.
#[export] Instance run_context_eq_dec : EqDecision run_context.
Proof. solve_decision. Defined.

Section benchmark.
Context {resourceSummary : Type} (no_resources : resourceSummary).

Definition mutationOutcome : Type := mutationSummary * option string.

Record benchmarkSummary := MkBenchmarkSummary {
  SchemaVersion : Z;
  RunID : string;
  DatasetID : string;
  bs_NamespaceCount : Z;
  ServiceAccountCount : Z;
  bs_StartedAt : Time;
  FinishedAt : Time;
  SetupSeconds : float64;
  CleanupSeconds : float64;
  Initial : option phaseSummary;
  Expiry : option phaseSummary;
  Resources : resourceSummary;
  Diagnostics : diagnosticsSummary;
  ControllerProfile : controllerProfile;
  ConcurrentMutation : option mutationSummary;
  EnvironmentNote : string;
  bs_Success : bool;
  Error : string
}.


Inductive benchE : Type → Type :=
| Now : benchE Time
| ReadControllerProfile : benchE (result string controllerProfile)
| SetDeploymentReplicas (ctx : run_context) (replicas : Z) : benchE (result string ())
| WaitForControllerPods (ctx : run_context) (wantReady : bool) : benchE (result string ())
| CleanupRun (dataset : string) : benchE (result string ())
| ValidateReusableDataset (dataset : string) (count : Z) : benchE (result string ())
| CollectControllerLogs : benchE (diagnosticsSummary * option string)
| PrepareWorkload (dataset : string) (namespaces : list string) : benchE (result string ())
| ResetManagedSecrets (namespaces : list string) : benchE (result string ())
| ConfigureTargets (namespaces accounts : list string) : benchE (result string ())
| StartObserver (selector : string) : benchE (result string ())
| StopObservers : benchE ()
| NewResourceRecorder : benchE (result string ())
| ResourceSummary : benchE resourceSummary
| StartPhase (kind : phaseKind) (startedAt : Time) : benchE ()
| WaitForPhase (kind : phaseKind) (timeout : Duration) : benchE (result string ())
| SummarizePhase (kind : phaseKind) : benchE phaseSummary
| Settle : benchE (result string ())
| StartMutation : benchE ()
| CancelMutation : benchE ()
| ReceiveMutation : benchE mutationOutcome
| AdvanceControllerClock (duration : Duration) : benchE (result string ())
| VerifyFinalState (namespaces : list string) (selector : string) : benchE (result string ())
| VerifyConcurrentMutation (summary : mutationSummary) : benchE (result string ())
| NewClientset (kubeconfig contextName : string) (QPS : float64) (Burst : Z) : benchE (result string ())
| MkdirAll (path : string) : benchE (result string ())
| WriteSummary (summary : benchmarkSummary) : benchE (result string ()).

Definition zero_profile : controllerProfile :=
  MkProfile 0 "" [] 0 (unix_nano zero_time) (unix_nano zero_time) false 0 0 "" "" "" "".
Definition no_diagnostics : diagnosticsSummary := MkDiagnostics 0 0 false "" "".
Definition new_summary (o : perfOptions) (now : Time) : benchmarkSummary :=
  MkBenchmarkSummary 2 (runID o) (datasetID o) (namespaceCount o)
    (namespaceCount o * Z.of_nat (length targetServiceAccounts)) now (unix_nano zero_time) zero_float zero_float None None
    no_resources no_diagnostics zero_profile None (environmentNote o) false "".

(** The fields that a run assigns. *)
Definition set_profile (p : controllerProfile) (s : benchmarkSummary) : benchmarkSummary :=
  MkBenchmarkSummary (SchemaVersion s) (RunID s) (DatasetID s) (bs_NamespaceCount s) (ServiceAccountCount s)
    (bs_StartedAt s) (FinishedAt s) (SetupSeconds s) (CleanupSeconds s) (Initial s) (Expiry s) (Resources s) (Diagnostics s)
    p (ConcurrentMutation s) (EnvironmentNote s) (bs_Success s) (Error s).
Definition set_seconds (setup cleanup : float64) (s : benchmarkSummary) : benchmarkSummary :=
  MkBenchmarkSummary (SchemaVersion s) (RunID s) (DatasetID s) (bs_NamespaceCount s) (ServiceAccountCount s)
    (bs_StartedAt s) (FinishedAt s) setup cleanup (Initial s) (Expiry s) (Resources s) (Diagnostics s)
    (ControllerProfile s) (ConcurrentMutation s) (EnvironmentNote s) (bs_Success s) (Error s).
Definition set_phase (k : phaseKind) (p : phaseSummary) (s : benchmarkSummary) : benchmarkSummary :=
  MkBenchmarkSummary (SchemaVersion s) (RunID s) (DatasetID s) (bs_NamespaceCount s) (ServiceAccountCount s)
    (bs_StartedAt s) (FinishedAt s) (SetupSeconds s) (CleanupSeconds s)
    (match k with initialPhase => Some p | expiryPhase => Initial s end)
    (match k with initialPhase => Expiry s | expiryPhase => Some p end) (Resources s) (Diagnostics s)
    (ControllerProfile s) (ConcurrentMutation s) (EnvironmentNote s) (bs_Success s) (Error s).
Definition set_records (r : resourceSummary) (d : diagnosticsSummary) (s : benchmarkSummary) : benchmarkSummary :=
  MkBenchmarkSummary (SchemaVersion s) (RunID s) (DatasetID s) (bs_NamespaceCount s) (ServiceAccountCount s)
    (bs_StartedAt s) (FinishedAt s) (SetupSeconds s) (CleanupSeconds s) (Initial s) (Expiry s) r d
    (ControllerProfile s) (ConcurrentMutation s) (EnvironmentNote s) (bs_Success s) (Error s).
Definition set_mutation (m : mutationSummary) (s : benchmarkSummary) : benchmarkSummary :=
  MkBenchmarkSummary (SchemaVersion s) (RunID s) (DatasetID s) (bs_NamespaceCount s) (ServiceAccountCount s)
    (bs_StartedAt s) (FinishedAt s) (SetupSeconds s) (CleanupSeconds s) (Initial s) (Expiry s) (Resources s) (Diagnostics s)
    (ControllerProfile s) (Some m) (EnvironmentNote s) (bs_Success s) (Error s).
Definition set_success (b : bool) (s : benchmarkSummary) : benchmarkSummary :=
  MkBenchmarkSummary (SchemaVersion s) (RunID s) (DatasetID s) (bs_NamespaceCount s) (ServiceAccountCount s)
    (bs_StartedAt s) (FinishedAt s) (SetupSeconds s) (CleanupSeconds s) (Initial s) (Expiry s) (Resources s) (Diagnostics s)
    (ControllerProfile s) (ConcurrentMutation s) (EnvironmentNote s) b (Error s).

Definition set_finished (now : Time) (err : option string) (s : benchmarkSummary) : benchmarkSummary :=
  MkBenchmarkSummary (SchemaVersion s) (RunID s) (DatasetID s) (bs_NamespaceCount s) (ServiceAccountCount s)
    (bs_StartedAt s) now (SetupSeconds s) (CleanupSeconds s) (Initial s) (Expiry s) (Resources s) (Diagnostics s)
    (ControllerProfile s) (ConcurrentMutation s) (EnvironmentNote s) (bs_Success s)
    (match err with Some e => e | None => Error s end).

Definition set_trigger (text : string) (p : controllerProfile) : controllerProfile :=
  MkProfile (prof_Replicas p) (prof_Image p) (prof_Arguments p) (prof_DeploymentGeneration p) (prof_ObservedAt p)
    (prof_VerifiedAt p) (prof_ConfigurationStable p) (NamespaceReconcileConcurrency p)
    (ServiceAccountReconcileConcurrency p) (RESTClientRateLimit p) (TokenTTL p) (prof_RefreshBefore p) text.
Definition set_verified (generation : Z) (verifiedAt : Time) (p : controllerProfile) : controllerProfile :=
  MkProfile (prof_Replicas p) (prof_Image p) (prof_Arguments p) generation (prof_ObservedAt p)
    verifiedAt true (NamespaceReconcileConcurrency p)
    (ServiceAccountReconcileConcurrency p) (RESTClientRateLimit p) (TokenTTL p) (prof_RefreshBefore p) (ExpiryTrigger p).

(** ** The run *)
#[local] Abbreviation run_result := (benchmarkSummary * option string)%type.
Definition fail (s : benchmarkSummary) (e : string) : prog benchE run_result := Ret (s, Some e).
Definition fail_as (s : benchmarkSummary) (what e : string) : prog benchE run_result := Ret (s, Some (what +:+ ": " +:+ e)).

(** When a mutation runs: cancel it and keep its summary. *)
Definition abandon_mutation (o : perfOptions) (s : benchmarkSummary) : prog benchE benchmarkSummary :=
  if injectDuringExpiry o then
    _ ← call CancelMutation; outcome ← call ReceiveMutation; Ret (set_mutation outcome.1 s)
  else Ret s.

(** The checks after the expiry phase; [mutation] is the outcome's summary. *)
Definition verify_run (o : perfOptions) (profile : controllerProfile) (mutation : option mutationSummary)
    (s : benchmarkSummary) : prog benchE run_result :=
  try (call ReadControllerProfile) (fail s) (λ verified,
  if negb (bool_decide (prof_Image profile = prof_Image verified)
           && bool_decide (prof_Arguments profile = prof_Arguments verified))
  then fail s "performance controller image or arguments changed during benchmark" else
  let s := set_profile (set_verified (prof_DeploymentGeneration verified) (prof_ObservedAt verified)
             (ControllerProfile s)) s in
  try (call (VerifyFinalState (namespaceNames (datasetID o) (namespaceCount o))
        (performanceRunLabel +:+ "=" +:+ datasetID o))) (fail s) (λ _,
  match mutation with
  | Some m => try (call (VerifyConcurrentMutation m)) (fail s) (λ _, Ret (set_success true s, None))
  | None => Ret (set_success true s, None)
  end)).

(** From the trigger on. *)
Definition expiry_triggered (o : perfOptions) (profile : controllerProfile) (s : benchmarkSummary) :
    prog benchE run_result :=
  try (call (AdvanceControllerClock (clockAdvance o))) (λ e, s ← abandon_mutation o s; fail s e) (λ _,
  try (call (WaitForPhase expiryPhase (expiryTimeout o)))
    (λ e, partial ← call (SummarizePhase expiryPhase);
          s ← abandon_mutation o (set_phase expiryPhase partial s); fail s e) (λ _,
  expirySummary ← call (SummarizePhase expiryPhase);
  let s := set_phase expiryPhase expirySummary s in
  if injectDuringExpiry o then
    outcome ← call ReceiveMutation;
    _ ← call CancelMutation;
    let s := set_mutation outcome.1 s in
    match outcome.2 with
    | Some e => fail s e
    | None => verify_run o profile (Some outcome.1) s
    end
  else verify_run o profile None s)).

Definition expiry_phase (o : perfOptions) (profile : controllerProfile) (s : benchmarkSummary) :
    prog benchE run_result :=
  expiryStarted ← call Now;
  _ ← call (StartPhase expiryPhase expiryStarted);
  _ ← (if injectDuringExpiry o then call StartMutation else Ret tt);
  expiry_triggered o profile s.

Definition initial_phase (o : perfOptions) (profile : controllerProfile) (s : benchmarkSummary) :
    prog benchE run_result :=
  initialStarted ← call Now;
  _ ← call (StartPhase initialPhase initialStarted);
  try (call (SetDeploymentReplicas RunCtx 1)) (fail_as s "start performance controller") (λ _,
  try (call (WaitForPhase initialPhase (initialTimeout o)))
    (λ e, partial ← call (SummarizePhase initialPhase); fail (set_phase initialPhase partial s) e) (λ _,
  initialSummary ← call (SummarizePhase initialPhase);
  let s := set_phase initialPhase initialSummary s in
  try (call (WaitForControllerPods RunCtx true)) (fail s) (λ _,
  try (call Settle) (fail s) (λ _, expiry_phase o profile s)))).

(** From the observers on: the resource summary and the end of the observers are
    deferred. *)
Definition observed_run (o : perfOptions) (profile : controllerProfile) (setupStarted : Time)
    (s : benchmarkSummary) : prog benchE run_result :=
  '(s, err) ←
    try (call (StartObserver (performanceRunLabel +:+ "=" +:+ datasetID o))) (fail s) (λ _,
    try (call NewResourceRecorder) (fail s) (λ _,
    now ← call Now;
    let s := set_seconds (Seconds (time_Sub now setupStarted)) (CleanupSeconds s) s in
    '(s, err) ← initial_phase o profile s;
    r ← call ResourceSummary;
    Ret (set_records r (Diagnostics s) s, err)));
  _ ← call StopObservers;
  Ret (s, err).

Definition measured_run (o : perfOptions) (profile : controllerProfile) (s : benchmarkSummary) :
    prog benchE run_result :=
  let namespaces := namespaceNames (datasetID o) (namespaceCount o) in
  setupStarted ← call Now;
  try (call (PrepareWorkload (datasetID o) namespaces)) (fail_as s "prepare workload") (λ _,
  try (call (ResetManagedSecrets namespaces)) (fail_as s "reset managed Secrets") (λ _,
  try (call (ConfigureTargets (configured_namespaces o) (configured_accounts o))) (fail_as s "configure targets") (λ _,
  observed_run o profile setupStarted s))).

(** The deferred cleanup: in its own context, each step only when the one before
    succeeded; an error joins the error of the run. *)
Definition cleanup_steps (o : perfOptions) : prog benchE (result string ()) :=
  try (call (SetDeploymentReplicas CleanupCtx 0)) (λ e, Ret (Err e)) (λ _,
  try (call (WaitForControllerPods CleanupCtx false)) (λ e, Ret (Err e)) (λ _,
  if retainDataset o then Ret (Ok tt) else call (CleanupRun (datasetID o)))).

Definition deferred_cleanup (o : perfOptions) (r : run_result) : prog benchE run_result :=
  let '(s, returnErr) := r in
  cleanupStarted ← call Now;
  '(diagnostics, diagnosticsErr) ← call CollectControllerLogs;
  let diagnostics := match diagnosticsErr with
    | Some e => MkDiagnostics (ControllerLogBytes diagnostics) (ControllerErrorLogLines diagnostics)
                  (ControllerLogComplete diagnostics) (ControllerLogWarning diagnostics) e
    | None => diagnostics
    end in
  let s := set_records (Resources s) diagnostics s in
  cleanup ← cleanup_steps o;
  now ← call Now;
  let s := set_seconds (SetupSeconds s) (Seconds (time_Sub now cleanupStarted)) s in
  match cleanup with
  | Ok _ => Ret (s, returnErr)
  | Err e =>
    let e := "cleanup benchmark resources: " +:+ e in
    Ret (set_success false s,
      Some (match returnErr with None => e | Some returned => returned +:+ newline +:+ e end))
  end.

(** The dataset before the run: emptied, or reused when it fits. *)
Definition prepare_dataset (o : perfOptions) : prog benchE (result string ()) :=
  if negb (reuseDataset o) then
    try (call (CleanupRun (datasetID o))) (λ e, Ret (Err ("clean stale run resources: " +:+ e))) (λ _, Ret (Ok tt))
  else call (ValidateReusableDataset (datasetID o) (namespaceCount o)).

Definition runBenchmark (o : perfOptions) : prog benchE run_result :=
  startedAt ← call Now;
  let s := new_summary o startedAt in
  try (call ReadControllerProfile) (fail s) (λ profile,
  let profile := set_trigger ("fake clock advanced " +:+ Duration_String (clockAdvance o)
    +:+ "; real scheduler and Kubernetes writes") profile in
  let s := set_profile profile s in
  try (call (SetDeploymentReplicas RunCtx 0)) (fail s) (λ _,
  try (call (WaitForControllerPods RunCtx false)) (fail s) (λ _,
  try (prepare_dataset o) (fail s) (λ _,
  r ← measured_run o profile s;
  if keepResources o then Ret r else deferred_cleanup o r)))).

Definition cleanupOnly_run (o : perfOptions) : prog benchE (result string ()) :=
  try (call (SetDeploymentReplicas RunCtx 0)) (λ e, Ret (Err e)) (λ _,
  try (call (WaitForControllerPods RunCtx false)) (λ e, Ret (Err e)) (λ _,
  call (CleanupRun (datasetID o)))).

(** [main]: the exit status. *)
Definition main_after (o : perfOptions) : prog benchE Z :=
  try (call (NewClientset (kubeconfig o) (contextName o) (clientQPS o) (clientBurst o))) (λ _, Ret 1) (λ _,
  if cleanupOnly o then try (cleanupOnly_run o) (λ _, Ret 1) (λ _, Ret 0) else
  try (call (MkdirAll (outputDirectory o))) (λ _, Ret 1) (λ _,
  '(summary, runErr) ← runBenchmark o;
  now ← call Now;
  written ← call (WriteSummary (set_finished now runErr summary));
  let runErr := match written, runErr with Err e, None => Some e | _, _ => runErr end in
  Ret (if runErr is Some _ then 1 else 0))).

Definition perf_main `{FloatParser} `{DNSValidation} (arguments : list string) : prog benchE Z :=
  match parseOptions arguments with
  | Err _ => Ret 2
  | Ok o => main_after o
  end.

(** ** The trace of a run *)
Inductive bench_event :=
| EProfile (ok : bool)
| EReplicas (ctx : run_context) (replicas : Z) (ok : bool)
| EPods (ctx : run_context) (wantReady ok : bool)
| ECleanup (dataset : string) (ok : bool)
| EReuse (ok : bool)
| ELogs
| EPrepare (dataset : string) (namespaces : list string) (ok : bool)
| EReset (namespaces : list string) (ok : bool)
| ETargets (namespaces accounts : list string) (ok : bool)
| EObserver (ok : bool)
| EObserversStopped
| ERecorder (ok : bool)
| EPhaseStarted (kind : phaseKind)
| EPhase (kind : phaseKind) (ok : bool)
| ESettle (ok : bool)
| EMutationStarted
| EMutationCancelled
| EMutationReceived (ok : bool)
| EAdvance (duration : Duration) (ok : bool)
| EVerify (namespaces : list string) (ok : bool)
| EVerifyMutation (ok : bool)
| EClient (ok : bool)
| EDirectory (ok : bool)
| EWritten (success : bool) (error : string) (ok : bool).

Definition bench_event_of {X} (e : benchE X) : X → list bench_event :=
  match e in benchE X return X → list bench_event with
  | Now | ResourceSummary | SummarizePhase _ => λ _, []
  | ReadControllerProfile => λ r, [EProfile (is_ok r)]
  | SetDeploymentReplicas c n => λ r, [EReplicas c n (is_ok r)]
  | WaitForControllerPods c w => λ r, [EPods c w (is_ok r)]
  | CleanupRun d => λ r, [ECleanup d (is_ok r)]
  | ValidateReusableDataset _ _ => λ r, [EReuse (is_ok r)]
  | CollectControllerLogs => λ _, [ELogs]
  | PrepareWorkload d ns => λ r, [EPrepare d ns (is_ok r)]
  | ResetManagedSecrets ns => λ r, [EReset ns (is_ok r)]
  | ConfigureTargets ns sa => λ r, [ETargets ns sa (is_ok r)]
  | StartObserver _ => λ r, [EObserver (is_ok r)]
  | StopObservers => λ _, [EObserversStopped]
  | NewResourceRecorder => λ r, [ERecorder (is_ok r)]
  | StartPhase k _ => λ _, [EPhaseStarted k]
  | WaitForPhase k _ => λ r, [EPhase k (is_ok r)]
  | Settle => λ r, [ESettle (is_ok r)]
  | StartMutation => λ _, [EMutationStarted]
  | CancelMutation => λ _, [EMutationCancelled]
  | ReceiveMutation => λ o, [EMutationReceived (bool_decide (o.2 = None))]
  | AdvanceControllerClock d => λ r, [EAdvance d (is_ok r)]
  | VerifyFinalState ns _ => λ r, [EVerify ns (is_ok r)]
  | VerifyConcurrentMutation _ => λ r, [EVerifyMutation (is_ok r)]
  | NewClientset _ _ _ _ => λ r, [EClient (is_ok r)]
  | MkdirAll _ => λ r, [EDirectory (is_ok r)]
  | WriteSummary s => λ r, [EWritten (bs_Success s) (Error s) (is_ok r)]
  end.

(** Every call may answer anything. *)
Definition bench_exec (X : Type) (e : benchE X) (log : list bench_event) (x : X) (log' : list bench_event) : Prop :=
  log' = log ++ bench_event_of e x.
End benchmark.
