(* ===== verification/PerfBenchmarkCorrect.v ===== *)
(** * Correctness of a benchmark run

    Whatever the stages answer: a run says success exactly when it returns no
    error, and then it did every stage in order; and every way out of a run that
    touched the cluster goes through the cleanup. *)
From S2P Require Import Prelude Prog GoStrings ConfigTypes Encoding Rfc3339 Credential GoFloat GoDuration.
From S2P Require Import Validation ConfigParser PerfOptions PerfProfile Tracker PerfBenchmark.
Local Open Scope Z_scope.

Section benchmark.
Context {resourceSummary : Type} (no_resources : resourceSummary).
#[local] Abbreviation prog_ := (prog (@benchE resourceSummary)).
#[local] Abbreviation run_result := (@benchmarkSummary resourceSummary * option string)%type.

(** ** Stepping through a run *)
Lemma wp_try_call {A B} (e : benchE (result string A)) (on_err : string → prog_ B) (k : A → prog_ B) l Φ :
  (∀ m, wp bench_exec (on_err m) (l ++ bench_event_of e (Err m)) Φ) →
  (∀ a, wp bench_exec (k a) (l ++ bench_event_of e (Ok a)) Φ) →
  wp bench_exec (try (call e) on_err k) l Φ.
Proof. intros He Hk. cbn. intros [a|m] ? ->; [apply Hk|apply He]. Qed.

Lemma wp_call_bind {A B} (e : benchE A) (k : A → prog_ B) l Φ :
  (∀ a, wp bench_exec (k a) (l ++ bench_event_of e a) Φ) → wp bench_exec (a ← call e; k a) l Φ.
Proof. intros Hk. cbn. intros a ? ->. apply Hk. Qed.

Ltac bench_step :=
  first [apply wp_try_call; [intros ?m|intros ?a] | apply wp_call_bind; intros ?a];
  cbn [bench_event_of is_ok]; rewrite <-?app_assoc, ?app_nil_r; cbn [app].

(** Two traces that differ in their grouping. *)
Ltac trace_eq := cbn [app]; repeat (rewrite <-!app_assoc; cbn [app]); reflexivity.

(** ** Success *)
Definition when {A} (b : bool) (l : list A) : list A := if b then l else [].
Definition verify_log (o : perfOptions) : list bench_event :=
  [EProfile true; EVerify (namespaceNames (datasetID o) (namespaceCount o)) true]
  ++ when (injectDuringExpiry o) [EVerifyMutation true].
Definition expiry_log (o : perfOptions) : list bench_event :=
  EPhaseStarted expiryPhase :: when (injectDuringExpiry o) [EMutationStarted]
  ++ [EAdvance (clockAdvance o) true; EPhase expiryPhase true]
  ++ when (injectDuringExpiry o) [EMutationReceived true; EMutationCancelled] ++ verify_log o.
Definition initial_log (o : perfOptions) : list bench_event :=
  [EPhaseStarted initialPhase; EReplicas RunCtx 1 true; EPhase initialPhase true; EPods RunCtx true true; ESettle true]
  ++ expiry_log o.
Definition measured_log (o : perfOptions) : list bench_event :=
  let namespaces := namespaceNames (datasetID o) (namespaceCount o) in
  [EPrepare (datasetID o) namespaces true; EReset namespaces true;
   ETargets (configured_namespaces o) (configured_accounts o) true; EObserver true; ERecorder true]
  ++ initial_log o ++ [EObserversStopped].
Definition cleanup_log (o : perfOptions) : list bench_event :=
  [ELogs; EReplicas CleanupCtx 0 true; EPods CleanupCtx false true]
  ++ when (negb (retainDataset o)) [ECleanup (datasetID o) true].
(** The stages of a run that succeeds. *)
Definition success_log (o : perfOptions) : list bench_event :=
  [EProfile true; EReplicas RunCtx 0 true; EPods RunCtx false true;
   if reuseDataset o then EReuse true else ECleanup (datasetID o) true]
  ++ measured_log o ++ when (negb (keepResources o)) (cleanup_log o).

(** A summary that no verdict was written to. *)
Definition fresh (s : @benchmarkSummary resourceSummary) : Prop := bs_Success s = false ∧ Error s = "".

(** The verdict: success is no error, and then the trace went on by [tail]. *)
Definition verdict (l tail : list bench_event) (r : run_result) (log : list bench_event) : Prop :=
  Error r.1 = "" ∧ (bs_Success r.1 = true ↔ r.2 = None) ∧ (r.2 = None → log = l ++ tail).

Lemma verdict_fail l tail (s : @benchmarkSummary resourceSummary) e log :
  fresh s → verdict l tail (s, Some e) log.
Proof. intros [Hs He]. split; [done|]. split; cbn [fst snd]; [rewrite Hs; by split|done]. Qed.
Lemma verdict_success l tail (s : @benchmarkSummary resourceSummary) log :
  Error s = "" → bs_Success s = true → log = l ++ tail → verdict l tail (s, None) log.
Proof. intros He Hs Hl. split; [done|]. split; cbn [fst snd]; [rewrite Hs; by split|done]. Qed.
(** A stage that hands over to a stage with a verdict. *)
Lemma verdict_step l l' tail tail' r log :
  verdict l' tail' r log → l' ++ tail' = l ++ tail → verdict l tail r log.
Proof. intros (He & Hv & Hl) Heq. split; [done|]. split; [done|]. intros Hr. by rewrite (Hl Hr). Qed.

Ltac failed := apply verdict_fail; done.

Lemma verify_run_verdict o p m s l : fresh s → is_Some m ↔ injectDuringExpiry o = true →
  wp bench_exec (verify_run o p m s) l (verdict l (verify_log o)).
Proof.
  intros Hs Hm. unfold verify_run. bench_step; [failed|].
  destruct (negb _); [failed|]. bench_step; [failed|].
  destruct m as [m|].
  - bench_step; [failed|]. apply verdict_success; [apply Hs|done|].
    unfold verify_log. by rewrite (proj1 Hm (mk_is_Some _ _ eq_refl)).
  - apply verdict_success; [apply Hs|done|]. unfold verify_log.
    destruct (injectDuringExpiry o); [by destruct (proj2 Hm eq_refl)|done].
Qed.

Lemma abandon_verdict o s tail l l0 e : fresh s →
  wp bench_exec (s ← abandon_mutation o s; fail s e) l (verdict l0 tail).
Proof. intros Hs. unfold abandon_mutation. destruct (injectDuringExpiry o); [do 2 bench_step|]; failed. Qed.

Lemma expiry_triggered_verdict o p s l : fresh s →
  wp bench_exec (expiry_triggered o p s)
    (l ++ [EPhaseStarted expiryPhase] ++ when (injectDuringExpiry o) [EMutationStarted]) (verdict l (expiry_log o)).
Proof.
  intros Hs. unfold expiry_triggered. bench_step; [by apply abandon_verdict|].
  bench_step; [bench_step; by apply abandon_verdict|]. bench_step.
  assert (∀ m s' mid, fresh s' → is_Some m ↔ injectDuringExpiry o = true →
    mid = when (injectDuringExpiry o) [EMutationReceived true; EMutationCancelled] →
    wp bench_exec (verify_run o p m s') (l ++ EPhaseStarted expiryPhase :: when (injectDuringExpiry o) [EMutationStarted]
      ++ EAdvance (clockAdvance o) true :: EPhase expiryPhase true :: mid) (verdict l (expiry_log o))) as Hverify.
  { intros m s' mid Hs' Hm ->. eapply wp_mono; [|by apply verify_run_verdict]. intros r log Hv.
    apply (verdict_step _ _ _ _ _ _ Hv). unfold expiry_log. trace_eq. }
  destruct (injectDuringExpiry o) eqn:Hi.
  - bench_step. bench_step. match goal with |- context [match ?x with Some _ => _ | None => _ end] => destruct x eqn:He end;
      [failed|]. by apply (Hverify (Some _) _ [EMutationReceived true; EMutationCancelled]).
  - apply (Hverify None _ []); [done|by split; [intros []|]|done].
Qed.

Lemma expiry_phase_verdict o p s l : fresh s →
  wp bench_exec (expiry_phase o p s) l (verdict l (expiry_log o)).
Proof.
  intros Hs. unfold expiry_phase. do 2 bench_step. pose proof (expiry_triggered_verdict o p s l Hs) as Hrest.
  destruct (injectDuringExpiry o); [bench_step|cbn [mbind prog_bind prog_bind_def]]; exact Hrest.
Qed.

Lemma initial_phase_verdict o p s l : fresh s →
  wp bench_exec (initial_phase o p s) l (verdict l (initial_log o)).
Proof.
  intros Hs. unfold initial_phase. do 2 bench_step. bench_step; [failed|]. bench_step; [bench_step; failed|].
  bench_step. bench_step; [failed|]. bench_step; [failed|].
  eapply wp_mono; [|by apply expiry_phase_verdict]. intros r log Hv.
  apply (verdict_step _ _ _ _ _ _ Hv). unfold initial_log. trace_eq.
Qed.

Lemma measured_run_verdict o p s l : fresh s →
  wp bench_exec (measured_run o p s) l (verdict l (measured_log o)).
Proof.
  intros Hs. unfold measured_run, observed_run. bench_step. do 3 (bench_step; [failed|]). apply wp_bind.
  assert (∀ s' e l', fresh s' → wp bench_exec (_ ← call StopObservers; Ret (s', Some e)) l'
    (verdict l (measured_log o))) as Hstop by (intros; bench_step; failed).
  bench_step; [by apply Hstop|]. bench_step; [by apply Hstop|]. bench_step. apply wp_bind.
  eapply wp_mono; [|by apply initial_phase_verdict]. intros [s' err] log (He & Hv & Hl). cbn [fst snd] in He, Hv, Hl.
  bench_step. bench_step. split; [done|]. split; [done|]. intros Hr. rewrite (Hl Hr). unfold measured_log. trace_eq.
Qed.

Lemma cleanup_steps_log o l :
  wp bench_exec (cleanup_steps (resourceSummary := resourceSummary) o) l (λ r log, r = Ok tt →
    log = l ++ [EReplicas CleanupCtx 0 true; EPods CleanupCtx false true]
      ++ when (negb (retainDataset o)) [ECleanup (datasetID o) true]).
Proof.
  unfold cleanup_steps. do 2 (bench_step; [done|]). destruct (retainDataset o); [done|].
  cbn. intros [[]|m] ? ->; [|done]. intros _. trace_eq.
Qed.

Lemma runBenchmark_verdict o l :
  wp bench_exec (runBenchmark no_resources o) l (verdict l (success_log o)).
Proof.
  unfold runBenchmark. bench_step. do 3 (bench_step; [failed|]).
  assert (∀ profile s l', fresh s →
    wp bench_exec (r ← measured_run o profile s; if keepResources o then Ret r else deferred_cleanup o r) l'
      (verdict l' (measured_log o ++ when (negb (keepResources o)) (cleanup_log o)))) as Hmain.
  { intros profile s l' Hs. apply wp_bind. eapply wp_mono; [|by apply measured_run_verdict].
    intros [s' err] log (He & Hv & Hl). cbn [fst snd] in He, Hv, Hl.
    destruct (keepResources o); [split; [done|]; by split; rewrite ?app_nil_r|].
    unfold deferred_cleanup. bench_step. bench_step.
    lazymatch goal with p : _ * option string |- _ => destruct p as [d derr] end. apply wp_bind.
    eapply wp_mono; [|apply cleanup_steps_log]. intros c log' Hc. bench_step. destruct c as [[]|e].
    - split; [done|]. split; [done|]. intros Hr. rewrite (Hc eq_refl). cbn [fst snd] in Hr. rewrite (Hl Hr).
      unfold cleanup_log. trace_eq.
    - split; [done|]. split; cbn; [by split|done]. }
  unfold prepare_dataset. destruct (reuseDataset o) eqn:Hre; cbn [negb]; [|apply wp_bind]; (bench_step; [failed|]).
  all: try (lazymatch goal with |- wp _ (Ret ?a) ?l ?Φ => change (Φ a l) end).
  all: cbv beta iota; eapply wp_mono; [|by apply Hmain]; intros r log Hv; apply (verdict_step _ _ _ _ _ _ Hv).
  all: unfold success_log; rewrite Hre; trace_eq.
Qed.

(** ** The process *)
(** What the exit status 0 says was done. *)
Definition process_log (o : perfOptions) : list bench_event :=
  EClient true ::
  (if cleanupOnly o then [EReplicas RunCtx 0 true; EPods RunCtx false true; ECleanup (datasetID o) true]
   else EDirectory true :: success_log o ++ [EWritten true "" true]).

(** C26.  The driver's exit status and its summary tell the truth, however the
    stages of a run answer and whatever fails in the cleanup: status 2 is a
    refused command line, which touches nothing; status 0 means that the trace is
    exactly that of all the stages in order (the controller stopped, the dataset
    prepared, the targets configured and observed before the controller starts,
    both phases converged, the profile unchanged, the final state verified, the
    observers stopped, the cluster cleaned up as asked, and a summary written that
    says success and no error); and before status 1 a summary that says success
    was written only if that write failed. *)
Theorem exit_status_truthful `{FloatParser} `{DNSValidation} args :
  wp bench_exec (perf_main no_resources args) [] (λ code log,
    match parseOptions args with
    | Err _ => code = 2 ∧ log = []
    | Ok o =>
      (code = 0 ∧ log = process_log o) ∨
      (code = 1 ∧ ∀ error ok, last log = Some (EWritten true error ok) → error = "" ∧ ok = false)
    end).
Proof.
  unfold perf_main. destruct (parseOptions args) as [o|]; [|done]. unfold main_after.
  unfold process_log. bench_step; [right; split; [done|]; by intros ? ?|]. destruct (cleanupOnly o).
  { apply wp_bind. unfold cleanupOnly_run. do 2 (bench_step; [right; split; [done|]; by intros ? ?|]).
    cbn. intros [[]|e] ? ->; [by left|]. right. split; [done|]. by intros ? ?. }
  bench_step; [right; split; [done|]; by intros ? ?|]. apply wp_bind.
  eapply wp_mono; [|apply runBenchmark_verdict]. intros [s err] log (He & Hv & Hl). cbn [fst snd] in He, Hv, Hl.
  bench_step. cbn [wp call mbind prog_bind prog_bind_def]. intros w log' Hlog. unfold bench_exec in Hlog. subst log'.
  cbn [bench_event_of bs_Success set_finished Error].
  destruct err as [err|].
  - right. destruct w; (split; [done|]); intros error ok; rewrite last_snoc; intros [= Hs _ _]; naive_solver.
  - cbn [fst snd]. rewrite (proj2 Hv eq_refl), He, (Hl eq_refl). destruct w as [[]|e].
    + by left.
    + right. split; [done|]. intros error ok. rewrite last_snoc. by intros [= <- <-].
Qed.

Implicit Types s : @benchmarkSummary resourceSummary.

(** ** Nothing is left running

    A run owes: the outcome of a mutation that it started, the cancellation of
    its context, and the end of the observers. *)
Record owed := Owed { owes_outcome : bool; owes_cancel : bool; owes_observers : bool }.
Definition owed_step (b : owed) (e : bench_event) : owed :=
  match e with
  | EMutationStarted => Owed true true (owes_observers b)
  | EMutationReceived _ => Owed false (owes_cancel b) (owes_observers b)
  | EMutationCancelled => Owed (owes_outcome b) false (owes_observers b)
  | EObserver _ => Owed (owes_outcome b) (owes_cancel b) true
  | EObserversStopped => Owed (owes_outcome b) (owes_cancel b) false
  | _ => b
  end.
Definition owed_after (l : list bench_event) : owed := foldl owed_step (Owed false false false) l.
Definition nothing_owed : owed := Owed false false false.

Lemma owed_app l l' : owed_after (l ++ l') = foldl owed_step (owed_after l) l'.
Proof. apply foldl_app. Qed.
Ltac owed_done := try unfold fail, fail_as; cbn [wp]; unfold when; rewrite ?owed_app; cbn;
  repeat match goal with H : owed_after _ = _ |- _ => rewrite H end; reflexivity.

Lemma verify_run_owes o p m s l :
  wp bench_exec (verify_run o p m s) l (λ _ log, owed_after log = owed_after l).
Proof.
  unfold verify_run. bench_step; [owed_done|]. destruct (negb _); [owed_done|]. bench_step; [owed_done|].
  destruct m; [bench_step|]; owed_done.
Qed.

Lemma abandon_owes o s l e b : owed_after l = Owed (injectDuringExpiry o) (injectDuringExpiry o) b →
  wp bench_exec (s ← abandon_mutation o s; fail s e) l (λ _ log, owed_after log = Owed false false b).
Proof.
  intros Hl. unfold abandon_mutation. destruct (injectDuringExpiry o); [do 2 bench_step|]; owed_done.
Qed.

Lemma expiry_phase_owes o p s l b : owed_after l = Owed false false b →
  wp bench_exec (expiry_phase o p s) l (λ _ log, owed_after log = Owed false false b).
Proof.
  intros Hl. unfold expiry_phase. do 2 bench_step.
  assert (∀ l', owed_after l' = Owed (injectDuringExpiry o) (injectDuringExpiry o) b →
    wp bench_exec (expiry_triggered o p s) l' (λ _ log, owed_after log = Owed false false b)) as Htriggered.
  { intros l' Hl'. unfold expiry_triggered. bench_step; [apply abandon_owes; owed_done|].
    bench_step; [bench_step; apply abandon_owes; owed_done|]. bench_step.
    destruct (injectDuringExpiry o); [do 2 bench_step|].
    - match goal with |- context [match ?x with Some _ => _ | None => _ end] => destruct x end; [owed_done|].
      eapply wp_mono; [|apply verify_run_owes]. intros r log ->. owed_done.
    - eapply wp_mono; [|apply verify_run_owes]. intros r log ->. owed_done. }
  destruct (injectDuringExpiry o); [bench_step|cbn [mbind prog_bind prog_bind_def]]; apply Htriggered; owed_done.
Qed.

Lemma measured_run_owes o p s l : owed_after l = nothing_owed →
  wp bench_exec (measured_run o p s) l (λ _ log, owed_after log = nothing_owed).
Proof.
  intros Hl. unfold measured_run, observed_run, initial_phase. bench_step. do 3 (bench_step; [owed_done|]).
  apply wp_bind. do 2 (bench_step; [bench_step; owed_done|]). bench_step. apply wp_bind.
  assert (∀ l', owed_after l' = Owed false false true → ∀ r : run_result, wp bench_exec
    (let '(s, err) := r in r ← call ResourceSummary; Ret (set_records r (Diagnostics s) s, err) : prog_ run_result) l'
    (λ r : run_result, λ log, wp bench_exec (let '(s, err) := r in _ ← call StopObservers; Ret (s, err) : prog_ run_result) log
      (λ _ log, owed_after log = nothing_owed))) as Hend.
  { intros l' Hl' [s' err]. bench_step. bench_step. owed_done. }
  do 2 bench_step. bench_step; [apply Hend; owed_done|]. bench_step; [bench_step; apply Hend; owed_done|]. bench_step.
  do 2 (bench_step; [apply Hend; owed_done|]).
  eapply wp_mono; [|apply expiry_phase_owes; owed_done]. intros r log Hlog. by apply Hend.
Qed.

(** ** The cleanup *)
Inductive cleanup_end := NotStopped | PodsRemain | NotRemoved | CleanedUp.
Definition cleanup_trace (o : perfOptions) (c : cleanup_end) : list bench_event :=
  match c with
  | NotStopped => [ELogs; EReplicas CleanupCtx 0 false]
  | PodsRemain => [ELogs; EReplicas CleanupCtx 0 true; EPods CleanupCtx false false]
  | NotRemoved => [ELogs; EReplicas CleanupCtx 0 true; EPods CleanupCtx false true; ECleanup (datasetID o) false]
  | CleanedUp => cleanup_log o
  end.
Lemma cleanup_trace_owes o c b : foldl owed_step b (cleanup_trace o c) = b.
Proof. destruct c; cbn; [..|destruct (retainDataset o)]; done. Qed.

Lemma deferred_cleanup_trace o r l :
  wp bench_exec (deferred_cleanup (resourceSummary := resourceSummary) o r) l (λ r' log, ∃ c,
    log = l ++ cleanup_trace o c ∧ (c = CleanedUp → r'.2 = r.2) ∧ (c ≠ CleanedUp → bs_Success r'.1 = false ∧ is_Some r'.2)).
Proof.
  unfold deferred_cleanup. destruct r as [s err]. bench_step. bench_step.
  lazymatch goal with p : _ * option string |- _ => destruct p as [d derr] end. apply wp_bind. unfold cleanup_steps.
  assert (∀ c e l', c ≠ CleanedUp → l' = l ++ cleanup_trace o c → ∃ c, l' = l ++ cleanup_trace o c ∧ (c = CleanedUp →
    Some (match err with None => "cleanup benchmark resources: " +:+ e
      | Some returned => returned +:+ newline +:+ ("cleanup benchmark resources: " +:+ e) end) = err) ∧
    (c ≠ CleanedUp → false = false ∧ is_Some (Some (match err with None => "cleanup benchmark resources: " +:+ e
      | Some returned => returned +:+ newline +:+ ("cleanup benchmark resources: " +:+ e) end)))) as Hfail
    by (intros c e l' Hc ->; exists c; naive_solver).
  bench_step; [bench_step; by apply (Hfail NotStopped)|]. bench_step; [bench_step; by apply (Hfail PodsRemain)|].
  assert (∀ l', l' = l ++ cleanup_log o → ∃ c, l' = l ++ cleanup_trace o c ∧ (c = CleanedUp → err = err) ∧
    (c ≠ CleanedUp → bs_Success s = false ∧ is_Some err)) as Hok by (intros l' ->; exists CleanedUp; naive_solver).
  unfold cleanup_log, when in Hok. destruct (retainDataset o) eqn:Hretain; [bench_step; by apply Hok|].
  cbn [wp call]. intros [[]|e] ? ->; rewrite <-app_assoc; cbn [app bench_event_of is_ok].
  - bench_step. by apply Hok.
  - bench_step. by apply (Hfail NotRemoved).
Qed.

(** C27.  Whatever the stages answer, a run that started to prepare the dataset and
    is not told to keep its resources ends with the cleanup: the controller's logs
    are collected, the Deployment is scaled to zero, its Pods are awaited and the
    dataset is removed unless it is retained; a cleanup that stops early is
    reported as an error and never as a success.  And every run, on every way out,
    has received the outcome of the mutation it started, cancelled its context and
    stopped its observers. *)
Theorem benchmark_cleans_up o :
  wp bench_exec (runBenchmark no_resources o) [] (λ r log,
    owed_after log = nothing_owed ∧
    (keepResources o = false → (∃ d ns ok, EPrepare d ns ok ∈ log) →
      ∃ mid c, log = mid ++ cleanup_trace o c ∧ (c ≠ CleanedUp → bs_Success r.1 = false ∧ is_Some r.2))).
Proof.
  assert (∀ (r : run_result) l, owed_after l = nothing_owed → Forall (λ e, ∀ d ns ok, e ≠ EPrepare d ns ok) l →
    owed_after l = nothing_owed ∧ (keepResources o = false → (∃ d ns ok, EPrepare d ns ok ∈ l) →
      ∃ mid c, l = mid ++ cleanup_trace o c ∧ (c ≠ CleanedUp → bs_Success r.1 = false ∧ is_Some r.2))) as Hearly.
  { intros r l Hl Hno. split; [done|]. intros _ (d & ns & ok & Hin). exfalso.
    rewrite Forall_forall in Hno. by eapply Hno. }
  assert (∀ profile s l, owed_after l = nothing_owed →
    wp bench_exec (r ← measured_run o profile s; if keepResources o then Ret r else deferred_cleanup o r) l
      (λ r log, owed_after log = nothing_owed ∧ (keepResources o = false → (∃ d ns ok, EPrepare d ns ok ∈ log) →
      ∃ mid c, log = mid ++ cleanup_trace o c ∧ (c ≠ CleanedUp → bs_Success r.1 = false ∧ is_Some r.2)))) as Hmain.
  { intros profile s l Hl. apply wp_bind. eapply wp_mono; [|by apply measured_run_owes]. intros r log Hlog.
    destruct (keepResources o); [done|]. eapply wp_mono; [|apply deferred_cleanup_trace].
    intros r' log' (c & -> & _ & Hfail). split; [by rewrite owed_app, cleanup_trace_owes|]. intros _ _. by exists log, c. }
  unfold runBenchmark. bench_step.
  do 3 (bench_step; [apply Hearly; [done|repeat constructor; done]|]). unfold prepare_dataset.
  destruct (reuseDataset o); cbn [negb]; [|apply wp_bind]; (bench_step; [apply Hearly; [done|repeat constructor; done]|]).
  - by apply Hmain.
  - lazymatch goal with |- wp _ (Ret ?a) ?l ?Φ => change (Φ a l) end. by apply Hmain.
Qed.
End benchmark.
