(* ===== verification/KubeWrites.v ===== *)
(** * Reading, changing and writing back objects of the API

    The performance driver writes through client-go: it creates an object, or
    reads it, changes it and writes it back, again when the server reports a
    conflict.  [retry.RetryOnConflict] and the predicates on API errors are
    client-go's: they are interfaces here. *)
From S2P Require Import Prelude Prog Kube.

Class ApiErrors := { IsAlreadyExists : api_error → bool; IsConflict : api_error → bool }.

(** An error of the driver: an API error, wrapped in a text (or returned as it
    is), or a refusal of its own. *)
Inductive driver_error := ApiFailed (context : string) (e : api_error) | Refused (text : string).
#[export] Instance driver_error_eq_dec : EqDecision driver_error.
Proof. solve_decision. Defined.
(** [apierrors.IsConflict] looks through wrapped errors. *)
Definition conflicting `{ApiErrors} (e : driver_error) : bool :=
  match e with ApiFailed _ e => IsConflict e | Refused _ => false end.

(** [retry.RetryOnConflict(retry.DefaultRetry, body)] calls [body] again only after
    a conflict, a bounded number of times, and returns its last answer. *)
Class Retry := RetryOnConflict : ∀ {E : Type → Type}, prog E (result driver_error ()) → prog E (result driver_error ()).
Class RetryLaws `{ApiErrors} (R : Retry) : Prop :=
  retry_rg : ∀ (E : Type → Type) (S : Type) (H : ∀ X, E X → S → X → S → Prop) (Rely Guar : S → S → Prop)
      (body : prog E (result driver_error ())) (I : S → Prop) (Φ : result driver_error () → S → Prop) s,
    (∀ a, Rely a a) → (∀ a b c, Rely a b → Rely b c → Rely a c) → I s →
    (∀ s, I s → rg H Rely Guar body s (λ r s', (if is_ok r then True else I s') ∧ Φ r s')) →
    rg H Rely Guar (RetryOnConflict body) s Φ.

(** ** The calls on one kind of object *)
Inductive objE (O : Type) : Type → Type :=
| Create (o : O) : objE O (result api_error ())
| Get (key : string * string) : objE O (result api_error O)
| Update (o : O) : objE O (result api_error ()).
Arguments Create {O} o. Arguments Get {O} key. Arguments Update {O} o.

(** What a call shows or does: an object created, the live object read, the live
    object replaced and the object sent. *)
Inductive obj_event (O : Type) := Created (o : O) | Got (o : O) | Updated (met sent : O).
Arguments Created {O} o. Arguments Got {O} o. Arguments Updated {O} met sent.

Section exec.
Context {O : Type} `{KubeObject O} {K : Type} `{!ApiServer O K}.

Definition obj_exec (X : Type) (e : objE O X) (k : K) : X → K → list (obj_event O) → Prop :=
  match e in objE _ X return X → K → list (obj_event O) → Prop with
  | Create o => λ r k' evs, create o k r k' ∧ evs = if is_ok r then [Created o] else []
  | Get key => λ r k' evs, read key k r ∧ k' = k ∧ evs = match r with Ok o => [Got o] | Err _ => [] end
  | Update o => λ r k' evs, update o k r k' ∧
      evs = match r, live k (obj_key o) with Ok _, Some met => [Updated met o] | _, _ => [] end
  end.
End exec.

(** Versions that were seen stay seen: the driver's own writes forget none. *)
Class SeenStable (O : Type) `{KubeObject O} (K : Type) `{!ApiServer O K} : Prop := {
  create_seen o k r k' x : create o k r k' → seen k x → seen k' x;
  update_seen o k r k' x : update o k r k' → seen k x → seen k' x
}.

(** ** Get, change, Update *)
Section modify.
Context {O : Type} {E : Type → Type} `{Retry} (on_object : ∀ X, objE O X → E X).

Definition get_modify_update (key : string * string) (get_failed : string) (good : O → bool) (change : O → O) :
    prog E (result driver_error ()) :=
  try (call (on_object _ (Get key))) (λ e, Ret (Err (ApiFailed get_failed e))) (λ current,
  if good current then Ret (Ok tt) else
  try (call (on_object _ (Update (change current)))) (λ e, Ret (Err (ApiFailed "" e))) (λ _, Ret (Ok tt))).

Definition retry_modify (key : string * string) (get_failed : string) (good : O → bool) (change : O → O) :
    prog E (result driver_error ()) :=
  RetryOnConflict (get_modify_update key get_failed good change).

(** [Create], and when the object exists, change it as above. *)
Definition create_or_modify `{ApiErrors} (new : O) (create_failed : string) (key : string * string)
    (good : O → bool) (change : O → O) : prog E (result driver_error ()) :=
  r ← call (on_object _ (Create new));
  match r with
  | Ok _ => Ret (Ok tt)
  | Err e => if negb (IsAlreadyExists e) then Ret (Err (ApiFailed create_failed e))
             else retry_modify key "" good change
  end.
End modify.

Section modify_correct.
Context {O : Type} `{KubeObject O} {K : Type} `{!ApiServer O K} `{!ApiServerLaws K} `{!SeenStable O K}.
Context {E : Type → Type} {S Ev : Type} `{RetryLaws} (on_object : ∀ X, objE O X → E X).
Context (exec : ∀ X, E X → S → X → S → Prop) (store : S → K) (trace : S → list Ev) (event : obj_event O → Ev).
Context (Rely Guar : S → S → Prop).

(** The calls on [O] act on their store and leave their events. *)
Hypothesis exec_object : ∀ X (e : objE O X) s x s', exec _ (on_object X e) s x s' →
  ∃ evs, obj_exec X e (store s) x (store s') evs ∧ trace s' = trace s ++ (event <$> evs).
(** The others keep what was seen, and the trace grows. *)
Hypothesis rely_refl : ∀ s, Rely s s.
Hypothesis rely_trans : ∀ a b c, Rely a b → Rely b c → Rely a c.
Hypothesis rely_seen : ∀ s s' o, Rely s s' → seen (store s) o → seen (store s') o.
Hypothesis rely_trace : ∀ s s' ev, Rely s s' → ev ∈ trace s → ev ∈ trace s'.

(** An object that is as it should be was read, or was made so from the live one. *)
Definition settled (key : string * string) (good : O → bool) (change : O → O) (s : S) : Prop :=
  (∃ o, obj_key o = key ∧ good o = true ∧ event (Got o) ∈ trace s) ∨
  (∃ met, obj_key met = key ∧ event (Updated met (change met)) ∈ trace s).

Lemma settled_rely key good change s s' : Rely s s' → settled key good change s → settled key good change s'.
Proof. intros HR [(o & ? & ? & ?)|(met & ? & ?)]; [left; exists o|right; exists met]; eauto. Qed.

(** What a call of the loop does, apart from the rest of the state. *)
Definition allowed (new : option O) (key : string * string) (change : O → O) (ev : obj_event O) : Prop :=
  match ev with
  | Created o => new = Some o
  | Got o => obj_key o = key
  | Updated met sent => obj_key met = key ∧ sent = change met
  end.
Definition keeps (new : option O) (key : string * string) (change : O → O) (s s' : S) : Prop :=
  (∀ o, seen (store s) o → seen (store s') o) ∧
  ∃ evs, trace s' = trace s ++ (event <$> evs) ∧ Forall (allowed new key change) evs.

(** Whatever the others do: only the live object is replaced, by its change, and a
    success means that it is settled.  [I] is what the client knows throughout. *)
Lemma retry_modify_rg (I : S → Prop) new key get_failed good change s (Φ : result driver_error () → S → Prop) :
  (∀ o, obj_key (change o) = obj_key o ∧ obj_UID (change o) = obj_UID o ∧ obj_RV (change o) = obj_RV o) →
  I s → (∀ a b, I a → Rely a b → I b) →
  (∀ X (e : objE O X) s1 x s2, I s1 → exec _ (on_object X e) s1 x s2 → keeps new key change s1 s2 →
    Guar s1 s2 ∧ Rely s1 s2) →
  (∀ s1 r, I s1 → (r = Ok tt → settled key good change s1) → Φ r s1) →
  rg exec Rely Guar (retry_modify on_object key get_failed good change) s Φ.
Proof.
  intros Hchange Hs HI Hguar HΦ. apply retry_rg with (I := I); [done..|]. clear s Hs. intros s Hs.
  assert (∀ s1 e, I s1 → I s1 ∧ Φ (Err e) s1) as Herr by (intros s1 e HI1; split; [done|]; by apply HΦ).
  cbn. intros s1 HR1 r s2 Hget. destruct (exec_object _ _ _ _ _ Hget) as (evs & (Hread & Hk & ->) & Htr).
  assert (Guar s1 s2 ∧ Rely s1 s2) as [HG HR].
  { apply (Hguar _ (Get key) s1 r s2); [eauto|done|]. split; [by rewrite Hk|]. eexists. split; [exact Htr|].
    destruct r as [o|e]; repeat constructor. by apply (read_seen _ _ _ Hread). }
  split; [done|]. assert (I s2) as HI2 by eauto. destruct r as [o|e]; [|intros s3 HR3; by apply (Herr _ (ApiFailed get_failed e)); eauto].
  apply read_seen in Hread as [Hseen Hkey].
  assert (event (Got o) ∈ trace s2) as Hgot by (rewrite Htr; set_solver).
  destruct (good o) eqn:Hgood.
  { intros s3 HR3. split; [done|]. apply HΦ; [by eauto|]. intros _. left. exists o. eauto. }
  cbn. intros s3 HR3 r s4 Hupd. destruct (exec_object _ _ _ _ _ Hupd) as (evs & (Hu & ->) & Htr').
  destruct (Hchange o) as (Hck & Hcu & Hcv).
  assert (r = Ok tt → live (store s3) (obj_key (change o)) = Some o) as Hlive.
  { intros ->. apply update_ok in Hu as (l & Hl & Huid & Hrv & _). rewrite Hl. f_equal. symmetry.
    apply (version_unique (store s3)); [rewrite <-Hk in Hseen; by eauto|by rewrite <-Hck|congruence..]. }
  assert (Guar s3 s4 ∧ Rely s3 s4) as [HG4 HR4].
  { apply (Hguar _ (Update (change o)) s3 r s4); [eauto|done|]. split; [by intros; eapply update_seen|].
    eexists. split; [exact Htr'|]. destruct r as [[]|e]; [|constructor].
    rewrite (Hlive eq_refl). by repeat constructor. }
  split; [done|]. assert (I s4) as HI4 by eauto.
  destruct r as [[]|e]; [|intros s5 HR5; by apply (Herr _ (ApiFailed "" e)); eauto].
  intros s5 HR5. split; [done|]. apply HΦ; [by eauto|]. intros _. right. rewrite (Hlive eq_refl) in Htr'.
  exists o. split; [done|]. apply (rely_trace _ _ _ HR5). rewrite Htr'. set_solver.
Qed.

Lemma create_or_modify_rg (I : S → Prop) new create_failed key good change s (Φ : result driver_error () → S → Prop) :
  (∀ o, obj_key (change o) = obj_key o ∧ obj_UID (change o) = obj_UID o ∧ obj_RV (change o) = obj_RV o) →
  I s → (∀ a b, I a → Rely a b → I b) →
  (∀ X (e : objE O X) s1 x s2, I s1 → exec _ (on_object X e) s1 x s2 → keeps (Some new) key change s1 s2 →
    Guar s1 s2 ∧ Rely s1 s2) →
  (∀ s1 r, I s1 → (r = Ok tt → event (Created new) ∈ trace s1 ∨ settled key good change s1) → Φ r s1) →
  rg exec Rely Guar (create_or_modify on_object new create_failed key good change) s Φ.
Proof.
  intros Hchange Hs HI Hguar HΦ. unfold create_or_modify. cbn. intros s1 HR1 r s2 Hcreate.
  destruct (exec_object _ _ _ _ _ Hcreate) as (evs & (Hc & ->) & Htr).
  assert (Guar s1 s2 ∧ Rely s1 s2) as [HG HR].
  { apply (Hguar _ (Create new) s1 r s2); [eauto|done|]. split; [by intros; eapply create_seen|].
    eexists. split; [exact Htr|]. destruct r; by repeat constructor. }
  split; [done|]. assert (I s2) as HI2 by eauto. destruct r as [[]|e]; cbn [is_ok] in Htr.
  - intros s3 HR3. apply HΦ; [by eauto|]. intros _. left. apply (rely_trace _ _ _ HR3). rewrite Htr. set_solver.
  - destruct (negb (IsAlreadyExists e)).
    + intros s3 HR3. by apply HΦ; eauto.
    + eapply retry_modify_rg with (I := I) (new := Some new); [done..|]. eauto.
Qed.
End modify_correct.

(** What holds after a program holds however the others go on. *)
Lemma rg_closed {E : Type → Type} {S A} (H : ∀ X, E X → S → X → S → Prop) Rely Guar (p : prog E A) s Φ :
  (∀ a b c, Rely a b → Rely b c → Rely a c) →
  rg H Rely Guar p s Φ → rg H Rely Guar p s (λ a s', ∀ s'', Rely s' s'' → Φ a s'').
Proof.
  intros Htrans. revert s. induction p as [a|X e k IH]; intros s; simpl; [by eauto|].
  intros Hrg s1 HR x s2 He. destruct (Hrg s1 HR x s2 He) as [HG Hk]. eauto.
Qed.

(** ** A retry that makes at most five attempts *)
Section five.
Context `{ApiErrors}.
Fixpoint attempts {E} (n : nat) (body : prog E (result driver_error ())) : prog E (result driver_error ()) :=
  match n with
  | O => body
  | S n => r ← body; match r with
      | Err e => if conflicting e then attempts n body else Ret r
      | Ok _ => Ret r end
  end.
#[local] Instance five_attempts : Retry := λ E, attempts 4.
#[local] Instance five_attempts_laws : RetryLaws five_attempts.
Proof.
  intros E S exec Rely Guar body I Φ s Hrefl Htrans Hs Hbody. unfold RetryOnConflict, five_attempts. generalize 4 as n.
  intros n. revert s Hs. induction n as [|n IH]; intros s Hs; cbn [attempts].
  - eapply rg_mono; [|by apply Hbody]. by intros r s' [_ ?].
  - apply rg_bind; [done|]. eapply rg_mono; [|by apply rg_closed, Hbody]. cbn. intros r s' Hr.
    destruct (Hr s' (Hrefl s')) as [HI HΦ]. destruct r as [a|e]; [intros s1 HR1; by apply Hr|].
    destruct (conflicting e); [by apply IH|]. intros s1 HR1. by apply Hr.
Qed.
End five.

(** The log of all writes forgets no version. *)
Section history.
Context {O : Type} `{KubeObject O} (set_version : O → string → O).
#[local] Existing Instance History.server.
Lemma history_stable : SeenStable (H := _) (ApiServer0 := History.server set_version) O (list History.entry).
Proof.
  split; cbn [History.server create update seen].
  - intros o k r k' x [Hc _] Hx. unfold History.do_create in Hc. destruct (History.lookup_live _ _ _); simplify_eq/=;
      [done|by right].
  - intros o k r k' x [Hu _] Hx. unfold History.do_update in Hu. destruct (History.lookup_live _ _ _); simplify_eq/=; [|done].
    destruct (History.locked _ _ _ _ _); simplify_eq/=; [by right|done].
Qed.
End history.
