(* ===== verification/PerfCluster.v ===== *)
(** * What the performance driver writes to the cluster (cmd/perf-driver)

    The operations on one namespace that [prepareWorkload] runs in its worker
    pool, and the creation of the late resources of a mutation: programs over the
    Kubernetes API, whose objects carry the fields the driver reads or writes. *)
From S2P Require Import Prelude Prog GoStrings ConfigTypes Kube KubeWrites Controller PerfOptions.
From S2P Require Parallel.

(** ** Objects *)
Record DriverNamespace := MkDriverNamespace {
  dn_Name : string;
  dn_UID : string;
  dn_ResourceVersion : string;
  dn_deleting : bool;
  dn_Labels : gmap string string
}.
#[export] Instance DriverNamespace_eq_dec : EqDecision DriverNamespace.
Proof. solve_decision. Defined.
(** The server adds labels of its own. *)
#[export] Instance DriverNamespace_object : KubeObject DriverNamespace := {|
  obj_key n := ("", dn_Name n);
  obj_UID := dn_UID;
  obj_RV := dn_ResourceVersion;
  payload n := dn_Labels n !! performanceRunLabel;
  deleting := dn_deleting
|}.

(** [None] is a nil map or slice; the server does not keep the difference. *)
Record DriverAccount := MkDriverAccount {
  da_Namespace : string;
  da_Name : string;
  da_UID : string;
  da_ResourceVersion : string;
  da_deleting : bool;
  da_Labels : option (gmap string string);
  da_ImagePullSecrets : option (list string)
}.
#[export] Instance DriverAccount_eq_dec : EqDecision DriverAccount.
Proof. solve_decision. Defined.
#[export] Instance DriverAccount_object : KubeObject DriverAccount := {|
  obj_key a := (da_Namespace a, da_Name a);
  obj_UID := da_UID;
  obj_RV := da_ResourceVersion;
  payload a := (default ∅ (da_Labels a), default [] (da_ImagePullSecrets a));
  deleting := da_deleting
|}.

Record RoleRef := MkRoleRef { ref_APIGroup : string; ref_Kind : string; ref_Name : string }.
#[export] Instance RoleRef_eq_dec : EqDecision RoleRef.
Proof. solve_decision. Defined.
Record Subject := MkSubject { sub_Kind : string; sub_APIGroup : string; sub_Name : string; sub_Namespace : string }.
#[export] Instance Subject_eq_dec : EqDecision Subject.
Proof. solve_decision. Defined.
Record RoleBinding := MkRoleBinding {
  rb_Namespace : string;
  rb_Name : string;
  rb_UID : string;
  rb_ResourceVersion : string;
  rb_deleting : bool;
  rb_Labels : gmap string string;
  rb_RoleRef : RoleRef;
  rb_Subjects : list Subject
}.
#[export] Instance RoleBinding_eq_dec : EqDecision RoleBinding.
Proof. solve_decision. Defined.
#[export] Instance RoleBinding_object : KubeObject RoleBinding := {|
  obj_key b := (rb_Namespace b, rb_Name b);
  obj_UID := rb_UID;
  obj_RV := rb_ResourceVersion;
  payload b := (rb_Labels b, rb_RoleRef b, rb_Subjects b);
  deleting := rb_deleting
|}.

(** [labels[performanceRunLabel]]: the empty string when it is missing. *)
Definition run_label (labels : gmap string string) : string := default "" (labels !! performanceRunLabel).

(** ** The calls *)
Inductive late_mark :=
| LateServiceAccountRequestStarted | LateServiceAccountCreated
| LateNamespaceRequestStarted | LateNamespaceCreated | LateNamespacePrerequisitesReady.
#[export] Instance late_mark_eq_dec : EqDecision late_mark.
Proof. solve_decision. Defined.

(** [Mark] is the call of the tracker's method of that name, with the time. *)
Inductive driverE : Type → Type :=
| Namespaces {X} (e : objE DriverNamespace X) : driverE X
| Accounts {X} (e : objE DriverAccount X) : driverE X
| Bindings {X} (e : objE RoleBinding X) : driverE X
| Mark (m : late_mark) : driverE ().

Abbreviation driver_prog := (prog driverE (result driver_error ())).

(** A loop whose body may return an error. *)
Fixpoint for_ok {A} (l : list A) (body : A → driver_prog) : driver_prog :=
  match l with
  | [] => Ret (Ok tt)
  | x :: l => try (body x) (λ e, Ret (Err e)) (λ _, for_ok l body)
  end.

Section operations.
Context `{ApiErrors} `{Retry}.

(** ** Service accounts *)
Definition desired_references (resetReference : bool) (references : option (list string)) : option (list string) :=
  if resetReference then Some (removeManagedSecretReference (default [] references)) else references.
(** [DeepEqual] tells a nil slice from an empty one. *)
Definition account_good (labels : gmap string string) (resetReference : bool) (current : DriverAccount) : bool :=
  bool_decide (run_label (default ∅ (da_Labels current)) = run_label labels)
  && bool_decide (da_ImagePullSecrets current = desired_references resetReference (da_ImagePullSecrets current)).
Definition mark_account (labels : gmap string string) (resetReference : bool) (current : DriverAccount) : DriverAccount :=
  MkDriverAccount (da_Namespace current) (da_Name current) (da_UID current) (da_ResourceVersion current)
    (da_deleting current) (Some (<[performanceRunLabel := run_label labels]> (default ∅ (da_Labels current))))
    (desired_references resetReference (da_ImagePullSecrets current)).
Definition new_account (namespace name : string) (labels : gmap string string) : DriverAccount :=
  MkDriverAccount namespace name "" "" false (Some labels) None.

Definition ensureServiceAccount (namespace name : string) (labels : gmap string string) (resetReference : bool) :
    driver_prog :=
  create_or_modify (@Accounts) (new_account namespace name labels)
    ("create ServiceAccount " +:+ namespace +:+ "/" +:+ name) (namespace, name)
    (account_good labels resetReference) (mark_account labels resetReference).

(** ** The role binding of the writer *)
Definition bindingName : string := "registry-secret-controller-perf-writer".
Definition writer_role : RoleRef := MkRoleRef "rbac.authorization.k8s.io" "ClusterRole" "registry-secret-controller-perf-writer".
Definition writer_subjects : list Subject :=
  [MkSubject "ServiceAccount" "" "registry-secret-controller" DefaultControllerNamespace].
Definition writer_binding (namespace : string) (labels : gmap string string) : RoleBinding :=
  MkRoleBinding namespace bindingName "" "" false labels writer_role writer_subjects.
Definition binding_good (labels : gmap string string) (current : RoleBinding) : bool :=
  bool_decide (run_label (rb_Labels current) = run_label labels)
  && bool_decide (rb_RoleRef current = writer_role) && bool_decide (rb_Subjects current = writer_subjects).
Definition mark_binding (labels : gmap string string) (current : RoleBinding) : RoleBinding :=
  MkRoleBinding (rb_Namespace current) (rb_Name current) (rb_UID current) (rb_ResourceVersion current)
    (rb_deleting current) labels writer_role writer_subjects.

Definition ensureWriterBinding (namespace : string) (labels : gmap string string) : driver_prog :=
  create_or_modify (@Bindings) (writer_binding namespace labels)
    ("create writer RoleBinding in " +:+ namespace) (namespace, bindingName)
    (binding_good labels) (mark_binding labels).

(** ** The operation of [prepareWorkload] on one namespace *)
Definition new_namespace (namespace : string) (labels : gmap string string) : DriverNamespace :=
  MkDriverNamespace namespace "" "" false labels.

(** The Namespace is created, or it exists with the run's label. *)
Definition claim_namespace (runID namespace : string) : driver_prog :=
  let failed e := ApiFailed ("create Namespace " +:+ namespace) e in
  r ← call (Namespaces (Create (new_namespace namespace {[performanceRunLabel := runID]})));
  match r with
  | Ok _ => Ret (Ok tt)
  | Err e =>
    if IsAlreadyExists e then
      try (call (Namespaces (Get ("", namespace)))) (λ e, Ret (Err (failed e))) (λ created,
      if negb (bool_decide (run_label (dn_Labels created) = runID))
      then Ret (Err (Refused ("Namespace " +:+ namespace +:+ " exists without expected run label")))
      else Ret (Ok tt))
    else Ret (Err (failed e))
  end.

Definition prepare_namespace (runID namespace : string) : driver_prog :=
  let labels := {[performanceRunLabel := runID]} in
  try (claim_namespace runID namespace) (λ e, Ret (Err e)) (λ _,
  try (for_ok targetServiceAccounts (λ name, ensureServiceAccount namespace name labels true))
    (λ e, Ret (Err e)) (λ _,
  ensureWriterBinding namespace labels)).

(** ** The late resources of a mutation *)
Definition createLateServiceAccount (runID existingNamespace lateServiceAccountName : string) : driver_prog :=
  _ ← call (Mark LateServiceAccountRequestStarted);
  try (call (Accounts (Create (new_account existingNamespace lateServiceAccountName {[performanceRunLabel := runID]}))))
    (λ e, Ret (Err (ApiFailed ("create injected ServiceAccount " +:+ existingNamespace +:+ "/" +:+ lateServiceAccountName) e)))
    (λ _, _ ← call (Mark LateServiceAccountCreated); Ret (Ok tt)).

Definition createLateNamespace (runID lateNamespace : string) : driver_prog :=
  let labels := {[performanceRunLabel := runID]} in
  _ ← call (Mark LateNamespaceRequestStarted);
  try (call (Namespaces (Create (new_namespace lateNamespace labels))))
    (λ e, Ret (Err (ApiFailed ("create injected Namespace " +:+ lateNamespace) e))) (λ _,
  _ ← call (Mark LateNamespaceCreated);
  try (ensureWriterBinding lateNamespace labels) (λ e, Ret (Err e)) (λ _,
  try (for_ok targetServiceAccounts (λ name, ensureServiceAccount lateNamespace name labels false))
    (λ e, Ret (Err e)) (λ _,
  _ ← call (Mark LateNamespacePrerequisitesReady); Ret (Ok tt)))).
End operations.

(** ** The meaning of the calls *)
Inductive driver_event :=
| NamespaceEvent (e : obj_event DriverNamespace)
| AccountEvent (e : obj_event DriverAccount)
| BindingEvent (e : obj_event RoleBinding)
| Marked (m : late_mark).

(** The stores of the API server, one per kind, and what the driver did and saw. *)
Record DriverState (KN KA KB : Type) := MkDriverState {
  d_namespaces : KN;
  d_accounts : KA;
  d_bindings : KB;
  d_trace : list driver_event
}.
Arguments MkDriverState {KN KA KB}. Arguments d_namespaces {KN KA KB}. Arguments d_accounts {KN KA KB}.
Arguments d_bindings {KN KA KB}. Arguments d_trace {KN KA KB}.

Section exec.
Context {KN KA KB : Type} `{!ApiServer DriverNamespace KN} `{!ApiServer DriverAccount KA} `{!ApiServer RoleBinding KB}.

Definition driver_exec (X : Type) (c : driverE X) (s : DriverState KN KA KB) : X → DriverState KN KA KB → Prop :=
  match c in driverE X return X → DriverState KN KA KB → Prop with
  | Namespaces e => λ x s', ∃ k' evs, obj_exec _ e (d_namespaces s) x k' evs ∧
      s' = MkDriverState k' (d_accounts s) (d_bindings s) (d_trace s ++ (NamespaceEvent <$> evs))
  | Accounts e => λ x s', ∃ k' evs, obj_exec _ e (d_accounts s) x k' evs ∧
      s' = MkDriverState (d_namespaces s) k' (d_bindings s) (d_trace s ++ (AccountEvent <$> evs))
  | Bindings e => λ x s', ∃ k' evs, obj_exec _ e (d_bindings s) x k' evs ∧
      s' = MkDriverState (d_namespaces s) (d_accounts s) k' (d_trace s ++ (BindingEvent <$> evs))
  | Mark m => λ _ s',
      s' = MkDriverState (d_namespaces s) (d_accounts s) (d_bindings s) (d_trace s ++ [Marked m])
  end.

(** [runParallel] with programs as operations: a finished run of the worker pool,
    and an interleaving of the operations it started, with the rest of the process
    and the cluster ([env]), in which each ended as the pool recorded. *)
Definition operation_ends (p : Parallel.Pool string driver_error) : list driver_prog :=
  ((λ _, Ret (Ok tt)) <$> Parallel.succeeded p) ++ ((λ xe, Ret (Err xe.2)) <$> Parallel.failed p).
Definition parallel_run (env : DriverState KN KA KB → DriverState KN KA KB → Prop)
    (operation : string → driver_prog) (items : list string) (workers : Z)
    (s : DriverState KN KA KB) (r : result (option driver_error) ()) (s' : DriverState KN KA KB) : Prop :=
  ∃ p, rtc Parallel.pool_step (Parallel.runParallel items workers) p ∧ Parallel.finished p ∧
    r = Parallel.pool_result p ∧
    rtc (pool_step driver_exec env) (s, operation <$> Parallel.attempted p) (s', operation_ends p).

Definition prepareWorkload `{ApiErrors} `{Retry} (env : DriverState KN KA KB → DriverState KN KA KB → Prop)
    (runID : string) (namespaces : list string) (concurrency : Z) :=
  parallel_run env (prepare_namespace runID) namespaces concurrency.
End exec.
