(* ===== verification/PerfClusterCorrect.v ===== *)
(** * The driver's writes: only its own, and enough

    Rely-guarantee specifications of the operations of [PerfCluster], under the
    controller and the driver's other workers, and their composition by the worker
    pool of [prepareWorkload]. *)
From S2P Require Import Prelude Prog GoStrings ConfigTypes Kube KubeWrites Controller PerfOptions PerfCluster.
From S2P Require Parallel.

Section driver.
Context {KN KA KB : Type}.
Context `{!ApiServer DriverNamespace KN} `{!ApiServerLaws (O := DriverNamespace) KN} `{!SeenStable DriverNamespace KN}.
Context `{!ApiServer DriverAccount KA} `{!ApiServerLaws (O := DriverAccount) KA} `{!SeenStable DriverAccount KA}.
Context `{!ApiServer RoleBinding KB} `{!ApiServerLaws (O := RoleBinding) KB} `{!SeenStable RoleBinding KB}.
Context `{RetryLaws}.
#[local] Abbreviation state := (DriverState KN KA KB).

(** ** What everyone keeps *)
Definition driver_rely (s s' : state) : Prop :=
  (∀ o, seen (d_namespaces s) o → seen (d_namespaces s') o) ∧
  (∀ o, seen (d_accounts s) o → seen (d_accounts s') o) ∧
  (∀ o, seen (d_bindings s) o → seen (d_bindings s') o) ∧
  ∃ evs, d_trace s' = d_trace s ++ evs.

Lemma driver_rely_refl s : driver_rely s s.
Proof. split; [done|]. split; [done|]. split; [done|]. exists []. by rewrite app_nil_r. Qed.
Lemma driver_rely_trans a b c : driver_rely a b → driver_rely b c → driver_rely a c.
Proof.
  intros (Hn & Ha & Hb & evs & Ht) (Hn' & Ha' & Hb' & evs' & Ht').
  split; [by eauto|]. split; [by eauto|]. split; [by eauto|]. exists (evs ++ evs'). by rewrite Ht', Ht, (assoc_L (++)).
Qed.
Lemma rely_trace s s' ev : driver_rely s s' → ev ∈ d_trace s → ev ∈ d_trace s'.
Proof. intros (_ & _ & _ & evs & ->). set_solver. Qed.

(** ** What an operation may do *)
Variables (runID ns : string) (reset : bool).
Definition labels_of : gmap string string := {[performanceRunLabel := runID]}.

(** The Namespace is the run's: the driver created it, or saw it with the label. *)
Definition claimed (tr : list driver_event) : Prop :=
  NamespaceEvent (Created (new_namespace ns labels_of)) ∈ tr ∨
  ∃ o, dn_Name o = ns ∧ run_label (dn_Labels o) = runID ∧ NamespaceEvent (Got o) ∈ tr.

(** One event, after the trace [pre]: an account or a binding is written only in a
    claimed Namespace, and a write of an existing one is its mark and nothing else. *)
Definition permitted (pre : list driver_event) (ev : driver_event) : Prop :=
  match ev with
  | NamespaceEvent (Created o) => o = new_namespace ns labels_of
  | NamespaceEvent (Got o) => dn_Name o = ns
  | NamespaceEvent (Updated _ _) => False
  | AccountEvent (Created o) => claimed pre ∧ ∃ name, name ∈ targetServiceAccounts ∧ o = new_account ns name labels_of
  | AccountEvent (Got o) => da_Namespace o = ns ∧ da_Name o ∈ targetServiceAccounts
  | AccountEvent (Updated met sent) => claimed pre ∧ da_Namespace met = ns ∧ da_Name met ∈ targetServiceAccounts ∧
      sent = mark_account labels_of reset met
  | BindingEvent (Created o) => claimed pre ∧ o = writer_binding ns labels_of
  | BindingEvent (Got o) => rb_Namespace o = ns ∧ rb_Name o = bindingName
  | BindingEvent (Updated met sent) => claimed pre ∧ rb_Namespace met = ns ∧ rb_Name met = bindingName ∧
      sent = mark_binding labels_of met
  | Marked _ => reset = false
  end.
Definition driver_guar (s s' : state) : Prop :=
  driver_rely s s' ∧ ∃ evs, d_trace s' = d_trace s ++ evs ∧ Forall (permitted (d_trace s)) evs.

Lemma claimed_rely s s' : driver_rely s s' → claimed (d_trace s) → claimed (d_trace s').
Proof. intros HR [Hc|(o & ? & ? & Ho)]; [left|right; exists o]; eauto using rely_trace. Qed.

(** What the operations leave. *)
Definition account_ready (name : string) (tr : list driver_event) : Prop :=
  AccountEvent (Created (new_account ns name labels_of)) ∈ tr ∨
  (∃ o, obj_key o = (ns, name) ∧ account_good labels_of reset o = true ∧ AccountEvent (Got o) ∈ tr) ∨
  (∃ met, obj_key met = (ns, name) ∧ AccountEvent (Updated met (mark_account labels_of reset met)) ∈ tr).
Definition binding_ready (tr : list driver_event) : Prop :=
  BindingEvent (Created (writer_binding ns labels_of)) ∈ tr ∨
  (∃ o, obj_key o = (ns, bindingName) ∧ binding_good labels_of o = true ∧ BindingEvent (Got o) ∈ tr) ∨
  (∃ met, obj_key met = (ns, bindingName) ∧ BindingEvent (Updated met (mark_binding labels_of met)) ∈ tr).

Abbreviation drg p s Φ := (rg driver_exec driver_rely driver_guar p s Φ).

Lemma account_ready_rely name s s' : driver_rely s s' → account_ready name (d_trace s) → account_ready name (d_trace s').
Proof.
  intros HR [Hc|[(o & ? & ? & ?)|(met & ? & ?)]]; [left|right; left; exists o|right; right; exists met]; eauto using rely_trace.
Qed.

Lemma rg_try {A B Er} (p : prog driverE (result Er A)) (on_err : Er → prog driverE B)
    (k : A → prog driverE B) (s : state) Φ :
  drg p s (λ r s', match r with Ok a => drg (k a) s' Φ | Err e => drg (on_err e) s' Φ end) →
  drg (try p on_err k) s Φ.
Proof. intros Hp. apply rg_bind; [apply driver_rely_refl|]. eapply rg_mono; [|exact Hp]. by intros [a|e]. Qed.

(** A single call: the client chooses what it knows before it. *)
Lemma rg_call {A X} (c : driverE X) (k : X → prog driverE A) s Φ :
  (∀ s1 x s2, driver_rely s s1 → driver_exec _ c s1 x s2 → driver_guar s1 s2 ∧ drg (k x) s2 Φ) →
  drg (x ← call c; k x) s Φ.
Proof. intros Hc. cbn. intros s1 HR x s2 He. by apply Hc. Qed.

Lemma ensureServiceAccount_rg name s (Φ : result driver_error () → state → Prop) :
  claimed (d_trace s) → name ∈ targetServiceAccounts →
  (∀ s' r, driver_rely s s' → (r = Ok tt → account_ready name (d_trace s')) → Φ r s') →
  drg (ensureServiceAccount ns name labels_of reset) s Φ.
Proof.
  intros Hclaimed Hname HΦ.
  apply (create_or_modify_rg (@Accounts) driver_exec d_accounts d_trace AccountEvent driver_rely driver_guar)
    with (I := λ s', claimed (d_trace s') ∧ driver_rely s s').
  - intros X e s1 x s2 (k' & evs & He & ->). by exists evs.
  - apply driver_rely_refl.
  - apply driver_rely_trans.
  - intros s1 s2 o (_ & Ha & _). apply Ha.
  - apply rely_trace.
  - done.
  - split; [done|apply driver_rely_refl].
  - intros a b [Hc Ha] Hab. split; [by eapply claimed_rely|by eapply driver_rely_trans].
  - intros X e s1 x s2 [Hc _] (k' & evs & _ & ->) (Hseen & evs' & Htr & Hall).
    assert (driver_rely s1 (MkDriverState (d_namespaces s1) k' (d_bindings s1) (d_trace s1 ++ (AccountEvent <$> evs))))
      as HR by (split; [done|]; split; [done|]; split; [done|]; by eexists).
    split; [|done]. split; [done|]. eexists. split; [exact Htr|]. apply Forall_fmap.
    eapply Forall_impl; [exact Hall|]. intros [o|o|met sent]; cbn.
    + intros [= <-]. split; [done|]. by exists name.
    + intros [= -> ->]. done.
    + intros [[= -> ->] ->]. done.
  - intros s1 r [_ HR] Hr. apply HΦ; [done|exact Hr].
Qed.

Lemma ensureWriterBinding_rg s (Φ : result driver_error () → state → Prop) :
  claimed (d_trace s) →
  (∀ s' r, driver_rely s s' → (r = Ok tt → binding_ready (d_trace s')) → Φ r s') →
  drg (ensureWriterBinding ns labels_of) s Φ.
Proof.
  intros Hclaimed HΦ.
  apply (create_or_modify_rg (@Bindings) driver_exec d_bindings d_trace BindingEvent driver_rely driver_guar)
    with (I := λ s', claimed (d_trace s') ∧ driver_rely s s').
  - intros X e s1 x s2 (k' & evs & He & ->). by exists evs.
  - apply driver_rely_refl.
  - apply driver_rely_trans.
  - intros s1 s2 o (_ & _ & Hb & _). apply Hb.
  - apply rely_trace.
  - done.
  - split; [done|apply driver_rely_refl].
  - intros a b [Hc Ha] Hab. split; [by eapply claimed_rely|by eapply driver_rely_trans].
  - intros X e s1 x s2 [Hc _] (k' & evs & _ & ->) (Hseen & evs' & Htr & Hall).
    assert (driver_rely s1 (MkDriverState (d_namespaces s1) (d_accounts s1) k' (d_trace s1 ++ (BindingEvent <$> evs))))
      as HR by (split; [done|]; split; [done|]; split; [done|]; by eexists).
    split; [|done]. split; [done|]. eexists. split; [exact Htr|]. apply Forall_fmap.
    eapply Forall_impl; [exact Hall|]. intros [o|o|met sent]; cbn.
    + by intros [= <-].
    + by intros [= -> ->].
    + by intros [[= -> ->] ->].
  - intros s1 r [_ HR] Hr. apply HΦ; [done|exact Hr].
Qed.

(** ** Whole operations *)
Lemma namespace_call_guar X (e : objE DriverNamespace X) s x s' :
  (∀ k' evs, obj_exec _ e (d_namespaces s) x k' evs → Forall (λ ev, permitted (d_trace s) (NamespaceEvent ev)) evs) →
  driver_exec _ (Namespaces e) s x s' → driver_guar s s'.
Proof.
  intros Hperm (k' & evs & He & ->). split.
  - split; [|split; [done|split; [done|by eexists]]].
    destruct e; cbn in He; destruct_and?; subst; [by intros; eapply create_seen|done|by intros; eapply update_seen].
  - eexists. split; [done|]. apply Forall_fmap. by eapply Hperm.
Qed.

Lemma create_namespace_guar s r s' :
  driver_exec _ (Namespaces (Create (new_namespace ns labels_of))) s r s' →
  driver_guar s s' ∧ (r = Ok tt → claimed (d_trace s')).
Proof.
  intros He. split.
  - eapply namespace_call_guar; [|exact He]. intros k' evs [_ ->]. destruct r; by repeat constructor.
  - intros ->. destruct He as (k' & evs & [_ ->] & ->). left. cbn. set_solver.
Qed.

Lemma claim_namespace_rg s (Φ : result driver_error () → state → Prop) :
  (∀ s' r, driver_rely s s' → (r = Ok tt → claimed (d_trace s')) → Φ r s') →
  drg (claim_namespace runID ns) s Φ.
Proof.
  intros HΦ. unfold claim_namespace. apply rg_call. intros s1 r s2 HR He.
  destruct (create_namespace_guar _ _ _ He) as [HG Hc]. split; [done|].
  pose proof (driver_rely_trans _ _ _ HR (proj1 HG)) as HR2. destruct r as [[]|e].
  { intros s3 HR3. apply HΦ; [by eapply driver_rely_trans|]. intros _. eapply claimed_rely; [exact HR3|by apply Hc]. }
  destruct (IsAlreadyExists e); [|intros s3 HR3; apply HΦ; [by eapply driver_rely_trans|done]].
  apply rg_try, rg_call. intros s3 r s4 HR3 He4.
  assert (driver_guar s3 s4) as HG4.
  { eapply namespace_call_guar; [|exact He4]. intros k' evs (Hread & _ & ->). destruct r as [o|?]; [|by constructor].
    apply read_seen in Hread as [_ [= Ho]]. by repeat constructor. }
  split; [done|]. pose proof (driver_rely_trans _ _ _ HR2 (driver_rely_trans _ _ _ HR3 (proj1 HG4))) as HR4.
  intros s5 HR5. destruct r as [o|e']; [|intros s6 HR6; apply HΦ; [by do 2 (eapply driver_rely_trans; [|done])|done]].
  case_bool_decide as Ho; cbn [negb]; intros s6 HR6; (apply HΦ; [by do 2 (eapply driver_rely_trans; [|done])|]); [|done].
  intros _. right. exists o. destruct He4 as (k' & evs & (Hread & _ & ->) & ->).
  apply read_seen in Hread as [_ [= Hn]]. split; [done|]. split; [done|].
  apply (rely_trace _ _ _ HR6), (rely_trace _ _ _ HR5). cbn. set_solver.
Qed.

Lemma accounts_rg names s (Φ : result driver_error () → state → Prop) :
  claimed (d_trace s) → (∀ name, name ∈ names → name ∈ targetServiceAccounts) →
  (∀ s' r, driver_rely s s' → (r = Ok tt → ∀ name, name ∈ names → account_ready name (d_trace s')) → Φ r s') →
  drg (for_ok names (λ name, ensureServiceAccount ns name labels_of reset)) s Φ.
Proof.
  revert s Φ. induction names as [|name names IH]; intros s Φ Hc Hnames HΦ; cbn [for_ok].
  { intros s1 HR. apply HΦ; [done|]. intros _ name Hin. by apply not_elem_of_nil in Hin. }
  apply rg_try, ensureServiceAccount_rg; [done|set_solver|]. intros s1 [[]|e] HR Hready.
  - apply IH; [by eapply claimed_rely|set_solver|]. intros s2 r HR2 Hrest. apply HΦ; [by eapply driver_rely_trans|].
    intros Hr name' [->|Hin]%elem_of_cons; [eapply account_ready_rely; [exact HR2|by apply Hready]|by apply Hrest].
  - intros s2 HR2. apply HΦ; [by eapply driver_rely_trans|done].
Qed.

(** The Namespace is the run's, its accounts and its binding are as they should be. *)
Definition prepared (tr : list driver_event) : Prop :=
  claimed tr ∧ (∀ name, name ∈ targetServiceAccounts → account_ready name tr) ∧ binding_ready tr.

Lemma prepare_namespace_rg s : reset = true →
  drg (prepare_namespace runID ns) s (λ r s', r = Ok tt → prepared (d_trace s')).
Proof.
  intros Hreset. unfold prepare_namespace. apply rg_try, claim_namespace_rg. intros s1 [[]|e] HR Hc; [|by intros s2 HR2].
  specialize (Hc eq_refl). destruct Hreset. apply rg_try. apply accounts_rg; [done..|].
  intros s2 [[]|e] HR2 Ha; [|by intros s3 HR3]. apply ensureWriterBinding_rg; [by eapply claimed_rely|].
  intros s3 r HR3 Hb Hr. split; [|split].
  - eapply claimed_rely; [exact HR3|]. by eapply claimed_rely.
  - intros name Hname. eapply account_ready_rely; [exact HR3|]. by apply Ha.
  - by apply Hb.
Qed.

(** Marks follow the calls they mark. *)
Lemma rg_mark {A} m (k : () → prog driverE A) s Φ : reset = false →
  (∀ s', driver_rely s s' → Marked m ∈ d_trace s' → drg (k tt) s' Φ) → drg (x ← call (Mark m); k x) s Φ.
Proof.
  intros Hreset Hk. apply rg_call. intros s1 [] s2 HR ->.
  assert (driver_guar s1 (MkDriverState (d_namespaces s1) (d_accounts s1) (d_bindings s1) (d_trace s1 ++ [Marked m]))) as HG.
  { split; [split; [done|]; split; [done|]; split; [done|]; by eexists|]. eexists. split; [done|]. by repeat constructor. }
  split; [done|]. apply Hk; [by eapply driver_rely_trans, HG|]. cbn. set_solver.
Qed.

Lemma createLateNamespace_rg s : reset = false →
  drg (createLateNamespace runID ns) s (λ r s',
    r = Ok tt → prepared (d_trace s') ∧ Marked LateNamespacePrerequisitesReady ∈ d_trace s').
Proof.
  intros Hreset. unfold createLateNamespace. apply rg_mark; [done|]. intros s0 _ _. apply rg_try, rg_call.
  intros s1 r s2 HR He. destruct (create_namespace_guar _ _ _ He) as [HG Hc]. split; [done|].
  intros s3 HR3. destruct r as [[]|e]; [|by intros s4 HR4]. specialize (Hc eq_refl). cbn beta iota.
  apply rg_mark; [done|]. intros s4 HR4 _. apply rg_try.
  assert (claimed (d_trace s4)) as Hc4 by (do 2 (eapply claimed_rely; [eassumption|]); done).
  apply ensureWriterBinding_rg; [done|]. intros s5 [[]|e] HR5 Hb; [|by intros s6 HR6]. apply rg_try.
  generalize Hreset. intros <-. apply accounts_rg; [by eapply claimed_rely|done|].
  intros s6 [[]|e] HR6 Ha; [|by intros s7 HR7]. apply rg_mark; [done|]. intros s7 HR7 Hm s8 HR8 _.
  pose proof (driver_rely_trans _ _ _ HR7 HR8) as HR78. split; [|by apply (rely_trace _ _ _ HR8)].
  split; [|split].
  - eapply claimed_rely; [exact HR78|]. do 2 (eapply claimed_rely; [eassumption|]). done.
  - intros name Hname. eapply account_ready_rely; [exact HR78|]. by apply Ha.
  - destruct (Hb eq_refl) as [Hx|[(o & ? & ? & ?)|(met & ? & ?)]];
      [left|right; left; exists o|right; right; exists met]; eauto 6 using rely_trace.
Qed.
End driver.

(** ** The worker pool *)
Section workload.
Context {KN KA KB : Type}.
Context `{!ApiServer DriverNamespace KN} `{!ApiServerLaws (O := DriverNamespace) KN} `{!SeenStable DriverNamespace KN}.
Context `{!ApiServer DriverAccount KA} `{!ApiServerLaws (O := DriverAccount) KA} `{!SeenStable DriverAccount KA}.
Context `{!ApiServer RoleBinding KB} `{!ApiServerLaws (O := RoleBinding) KB} `{!SeenStable RoleBinding KB}.
Context `{RetryLaws}.

Lemma permitted_extend runID ns reset pre pre' ev :
  permitted runID ns reset pre ev → permitted runID ns reset (pre ++ pre') ev.
Proof.
  assert (claimed runID ns pre → claimed runID ns (pre ++ pre')) as Hc.
  { intros [?|(o & ? & ? & ?)]; [left|right; exists o]; set_solver. }
  destruct ev as [[]|[]|[]|]; cbn; naive_solver.
Qed.

(** Every event of a trace is permitted by some Namespace of the run. *)
Definition trace_permitted (runID : string) (namespaces : list string) (reset : bool) (tr evs : list driver_event) : Prop :=
  ∀ pre ev post, evs = pre ++ ev :: post → ∃ ns, ns ∈ namespaces ∧ permitted runID ns reset (tr ++ pre) ev.

Lemma trace_permitted_app runID namespaces reset tr evs evs' :
  trace_permitted runID namespaces reset tr evs → trace_permitted runID namespaces reset (tr ++ evs) evs' →
  trace_permitted runID namespaces reset tr (evs ++ evs').
Proof.
  intros H1 H2 pre ev post Heq. apply app_eq_inv in Heq as [(l & -> & Hl)|(l & -> & Hl)].
  - destruct l as [|ev' l]; simplify_eq/=.
    + destruct (H2 [] ev post) as (ns & ? & Hp); [done|]. exists ns. split; [done|]. by rewrite !app_nil_r in *.
    + by apply (H1 pre ev' l).
  - destruct (H2 l ev post Hl) as (ns & ? & Hp). exists ns. split; [done|]. by rewrite (assoc_L (++)).
Qed.

(** The rest of the world: it may do anything to the cluster except reuse a
    resource version, and it is not the driver. *)
Definition world (env : DriverState KN KA KB → DriverState KN KA KB → Prop) : Prop :=
  ∀ a b, env a b → driver_rely a b ∧ d_trace b = d_trace a.

Lemma parallel_guarantees env runID namespaces reset l s s' : world env → l ⊆ namespaces →
  rtc (λ a b, env a b ∨ ∃ i, i < length l ∧ driver_guar runID (default "" (l !! i)) reset a b) s s' →
  ∃ evs, d_trace s' = d_trace s ++ evs ∧ trace_permitted runID namespaces reset (d_trace s) evs.
Proof.
  intros Hworld Hl. induction 1 as [s|s s1 s2 Hstep _ (evs & Htr & Hp)].
  { exists []. rewrite app_nil_r. split; [done|]. intros pre ev post Heq. by destruct pre. }
  destruct Hstep as [Henv|(i & Hi & _ & evs1 & Htr1 & Hall)].
  - destruct (Hworld _ _ Henv) as [_ Heq]. rewrite Heq in Htr, Hp. by exists evs.
  - rewrite Htr1 in Htr, Hp. exists (evs1 ++ evs). split; [by rewrite Htr, (assoc_L (++))|].
    apply trace_permitted_app; [|done]. intros pre ev post ->. apply lookup_lt_is_Some in Hi as [ns Hns].
    rewrite Hns in Hall. exists ns. split; [by apply Hl; eapply list_elem_of_lookup_2|].
    apply Forall_app in Hall as [_ Hall]. apply Forall_cons in Hall as [Hev _]. by apply permitted_extend.
Qed.

(** C28.  [prepareWorkload], with any number of workers, any interleaving with the
    controller and the rest of the cluster, and any failures: the driver writes
    only to Namespaces of the run, and to their accounts and bindings only after
    it created the Namespace or saw the run's label on it; it creates what the run
    needs, and changes the live version of an existing account or binding only by
    its mark (the run's label, the managed reference removed; the role and its
    subjects).  When it answers success, every Namespace was claimed and each of
    its target accounts and its binding was created, found or made as it should
    be. *)
Theorem prepareWorkload_correct env runID namespaces concurrency s r s' :
  (1 ≤ concurrency)%Z → world env →
  prepareWorkload env runID namespaces concurrency s r s' →
  (∃ evs, d_trace s' = d_trace s ++ evs ∧ trace_permitted runID namespaces true (d_trace s) evs) ∧
  (r = Ok tt → ∀ ns, ns ∈ namespaces → prepared runID ns true (d_trace s')).
Proof.
  intros Hworkers Hworld (p & Hpool & Hfin & -> & Hrun).
  destruct (Parallel.pool_answer _ _ _ Hworkers Hpool) as [[left Hleft] Hanswer]. specialize (Hanswer Hfin).
  set (l := Parallel.attempted p) in *.
  assert (l ⊆ namespaces) as Hl by (intros x Hx; rewrite Hleft; set_solver).
  eapply (pool_sound driver_exec env (λ _, driver_rely) (λ i, driver_guar runID (default "" (l !! i)) true)
    (λ i r s', r = Ok tt → prepared runID (default "" (l !! i)) true (d_trace s'))) in Hrun as [Hrtc Hends].
  - rewrite length_fmap in Hrtc. split; [by eapply parallel_guarantees|]. intros Hok ns Hns. rewrite Hok in Hanswer.
    destruct Hanswer as [Hsucc Hfailed]. rewrite <-Hsucc in Hns. apply list_elem_of_lookup_1 in Hns as [i Hi].
    assert (l !! i = Some ns) as Hli.
    { unfold l, Parallel.attempted. by apply lookup_app_l_Some. }
    specialize (Hends i (Ret (Ok tt))). rewrite Hli in Hends. cbn in Hends. apply Hends; [|apply driver_rely_refl|done].
    unfold operation_ends. apply lookup_app_l_Some. by rewrite list_lookup_fmap, Hi.
  - intros _. apply driver_rely_trans.
  - intros _. apply driver_rely_refl.
  - by intros i j a b _ [? _].
  - intros _ a b Hab. by apply Hworld.
  - intros i q Hq. rewrite list_lookup_fmap in Hq. destruct (l !! i) as [ns|]; [|done]. simplify_eq/=.
    by apply prepare_namespace_rg.
Qed.

(** Creating the late Namespace of a mutation, however the controller
    interleaves: an account that exists already is labelled and keeps its
    references as the live object has them, so a reference that the controller
    added is never undone; and the prerequisites are marked ready only after the
    Namespace, its accounts and its binding are. *)
Theorem createLateNamespace_correct runID ns s :
  rg driver_exec driver_rely (driver_guar runID ns false) (createLateNamespace runID ns) s (λ r s',
    r = Ok tt → prepared runID ns false (d_trace s') ∧ Marked LateNamespacePrerequisitesReady ∈ d_trace s') ∧
  ∀ pre met sent, permitted runID ns false pre (AccountEvent (Updated met sent)) →
    da_ImagePullSecrets sent = da_ImagePullSecrets met ∧
    ∀ k, k ≠ performanceRunLabel → default ∅ (da_Labels sent) !! k = default ∅ (da_Labels met) !! k.
Proof.
  split; [by apply createLateNamespace_rg|]. intros pre met sent (_ & _ & _ & ->). split; [done|].
  intros k Hk. cbn. by rewrite lookup_insert_ne.
Qed.
End workload.

(** ** A run with one Namespace, whose default account exists already *)
Module ClusterExample.
#[local] Instance errors : ApiErrors := {|
  IsAlreadyExists e := bool_decide (e = Failed "AlreadyExists");
  IsConflict e := bool_decide (e = Failed "Conflict")
|}.
#[local] Existing Instances five_attempts five_attempts_laws.

Definition namespace_version (n : DriverNamespace) (v : string) : DriverNamespace :=
  MkDriverNamespace (dn_Name n) (dn_UID n) v (dn_deleting n) (dn_Labels n).
Definition account_version (a : DriverAccount) (v : string) : DriverAccount :=
  MkDriverAccount (da_Namespace a) (da_Name a) (da_UID a) v (da_deleting a) (da_Labels a) (da_ImagePullSecrets a).
Definition binding_version (b : RoleBinding) (v : string) : RoleBinding :=
  MkRoleBinding (rb_Namespace b) (rb_Name b) (rb_UID b) v (rb_deleting b) (rb_Labels b) (rb_RoleRef b) (rb_Subjects b).
Definition KN : Type := list (History.entry (O := DriverNamespace)).
Definition KA : Type := list (History.entry (O := DriverAccount)).
Definition KB : Type := list (History.entry (O := RoleBinding)).
#[local] Instance namespaces_server : ApiServer DriverNamespace KN := History.server namespace_version.
#[local] Instance accounts_server : ApiServer DriverAccount KA := History.server account_version.
#[local] Instance bindings_server : ApiServer RoleBinding KB := History.server binding_version.
#[local] Instance namespaces_laws : ApiServerLaws (O := DriverNamespace) KN :=
  History.server_laws namespace_version (λ _ _, eq_refl) (λ _ _, eq_refl) (λ _ _, eq_refl) (λ _ _, eq_refl).
#[local] Instance accounts_laws : ApiServerLaws (O := DriverAccount) KA :=
  History.server_laws account_version (λ _ _, eq_refl) (λ _ _, eq_refl) (λ _ _, eq_refl) (λ _ _, eq_refl).
#[local] Instance bindings_laws : ApiServerLaws (O := RoleBinding) KB :=
  History.server_laws binding_version (λ _ _, eq_refl) (λ _ _, eq_refl) (λ _ _, eq_refl) (λ _ _, eq_refl).
#[local] Instance namespaces_stable : SeenStable DriverNamespace KN := history_stable namespace_version.
#[local] Instance accounts_stable : SeenStable DriverAccount KA := history_stable account_version.
#[local] Instance bindings_stable : SeenStable RoleBinding KB := history_stable binding_version.

Definition default_account : DriverAccount :=
  MkDriverAccount "krsc-perf-a-00000" "default" "" "" false None (Some ["other"; DefaultManagedSecretName]).
Definition before : DriverState KN KA KB := MkDriverState [] [History.Put default_account] [] [].
Definition no_env (a b : DriverState KN KA KB) : Prop := False.

(** The server's answers, and the calls they are answers to. *)
Definition answer {O} `{KubeObject O} (version : O → string → O) {X} (e : objE O X) (k : list (History.entry (O := O))) :
    X * list (History.entry (O := O)) * list (obj_event O) :=
  match e in objE _ X return X * list (History.entry (O := O)) * list (obj_event O) with
  | Create o => let r := History.do_create version o k in (r, if is_ok r.1 then [Created o] else [])
  | Get key => let r := History.do_read version key k in
      (r, k, match r with Ok o => [Got o] | Err _ => [] end)
  | Update o => let r := History.do_update version o k in
      (r, match r.1, History.lookup_live version k (obj_key o) with Ok _, Some met => [Updated met o] | _, _ => [] end)
  end.
Definition accepts {O} `{KubeObject O} (version : O → string → O) {X} (e : objE O X) (k : list (History.entry (O := O))) : bool :=
  match e with
  | Create o => negb (deleting o)
  | Get _ => true
  | Update o => match History.lookup_live version k (obj_key o) with Some l => eqb (deleting o) (deleting l) | None => true end
  end.
Lemma answer_exec {O} `{KubeObject O} (version : O → string → O) {X} (e : objE O X) k :
  accepts version e k = true →
  obj_exec (ApiServer0 := History.server version) _ e k (answer version e k).1.1 (answer version e k).1.2 (answer version e k).2.
Proof.
  destruct e as [o|key|o]; cbn; intros Hacc.
  - split; [|done]. split; [by destruct (History.do_create _ _ _)|by apply negb_true_iff].
  - done.
  - split; [|done]. split; [by destruct (History.do_update _ _ _)|]. intros l Hl. rewrite Hl in Hacc. by apply eqb_prop.
Qed.

Definition driver_answer (X : Type) (c : driverE X) (s : DriverState KN KA KB) : X * DriverState KN KA KB :=
  match c in driverE X return X * DriverState KN KA KB with
  | Namespaces e => let '(x, k, evs) := answer namespace_version e (d_namespaces s) in
      (x, MkDriverState k (d_accounts s) (d_bindings s) (d_trace s ++ (NamespaceEvent <$> evs)))
  | Accounts e => let '(x, k, evs) := answer account_version e (d_accounts s) in
      (x, MkDriverState (d_namespaces s) k (d_bindings s) (d_trace s ++ (AccountEvent <$> evs)))
  | Bindings e => let '(x, k, evs) := answer binding_version e (d_bindings s) in
      (x, MkDriverState (d_namespaces s) (d_accounts s) k (d_trace s ++ (BindingEvent <$> evs)))
  | Mark m => (tt, MkDriverState (d_namespaces s) (d_accounts s) (d_bindings s) (d_trace s ++ [Marked m]))
  end.
Definition driver_accepts (X : Type) (c : driverE X) (s : DriverState KN KA KB) : bool :=
  match c with
  | Namespaces e => accepts namespace_version e (d_namespaces s)
  | Accounts e => accepts account_version e (d_accounts s)
  | Bindings e => accepts binding_version e (d_bindings s)
  | Mark _ => true
  end.
Lemma driver_answer_exec X (c : driverE X) s : driver_accepts X c s = true →
  driver_exec X c s (driver_answer X c s).1 (driver_answer X c s).2.
Proof.
  destruct c as [X e|X e|X e|m]; cbn [driver_accepts driver_answer]; intros Hacc; try apply answer_exec in Hacc.
  - destruct (answer namespace_version e _) as [[x k] evs]. by exists k, evs.
  - destruct (answer account_version e _) as [[x k] evs]. by exists k, evs.
  - destruct (answer binding_version e _) as [[x k] evs]. by exists k, evs.
  - done.
Qed.

Definition finished : Parallel.Pool string driver_error :=
  Parallel.MkPool Parallel.Closed [Parallel.Returned] None false false ["krsc-perf-a-00000"] [].
Definition after : DriverState KN KA KB := (interp driver_answer (prepare_namespace "a" "krsc-perf-a-00000") before).2.

(** The account is marked: the foreign reference stays. *)
Example account_marked : da_ImagePullSecrets <$> History.lookup_live account_version (d_accounts after) ("krsc-perf-a-00000", "default")
  = Some (Some ["other"]).
Proof. vm_compute. reflexivity. Qed.
(** An account without references, read back as nil, is written again although
    nothing changes. *)
Example nil_references : account_good {[performanceRunLabel := "a"]} true
    (mark_account {[performanceRunLabel := "a"]} true
      (MkDriverAccount "n" "default" "" "" false None None)) = true ∧
  account_good {[performanceRunLabel := "a"]} true
    (MkDriverAccount "n" "default" "" "" false (Some {[performanceRunLabel := "a"]}) None) = false.
Proof. split; vm_compute; reflexivity. Qed.

Lemma run : prepareWorkload no_env "a" ["krsc-perf-a-00000"] 1 before (Ok tt) after.
Proof.
  exists finished. split; [|split; [by repeat constructor|split; [done|]]].
  - eapply rtc_l; [eapply (Parallel.step_dispatch _ 0); reflexivity|].
    eapply rtc_l; [eapply (Parallel.step_ok _ 0); reflexivity|].
    eapply rtc_l; [eapply Parallel.step_feeder_done; reflexivity|].
    eapply rtc_l; [eapply (Parallel.step_worker_done _ 0); reflexivity|]. reflexivity.
  - assert ((interp driver_answer (prepare_namespace "a" "krsc-perf-a-00000") before).1 = Ok tt) as Hok
      by (vm_compute; reflexivity).
    pose proof (pool_run_checked driver_exec no_env driver_accepts driver_answer
      (prepare_namespace "a" "krsc-perf-a-00000") before [prepare_namespace "a" "krsc-perf-a-00000"] 0
      driver_answer_exec) as Hrun. rewrite Hok in Hrun. apply Hrun; [vm_compute; reflexivity|reflexivity].
Qed.

Lemma prepareWorkload_correct_witness :
  (1 ≤ 1)%Z ∧ world (KN := KN) (KA := KA) (KB := KB) no_env ∧
  prepared "a" "krsc-perf-a-00000" true (d_trace after).
Proof.
  assert (1 ≤ 1)%Z as H1 by lia.
  assert (world no_env) as Hw by (intros a b []).
  split; [exact H1|]. split; [exact Hw|].
  apply (proj2 (prepareWorkload_correct no_env "a" ["krsc-perf-a-00000"] 1 before (Ok tt) after H1 Hw run)
    eq_refl "krsc-perf-a-00000"). left.
Defined.

(** The late Namespace: its default account was referenced before it was labelled. *)
Definition late_before : DriverState KN KA KB :=
  MkDriverState [] [History.Put (MkDriverAccount "krsc-perf-a-late" "default" "" "" false None (Some [DefaultManagedSecretName]))] [] [].
Definition late_after : DriverState KN KA KB :=
  (interp driver_answer (createLateNamespace "a" "krsc-perf-a-late") late_before).2.
Example late_reference_kept :
  da_ImagePullSecrets <$> History.lookup_live account_version (d_accounts late_after) ("krsc-perf-a-late", "default")
  = Some (Some [DefaultManagedSecretName]).
Proof. vm_compute. reflexivity. Qed.

Lemma createLateNamespace_correct_witness :
  rg driver_exec driver_rely (driver_guar "a" "krsc-perf-a-late" false) (createLateNamespace "a" "krsc-perf-a-late")
    late_before (λ r s', r = Ok tt →
      prepared "a" "krsc-perf-a-late" false (d_trace s') ∧ Marked LateNamespacePrerequisitesReady ∈ d_trace s').
Proof. exact (proj1 (createLateNamespace_correct "a" "krsc-perf-a-late" late_before)). Defined.
End ClusterExample.
