(* ===== verification/PerfStages.v ===== *)
(** * The stages of a benchmark run (cmd/perf-driver/main.go, mutation.go)

    What the stages of [PerfBenchmark] ask of the cluster: lists, deletions by the
    worker pool, polling loops, the final checks, and the changes of the
    ConfigMap and the Deployment.  A polling loop has a number of polls as fuel and
    answers [None] while it would go on. *)
From S2P Require Import Prelude Prog GoStrings Encoding Rfc3339 ConfigTypes RegistrySecret Kube KubeWrites.
From S2P Require Import SecretSyncer ServiceAccount Controller PerfOptions PerfProfile Tracker PerfBenchmark PerfCluster.
Local Open Scope Z_scope.

(** ** The calls *)
Inductive poll_answer := CtxDone (err : string) | DeadlineReached | Ticked.

(** The operations that the stages hand to [runParallel]. *)
Inductive pool_operation := DeleteManagedSecrets | DeleteNamespaces.
#[export] Instance pool_operation_eq_dec : EqDecision pool_operation.
Proof. solve_decision. Defined.

Record Pod := MkPod {
  pod_Name : string;
  pod_NodeName : string;
  pod_Conditions : list (string * string)
}.

(** Lists of Secrets are of those with the managed name, in all Namespaces. *)
Inductive stageE : Type → Type :=
| ListNamespaces (selector : string) : stageE (result api_error (list string))
| DeleteNamespace (name : string) : stageE (result api_error ())
| ListManagedSecrets : stageE (result api_error (list Secret))
| DeleteManagedSecret (namespace : string) : stageE (result api_error ())
| GetManagedSecretOf (namespace : string) : stageE (result api_error Secret)
| ListServiceAccounts (selector : string) : stageE (result api_error (list ServiceAccount))
| GetAccount (namespace name : string) : stageE (result api_error ServiceAccount)
| ListPods : stageE (result api_error (list Pod))
| PodLogs (pod : string) : stageE (result api_error bytes)
| WriteLogFile (data : bytes) : stageE (result string ())
| RunPool (operation : pool_operation) (items : list string) (workers : Z) : stageE (result driver_error ())
| Poll : stageE poll_answer.

Abbreviation stage_prog A := (prog stageE (result driver_error A)).
Definition run_selector (runID : string) : string := performanceRunLabel +:+ "=" +:+ runID.

(** ** The operations of the pools *)
Definition pool_program (operation : pool_operation) (item : string) : stage_prog () :=
  r ← call (match operation with
            | DeleteManagedSecrets => DeleteManagedSecret item
            | DeleteNamespaces => DeleteNamespace item
            end);
  if IsNotFound r then Ret (Ok tt) else
  match r with Ok _ => Ret (Ok tt) | Err e => Ret (Err (ApiFailed "" e)) end.

(** ** Before the run *)
Definition validateReusableDataset (datasetID : string) (desiredCount : Z) : stage_prog () :=
  let expected := list_to_set (C := gset string) (namespaceNames datasetID desiredCount) in
  try (call (ListNamespaces (run_selector datasetID))) (λ e, Ret (Err (ApiFailed "list reusable dataset" e))) (λ existing,
  match List.find (λ name, negb (bool_decide (name ∈ expected))) existing with
  | Some name => Ret (Err (Refused ("reusable dataset " +:+ datasetID +:+ " contains Namespace " +:+ name
      +:+ " outside the requested first " +:+ Itoa desiredCount +:+ " entries")))
  | None => Ret (Ok tt)
  end).

(** The Namespaces among [namespaces] that hold a listed Secret. *)
Definition secrets_to_delete (namespaces : list string) (secrets : list Secret) : list string :=
  let targets := list_to_set (C := gset string) namespaces in
  List.filter (λ ns, bool_decide (ns ∈ targets)) (sec_Namespace <$> secrets).
Definition resetManagedSecrets (namespaces : list string) (concurrency : Z) : stage_prog () :=
  try (call ListManagedSecrets) (λ e, Ret (Err (ApiFailed "" e))) (λ secrets,
  call (RunPool DeleteManagedSecrets (secrets_to_delete namespaces secrets) concurrency)).

(** ** Cleanup *)
Fixpoint await_no_namespaces (polls : nat) (selector : string) : prog stageE (option (result driver_error ())) :=
  match polls with
  | O => Ret None
  | S polls =>
    try (call (ListNamespaces selector)) (λ e, Ret (Some (Err (ApiFailed "" e)))) (λ remaining,
    if bool_decide (remaining = []) then Ret (Some (Ok tt)) else
    tick ← call Poll;
    match tick with
    | CtxDone e => Ret (Some (Err (Refused e)))
    | _ => await_no_namespaces polls selector
    end)
  end.
Definition cleanupRun (polls : nat) (runID : string) (concurrency : Z) : prog stageE (option (result driver_error ())) :=
  let selector := run_selector runID in
  try (call (ListNamespaces selector)) (λ e, Ret (Some (Err (ApiFailed "list run Namespaces" e)))) (λ names,
  if bool_decide (names = []) then Ret (Some (Ok tt)) else
  try (call (RunPool DeleteNamespaces names concurrency)) (λ e, Ret (Some (Err e))) (λ _,
  await_no_namespaces polls selector)).

(** ** The controller's Pods *)
Definition podReady (pod : Pod) : bool :=
  existsb (λ condition, bool_decide (condition.1 = "Ready") && bool_decide (condition.2 = "True")) (pod_Conditions pod).
Definition pods_as_wanted (wantReady : bool) (pods : list Pod) : bool :=
  (negb wantReady && bool_decide (length pods = 0%nat))
  || (wantReady && match pods with [pod] => podReady pod | _ => false end).
Fixpoint waitForControllerPods (polls : nat) (wantReady : bool) (timeout : string) :
    prog stageE (option (result driver_error ())) :=
  match polls with
  | O => Ret None
  | S polls =>
    try (call ListPods) (λ e, Ret (Some (Err (ApiFailed "list performance controller Pods" e)))) (λ pods,
    if pods_as_wanted wantReady pods then Ret (Some (Ok tt)) else
    tick ← call Poll;
    match tick with
    | CtxDone e => Ret (Some (Err (Refused e)))
    | DeadlineReached => Ret (Some (Err (Refused ("controller Pods did not reach wantReady="
        +:+ (if wantReady then "true" else "false") +:+ " within " +:+ timeout))))
    | Ticked => waitForControllerPods polls wantReady timeout
    end)
  end.

(** ** The controller's logs *)
Definition log_header (pod : Pod) : bytes :=
  to_bytes ("# pod=" +:+ pod_Name pod +:+ " node=" +:+ pod_NodeName pod +:+ newline).
Definition log_section (pod : Pod) (raw : bytes) : bytes :=
  log_header pod ++ raw ++ if bool_decide (raw = []) || bool_decide (last raw = last (to_bytes newline)) then [] else to_bytes newline.
Fixpoint read_logs (pods : list Pod) (combined : bytes) : prog stageE (result driver_error bytes) :=
  match pods with
  | [] => Ret (Ok combined)
  | pod :: pods =>
    try (call (PodLogs (pod_Name pod))) (λ e, Ret (Err (ApiFailed "" e))) (λ raw,
    read_logs pods (combined ++ log_section pod raw))
  end.
Definition collectControllerLogs : prog stageE (diagnosticsSummary * option driver_error) :=
  try (call ListPods) (λ e, Ret (no_diagnostics, Some (ApiFailed "" e))) (λ pods,
  try (read_logs pods []) (λ e, Ret (no_diagnostics, Some e)) (λ data,
  let diagnostics := summarizeControllerLogs data in
  try (call (WriteLogFile data)) (λ e, Ret (diagnostics, Some (Refused e))) (λ _, Ret (diagnostics, None)))).

(** ** The final state *)
Definition containsString (values : list string) (wanted : string) : bool :=
  existsb (λ value, bool_decide (value = wanted)) values.
Definition valid_secret (namespaces : list string) (secret : Secret) : bool :=
  bool_decide (sec_Namespace secret ∈ namespaces) && IsUsableForServiceAccount (Some secret).
Definition valid_account (namespaces : list string) (account : ServiceAccount) : bool :=
  bool_decide (sa_Namespace account ∈ namespaces) && containsString targetServiceAccounts (sa_Name account)
  && referencesManagedSecret account.
Definition count_mismatch (what : string) (got want : nat) : driver_error :=
  Refused ("final " +:+ what +:+ " count = " +:+ Itoa (Z.of_nat got) +:+ ", want " +:+ Itoa (Z.of_nat want)).
Definition verifyFinalState (namespaces : list string) (selector : string) : stage_prog () :=
  try (call ListManagedSecrets) (λ e, Ret (Err (ApiFailed "verify Secrets" e))) (λ secrets,
  let validSecrets := length (List.filter (valid_secret namespaces) secrets) in
  if negb (bool_decide (validSecrets = length namespaces))
  then Ret (Err (count_mismatch "valid Secret" validSecrets (length namespaces))) else
  try (call (ListServiceAccounts selector)) (λ e, Ret (Err (ApiFailed "verify ServiceAccounts" e))) (λ accounts,
  let validAccounts := length (List.filter (valid_account namespaces) accounts) in
  let wantAccounts := (length namespaces * length targetServiceAccounts)%nat in
  if negb (bool_decide (validAccounts = wantAccounts))
  then Ret (Err (count_mismatch "patched ServiceAccount" validAccounts wantAccounts))
  else Ret (Ok tt))).

Definition not_referencing (what : string) (account : ServiceAccount) : driver_error :=
  Refused (what +:+ " " +:+ sa_Namespace account +:+ "/" +:+ sa_Name account +:+ " does not reference " +:+ DefaultManagedSecretName).
Fixpoint verify_accounts (namespace : string) (names : list string) : stage_prog () :=
  match names with
  | [] => Ret (Ok tt)
  | name :: names =>
    try (call (GetAccount namespace name)) (λ e, Ret (Err (ApiFailed ("verify injected Namespace ServiceAccount " +:+ name) e))) (λ account,
    if negb (referencesManagedSecret account) then Ret (Err (not_referencing "injected Namespace ServiceAccount" account))
    else verify_accounts namespace names)
  end.
Definition verifyConcurrentMutationFinalState (summary : mutationSummary) : stage_prog () :=
  try (if negb (NamespaceOnly summary) then
         let late := LateServiceAccount summary in
         try (call (GetAccount (mr_Namespace late) (mr_Name late))) (λ e, Ret (Err (ApiFailed "verify injected ServiceAccount" e)))
           (λ account, if negb (referencesManagedSecret account)
             then Ret (Err (not_referencing "injected ServiceAccount" account)) else Ret (Ok tt))
       else Ret (Ok tt)) (λ e, Ret (Err e)) (λ _,
  let namespace := mn_Name (LateNamespace summary) in
  try (call (GetManagedSecretOf namespace)) (λ e, Ret (Err (ApiFailed "verify injected Namespace Secret" e))) (λ secret,
  if negb (IsUsableForServiceAccount (Some secret))
  then Ret (Err (Refused ("injected Namespace Secret " +:+ sec_Namespace secret +:+ "/" +:+ sec_Name secret +:+ " is not usable"))) else
  if negb (bool_decide (secretFingerprint secret = ExpectedCredentialFingerprint summary))
  then Ret (Err (Refused ("injected Namespace Secret fingerprint = " +:+ secretFingerprint secret
    +:+ ", want current expiry generation " +:+ ExpectedCredentialFingerprint summary))) else
  verify_accounts namespace targetServiceAccounts)).

(** ** The ConfigMap and the Deployment *)
Record DriverConfigMap := MkDriverConfigMap {
  dc_Namespace : string;
  dc_Name : string;
  dc_UID : string;
  dc_ResourceVersion : string;
  dc_deleting : bool;
  dc_Data : gmap string string
}.
#[export] Instance DriverConfigMap_object : KubeObject DriverConfigMap := {|
  obj_key c := (dc_Namespace c, dc_Name c);
  obj_UID := dc_UID;
  obj_RV := dc_ResourceVersion;
  payload := dc_Data;
  deleting := dc_deleting
|}.
Definition set_data (data : gmap string string) (c : DriverConfigMap) : DriverConfigMap :=
  MkDriverConfigMap (dc_Namespace c) (dc_Name c) (dc_UID c) (dc_ResourceVersion c) (dc_deleting c) data.

(** [None] replicas is a nil pointer. *)
Record DriverDeployment := MkDriverDeployment {
  dd_Namespace : string;
  dd_Name : string;
  dd_UID : string;
  dd_ResourceVersion : string;
  dd_deleting : bool;
  dd_Replicas : option Z
}.
#[export] Instance DriverDeployment_object : KubeObject DriverDeployment := {|
  obj_key d := (dd_Namespace d, dd_Name d);
  obj_UID := dd_UID;
  obj_RV := dd_ResourceVersion;
  payload := dd_Replicas;
  deleting := dd_deleting
|}.
Definition set_replicas (replicas : Z) (d : DriverDeployment) : DriverDeployment :=
  MkDriverDeployment (dd_Namespace d) (dd_Name d) (dd_UID d) (dd_ResourceVersion d) (dd_deleting d) (Some replicas).
Definition controllerDeployment : string := "registry-secret-controller-perf".

Section objects.
Context `{ApiErrors} `{Retry}.

Definition configureTargets (namespaces serviceAccounts : list string) :
    prog (objE DriverConfigMap) (result driver_error ()) :=
  match target_data namespaces serviceAccounts with
  | None => Ret (Err (Refused ("namespace selector is " +:+ Itoa (Z.of_nat (String.length (Join namespaces ",")))
      +:+ " bytes and exceeds the safe ConfigMap data limit")))
  | Some data =>
    retry_modify (λ _ e, e) (DefaultControllerNamespace, DefaultConfigMapName) "" (λ _, false) (set_data data)
  end.

Definition setDeploymentReplicas (replicas : Z) : prog (objE DriverDeployment) (result driver_error ()) :=
  retry_modify (λ _ e, e) (DefaultControllerNamespace, controllerDeployment) "get performance Deployment"
    (λ d, bool_decide (dd_Replicas d = Some replicas)) (set_replicas replicas).
End objects.

(** One kind of object, and what was done to it. *)
Section exec.
Context {O : Type} `{KubeObject O} {K : Type} `{!ApiServer O K}.
Definition object_exec (X : Type) (e : objE O X) (s : K * list (obj_event O)) (x : X) (s' : K * list (obj_event O)) : Prop :=
  ∃ evs, obj_exec X e s.1 x s'.1 evs ∧ s'.2 = s.2 ++ evs.
End exec.
