(* ===== verification/PerfStagesCorrect.v ===== *)
(** * Correctness of the stages of a benchmark run

    The final checks answer success exactly when the cluster's lists show what the
    run promises; deletions stay inside the run; the ConfigMap and the Deployment
    are changed by what the run asks and nothing else. *)
From S2P Require Import Prelude Prog GoStrings Encoding Rfc3339 Validation ConfigTypes ConfigParser RegistrySecret Kube.
From S2P Require Import ConfigParserCorrect SecretCodec SecretSyncer ServiceAccount Controller PerfOptions PerfOptionsCorrect Tracker PerfBenchmark PerfCluster PerfStages KubeWrites.
Local Open Scope Z_scope.

(** ** Counting *)

(** As many valid elements as wanted keys is every wanted key, once. *)
Lemma filter_count {A B} (f : A → B) (P : A → bool) (l : list A) (wanted : list B) :
  NoDup (f <$> l) → NoDup wanted → (∀ a, a ∈ l → P a = true → f a ∈ wanted) →
  length (List.filter P l) = length wanted ↔ ∀ b, b ∈ wanted → ∃ a, a ∈ l ∧ P a = true ∧ f a = b.
Proof.
  intros Hl Hwanted Hin. set (found := f <$> List.filter P l).
  assert (∀ b, b ∈ found ↔ ∃ a, a ∈ l ∧ P a = true ∧ f a = b) as Hfound.
  { intros b. unfold found. rewrite list_elem_of_fmap. setoid_rewrite list_elem_of_In. setoid_rewrite filter_In. naive_solver. }
  assert (NoDup found) as Hnd.
  { unfold found. clear -Hl. induction l as [|a l IH]; [constructor|]. apply NoDup_cons in Hl as [Ha Hl].
    simpl. destruct (P a); [|by apply IH]. apply NoDup_cons. split; [|by apply IH].
    intros (a' & Heq & Hin)%list_elem_of_fmap. apply Ha. rewrite Heq. apply list_elem_of_fmap_2.
    apply list_elem_of_In, filter_In in Hin as [? _]. by apply list_elem_of_In. }
  assert (found ⊆ wanted) as Hsub by (intros b (a & ? & ? & <-)%Hfound; by apply Hin).
  rewrite <-(length_fmap f). fold found. split.
  - intros Hlen b Hb. apply Hfound.
    assert (found ≡ₚ wanted) as Hperm by (apply submseteq_length_Permutation; [by apply NoDup_submseteq|lia]).
    by rewrite Hperm.
  - intros Hall. apply Permutation_length, NoDup_Permutation; [done..|]. intros b. split; [apply Hsub|].
    intros Hb. by apply Hfound, Hall.
Qed.

Lemma NoDup_list_prod {A B} (l : list A) (k : list B) : NoDup l → NoDup k → NoDup (l ≫= λ x, pair x <$> k).
Proof.
  intros Hl Hk. induction Hl as [|x l Hx Hl IH]; [constructor|]. rewrite bind_cons. apply NoDup_app. split; [|split].
  - by apply (NoDup_fmap_2 _).
  - intros [x' y] (y' & [= -> _] & _)%list_elem_of_fmap (x'' & (y'' & [= -> _] & _)%list_elem_of_fmap & ?)%list_elem_of_bind. done.
  - done.
Qed.

(** ** The final state *)
(** What a list of all managed Secrets, and of all accounts of the run, shows. *)
Definition final_state (namespaces : list string) (secrets : list Secret) (accounts : list ServiceAccount) : Prop :=
  (∀ ns, ns ∈ namespaces → ∃ s, s ∈ secrets ∧ sec_Namespace s = ns ∧ IsUsableForServiceAccount (Some s) = true) ∧
  (∀ ns name, ns ∈ namespaces → name ∈ targetServiceAccounts →
    ∃ a, a ∈ accounts ∧ obj_key a = (ns, name) ∧ referencesManagedSecret a = true).

Lemma valid_secret_spec namespaces s : valid_secret namespaces s = true ↔
  sec_Namespace s ∈ namespaces ∧ IsUsableForServiceAccount (Some s) = true.
Proof. unfold valid_secret. by rewrite andb_true_iff, bool_decide_eq_true. Qed.

Lemma secrets_count namespaces secrets : NoDup namespaces → NoDup (sec_Namespace <$> secrets) →
  length (List.filter (valid_secret namespaces) secrets) = length namespaces ↔
  ∀ ns, ns ∈ namespaces → ∃ s, s ∈ secrets ∧ sec_Namespace s = ns ∧ IsUsableForServiceAccount (Some s) = true.
Proof.
  intros Hns Hs. rewrite (filter_count sec_Namespace); [|done..|].
  - setoid_rewrite valid_secret_spec.
    split; intros Hall ns Hin; destruct (Hall ns Hin) as (s & ? & Hx & Hy); exists s; [tauto|by subst].
  - by intros s _ [Hs' _]%valid_secret_spec.
Qed.

Lemma valid_account_spec namespaces a : valid_account namespaces a = true ↔
  sa_Namespace a ∈ namespaces ∧ sa_Name a ∈ targetServiceAccounts ∧ referencesManagedSecret a = true.
Proof.
  unfold valid_account, containsString. rewrite !andb_true_iff, bool_decide_eq_true, existsb_exists. setoid_rewrite bool_decide_eq_true.
  setoid_rewrite <-list_elem_of_In. naive_solver.
Qed.

Lemma accounts_count namespaces accounts : NoDup namespaces → NoDup (obj_key (O := ServiceAccount) <$> accounts) →
  length (List.filter (valid_account namespaces) accounts) = (length namespaces * length targetServiceAccounts)%nat ↔
  ∀ ns name, ns ∈ namespaces → name ∈ targetServiceAccounts →
    ∃ a, a ∈ accounts ∧ obj_key a = (ns, name) ∧ referencesManagedSecret a = true.
Proof.
  intros Hns Ha. set (wanted := namespaces ≫= λ ns, pair ns <$> targetServiceAccounts).
  assert (length wanted = (length namespaces * length targetServiceAccounts)%nat) as <-.
  { unfold wanted. clear. induction namespaces as [|ns l IH]; [done|]. rewrite bind_cons, length_app, IH. cbn. lia. }
  assert (∀ ns name, (ns, name) ∈ wanted ↔ ns ∈ namespaces ∧ name ∈ targetServiceAccounts) as Hwanted.
  { intros ns name. unfold wanted. rewrite list_elem_of_bind. setoid_rewrite list_elem_of_fmap. naive_solver. }
  rewrite (filter_count (obj_key (O := ServiceAccount)) (valid_account namespaces) accounts wanted); [|done|..].
  - setoid_rewrite valid_account_spec. split.
    + intros Hall ns name Hin Hname. destruct (Hall (ns, name)) as (a & ? & (_ & _ & ?) & ?); [by apply Hwanted|]. by exists a.
    + intros Hall [ns name] [Hin Hname]%Hwanted. destruct (Hall ns name Hin Hname) as (a & ? & Hk & ?).
      exists a. split; [done|]. split; [|done]. cbn in Hk. by injection Hk as -> ->.
  - apply NoDup_list_prod; [done|]. apply (bool_decide_unpack _). by vm_compute.
  - intros a _ (? & ? & _)%valid_account_spec. by apply Hwanted.
Qed.

(** C29.  The final check of a run answers success exactly when both lists could be
    read and they show, in every Namespace of the run, a usable managed Secret and
    each target account with its reference, provided the API names objects once:
    counting is enough, and unrelated objects cannot make up for missing ones. *)
Theorem verifyFinalState_correct {S : Type} (h : ∀ X, stageE X → S → X * S) namespaces selector s :
  NoDup namespaces →
  (∀ secrets, (h _ ListManagedSecrets s).1 = Ok secrets → NoDup (sec_Namespace <$> secrets)) →
  (∀ s accounts, (h _ (ListServiceAccounts selector) s).1 = Ok accounts → NoDup ((obj_key (O := ServiceAccount)) <$> accounts)) →
  (interp h (verifyFinalState namespaces selector) s).1 = Ok tt ↔
  ∃ secrets accounts s1, h _ ListManagedSecrets s = (Ok secrets, s1) ∧
    (h _ (ListServiceAccounts selector) s1).1 = Ok accounts ∧ final_state namespaces secrets accounts.
Proof.
  intros Hns Hsecrets Haccounts. unfold verifyFinalState. cbn. destruct (h _ ListManagedSecrets s) as [[secrets|e] s1];
    [|split; [done|by intros (? & ? & ? & ? & _)]].
  pose proof (secrets_count namespaces secrets Hns (Hsecrets secrets eq_refl)) as Hcount.
  case_bool_decide as Hlen; cbn [negb].
  2: { split; [done|]. intros (? & accounts & ? & [= -> ->] & _ & Hfinal & _). destruct Hlen. by apply Hcount. }
  cbn. destruct (h _ (ListServiceAccounts selector) s1) as [[accounts|e] s2] eqn:Ha.
  2: { split; [done|]. intros (? & accounts & ? & [= -> ->] & Hans & _). by rewrite Ha in Hans. }
  pose proof (accounts_count namespaces accounts Hns (Haccounts s1 accounts (f_equal fst Ha))) as Hcount'.
  case_bool_decide as Hlen'; cbn.
  - split; [|done]. intros _. exists secrets, accounts, s1. rewrite Ha. split; [done|]. split; [done|].
    split; [by apply Hcount|by apply Hcount'].
  - split; [done|]. intros (? & accounts' & ? & [= -> ->] & Hans & _ & Hfinal). rewrite Ha in Hans. simplify_eq/=.
    destruct Hlen'. by apply Hcount'.
Qed.

(** ** What the stages ask for *)
Inductive stage_event :=
| NamespacesListed (selector : string) (names : list string)
| SecretsListed (secrets : list Secret)
| PodsListed (pods : list Pod)
| PoolRun (operation : pool_operation) (items : list string) (ok : bool)
| Deleted (operation : pool_operation) (item : string)
| Polled (answer : poll_answer).
Definition stage_event_of {X} (e : stageE X) : X → list stage_event :=
  match e in stageE X return X → list stage_event with
  | ListNamespaces selector => λ r, match r with Ok names => [NamespacesListed selector names] | Err _ => [] end
  | ListManagedSecrets => λ r, match r with Ok secrets => [SecretsListed secrets] | Err _ => [] end
  | ListPods => λ r, match r with Ok pods => [PodsListed pods] | Err _ => [] end
  | DeleteNamespace name => λ _, [Deleted DeleteNamespaces name]
  | DeleteManagedSecret namespace => λ _, [Deleted DeleteManagedSecrets namespace]
  | RunPool operation items _ => λ r, [PoolRun operation items (is_ok r)]
  | Poll => λ a, [Polled a]
  | _ => λ _, []
  end.
Definition stage_exec (X : Type) (e : stageE X) (log : list stage_event) (x : X) (log' : list stage_event) : Prop :=
  log' = log ++ stage_event_of e x.

Lemma wp_stage_call {A B Er} (e : stageE (result Er A)) (on_err : Er → prog stageE B) (k : A → prog stageE B) l Φ :
  (∀ m, wp stage_exec (on_err m) (l ++ stage_event_of e (Err m)) Φ) →
  (∀ a, wp stage_exec (k a) (l ++ stage_event_of e (Ok a)) Φ) →
  wp stage_exec (try (call e) on_err k) l Φ.
Proof. intros He Hk. cbn. intros [a|m] ? ->; [apply Hk|apply He]. Qed.

(** The polls of a loop that did not end it. *)
Definition ticks (l : list stage_event) : nat :=
  length (List.filter (λ ev, match ev with Polled (CtxDone _) => false | Polled _ => true | _ => false end) l).
Definition pools (l : list stage_event) : list (pool_operation * list string) :=
  l ≫= λ ev, match ev with PoolRun operation items _ => [(operation, items)] | _ => [] end.
Lemma ticks_app l l' : ticks (l ++ l') = (ticks l + ticks l')%nat.
Proof. unfold ticks. by rewrite List.filter_app, length_app. Qed.
Lemma pools_app l l' : pools (l ++ l') = pools l ++ pools l'.
Proof. apply bind_app. Qed.



(** ** The ConfigMap and the Deployment *)
Section objects.
Context {O : Type} `{KubeObject O} {K : Type} `{!ApiServer O K} `{!ApiServerLaws (O := O) K} `{!SeenStable O K}.
Context `{RetryLaws}.

(** The others keep versions apart; the client replaces the live object of [key]
    by its change. *)
Definition obj_rely (s s' : K * list (obj_event O)) : Prop :=
  (∀ o, seen s.1 o → seen s'.1 o) ∧ ∃ evs, s'.2 = s.2 ++ evs.
Definition obj_guar (key : string * string) (change : O → O) (s s' : K * list (obj_event O)) : Prop :=
  obj_rely s s' ∧ ∃ evs, s'.2 = s.2 ++ evs ∧ Forall (allowed None key change) evs.

Lemma modify_object_rg key get_failed good change (s : K * list (obj_event O)) :
  (∀ o, obj_key (change o) = obj_key o ∧ obj_UID (change o) = obj_UID o ∧ obj_RV (change o) = obj_RV o) →
  rg object_exec obj_rely (obj_guar key change) (retry_modify (λ _ e, e) key get_failed good change) s
    (λ r s', r = Ok tt → (∃ o, obj_key o = key ∧ good o = true ∧ Got o ∈ s'.2) ∨
                         (∃ met, obj_key met = key ∧ Updated met (change met) ∈ s'.2)).
Proof.
  intros Hchange. apply (retry_modify_rg (λ _ e, e) object_exec fst snd id obj_rely (obj_guar key change))
    with (I := λ _, True) (new := None).
  - intros X e s1 x s2 (evs & He & Htr). exists evs. split; [done|]. by rewrite list_fmap_id.
  - intros a. split; [done|]. exists []. by rewrite app_nil_r.
  - intros a b c [Hs [evs Hab]] [Hs' [evs' Hbc]]. split; [by eauto|]. exists (evs ++ evs'). by rewrite Hbc, Hab, (assoc_L (++)).
  - intros a b o [Hs _]. apply Hs.
  - intros a b ev [_ [evs ->]]. set_solver.
  - done.
  - done.
  - done.
  - intros X e s1 x s2 _ _ (Hseen & evs & Htr & Hall). rewrite list_fmap_id in Htr.
    assert (obj_rely s1 s2) as HR by (split; [done|]; by eexists). split; [|done]. split; [done|]. by exists evs.
  - intros s1 r _ Hr. exact Hr.
Qed.
End objects.

Section targets.
Context `{RangeOrder} `{FloatParser} `{D : DNSValidation} `{!DNSValidationLaws D} `{!DNSLabelForm D} `{YAML}.
Context {K : Type} `{!ApiServer DriverConfigMap K} `{!ApiServerLaws (O := DriverConfigMap) K} `{!SeenStable DriverConfigMap K}.
Context `{RetryLaws}.

(** Configuring the targets, with anyone else writing to the cluster: only the
    live ConfigMap is replaced, keeping all but its data; and success means that
    it was replaced by data that the controller's parser accepts and that selects
    exactly what the run measures: the generated namespaces and the injected one,
    the ServiceAccounts of the run, one registry, and no tuning.  A list of
    namespaces that does not fit a ConfigMap is refused before any call. *)
Theorem configureTargets_installs args o (s : K * list (obj_event DriverConfigMap)) :
  parseOptions args = Ok o → cleanupOnly o = false →
  UnmarshalStrict mock_registries = Ok [mock_registry] →
  Forall (λ n, IsDNS1123Subdomain n = []) ["registry.mock.example"; "default"; "workload"; "late-workload"] →
  let targets := configureTargets (configured_namespaces o) (configured_accounts o) in
  match target_data (configured_namespaces o) (configured_accounts o) with
  | None => ∃ e, targets = Ret (Err (Refused e))
  | Some data =>
    rg object_exec obj_rely (obj_guar (DefaultControllerNamespace, DefaultConfigMapName) (set_data data)) targets s
      (λ r s', r = Ok tt → ∃ met, obj_key met = (DefaultControllerNamespace, DefaultConfigMapName) ∧
         Updated met (set_data data met) ∈ s'.2) ∧
    ∃ snapshot, Parse data = Ok snapshot ∧
      (∀ n, MatchesNamespace snapshot n = true ↔ n ∈ configured_namespaces o) ∧
      (∀ a, Matches (ServiceAccounts snapshot) a = true ↔ a ∈ configured_accounts o) ∧
      Registries snapshot = {[ Key mock_registry := mock_registry ]} ∧ Runtime snapshot = zero_runtime
  end.
Proof.
  intros Hparse Hc Hy Hsub targets. unfold targets, configureTargets.
  destruct (target_data _ _) as [data|] eqn:Hdata; [|by eexists]. split.
  - eapply rg_mono; [|by apply modify_object_rg]. intros r s' Hr Hok. by destruct (Hr Hok) as [(? & _ & ? & _)|?].
  - by apply (configureTargets_effective args).
Qed.
End targets.

(** Scaling changes the replicas of the live Deployment and nothing else. *)
Theorem setDeploymentReplicas_sets {K : Type} `{!ApiServer DriverDeployment K} `{!ApiServerLaws (O := DriverDeployment) K}
    `{!SeenStable DriverDeployment K} `{RetryLaws} replicas (s : K * list (obj_event DriverDeployment)) :
  rg object_exec obj_rely (obj_guar (DefaultControllerNamespace, controllerDeployment) (set_replicas replicas))
    (setDeploymentReplicas replicas) s (λ r s', r = Ok tt →
      ∃ d, obj_key d = (DefaultControllerNamespace, controllerDeployment) ∧
        (dd_Replicas d = Some replicas ∧ Got d ∈ s'.2 ∨ Updated d (set_replicas replicas d) ∈ s'.2)).
Proof.
  eapply rg_mono; [|by apply modify_object_rg]. intros r s' Hr Hok.
  destruct (Hr Hok) as [(d & Hk & Hd & Hin)|(d & Hk & Hin)]; exists d; [|by auto].
  apply bool_decide_eq_true in Hd. by auto.
Qed.

(** ** Waiting for the Pods *)
Lemma pods_as_wanted_spec wantReady pods : pods_as_wanted wantReady pods = true ↔
  if wantReady : bool then ∃ pod, pods = [pod] ∧ podReady pod = true else pods = [].
Proof.
  unfold pods_as_wanted. destruct wantReady; cbn.
  - destruct pods as [|pod [|]]; split; try done; try (by intros (? & ? & _)); intros Hp; [by exists pod|].
    by destruct Hp as (? & [= ->] & ?).
  - rewrite orb_false_r, bool_decide_eq_true. split; [by destruct pods|by intros ->].
Qed.

Theorem waitForControllerPods_answers polls wantReady timeout l :
  wp stage_exec (waitForControllerPods polls wantReady timeout) l (λ r l', ∃ evs, l' = l ++ evs ∧
    (r = Some (Ok tt) → ∃ pods, last l' = Some (PodsListed pods) ∧ pods_as_wanted wantReady pods = true) ∧
    (r = None → ticks evs = polls)).
Proof.
  revert l. induction polls as [|polls IH]; intros l; cbn [waitForControllerPods].
  { exists []. by rewrite app_nil_r. }
  apply wp_stage_call; [intros e|intros pods]; cbn [stage_event_of].
  { exists []. rewrite app_nil_r. by split. }
  destruct (pods_as_wanted wantReady pods) eqn:Hp.
  { exists [PodsListed pods]. rewrite last_snoc. split; [done|]. split; [|done]. intros _. by exists pods. }
  cbn. intros tick ? ->. destruct tick as [e| |].
  - exists [PodsListed pods; Polled (CtxDone e)]. rewrite <-(assoc_L (++)). by split.
  - exists [PodsListed pods; Polled DeadlineReached]. rewrite <-(assoc_L (++)). by split.
  - eapply wp_mono; [|apply IH]. intros r l' (evs & -> & Hok & Hnone).
    exists (PodsListed pods :: Polled Ticked :: evs). split; [by rewrite <-!(assoc_L (++))|].
    split; [done|]. intros Hr. by rewrite <-(Hnone Hr).
Qed.

(** ** Examples *)
Module StagesExample.
#[local] Existing Instances dns1123 range_forward ParserExample.floats PerfOptionsExample.mock_yaml.
#[local] Instance errors : ApiErrors := {|
  IsAlreadyExists e := bool_decide (e = Failed "AlreadyExists");
  IsConflict e := bool_decide (e = Failed "Conflict")
|}.
#[local] Existing Instances five_attempts five_attempts_laws.

(** A cluster with one Namespace of the run, and an account outside it. *)
Definition secret : Secret :=
  MkSecret "n1" DefaultManagedSecretName "u" "1" None SecretTypeDockerConfigJson
    {[ DockerConfigJsonKey := to_bytes "{}" ]}
    (<[ApplicationNameLabelKey := ControllerIdentity]> {[ ManagedByLabelKey := ControllerIdentity ]}) ∅.
Definition account (ns name : string) : ServiceAccount := MkServiceAccount ns name "u" "1" false [DefaultManagedSecretName].
Definition accounts : list ServiceAccount := [account "n1" "default"; account "n2" "default"; account "n1" "workload"].
Definition cluster (shown : list ServiceAccount) (X : Type) (e : stageE X) (s : ()) : X * () :=
  match e in stageE X return X * () with
  | ListNamespaces _ => (Ok ["n1"], s)
  | ListManagedSecrets => (Ok [secret], s)
  | ListServiceAccounts _ => (Ok shown, s)
  | DeleteNamespace _ | DeleteManagedSecret _ => (Ok tt, s)
  | GetManagedSecretOf _ => (Ok secret, s)
  | GetAccount ns name => (Ok (account ns name), s)
  | ListPods => (Ok [], s)
  | PodLogs _ => (Ok [], s)
  | WriteLogFile _ => (Ok tt, s)
  | RunPool _ _ _ => (Ok tt, s)
  | Poll => (Ticked, s)
  end.
(** The account of another Namespace does not make up for a missing one. *)
Example missing_account :
  is_ok (interp (cluster [account "n1" "default"; account "n2" "default"]) (verifyFinalState ["n1"] "l=r") tt).1 = false.
Proof. vm_compute. reflexivity. Qed.

Lemma verifyFinalState_correct_witness : NoDup ["n1"] ∧ final_state ["n1"] [secret] accounts.
Proof.
  assert (NoDup ["n1"]) as Hns by apply NoDup_singleton. split; [exact Hns|].
  assert (∀ secrets, (cluster accounts _ ListManagedSecrets tt).1 = Ok secrets → NoDup (sec_Namespace <$> secrets)) as Hs
    by (intros ? [= <-]; apply NoDup_singleton).
  assert (∀ s l, (cluster accounts _ (ListServiceAccounts "l=r") s).1 = Ok l → NoDup (obj_key (O := ServiceAccount) <$> l))
    as Ha by (intros ? ? [= <-]; apply (bool_decide_unpack _); vm_compute; exact I).
  destruct (proj1 (verifyFinalState_correct (cluster accounts) ["n1"] "l=r" tt Hns Hs Ha)) as (? & ? & ? & Heq & Heq' & Hfinal).
  - vm_compute. reflexivity.
  - injection Heq as <- <-. injection Heq' as <-. exact Hfinal.
Defined.

Definition config_version (c : DriverConfigMap) (v : string) : DriverConfigMap :=
  MkDriverConfigMap (dc_Namespace c) (dc_Name c) (dc_UID c) v (dc_deleting c) (dc_Data c).
Definition KC : Type := list (History.entry (O := DriverConfigMap)).
#[local] Instance config_server : ApiServer DriverConfigMap KC := History.server config_version.
#[local] Instance config_laws : ApiServerLaws (O := DriverConfigMap) KC :=
  History.server_laws config_version (λ _ _, eq_refl) (λ _ _, eq_refl) (λ _ _, eq_refl) (λ _ _, eq_refl).
#[local] Instance config_stable : SeenStable DriverConfigMap KC := history_stable config_version.

Lemma configureTargets_installs_witness : ∃ data s,
  target_data (configured_namespaces PerfOptionsExample.options) (configured_accounts PerfOptionsExample.options) = Some data ∧
  Parse data = Ok s ∧ MatchesNamespace s "krsc-perf-bench-1-late" = true.
Proof.
  assert (cleanupOnly PerfOptionsExample.options = false) as Hc by reflexivity.
  assert (UnmarshalStrict mock_registries = Ok [mock_registry]) as Hy by (vm_compute; reflexivity).
  assert (Forall (λ n, IsDNS1123Subdomain n = []) ["registry.mock.example"; "default"; "workload"; "late-workload"])
    as Hs by (repeat constructor).
  pose proof (configureTargets_installs PerfOptionsExample.args PerfOptionsExample.options (([] : KC), [])
    PerfOptionsExample.parse_run Hc Hy Hs) as Hinst. cbv zeta in Hinst.
  destruct (target_data _ _) as [data|] eqn:Hdata; [|by vm_compute in Hdata].
  destruct Hinst as (_ & s & Hp & Hns & _). exists data, s. split; [done|]. split; [exact Hp|].
  apply Hns. apply (bool_decide_unpack _). vm_compute. exact I.
Defined.
End StagesExample.
