(* ===== verification/PerfPhase.v ===== *)
(** * Waiting for a phase and injecting a mutation (cmd/perf-driver)

    [waitForPhase] of main.go with the progress rows of tracker.go, and
    [runConcurrentMutation] of mutation.go: loops around a select, beside the
    observers that feed the tracker.  A loop has a number of rounds as fuel and
    answers [None] while it would go on. *)
From S2P Require Import Prelude Prog GoStrings Encoding Rfc3339 ConfigTypes Credential GoFloat GoDuration Kube KubeWrites.
From S2P Require Import RegistrySecret PerfOptions PerfProfile PerfCluster Tracker.
Local Open Scope Z_scope.

(** ** Progress rows *)
Definition progress_header : list string :=
  ["timestamp"; "elapsed_seconds"; "secrets_complete"; "secrets_total"; "serviceaccounts_complete";
   "serviceaccounts_total"; "unexpected_serviceaccount_updates"].
(** [strconv.FormatFloat(x, 'f', 3, 64)] and [Format] are the standard library's;
    the columns that count are decimal numbers. *)
Definition progress_counts (p : phaseProgress) : list string :=
  (λ n, Itoa (Z.of_nat n)) <$>
    [SecretsComplete p; SecretsTotal p; ServiceAccountsComplete p; ServiceAccountsTotal p; UnexpectedServiceAccounts p].

(** ** Waiting for a phase *)
Inductive phase_select :=
| PhaseDone | SampleTick | LogTick | ResourceTick | PhaseDeadline | PhaseCtxDone (err : string).

Inductive phaseE : Type → Type :=
| NewProgressRecorder : phaseE (result string ())
| Progress : phaseE phaseProgress
| WriteProgress (row : phaseProgress) : phaseE (result string ())
| SampleResources : phaseE ()
| SelectPhase : phaseE phase_select.

Definition writeProgress (context : string) (k : prog phaseE (option (result driver_error ()))) :
    prog phaseE (option (result driver_error ())) :=
  row ← call Progress;
  try (call (WriteProgress row)) (λ e, Ret (Some (Err (Refused (context +:+ ": " +:+ e))))) (λ _, k).

Fixpoint phase_loop (rounds : nat) (phase timeout : string) : prog phaseE (option (result driver_error ())) :=
  match rounds with
  | O => Ret None
  | S rounds =>
    chosen ← call SelectPhase;
    match chosen with
    | PhaseDone =>
      _ ← call SampleResources;
      writeProgress "record final progress" (_ ← call Progress; Ret (Some (Ok tt)))
    | SampleTick => writeProgress "record progress" (phase_loop rounds phase timeout)
    | LogTick => _ ← call Progress; phase_loop rounds phase timeout
    | ResourceTick => _ ← call SampleResources; phase_loop rounds phase timeout
    | PhaseDeadline => Ret (Some (Err (Refused ("phase " +:+ phase +:+ " did not converge within " +:+ timeout))))
    | PhaseCtxDone e => Ret (Some (Err (Refused e)))
    end
  end.
Definition waitForPhase (rounds : nat) (phase timeout : string) : prog phaseE (option (result driver_error ())) :=
  try (call NewProgressRecorder) (λ e, Ret (Some (Err (Refused e)))) (λ _,
  writeProgress "record initial progress" (phase_loop rounds phase timeout)).

(** ** Injecting a mutation *)
Inductive trigger_select := TriggerCtxDone (err : string) | TriggerPhaseDone | TriggerTick.
Inductive mutation_select := MutationDone | MutationCtxDone (err : string).

(** A mutation is the pointer that [startConcurrentMutation] returns.
    [RunGoroutines]: the goroutines are released and run beside each other to
    their ends, marking that mutation; the answer is what they send, in the order
    in which it is received. *)
Inductive mutationE : Type → Type :=
| Candidate : mutationE (phaseProgress * string * string * bool)
| SelectTrigger : mutationE trigger_select
| TriggerNow : mutationE Time
| StartMutation (percent : Z) (triggeredAt : Time) (complete total : nat)
    (existingNamespace lateServiceAccountName lateNamespace : string) (accounts : list string)
    (fingerprint : string) : mutationE nat
| RunGoroutines (mutation : nat) (goroutines : list driver_prog) : mutationE (list (result driver_error ()))
| SelectMutation (mutation : nat) : mutationE mutation_select
| MutationSummary (mutation : nat) : mutationE mutationSummary.

Definition too_late : string := "expiry refresh completed before concurrent resource injection".

(** [(progress.SecretsTotal*triggerPercent + 99) / 100] *)
Definition threshold (total : nat) (triggerPercent : Z) : Z := (Z.of_nat total * triggerPercent + 99) ÷ 100.

Fixpoint waitForMutationTrigger (rounds : nat) (triggerPercent : Z) :
    prog mutationE (option (result string (phaseProgress * string * string))) :=
  match rounds with
  | O => Ret None
  | S rounds =>
    '(progress, namespace, fingerprint, found) ← call Candidate;
    if found && (threshold (SecretsTotal progress) triggerPercent <=? Z.of_nat (SecretsComplete progress)) then
      if (SecretsTotal progress <=? SecretsComplete progress)%nat then Ret (Some (Err too_late))
      else Ret (Some (Ok (progress, namespace, fingerprint)))
    else
      chosen ← call SelectTrigger;
      match chosen with
      | TriggerCtxDone e => Ret (Some (Err e))
      | TriggerPhaseDone => Ret (Some (Err too_late))
      | TriggerTick => waitForMutationTrigger rounds triggerPercent
      end
  end.

Definition with_outcome (success : bool) (error : string) (s : mutationSummary) : mutationSummary :=
  MkMutationSummary (NamespaceOnly s) (ms_TriggerPercent s) (ms_TriggeredAt s) (ms_SecretsCompleteAtTrigger s)
    (ms_SecretsTotalAtTrigger s) (ms_ExistingNamespace s) (ExpectedCredentialFingerprint s) (LateServiceAccount s)
    (LateNamespace s) success error.
Definition zero_resource_summary : mutationResourceSummary := MkResourceSummary "" "" ZeroTime ZeroTime ZeroTime zero_float.
Definition zero_namespace_summary : mutationNamespaceSummary :=
  MkNamespaceSummary "" ZeroTime ZeroTime ZeroTime ZeroTime ZeroTime ZeroTime zero_float zero_float zero_float zero_float
    "" 0 0 0.
Definition untriggered (triggerPercent : Z) (error : string) : mutationSummary :=
  MkMutationSummary false triggerPercent ZeroTime 0 0 "" "" zero_resource_summary zero_namespace_summary false error.

(** The text of an error, and of [errors.Join]. *)
Class ErrorText := error_text : driver_error → string.

Section mutation.
Context `{ErrorText} `{ApiErrors} `{Retry}.

(** [errors.Join(creationErr, <-creationErrors)] *)
Definition join_error (err : option string) (r : result driver_error ()) : option string :=
  match err, r with
  | _, Ok _ => err
  | None, Err e => Some (error_text e)
  | Some text, Err e => Some (text +:+ newline +:+ error_text e)
  end.

Definition create_late (runID : string) (mutation : nat) (existingNamespace : string) (namespaceOnly : bool) :
    prog mutationE (option string) :=
  let account := createLateServiceAccount runID existingNamespace serviceAccountLate in
  let namespace := createLateNamespace runID (concurrentNamespaceName runID) in
  results ← call (RunGoroutines mutation (if namespaceOnly then [namespace] else [account; namespace]));
  Ret (foldl join_error None results).

Definition await_mutation (mutation : nat) (timeout : string) : prog mutationE (mutationSummary * option string) :=
  chosen ← call (SelectMutation mutation);
  summary ← call (MutationSummary mutation);
  match chosen with
  | MutationDone =>
    let stale := StaleCredentialFingerprints (LateNamespace summary) in
    if negb (bool_decide (stale = 0%nat)) then
      let e := "injected Namespace exposed " +:+ Itoa (Z.of_nat stale)
        +:+ " stale credential fingerprint(s) before the current generation" in
      Ret (with_outcome (Success summary) e summary, Some e)
    else Ret (with_outcome true (Error summary) summary, None)
  | MutationCtxDone err =>
    let e := "injected resources did not become usable within " +:+ timeout +:+ ": " +:+ err in
    Ret (with_outcome (Success summary) e summary, Some e)
  end.

Definition runConcurrentMutation (rounds : nat) (runID : string) (triggerPercent : Z) (timeout : string)
    (namespaceOnly : bool) : prog mutationE (option (mutationSummary * option string)) :=
  trigger ← waitForMutationTrigger rounds triggerPercent;
  match trigger with
  | None => Ret None
  | Some (Err e) => Ret (Some (untriggered triggerPercent e, Some e))
  | Some (Ok (progress, existingNamespace, fingerprint)) =>
    triggeredAt ← call TriggerNow;
    mutation ← call (StartMutation triggerPercent triggeredAt (SecretsComplete progress) (SecretsTotal progress)
          (if namespaceOnly then "" else existingNamespace) (if namespaceOnly then "" else serviceAccountLate)
          (concurrentNamespaceName runID) targetServiceAccounts fingerprint);
    creationErr ← create_late runID mutation existingNamespace namespaceOnly;
    match creationErr with
    | Some e =>
      summary ← call (MutationSummary mutation);
      Ret (Some (with_outcome (Success summary) e summary, Some e))
    | None => outcome ← await_mutation mutation timeout; Ret (Some outcome)
    end
  end.
End mutation.
