(* ===== verification/PerfPhaseCorrect.v ===== *)
(** * Correctness of the waiting loops of a run

    [waitForPhase] beside observers that go on feeding the tracker, and
    [runConcurrentMutation] under any answers. *)
From S2P Require Import Prelude Prog GoStrings Encoding Rfc3339 ConfigTypes Credential GoFloat GoDuration Kube KubeWrites.
From S2P Require Import RegistrySecret SecretSyncer ServiceAccount Controller PerfOptions PerfCluster Tracker TrackerCorrect TrackerMutation PerfPhase.
Local Open Scope Z_scope.

(** ** Waiting for a phase *)
Section wait.
Context (k : phaseKind) (t : convergenceTracker) (started : Time).
Context (targets : targetNamespaces t ≠ ∅).
Let p : nat := (start k started t).1.
Let t0 : convergenceTracker := (start k started t).2.

(** What the observers saw, the rows of the progress file, and what the select chose. *)
Record wait_state := MkWait { observed : list observation; rows : list phaseProgress; selected : list phase_select }.
Definition phase_at (ops : list observation) (phase : trackedPhase) : Prop :=
  phases (foldl observe t0 ops) !! p = Some phase.

(** Before a call the observers may see more; the select takes the phase's branch
    only when its channel is closed. *)
Definition wait_exec (X : Type) (e : phaseE X) (s : wait_state) : X → wait_state → Prop :=
  match e in phaseE X return X → wait_state → Prop with
  | NewProgressRecorder | SampleResources => λ _ s', ∃ more, s' = MkWait (observed s ++ more) (rows s) (selected s)
  | Progress => λ x s', ∃ more now phase, s' = MkWait (observed s ++ more) (rows s) (selected s) ∧
      phase_at (observed s ++ more) phase ∧ x = progress phase now
  | WriteProgress row => λ r s', ∃ more, s' = MkWait (observed s ++ more) (rows s ++ if is_ok r then [row] else []) (selected s)
  | SelectPhase => λ x s', ∃ more phase, s' = MkWait (observed s ++ more) (rows s) (selected s ++ [x]) ∧
      phase_at (observed s ++ more) phase ∧ (x = PhaseDone → done phase ≠ 0%nat)
  end.

Lemma phase_at_records ops phase : phase_at ops phase → phase_fields k t started ops phase ∧ completion_recorded k t started ops phase.
Proof.
  pose proof (phase_records k t started ops targets) as Hr. unfold phase_at, p, t0.
  destruct (start k started t) as [q tr]. destruct Hr as (_ & _ & phase' & Hq & Hf & Hc). cbn. rewrite Hq. by intros [= <-].
Qed.

Lemma firsts_size_mono {A} (f : observation → option (string * A)) ops more :
  (size (firsts (omap f ops)) ≤ size (firsts (omap f (ops ++ more))))%nat.
Proof.
  rewrite <-!size_dom. apply subseteq_size. unfold firsts. rewrite omap_app, list_to_map_app, dom_union. set_solver.
Qed.

Definition secrets_seen (ops : list observation) : nat := size (firsts (omap (secret_event k t started) ops)).
Definition accounts_seen (ops : list observation) : nat := size (firsts (omap (account_event k t started) ops)).
Definition accounts_total : nat := if bool_decide (k = expiryPhase) then 0 else size (targetAccounts t).

(** A row of progress taken after [ops]. *)
Definition row_of (ops : list observation) (row : phaseProgress) : Prop :=
  SecretsComplete row = secrets_seen ops ∧ ServiceAccountsComplete row = accounts_seen ops ∧
  SecretsTotal row = size (targetNamespaces t) ∧ ServiceAccountsTotal row = accounts_total ∧
  (phase_complete k t started ops → SecretsComplete row = SecretsTotal row ∧
     ServiceAccountsComplete row = ServiceAccountsTotal row ∧
     ∃ at_, completed_at k t started ops at_ ∧ (at_ ≠ ZeroTime → Elapsed row = time_Sub at_ started)).

Lemma account_event_expiry ops : k = expiryPhase → omap (account_event k t started) ops = [].
Proof.
  intros ->. induction ops as [|o ops IH]; [done|]. cbn. rewrite IH. unfold account_event, target_account.
  destruct o as [|[a|] at_]; cbn; [done| |done]. by destruct (_ && _).
Qed.

Lemma progress_row ops phase now : phase_at ops phase → row_of ops (progress phase now).
Proof.
  intros [[_ Hstart [Hs Ha] Hsecrets _ Haccounts _] Hc]%phase_at_records. unfold row_of, secrets_seen, accounts_seen, accounts_total.
  cbn. rewrite Hs, Ha, Hsecrets, Haccounts, !map_size_fmap. do 4 (split; [done|]). intros Hcomplete.
  unfold completion_recorded in Hc. rewrite bool_decide_true in Hc by done. destruct Hc as (_ & _ & Hat).
  destruct Hcomplete as [Hd Hda]. rewrite <-Hd, size_dom. split; [done|]. split.
  - case_bool_decide as Hk; [by rewrite account_event_expiry|]. rewrite <-Hda, size_dom; [done|]. by destruct k.
  - exists (completedAt phase). split; [done|]. intros Hz. unfold elapsed, time_IsZero. by rewrite bool_decide_false, Hstart.
Qed.

Record wait_inv (s : wait_state) : Prop := {
  wi_secrets : StronglySorted le (SecretsComplete <$> rows s);
  wi_accounts : StronglySorted le (ServiceAccountsComplete <$> rows s);
  wi_rows : Forall (λ row, SecretsTotal row = size (targetNamespaces t) ∧ ServiceAccountsTotal row = accounts_total ∧
    (SecretsComplete row ≤ secrets_seen (observed s))%nat ∧ (ServiceAccountsComplete row ≤ accounts_seen (observed s))%nat) (rows s)
}.
Lemma wait_inv_more s more sel : wait_inv s → wait_inv (MkWait (observed s ++ more) (rows s) sel).
Proof.
  intros [Hs Ha Hr]. split; [done..|]. eapply Forall_impl; [exact Hr|]. cbn. intros row (? & ? & ? & ?).
  pose proof (firsts_size_mono (secret_event k t started) (observed s) more).
  pose proof (firsts_size_mono (account_event k t started) (observed s) more). unfold secrets_seen, accounts_seen in *. lia.
Qed.
Lemma sorted_snoc (l : list nat) x : StronglySorted le l → Forall (λ y, y ≤ x)%nat l → StronglySorted le (l ++ [x]).
Proof.
  induction 1 as [|y l Hl IH Hy]; intros Hx; [repeat constructor|]. apply Forall_cons in Hx as [? ?].
  constructor; [by apply IH|]. apply Forall_app. split; [done|by repeat constructor].
Qed.
Lemma wait_inv_row s row more sel : wait_inv s → row_of (observed s) row →
  wait_inv (MkWait (observed s ++ more) (rows s ++ [row]) sel).
Proof.
  intros [Hs Ha Hr] (Hrow1 & Hrow2 & Hrow3 & Hrow4 & _).
  assert (Forall (λ r, SecretsComplete r ≤ SecretsComplete row ∧ ServiceAccountsComplete r ≤ ServiceAccountsComplete row)%nat
    (rows s)) as Hle by (eapply Forall_impl; [exact Hr|]; cbn; intros r; rewrite Hrow1, Hrow2; tauto).
  apply (wait_inv_more (MkWait (observed s) (rows s ++ [row]) sel) more). split; cbn [observed rows].
  - rewrite fmap_app. apply sorted_snoc; [done|]. apply Forall_fmap. eapply Forall_impl; [exact Hle|]. cbn. tauto.
  - rewrite fmap_app. apply sorted_snoc; [done|]. apply Forall_fmap. eapply Forall_impl; [exact Hle|]. cbn. tauto.
  - apply Forall_app. split; [done|]. rewrite <-Hrow1, <-Hrow2. by repeat constructor.
Qed.

(** The last row was taken when [ops] had been seen. *)
Definition row_written (ops : list observation) (s : wait_state) : Prop :=
  ∃ row more, last (rows s) = Some row ∧ row_of (ops ++ more) row ∧ ops ++ more `prefix_of` observed s.

Lemma writeProgress_wp context kont s Φ : wait_inv s →
  (∀ e s', wait_inv s' → Φ (Some (Err e)) s') →
  (∀ s', wait_inv s' → selected s' = selected s → row_written (observed s) s' → wp wait_exec kont s' Φ) →
  wp wait_exec (writeProgress context kont) s Φ.
Proof.
  intros Hs Herr Hk. unfold writeProgress. cbn. intros row s1 (more & now & phase & -> & Hphase & ->).
  apply progress_row with (now := now) in Hphase. intros r s2 (more' & ->). cbn.
  pose proof (wait_inv_more s more (selected s) Hs) as Hs1. destruct r as [[]|e]; cbn [is_ok].
  - apply Hk; [by apply (wait_inv_row _ _ more' (selected s) Hs1)|done|]. exists (progress phase now), more. cbn.
    rewrite last_snoc. split; [done|]. split; [done|]. by eexists.
  - apply Herr. cbn. rewrite app_nil_r. by apply (wait_inv_more _ more' (selected s) Hs1).
Qed.

(** What the loop leaves: rows that only grow and stay within the totals; after a
    success the phase is complete, and the last row says so with its duration; and
    it goes on only while the select chooses ticks. *)
Definition ticking (c : phase_select) : bool :=
  match c with SampleTick | LogTick | ResourceTick => true | _ => false end.
Definition waited (rounds : nat) (before : list phase_select) (r : option (result driver_error ())) (s : wait_state) : Prop :=
  wait_inv s ∧
  (r = Some (Ok tt) → phase_complete k t started (observed s) ∧ ∃ row at_, last (rows s) = Some row ∧
     SecretsComplete row = SecretsTotal row ∧ ServiceAccountsComplete row = ServiceAccountsTotal row ∧
     completed_at k t started (observed s) at_ ∧ (at_ ≠ ZeroTime → Elapsed row = time_Sub at_ started)) ∧
  (r = None → ∃ chosen, selected s = before ++ chosen ∧ length chosen = rounds ∧ Forall (λ c, ticking c = true) chosen).

Lemma complete_prefix ops more : phase_complete k t started ops → phase_complete k t started (ops ++ more).
Proof.
  intros Hc. induction more as [|o more IH] using rev_ind; [by rewrite app_nil_r|].
  rewrite (assoc_L (++)). by apply complete_mono.
Qed.
Lemma completed_at_prefix ops more at_ : completed_at k t started ops at_ → completed_at k t started (ops ++ more) at_.
Proof.
  intros (pre & o & post & -> & ? & ? & ?). exists pre, o, (post ++ more). by rewrite <-(assoc_L (++)).
Qed.

Lemma done_complete ops phase : phase_at ops phase → done phase ≠ 0%nat → phase_complete k t started ops.
Proof.
  intros [_ Hc]%phase_at_records Hd. unfold completion_recorded in Hc. case_bool_decide as Hcomplete; [done|]. tauto.
Qed.

Lemma phase_loop_wp rounds phase timeout s : wait_inv s →
  wp wait_exec (phase_loop rounds phase timeout) s (waited rounds (selected s)).
Proof.
  revert s. induction rounds as [|rounds IH]; intros s Hs; cbn [phase_loop].
  { split; [done|]. split; [done|]. intros _. exists []. by rewrite app_nil_r. }
  assert (∀ e s', wait_inv s' → waited (S rounds) (selected s) (Some (Err e)) s') as Herr by (by split).
  cbn [mbind prog_bind prog_bind_def call wp]. intros c s1 (more & ph & -> & Hph & Hdone).
  pose proof (wait_inv_more s more (selected s ++ [c]) Hs) as Hs1.
  set (s1 := MkWait _ _ _) in *.
  assert (∀ s', wait_inv s' → selected s' = selected s1 → ticking c = true →
    wp wait_exec (phase_loop rounds phase timeout) s' (waited (S rounds) (selected s))) as Hgo.
  { intros s' Hs' Hsel Hc. eapply wp_mono; [|by apply IH]. intros r s2 (Hi & Hok & Hnone). split; [done|]. split; [done|].
    intros Hr. destruct (Hnone Hr) as (chosen & Hsel2 & Hlen & Hall). exists (c :: chosen). rewrite Hsel2, Hsel. cbn.
    rewrite <-(assoc_L (++)). split; [done|]. split; [by rewrite Hlen|by constructor]. }
  destruct c as [| | | | |e].
  - cbn [mbind prog_bind prog_bind_def call wp]. intros [] s2 (more2 & ->).
    apply writeProgress_wp; [by apply wait_inv_more|exact Herr|].
    intros s3 Hs3 Hsel3 (row & more3 & Hlast & Hrow & (rest & Hobs)).
    cbn [mbind prog_bind prog_bind_def call wp]. intros pr s4 (more4 & now & ph4 & -> & _ & _). cbn [observed s1] in Hobs, Hrow.
    assert (phase_complete k t started (((observed s ++ more) ++ more2) ++ more3)) as Hc.
    { rewrite <-(assoc_L (++) (observed s ++ more)). apply complete_prefix, (done_complete _ ph); [done|by apply Hdone]. }
    destruct Hrow as (_ & _ & _ & _ & Hfull). destruct (Hfull Hc) as (Hsec & Hacc & at_ & Hat & Hel).
    split; [by apply wait_inv_more|]. split; [|done]. intros _. cbn [observed rows]. rewrite Hobs. split; [by do 2 apply complete_prefix|].
    exists row, at_. split; [done|]. split; [done|]. split; [done|]. split; [by do 2 apply completed_at_prefix|done].
  - apply writeProgress_wp; [done|exact Herr|]. intros s2 Hs2 Hsel _. by apply Hgo.
  - cbn [mbind prog_bind prog_bind_def call wp]. intros pr s2 (more2 & now & ph2 & -> & _ & _). apply Hgo; [by apply wait_inv_more|done..].
  - cbn [mbind prog_bind prog_bind_def call wp]. intros [] s2 (more2 & ->). apply Hgo; [by apply wait_inv_more|done..].
  - by apply Herr.
  - by apply Herr.
Qed.

(** C31.  Waiting for a phase, while the observers go on feeding the tracker: the rows
    of the progress file only grow and never pass the totals, however the wait
    ends; it answers success only when every target of the phase has converged,
    and then the last row is complete and carries the time from the start to the
    observation that completed the phase.  It goes on only as long as the select
    chooses ticks: the end of the phase, the deadline and the end of the context
    each end it. *)
Theorem waitForPhase_correct rounds phase timeout ops :
  wp wait_exec (waitForPhase rounds phase timeout) (MkWait ops [] []) (waited rounds []).
Proof.
  assert (wait_inv (MkWait ops [] [])) as H0 by (split; constructor).
  unfold waitForPhase. cbn [try mbind prog_bind prog_bind_def call wp]. intros r s1 (more & ->). cbn.
  pose proof (wait_inv_more _ more [] H0) as H1. destruct r as [[]|e]; [|by split].
  apply writeProgress_wp; [done|by split|]. intros s2 H2 Hsel _. rewrite <-(eq_refl : selected (MkWait (ops ++ more) [] []) = []).
  rewrite <-Hsel. by apply phase_loop_wp.
Qed.
End wait.

(** ** Injecting a mutation

    The refresh is a phase of the tracker; the observers go on feeding it beside
    the injection.  Its history, since the phase started, is a list of operations
    of the tracker. *)
Section mutation.
Context `{ErrorText} `{RangeOrder} `{ApiErrors} `{Retry}.
Context (t : convergenceTracker) (started : Time) (targets : targetNamespaces t ≠ ∅).
Let p : nat := (start expiryPhase started t).1.
Let t0 : convergenceTracker := (start expiryPhase started t).2.

Inductive injection_event :=
| Waited (c : trigger_select)
| Received (results : list (result driver_error ()))
| Chosen (c : mutation_select).
Record injection_state := MkInjection { ops : list tracker_op; events : list injection_event }.
Definition tracker_at (l : list tracker_op) : convergenceTracker := foldl run_op t0 l.

(** The observers see more; readings of the clock are not the zero time. *)
Definition timely (obs : list observation) : Prop := Forall (λ o, seen_at o ≠ ZeroTime) obs.
Definition observing (l l' : list tracker_op) : Prop := ∃ obs, timely obs ∧ l' = l ++ (Observed <$> obs).

(** A goroutine that creates late resources: any answers of the API, and marks of
    its own mutation. *)
Definition tracker_mark (k : late_mark) : mark :=
  match k with
  | LateServiceAccountRequestStarted => AccountRequested
  | LateServiceAccountCreated => AccountCreated
  | LateNamespaceRequestStarted => NamespaceRequested
  | LateNamespaceCreated => NamespaceCreated
  | LateNamespacePrerequisitesReady => PrerequisitesReady
  end.
Definition late_exec (m : nat) (X : Type) (e : driverE X) (l : list tracker_op) : X → list tracker_op → Prop :=
  match e in driverE X return X → list tracker_op → Prop with
  | Mark k => λ _ l', ∃ at_, at_ ≠ ZeroTime ∧ l' = l ++ [TrackerMutation.Marked (tracker_mark k) m at_]
  | _ => λ _ l', l' = l
  end.

(** Before a call the observers may see more.  A select takes the branch of a
    channel only when it is closed; goroutines interleave call by call with each
    other and with the observers. *)
Definition mutation_exec (X : Type) (e : mutationE X) (s : injection_state) : X → injection_state → Prop :=
  match e in mutationE X return X → injection_state → Prop with
  | Candidate => λ x s', observing (ops s) (ops s') ∧ events s' = events s ∧
      ∃ phase now, phases (tracker_at (ops s')) !! p = Some phase ∧ x = mutationTriggerCandidate phase now
  | SelectTrigger => λ c s', observing (ops s) (ops s') ∧ events s' = events s ++ [Waited c] ∧
      (c = TriggerPhaseDone → ∃ phase, phases (tracker_at (ops s')) !! p = Some phase ∧ done phase ≠ 0%nat)
  | TriggerNow => λ _ s', observing (ops s) (ops s') ∧ events s' = events s
  | StartMutation percent at_ complete total existing account late accounts fingerprint => λ m s', ∃ l,
      observing (ops s) l ∧ events s' = events s ∧
      ops s' = l ++ [MutationStarted percent at_ complete total existing account late accounts fingerprint] ∧
      m = (startConcurrentMutation percent at_ complete total existing account late accounts fingerprint (tracker_at l)).1
  | RunGoroutines m goroutines => λ results s', ∃ answers,
      rtc (pool_step (late_exec m) observing) (ops s, goroutines) (ops s', Ret <$> answers) ∧
      results ≡ₚ answers ∧ events s' = events s ++ [Received results]
  | SelectMutation m => λ c s', observing (ops s) (ops s') ∧ events s' = events s ++ [Chosen c] ∧
      (c = MutationDone → ∃ mu, mutations (tracker_at (ops s')) !! m = Some mu ∧ mutation_done mu ≠ 0%nat)
  | MutationSummary m => λ x s', observing (ops s) (ops s') ∧ events s' = events s ∧
      ∃ mu, mutations (tracker_at (ops s')) !! m = Some mu ∧ x = concurrentMutationSummary mu
  end.

Lemma threshold_spec total percent complete : 0 ≤ percent →
  threshold total percent ≤ Z.of_nat complete ↔ Z.of_nat total * percent ≤ 100 * Z.of_nat complete.
Proof.
  intros Hp. unfold threshold. rewrite Z.quot_div_nonneg by nia. split.
  - intros Hle. pose proof (Z.mod_pos_bound (Z.of_nat total * percent + 99) 100 ltac:(lia)).
    pose proof (Z.div_mod (Z.of_nat total * percent + 99) 100 ltac:(lia)). lia.
  - intros Hle. assert (Z.of_nat total * percent + 99 < 100 * (Z.of_nat complete + 1)) by lia.
    apply Z.lt_succ_r, Z.div_lt_upper_bound; lia.
Qed.

(** The refresh is at the trigger, and not over. *)
Definition triggered (percent : Z) (complete total : nat) : Prop :=
  Z.of_nat total * percent ≤ 100 * Z.of_nat complete ∧ (complete < total)%nat.

(** *** Until the trigger *)
Abbreviation seen_refreshed := (secrets_seen expiryPhase t started).
Abbreviation refresh_complete := (phase_complete expiryPhase t started).
(** The first Secret seen in the Namespace that differs from its baseline. *)
Definition refreshed (obs : list observation) (ns fingerprint : string) : Prop :=
  ∃ at_, firsts (omap (secret_event expiryPhase t started) obs) !! ns = Some (fingerprint, at_).

Lemma tracker_at_observed obs : tracker_at (Observed <$> obs) = foldl observe t0 obs.
Proof. unfold tracker_at. generalize t0. induction obs as [|o obs IH]; intros tr; [done|]. apply IH. Qed.
Lemma observing_observed obs l : timely obs → observing (Observed <$> obs) l →
  ∃ more, l = Observed <$> (obs ++ more) ∧ timely (obs ++ more).
Proof. intros Hobs (more & Hm & ->). exists more. rewrite fmap_app. split; [done|]. by apply Forall_app. Qed.

Lemma candidate_spec obs phase now progress ns fp :
  phases (tracker_at (Observed <$> obs)) !! p = Some phase →
  mutationTriggerCandidate phase now = (progress, ns, fp, true) →
  SecretsComplete progress = seen_refreshed obs ∧ SecretsTotal progress = size (targetNamespaces t) ∧ refreshed obs ns fp.
Proof.
  rewrite tracker_at_observed. intros [Hf _]%(phase_at_records expiryPhase t started targets).
  destruct Hf as [_ _ [Htotal _] Hs Hfp _ _]. unfold mutationTriggerCandidate.
  set (least := foldl _ _ _). case_bool_decide; [done|].
  destruct (secretFingerprints phase !! least) as [fp'|] eqn:Hl; [|done]. intros [= <- <- <-].
  cbn [SecretsComplete SecretsTotal]. rewrite Hs, map_size_fmap. split; [done|]. split; [done|].
  rewrite Hfp, lookup_fmap in Hl. destruct (firsts _ !! least) as [[fp2 at_]|] eqn:Hfirst; [|done].
  injection Hl as <-. by exists at_.
Qed.

Lemma all_refreshed obs : (size (targetNamespaces t) ≤ seen_refreshed obs)%nat → refresh_complete obs.
Proof.
  intros Hle. split; [|done].
  assert (dom (firsts (omap (secret_event expiryPhase t started) obs)) ⊆ targetNamespaces t) as Hsub
    by (apply firsts_dom; intros ???; apply secret_event_target).
  apply full_size; [done|]. apply subseteq_size in Hsub. rewrite size_dom in Hsub. unfold secrets_seen in *. lia.
Qed.

Lemma waitForMutationTrigger_wp rounds percent obs evs : 0 ≤ percent → timely obs →
  wp mutation_exec (waitForMutationTrigger rounds percent) (MkInjection (Observed <$> obs) evs) (λ r s', ∃ obs' ticks,
    s' = MkInjection (Observed <$> obs') (evs ++ (Waited <$> ticks)) ∧ timely obs' ∧
    match r with
    | None => ticks = replicate rounds TriggerTick
    | Some (Ok (progress, ns, fp)) =>
      SecretsComplete progress = seen_refreshed obs' ∧ SecretsTotal progress = size (targetNamespaces t) ∧
      triggered percent (SecretsComplete progress) (SecretsTotal progress) ∧ refreshed obs' ns fp
    | Some (Err e) => e = too_late ∧ refresh_complete obs' ∨ last ticks = Some (TriggerCtxDone e)
    end).
Proof.
  intros Hp. revert obs evs. induction rounds as [|rounds IH]; intros obs evs Hobs; cbn [waitForMutationTrigger].
  { exists obs, []. by rewrite app_nil_r. }
  cbn [mbind prog_bind prog_bind_def call wp ops events mutation_exec].
  intros [[[progress ns] fp] found] [l1 evs1] (Hl1 & Hevs1 & phase & now & Hphase & Hx). cbn [ops events] in *. subst evs1.
  destruct (observing_observed _ _ Hobs Hl1) as (more & -> & Hobs1).
  assert (found = true → SecretsComplete progress = seen_refreshed (obs ++ more) ∧
    SecretsTotal progress = size (targetNamespaces t) ∧ refreshed (obs ++ more) ns fp) as Hcand
    by (intros ->; by eapply candidate_spec).
  clear Hx Hl1 Hphase. revert Hobs1 Hcand. generalize (obs ++ more). clear obs Hobs more. intros obs Hobs Hcand.
  assert (wp mutation_exec (chosen ← call SelectTrigger;
      match chosen with
      | TriggerCtxDone e => Ret (Some (Err e))
      | TriggerPhaseDone => Ret (Some (Err too_late))
      | TriggerTick => waitForMutationTrigger rounds percent
      end) (MkInjection (Observed <$> obs) evs) (λ r s', ∃ obs' ticks,
    s' = MkInjection (Observed <$> obs') (evs ++ (Waited <$> ticks)) ∧ timely obs' ∧
    match r with
    | None => ticks = replicate (S rounds) TriggerTick
    | Some (Ok (progress, ns, fp)) =>
      SecretsComplete progress = seen_refreshed obs' ∧ SecretsTotal progress = size (targetNamespaces t) ∧
      triggered percent (SecretsComplete progress) (SecretsTotal progress) ∧ refreshed obs' ns fp
    | Some (Err e) => e = too_late ∧ refresh_complete obs' ∨ last ticks = Some (TriggerCtxDone e)
    end)) as Hselect.
  { cbn [mbind prog_bind prog_bind_def call wp ops events mutation_exec].
    intros c [l2 evs2] (Hl2 & Hevs2 & Hdone). cbn [ops events] in *. subst evs2.
    destruct (observing_observed _ _ Hobs Hl2) as (more2 & -> & Hobs2). destruct c as [e| |].
    - exists (obs ++ more2), [TriggerCtxDone e]. split; [done|]. split; [done|by right].
    - exists (obs ++ more2), [TriggerPhaseDone]. split; [done|]. split; [done|left]. split; [done|].
      destruct (Hdone eq_refl) as (phase2 & Hphase2 & Hd2). rewrite tracker_at_observed in Hphase2.
      by apply (done_complete expiryPhase t started targets _ phase2).
    - eapply wp_mono; [|by apply IH]. intros r s' (obs' & ticks & -> & Hobs' & Hr).
      exists obs', (TriggerTick :: ticks). split; [cbn; by rewrite <-(assoc_L (++))|]. split; [done|].
      destruct r as [[[[progress' ns'] fp']|e]|]; [done| |by rewrite Hr].
      destruct Hr as [Hr|Hr]; [by left|right]. destruct ticks; [done|]. by rewrite last_cons_cons. }
  destruct found; cbn [andb]; [|done]. destruct (threshold _ _ <=? _) eqn:Ht; [|done].
  destruct (Hcand eq_refl) as (Hc & Hn & Href). destruct (_ <=? _)%nat eqn:Hle.
  - exists obs, []. rewrite app_nil_r. split; [done|]. split; [done|left]. split; [done|].
    apply all_refreshed. apply Nat.leb_le in Hle. by rewrite Hc, Hn in Hle.
  - exists obs, []. rewrite app_nil_r. split; [done|]. split; [done|]. split; [done|]. split; [done|].
    split; [|done]. split; [apply threshold_spec; [done|by apply Z.leb_le]|by apply Nat.leb_gt].
Qed.

(** *** The injection *)
Definition planned (percent : Z) (at_ : Time) (complete total : nat) (existing account late : string)
    (accounts : list string) (fp : string) : trackedConcurrentMutation :=
  MkMutation percent at_ complete total existing fp account late (list_to_set accounts)
    ZeroTime ZeroTime ZeroTime ZeroTime ZeroTime ZeroTime ZeroTime "" ∅ ∅ 0 false.
Lemma observed_ok obs : timely obs → Forall op_ok (Observed <$> obs).
Proof. intros Hobs. by apply Forall_fmap. Qed.
Lemma observing_ok l l' : observing l l' → ∃ more, l' = l ++ more ∧ Forall op_ok more.
Proof. intros (obs & Hobs & ->). exists (Observed <$> obs). split; [done|]. by apply observed_ok. Qed.

(** The goroutines only append marks, and the observers observations. *)
Lemma late_pool_ops m l ts l' ts' : rtc (pool_step (A := result driver_error ()) (late_exec m) observing) (l, ts) (l', ts') →
  (∃ more, l' = l ++ more ∧ Forall op_ok more) ∧ length ts' = length ts.
Proof.
  intros Hrun. remember (l, ts) as a eqn:Ha. remember (l', ts') as b eqn:Hb. revert l ts Ha Hb.
  induction Hrun as [a|a c b Hstep Hrun IH]; intros l ts -> Hb.
  - injection Hb as <- <-. split; [exists []; by rewrite app_nil_r|done].
  - assert (∃ l1 ts1, c = (l1, ts1) ∧ (∃ more, l1 = l ++ more ∧ Forall op_ok more) ∧ length ts1 = length ts)
      as (l1 & ts1 & -> & (more & -> & Hmore) & Hlen).
    { inversion Hstep as [i X e k s x s' ts0 Hi He|s s' ts0 Henv]; subst.
      - eexists _, _. split; [done|]. rewrite length_insert. split; [|done].
        destruct e as [X e|X e|X e|k0]; cbn in He; [exists []; by rewrite app_nil_r..|].
        destruct He as (at_ & Hat & ->). eexists. split; [done|]. by constructor.
      - eexists _, _. split; [done|]. split; [by apply observing_ok|done]. }
    destruct (IH _ _ eq_refl Hb) as ((more2 & -> & Hmore2) & ->). split; [|done].
    exists (more ++ more2). rewrite (assoc_L (++)). split; [done|]. by apply Forall_app.
Qed.

(** The history [l] of an injection: what was [seen] when the trigger was read,
    what was seen [later] until the mutation [m] started as [m0], and what
    happened [after] that. *)
Definition injected (percent : Z) (runID : string) (namespaceOnly : bool) (l : list tracker_op) (m : nat)
    (m0 : trackedConcurrentMutation) (after : list tracker_op) : Prop :=
  ∃ seen later at_ ns fp,
    let complete := seen_refreshed seen in
    let total := size (targetNamespaces t) in
    let existing := if namespaceOnly then "" else ns in
    let account := if namespaceOnly then "" else serviceAccountLate in
    let late := concurrentNamespaceName runID in
    l = (Observed <$> seen ++ later)
        ++ MutationStarted percent at_ complete total existing account late targetServiceAccounts fp :: after ∧
    m0 = planned percent at_ complete total existing account late targetServiceAccounts fp ∧
    m = length (mutations (tracker_at (Observed <$> seen ++ later))) ∧
    triggered percent complete total ∧ refreshed seen ns fp ∧ Forall op_ok after.

Lemma injected_more percent runID namespaceOnly l m m0 after more : Forall op_ok more →
  injected percent runID namespaceOnly l m m0 after → injected percent runID namespaceOnly (l ++ more) m m0 (after ++ more).
Proof.
  intros Hmore (seen & later & at_ & ns & fp & -> & Hm0 & Hm & Ht & Hr & Ha). exists seen, later, at_, ns, fp. cbv zeta.
  rewrite <-(assoc_L (++)). do 5 (split; [done|]). by apply Forall_app.
Qed.

(** What the tracker records of the mutation is what happened since it started. *)
Lemma injected_records percent runID namespaceOnly l m m0 after mu :
  injected percent runID namespaceOnly l m m0 after → mutations (tracker_at l) !! m = Some mu →
  mutation_records m m0 after mu ∧ (mutation_done mu ≠ 0%nat → plan_fulfilled m m0 after).
Proof.
  intros (seen & later & at_ & ns & fp & -> & -> & -> & _ & _ & Hok) Hmu.
  unfold tracker_at in Hmu. rewrite foldl_app in Hmu. fold (tracker_at (Observed <$> seen ++ later)) in Hmu.
  set (tr := tracker_at _) in *. cbn [foldl run_op] in Hmu.
  pose proof (mutation_tracks percent at_ (seen_refreshed seen) (size (targetNamespaces t))
    (if namespaceOnly then "" else ns) (if namespaceOnly then "" else serviceAccountLate)
    (concurrentNamespaceName runID) targetServiceAccounts fp tr after Hok) as Htracks.
  unfold startConcurrentMutation in Htracks. cbv zeta in Htracks.
  destruct (Htracks (planned percent at_ (seen_refreshed seen) (size (targetNamespaces t))
    (if namespaceOnly then "" else ns) (if namespaceOnly then "" else serviceAccountLate)
    (concurrentNamespaceName runID) targetServiceAccounts fp)) as (mu' & Hmu' & Hrec & Hdone & Hnot).
  { cbn [mutations]. by rewrite list_lookup_middle. }
  unfold startConcurrentMutation in Hmu. cbn [snd] in Hmu. rewrite Hmu' in Hmu. injection Hmu as <-.
  split; [done|]. intros Hd. destruct (decide (mutation_done mu' = 1%nat)) as [|Hne]; [by apply Hdone|].
  exfalso. apply Hd, Hnot. intros Hp%Hdone. done.
Qed.

Lemma plan_fulfilled_more m m0 after more : plan_fulfilled m m0 after → plan_fulfilled m m0 (after ++ more).
Proof.
  intros Ha. induction more as [|op more IH] using rev_ind; [by rewrite app_nil_r|].
  rewrite (assoc_L (++)). by apply plan_fulfilled_mono.
Qed.

(** [errors.Join] is nil exactly when every error is. *)
Lemma join_error_some text results : foldl join_error (Some text) results ≠ None.
Proof. revert text. induction results as [|[[]|e] results IH]; intros text; cbn [foldl join_error]; [done|apply IH..]. Qed.
Lemma join_error_none results : foldl join_error None results = None ↔ Forall (.= Ok tt) results.
Proof.
  induction results as [|[[]|e] results IH]; cbn [foldl join_error].
  - split; [constructor|done].
  - rewrite IH. by split; [constructor|intros [_ ?]%Forall_cons].
  - split; [by intros ?%join_error_some|by intros [? _]%Forall_cons].
Qed.

(** A summary tells of its error. *)
Definition truthful (summary : mutationSummary) (err : option string) : Prop :=
  (Success summary = true ↔ err = None) ∧ (∀ e, err = Some e → Error summary = e).
(** The summary reports the mutation the tracker recorded. *)
Definition reports (m : nat) (m0 : trackedConcurrentMutation) (after : list tracker_op) (summary : mutationSummary) : Prop :=
  ∃ mu, mutation_records m m0 after mu ∧
    summary = with_outcome (Success summary) (Error summary) (concurrentMutationSummary mu).

Lemma with_outcome_reports m m0 after mu success e : mutation_records m m0 after mu →
  reports m m0 after (with_outcome success e (concurrentMutationSummary mu)).
Proof. intros Hr. by exists mu. Qed.
Lemma no_stale m m0 after mu : mutation_records m m0 after mu →
  StaleCredentialFingerprints (LateNamespace (concurrentMutationSummary mu)) = 0%nat → omap (stale_secret m0) after = [].
Proof.
  intros Hr Hs. cbn in Hs. rewrite (mr_stale _ _ _ _ Hr) in Hs.
  apply size_empty_inv in Hs. destruct (omap _ after) as [|x l]; [done|]. set_solver.
Qed.

Section outcome.
Context (percent : Z) (runID : string) (namespaceOnly : bool).
Abbreviation injected := (injected percent runID namespaceOnly).

Lemma create_late_wp l evs m m0 after existing : injected l m m0 after →
  wp mutation_exec (create_late runID m existing namespaceOnly) (MkInjection l evs) (λ err s', ∃ more results,
    s' = MkInjection (l ++ more) (evs ++ [Received results]) ∧ injected (l ++ more) m m0 (after ++ more) ∧
    length results = (if namespaceOnly then 1%nat else 2%nat) ∧ err = foldl join_error None results).
Proof.
  intros Hinj. unfold create_late. cbn [mbind prog_bind prog_bind_def call wp mutation_exec ops events].
  intros results [l' evs'] (answers & Hrun & Hperm & Hevs). cbn [ops events] in *. subst evs'.
  apply late_pool_ops in Hrun as [(more & -> & Hmore) Hlen]. exists more, results. split; [done|].
  split; [by apply injected_more|]. split; [|done]. rewrite Hperm. rewrite length_fmap in Hlen. rewrite Hlen. by destruct namespaceOnly.
Qed.

Lemma await_mutation_wp timeout l evs m m0 after : injected l m m0 after →
  wp mutation_exec (await_mutation m timeout) (MkInjection l evs) (λ outcome s', ∃ more c,
    s' = MkInjection (l ++ more) (evs ++ [Chosen c]) ∧ injected (l ++ more) m m0 (after ++ more) ∧
    truthful outcome.1 outcome.2 ∧ reports m m0 (after ++ more) outcome.1 ∧
    (outcome.2 = None → plan_fulfilled m m0 (after ++ more) ∧ omap (stale_secret m0) (after ++ more) = [])).
Proof.
  intros Hinj. unfold await_mutation. cbn [mbind prog_bind prog_bind_def call wp mutation_exec ops events].
  intros c [l1 evs1] (Hl1 & Hevs1 & Hdone). cbn [ops events] in *. subst evs1.
  intros sm [l2 evs2] (Hl2 & Hevs2 & mu & Hmu & ->). cbn [ops events] in *. subst evs2.
  apply observing_ok in Hl1 as (more1 & -> & Hmore1). apply observing_ok in Hl2 as (more2 & -> & Hmore2).
  pose proof (injected_more _ _ _ _ _ _ _ _ Hmore1 Hinj) as Hinj1.
  pose proof (injected_more _ _ _ _ _ _ _ _ Hmore2 Hinj1) as Hinj2.
  destruct (injected_records _ _ _ _ _ _ _ _ Hinj2 Hmu) as [Hrec _].
  rewrite <-(assoc_L (++) l), <-(assoc_L (++) after) in Hinj2. rewrite <-(assoc_L (++) after) in Hrec.
  assert (∀ success err, let outcome := (with_outcome success (default "" err) (concurrentMutationSummary mu), err) in
    (success = true ↔ err = None) →
    (err = None → plan_fulfilled m m0 (after ++ more1 ++ more2) ∧ omap (stale_secret m0) (after ++ more1 ++ more2) = []) →
    ∃ more c0, MkInjection ((l ++ more1) ++ more2) (evs ++ [Chosen c]) = MkInjection (l ++ more) (evs ++ [Chosen c0]) ∧
      injected (l ++ more) m m0 (after ++ more) ∧ truthful outcome.1 outcome.2 ∧ reports m m0 (after ++ more) outcome.1 ∧
      (outcome.2 = None → plan_fulfilled m m0 (after ++ more) ∧ omap (stale_secret m0) (after ++ more) = [])) as Hout.
  { intros success err outcome Hs Hn. exists (more1 ++ more2), c. rewrite <-(assoc_L (++)). split; [done|].
    split; [done|]. split; [split; [done|intros e He; cbn in He |- *; by rewrite He]|]. split; [by apply with_outcome_reports|done]. }
  destruct c as [|e]; [case_bool_decide as Hstale|]; cbn [negb wp].
  - apply (Hout true None); [done|]. intros _. destruct (Hdone eq_refl) as (mu1 & Hmu1 & Hd1).
    destruct (injected_records _ _ _ _ _ _ _ _ Hinj1 Hmu1) as [_ Hplan].
    split; [|by eapply no_stale]. rewrite (assoc_L (++)). by apply plan_fulfilled_more, Hplan.
  - by apply (Hout false (Some _)).
  - by apply (Hout false (Some _)).
Qed.

(** What an injection comes to. *)
Definition injection_outcome (rounds : nat) (r : option (mutationSummary * option string)) (s : injection_state) : Prop :=
  match r with
  | None => (∃ obs, ops s = Observed <$> obs) ∧ events s = replicate rounds (Waited TriggerTick)
  | Some (summary, err) =>
    truthful summary err ∧
    ( (* nothing was injected *)
     (∃ obs e, ops s = Observed <$> obs ∧ err = Some e ∧
        (e = too_late ∧ refresh_complete obs ∨ last (events s) = Some (Waited (TriggerCtxDone e)))) ∨
     (* the late resources were created *)
     ∃ m m0 after results, injected (ops s) m m0 after ∧ reports m m0 after summary ∧
       Received results ∈ events s ∧ length results = (if namespaceOnly then 1%nat else 2%nat) ∧
       (¬ Forall (.= Ok tt) results → err = foldl join_error None results) ∧
       (err = None → Forall (.= Ok tt) results ∧ plan_fulfilled m m0 after ∧ omap (stale_secret m0) after = []))
  end.

(** C32.  Injecting resources during a refresh, beside observers that go on feeding
    the tracker and with goroutines that interleave call by call: the outcome's
    summary says success exactly when there is no error, carries its text
    otherwise, and reports what the tracker recorded since the injection started.
    The trigger was read when at least the given percentage of the target
    Namespaces had been refreshed and not all, and the expected credential is that
    of a refreshed Namespace (the refresh may still end between that reading and
    the injection).  Success means that all creations succeeded, that everything
    the plan waits for was marked or observed after the injection started, and
    that no other credential was ever seen in the late Namespace.  Nothing is
    injected only when the refresh is complete, or the context ended, and the
    error says which.  The loop goes on only while it is told to poll again. *)
Theorem runConcurrentMutation_correct rounds timeout :
  0 ≤ percent →
  wp mutation_exec (runConcurrentMutation rounds runID percent timeout namespaceOnly) (MkInjection [] [])
    (injection_outcome rounds).
Proof.
  intros Hp. unfold runConcurrentMutation. apply wp_bind.
  eapply wp_mono; [|apply (waitForMutationTrigger_wp rounds percent [] [] Hp); constructor].
  intros trigger s (obs & ticks & -> & Hobs & Htrigger). cbn [app].
  destruct trigger as [[[[progress ns] fp]|e]|].
  2: { cbn [wp injection_outcome ops events]. split; [split; [done|by intros ? [= <-]]|]. left. exists obs, e.
       do 2 (split; [done|]). destruct Htrigger as [|Hlast]; [by left|right]. by rewrite fmap_last, Hlast. }
  2: { cbn [wp injection_outcome ops events]. split; [by exists obs|]. by rewrite Htrigger, fmap_replicate. }
  destruct Htrigger as (Hc & Hn & Ht & Hr).
  cbn [mbind prog_bind prog_bind_def call wp mutation_exec ops events].
  intros now [l1 evs1] [Hl1 Hevs1]. cbn [ops events] in *. subst evs1.
  intros m [l2 evs2] (l & Hl & Hevs2 & Hl2 & Hm). cbn [ops events] in *. subst evs2 l2.
  destruct (observing_observed _ _ Hobs Hl1) as (more1 & -> & Hobs1).
  destruct (observing_observed _ _ Hobs1 Hl) as (more2 & -> & Hobs2).
  set (m0 := planned percent now (seen_refreshed obs) (size (targetNamespaces t)) (if namespaceOnly then "" else ns)
    (if namespaceOnly then "" else serviceAccountLate) (concurrentNamespaceName runID) targetServiceAccounts fp).
  rewrite Hc, Hn in Ht |- *. set (l := _ ++ _).
  assert (injected l m m0 []) as Hinj.
  { exists obs, (more1 ++ more2), now, ns, fp. cbv zeta. unfold l. rewrite Hm, (assoc_L (++)).
    do 5 (split; [done|]). constructor. }
  clearbody l m0. clear Hm. apply wp_bind. eapply wp_mono; [|apply (create_late_wp _ _ m m0 [] _ Hinj)].
  intros err s (more & results & -> & Hinj1 & Hlen & Herr). cbn [app] in Hinj1. destruct err as [e|].
  - cbn [mbind prog_bind prog_bind_def call wp mutation_exec ops events].
    intros sm [l3 evs3] (Hl3 & Hevs3 & mu & Hmu & ->). cbn [ops events] in *. subst evs3.
    apply observing_ok in Hl3 as (more3 & -> & Hmore3).
    pose proof (injected_more _ _ _ _ _ _ _ _ Hmore3 Hinj1) as Hinj3.
    destruct (injected_records _ _ _ _ _ _ _ _ Hinj3 Hmu) as [Hrec _].
    split; [split; [done|by intros ? [= <-]]|]. right. exists m, m0, (more ++ more3), results. cbn [ops events].
    split; [done|]. split; [by apply with_outcome_reports|]. split; [set_solver|]. split; [done|]. split; [done|done].
  - apply wp_bind. eapply wp_mono; [|by apply (await_mutation_wp timeout _ _ m m0 more)].
    intros [sm err] s (more' & c & -> & Hinj2 & Htruth & Hrep & Hnone). cbn [wp injection_outcome ops events fst snd] in *.
    split; [done|]. right. exists m, m0, (more ++ more'), results. split; [done|]. split; [done|].
    split; [set_solver|]. split; [done|]. symmetry in Herr. apply join_error_none in Herr. split; [done|].
    intros He. by destruct (Hnone He).
Qed.
End outcome.
End mutation.

Module PhaseExample.
#[local] Instance texts : ErrorText := λ e, match e with ApiFailed c _ => c | Refused text => text end.
#[local] Existing Instance range_forward.

Lemma waitForPhase_correct_witness : targetNamespaces TrackerExample.t ≠ ∅ ∧
  wp (wait_exec initialPhase TrackerExample.t 3) (waitForPhase 10 "initial" "3h0m0s") (MkWait TrackerExample.seen [] [])
    (waited initialPhase TrackerExample.t 3 10 []).
Proof.
  assert (targetNamespaces TrackerExample.t ≠ ∅) as Ht by (intros Heq; by apply (f_equal size) in Heq).
  split; [exact Ht|]. exact (waitForPhase_correct initialPhase TrackerExample.t 3 Ht 10 "initial" "3h0m0s" TrackerExample.seen).
Defined.

(** A quarter of seven Secrets is reached with the second. *)
Example quarter : threshold 7 25 = 2.
Proof. reflexivity. Qed.

(** The second of two Namespaces is refreshed between the reading of the trigger
    and the start of the mutation; then the late resources converge. *)
#[local] Instance api_errors : ApiErrors := {| IsAlreadyExists _ := false; IsConflict _ := false |}.
#[local] Instance retry_once : Retry := λ E body, body.
Definition before : convergenceTracker := foldl observe (start initialPhase 4 TrackerExample.t).2 TrackerExample.seen.
Definition began : Time := 60.
Definition new_secret (ns : string) (at_ : Time) : observation := SecretSeen (Some (TrackerExample.secret ns "new")) at_.
Definition patched (ns name : string) (at_ : Time) : observation :=
  AccountSeen (Some (MkServiceAccount ns name "u" "9" false [DefaultManagedSecretName])) at_.
Definition late : string := concurrentNamespaceName "r".
Abbreviation tracker := (tracker_at before began).

Definition late_answer (m : nat) (X : Type) (e : driverE X) (l : list tracker_op) : X * list tracker_op :=
  match e in driverE X return X * list tracker_op with
  | Namespaces o => (match o in objE _ X return X with Create _ | Update _ => Ok tt | Get _ => Err NotFound end, l)
  | Accounts o => (match o in objE _ X return X with Create _ | Update _ => Ok tt | Get _ => Err NotFound end, l)
  | Bindings o => (match o in objE _ X return X with Create _ | Update _ => Ok tt | Get _ => Err NotFound end, l)
  | Mark k => (tt, l ++ [TrackerMutation.Marked (tracker_mark k) m 80])
  end.
Definition sees (s : injection_state) (obs : list observation) : list tracker_op := ops s ++ (Observed <$> obs).
Definition answer (X : Type) (e : mutationE X) (s : injection_state) : X * injection_state :=
  match e in mutationE X return X * injection_state with
  | Candidate =>
    let l := sees s [new_secret "a" 65] in
    (match phases (tracker l) !! 1%nat with
     | Some phase => mutationTriggerCandidate phase 66
     | None => (MkProgress 0 0 0 0 0 0 0, "", "", false)
     end, MkInjection l (events s))
  | SelectTrigger => (TriggerTick, MkInjection (ops s) (events s ++ [Waited TriggerTick]))
  | TriggerNow => (70, MkInjection (sees s [new_secret "b" 69]) (events s))
  | StartMutation percent at_ complete total existing account late accounts fp =>
    ((startConcurrentMutation percent at_ complete total existing account late accounts fp (tracker (ops s))).1,
     MkInjection (ops s ++ [MutationStarted percent at_ complete total existing account late accounts fp]) (events s))
  | RunGoroutines m goroutines =>
    let '(results, l) := run_all (late_answer m) goroutines (ops s) in
    (results, MkInjection l (events s ++ [Received results]))
  | SelectMutation m =>
    (MutationDone, MkInjection (sees s [new_secret late 81; patched late "default" 82; patched late "workload" 83;
       patched "a" serviceAccountLate 84]) (events s ++ [Chosen MutationDone]))
  | MutationSummary m =>
    (match mutations (tracker (ops s)) !! m with
     | Some mu => concurrentMutationSummary mu
     | None => untriggered 0 ""
     end, s)
  end.
(** The checks that the answers need. *)
Definition answerable (X : Type) (e : mutationE X) (s : injection_state) : bool :=
  match e with
  | Candidate => bool_decide (is_Some (phases (tracker (ops (answer _ Candidate s).2)) !! 1%nat))
  | SelectMutation m =>
    match mutations (tracker (ops (answer _ (SelectMutation m) s).2)) !! m with
    | Some mu => negb (mutation_done mu =? 0)%nat
    | None => false
    end
  | MutationSummary m => bool_decide (is_Some (mutations (tracker (ops s)) !! m))
  | _ => true
  end.
Lemma observing_sees s obs : timely obs → observing (ops s) (sees s obs).
Proof. intros Hobs. by exists obs. Qed.
Lemma observing_same l : observing l l.
Proof. exists []. split; [constructor|]. by rewrite app_nil_r. Qed.
Lemma late_answer_exec m X (e : driverE X) l : late_exec m X e l (late_answer m X e l).1 (late_answer m X e l).2.
Proof. destruct e; try done. by exists 80. Qed.

Lemma mutation_answer_exec X (e : mutationE X) s : answerable X e s = true →
  mutation_exec before began X e s (answer X e s).1 (answer X e s).2.
Proof.
  destruct e as [| | |percent at_ complete total existing account lns accounts fp|m goroutines|m|m]; intros Ha.
  - apply bool_decide_eq_true in Ha as [phase Hphase]. cbn [answer fst snd ops events] in *.
    split; [apply observing_sees; by repeat constructor|]. split; [done|]. exists phase, 66.
    rewrite Hphase. done.
  - split; [apply observing_same|]. split; done.
  - split; [apply observing_sees; by repeat constructor|done].
  - exists (ops s). split; [apply observing_same|]. done.
  - cbn [answer]. pose proof (pool_run_all (late_exec m) observing (late_answer m) goroutines [] (ops s) (late_answer_exec m)) as Hrun.
    destruct (run_all _ _ _) as [results l]. by exists results.
  - cbn [answerable] in Ha. destruct (mutations _ !! m) as [mu|] eqn:Hmu; [|done].
    split; [apply observing_sees; by repeat constructor|]. split; [done|]. intros _. exists mu. split; [done|].
    by apply Nat.eqb_neq, negb_true_iff.
  - apply bool_decide_eq_true in Ha as [mu Hmu]. cbn [answer fst snd]. split; [apply observing_same|].
    split; [done|]. exists mu. by rewrite Hmu.
Qed.

Definition late_run := interp answer (runConcurrentMutation 3 "r" 25 "10m0s" false) (MkInjection [] []).
Lemma late_run_checked : checked answerable answer (runConcurrentMutation 3 "r" 25 "10m0s" false) (MkInjection [] []) = true.
Proof. vm_compute. reflexivity. Qed.

(** The injection succeeds and reports that one of two Secrets was complete at the
    trigger, although the refresh was over when it started. *)
Example injected_after_refresh :
  (λ r, (Success r.1, r.2, ms_SecretsCompleteAtTrigger r.1, ms_SecretsTotalAtTrigger r.1)) <$> late_run.1
    = Some (true, None, 1%nat, 2%nat) ∧
  phase_complete expiryPhase before began [new_secret "a" 65; new_secret "b" 69] ∧
  take 2 (ops late_run.2) = Observed <$> [new_secret "a" 65; new_secret "b" 69].
Proof. split; [vm_compute; reflexivity|]. split; [|vm_compute; reflexivity]. apply (bool_decide_unpack _). vm_compute. exact I. Qed.

Lemma runConcurrentMutation_correct_witness : 0 ≤ 25 ∧ targetNamespaces before ≠ ∅ ∧
  injection_outcome before began 25 "r" false 3 late_run.1 late_run.2.
Proof.
  assert (0 ≤ 25) as Hp by lia.
  assert (targetNamespaces before ≠ ∅) as Ht by (intros Heq; apply (f_equal size) in Heq; by vm_compute in Heq).
  split; [exact Hp|]. split; [exact Ht|].
  exact (wp_checked (mutation_exec before began) answerable answer _ _ _ mutation_answer_exec late_run_checked
    (runConcurrentMutation_correct before began Ht 25 "r" false 3 "10m0s" Hp)).
Defined.
End PhaseExample.
