(* ===== verification/PerfObserve.v ===== *)
(** * Observers and resource samples (cmd/perf-driver/observer.go, resources.go)

    The informers' handlers that feed the tracker, and the recorder of resource
    usage.  Informers, the metrics API and [resource.Quantity] are libraries. *)
From S2P Require Import Prelude Prog GoStrings Encoding Rfc3339 ConfigTypes Credential GoFloat GoDuration Kube.
From S2P Require Import RegistrySecret SecretSyncer ServiceAccount Controller PerfProfile Tracker TrackerCorrect.
From Stdlib Require Import SpecFloat.

(** ** Observers *)
Definition secretSelector : string := "metadata.name=" +:+ DefaultManagedSecretName.

(** An object of a watch, and what an informer tells its handler. *)
Inductive watched := WatchedSecret (s : Secret) | WatchedAccount (a : ServiceAccount) | WatchedOther.
Inductive notification := Added (object : watched) | UpdatedTo (old object : watched) | Removed (object : watched).
Inductive informer := secretInformer | serviceAccountInformer.

(** [ResourceEventHandlerFuncs] with an [AddFunc] and an [UpdateFunc] only. *)
Definition told (n : notification) : option watched :=
  match n with Added object | UpdatedTo _ object => Some object | Removed _ => None end.
Definition on_notification (i : informer) (n : notification) (now : Time) (t : convergenceTracker) : convergenceTracker :=
  match i, told n with
  | secretInformer, Some (WatchedSecret secret) => observeSecret (Some secret) now t
  | serviceAccountInformer, Some (WatchedAccount serviceAccount) => observeServiceAccount (Some serviceAccount) now t
  | _, _ => t
  end.

Inductive observerE : Type → Type :=
| AddEventHandler (i : informer) : observerE (result string ())
| RunInformer (i : informer) (selector : string) : observerE ()
| WaitForCacheSync : observerE bool
| CtxErr : observerE (option string).

Definition errorsFromContext (err : option string) (operation : string) : string :=
  match err with Some e => operation +:+ ": " +:+ e | None => operation +:+ ": cache stopped" end.
Definition startConvergenceObserver (runLabelSelector : string) : prog observerE (result string ()) :=
  try (call (AddEventHandler secretInformer)) (λ e, Ret (Err ("register Secret observer: " +:+ e))) (λ _,
  try (call (AddEventHandler serviceAccountInformer)) (λ e, Ret (Err ("register ServiceAccount observer: " +:+ e))) (λ _,
  _ ← call (RunInformer secretInformer secretSelector);
  _ ← call (RunInformer serviceAccountInformer runLabelSelector);
  synced ← call WaitForCacheSync;
  if negb synced then
    err ← call CtxErr;
    Ret (Err (errorsFromContext err "synchronize performance observers"))
  else Ret (Ok tt))).

(** ** Resource samples *)
Record resourcePeak := MkPeak { CPUMillicores : float64; MemoryMiB : float64 }.
Definition zero_peak : resourcePeak := MkPeak zero_float zero_float.
Record resourceSummary := MkResources {
  Samples : nat;
  rs_Errors : nat;
  ControllerPeak : resourcePeak;
  NodePeaks : gmap string resourcePeak
}.

(** Go's [max] of two float64: NaN when one is, and +0 of two zeros. *)
Definition float_max (x y : float64) : float64 :=
  if is_nan x || is_nan y then S754_nan
  else if SFltb x y then y else if SFltb y x then x
  else match x with S754_zero true => y | _ => x end.
Definition maximumPeak (left right : resourcePeak) : resourcePeak :=
  MkPeak (float_max (CPUMillicores left) (CPUMillicores right)) (float_max (MemoryMiB left) (MemoryMiB right)).

(** [resource.Quantity] *)
Class Quantities (Q : Type) := {
  zero_quantity : Q;
  quantity_add : Q → Q → Q;
  MilliValue : Q → Z;
  QuantityValue : Q → Z
}.

Section resources.
Context {Q : Type} `{Quantities Q} `{RangeOrder}.

Record metricsItem := MkMetricsItem {
  item_Name : string;
  item_Labels : gmap string string;
  Usage : gmap string Q;
  Containers : list (gmap string Q)
}.

Definition addUsage (total usage : gmap string Q) : gmap string Q :=
  foldl (λ total nq, <[nq.1 := quantity_add (default zero_quantity (total !! nq.1)) nq.2]> total) total (range usage).

Definition bytesPerMiB : Z := 1024 * 1024.
Definition usageValues (usage : gmap string Q) : resourcePeak :=
  let cpu := default zero_quantity (usage !! "cpu") in
  let memory := default zero_quantity (usage !! "memory") in
  MkPeak (float_of_int (MilliValue cpu)) (fdiv (float_of_int (QuantityValue memory)) (float_of_int bytesPerMiB)).

(** A row of the CSV file. *)
Record resource_row := MkRow { row_phase : phaseKind; row_scope : string; row_name : string; row_peak : resourcePeak }.
Record resourceRecorder := MkRecorder { summary : resourceSummary; written : list resource_row }.
Definition newResourceRecorder : resourceRecorder := MkRecorder (MkResources 0 0 zero_peak ∅) [].
Definition write (phase : phaseKind) (scope name : string) (peak : resourcePeak) (r : resourceRecorder) : list resource_row :=
  written r ++ [MkRow phase scope name peak].

Definition controllerApplication : string := "registry-secret-controller-perf".
Definition sample_pod (phase : phaseKind) (r : resourceRecorder) (pod : metricsItem) : resourceRecorder :=
  if negb (bool_decide (item_Labels pod !! "app.kubernetes.io/name" = Some controllerApplication)) then r else
  let usage := foldl addUsage ∅ (Containers pod) in
  let peak := usageValues usage in
  let s := summary r in
  MkRecorder (MkResources (Samples s) (rs_Errors s) (maximumPeak (ControllerPeak s) peak) (NodePeaks s))
    (write phase "controller" (item_Name pod) peak r).
Definition sample_node (phase : phaseKind) (r : resourceRecorder) (node : metricsItem) : resourceRecorder :=
  let peak := usageValues (Usage node) in
  let s := summary r in
  MkRecorder (MkResources (Samples s) (rs_Errors s) (ControllerPeak s)
      (<[item_Name node := maximumPeak (default zero_peak (NodePeaks s !! item_Name node)) peak]> (NodePeaks s)))
    (write phase "node" (item_Name node) peak r).

(** [pods] and [nodes] are what [readMetrics] answers. *)
Definition Sample (phase : phaseKind) (pods nodes : result string (list metricsItem)) (r : resourceRecorder) : resourceRecorder :=
  match pods, nodes with
  | Ok pods, Ok nodes =>
    let r := foldl (sample_node phase) (foldl (sample_pod phase) r pods) nodes in
    let s := summary r in
    MkRecorder (MkResources (S (Samples s)) (rs_Errors s) (ControllerPeak s) (NodePeaks s)) (written r)
  | _, _ =>
    let s := summary r in
    MkRecorder (MkResources (Samples s) (S (rs_Errors s)) (ControllerPeak s) (NodePeaks s)) (written r)
  end.
End resources.
Arguments metricsItem : clear implicits.
