(* ===== verification/PerfObserveCorrect.v ===== *)
(** * Correctness of the observers and the resource samples *)
From S2P Require Import Prelude Prog GoStrings Encoding Rfc3339 ConfigTypes Credential GoFloat GoDuration Kube.
From S2P Require Import RegistrySecret SecretSyncer ServiceAccount Controller PerfProfile Tracker TrackerCorrect PerfObserve.
From Stdlib Require Import SpecFloat.

(** ** Observers *)

(** What a notification lets the tracker observe. *)
Definition observation_of (x : informer * notification * Time) : option observation :=
  match x.1.1, told x.1.2 with
  | secretInformer, Some (WatchedSecret s) => Some (SecretSeen (Some s) x.2)
  | serviceAccountInformer, Some (WatchedAccount a) => Some (AccountSeen (Some a) x.2)
  | _, _ => None
  end.

(** Additions and updates reach the tracker, in their order; deletions and objects
    of another type do not. *)
Theorem observer_feeds_tracker (notifications : list (informer * notification * Time)) t :
  foldl (λ t x, on_notification x.1.1 x.1.2 x.2 t) t notifications = foldl observe t (omap observation_of notifications).
Proof.
  revert t. induction notifications as [|[[i n] now] l IH]; intros t; [done|]. cbn [foldl]. rewrite IH. cbn.
  destruct i, n as [[]|old []|[]]; done.
Qed.

(** ** No NaN *)
Lemma shr_fexp_nonneg m e l : (0 ≤ m)%Z → (0 ≤ shr_m (shr_fexp 53 1024 m e l).1)%Z.
Proof.
  intros Hm. unfold shr_fexp, shr. set (r := shr_record_of_loc m l).
  assert (shr_m r = m) as Hr by (unfold r, shr_record_of_loc; by destruct l as [|[]]).
  destruct (_ - _)%Z as [|p|p]; cbn [fst]; [lia| |lia]. rewrite shr_m_iter by lia. rewrite Hr.
  apply Z.div_pos; lia.
Qed.
Lemma round_aux_not_nan s m e l : (0 ≤ m)%Z → not_nan (binary_round_aux 53 1024 s m e l).
Proof.
  intros Hm. unfold binary_round_aux. pose proof (shr_fexp_nonneg m e l Hm) as H1.
  destruct (shr_fexp 53 1024 m e l) as [r e1]. cbn in H1.
  pose proof (round_le (shr_m r) (loc_of_shr_record r) H1) as H2.
  pose proof (shr_fexp_nonneg (round_nearest_even (shr_m r) (loc_of_shr_record r)) e1 loc_Exact ltac:(lia)) as H3.
  destruct (shr_fexp 53 1024 _ e1 loc_Exact) as [r' e2]. cbn in H3.
  destruct (shr_m r') as [|p|p]; [done| |lia]. by destruct (e2 <=? _)%Z.
Qed.
Lemma float_of_int_not_nan z : not_nan (float_of_int z).
Proof.
  unfold float_of_int, binary_normalize, binary_round. destruct z as [|p|p]; [done|..];
    destruct (shl_align _ _ _) as [m e]; by apply round_aux_not_nan.
Qed.
Lemma fdiv_not_nan x s m e : not_nan x → not_nan (fdiv x (S754_finite s m e)).
Proof.
  unfold fdiv, SFdiv. destruct x as [sx|sx| |sx mx ex]; [done|done|done|]. intros _.
  unfold SFdiv_core_binary. lazymatch goal with |- context [Z.div_eucl ?a ?b] => set (a' := a);
    assert (0 ≤ a')%Z as Ha by (unfold a'; destruct (_ - _)%Z; [lia| |lia]; by apply Z.shiftl_nonneg);
    pose proof (Z.div_pos a' b Ha ltac:(lia)) as Hq; unfold Z.div in Hq; destruct (Z.div_eucl a' b) as [q r] end.
  by apply round_aux_not_nan.
Qed.

Lemma usageValues_not_nan `{Quantities Q} (usage : gmap string Q) :
  not_nan (CPUMillicores (usageValues usage)) ∧ not_nan (MemoryMiB (usageValues usage)).
Proof.
  split; cbn [usageValues CPUMillicores MemoryMiB]; [apply float_of_int_not_nan|].
  change (float_of_int bytesPerMiB) with (S754_finite false 4503599627370496 (-32)). apply fdiv_not_nan, float_of_int_not_nan.
Qed.

(** ** Maxima *)
Lemma SFltb_SFleb x y : not_nan x → not_nan y → SFltb x y = false → SFleb y x = true.
Proof.
  intros Hx Hy Hlt. destruct (SFleb_total y x Hy Hx) as [|Hle]; [done|].
  revert Hlt Hle. unfold SFltb, SFleb. destruct x as [[]|[]| |[] mx ex], y as [[]|[]| |[] my ey]; simpl; try done.
  all: destruct (Z.compare_spec ex ey), (Z.compare_spec ey ex); try done; try lia.
  all: change (Pos.compare_cont Eq ?a ?b) with (Pos.compare a b).
  all: destruct (Pos.compare_spec mx my), (Pos.compare_spec my mx); simpl; try done; lia.
Qed.
Lemma SFltb_le x y : SFltb x y = true → SFleb x y = true.
Proof. unfold SFltb, SFleb. by destruct (SFcompare x y) as [[]|]. Qed.
Lemma SFleb_refl x : not_nan x → SFleb x x = true.
Proof. intros Hx. by destruct (SFleb_total x x Hx Hx). Qed.
Lemma SFleb_trans x y z : not_nan x → not_nan y → SFleb x y = true → SFleb y z = true → SFleb x z = true.
Proof.
  intros Hx Hy Hxy Hyz. unfold not_nan in *. destruct (float_le_trans x y z) as [Hn|]; [by right|by right|congruence|done].
Qed.

Lemma float_max_spec x y : not_nan x → not_nan y →
  not_nan (float_max x y) ∧ (float_max x y = x ∨ float_max x y = y) ∧
  SFleb x (float_max x y) = true ∧ SFleb y (float_max x y) = true.
Proof.
  intros Hx Hy. unfold float_max. rewrite Hx, Hy. cbn [orb].
  destruct (SFltb x y) eqn:Hxy; [split; [done|]; split; [by right|]; split; [by apply SFltb_le|by apply SFleb_refl]|].
  destruct (SFltb y x) eqn:Hyx; [split; [done|]; split; [by left|]; split; [by apply SFleb_refl|by apply SFltb_le]|].
  pose proof (SFltb_SFleb x y Hx Hy Hxy). pose proof (SFltb_SFleb y x Hy Hx Hyx). pose proof (SFleb_refl x Hx). pose proof (SFleb_refl y Hy).
  destruct x as [[]|[]| |[] ? ?]; (split; [done|]; split; [by (left + right)|done]).
Qed.

(** [x] is the largest of zero and the elements of [l]. *)
Definition is_maximum (x : float64) (l : list float64) : Prop :=
  not_nan x ∧ x ∈ zero_float :: l ∧ ∀ y, y ∈ zero_float :: l → SFleb y x = true.
Lemma is_maximum_nil : is_maximum zero_float [].
Proof. split; [done|]. split; [left|]. by intros y ->%list_elem_of_singleton. Qed.
Lemma is_maximum_snoc x l y : is_maximum x l → not_nan y → Forall not_nan l → is_maximum (float_max x y) (l ++ [y]).
Proof.
  intros (Hx & Hin & Hmax) Hy Hl. destruct (float_max_spec x y Hx Hy) as (Hn & Hor & Hle1 & Hle2).
  split; [done|]. split; [destruct Hor as [->| ->]; set_solver|].
  intros z [->|[Hz| ->%list_elem_of_singleton]%elem_of_app]%elem_of_cons; [..|done].
  - apply (SFleb_trans zero_float x); [done|done|apply Hmax; left|done].
  - apply (SFleb_trans z x); [by rewrite Forall_forall in Hl; apply Hl|done|apply Hmax; by right|done].
Qed.

(** ** Samples *)
Section samples.
Context {Q : Type} `{Quantities Q} `{RangeOrder}.

Definition rows_of (scope : string) (named : string → bool) (rows : list resource_row) : list resourcePeak :=
  row_peak <$> List.filter (λ row, bool_decide (row_scope row = scope) && named (row_name row)) rows.
Definition is_peak (peak : resourcePeak) (l : list resourcePeak) : Prop :=
  is_maximum (CPUMillicores peak) (CPUMillicores <$> l) ∧ is_maximum (MemoryMiB peak) (MemoryMiB <$> l).
Definition peak_ok (p : resourcePeak) : Prop := not_nan (CPUMillicores p) ∧ not_nan (MemoryMiB p).

Lemma is_peak_nil : is_peak zero_peak [].
Proof. split; apply is_maximum_nil. Qed.
Lemma is_peak_snoc peak l p : is_peak peak l → peak_ok p → Forall peak_ok l → is_peak (maximumPeak peak p) (l ++ [p]).
Proof.
  intros [Hc Hm] [Hp1 Hp2] Hl. split; rewrite fmap_app; apply is_maximum_snoc; try done;
    apply Forall_fmap; (eapply Forall_impl; [exact Hl|]); by intros q [? ?].
Qed.

(** The summary says what the rows say. *)
Record recorder_inv (r : resourceRecorder) : Prop := {
  ri_rows : Forall (λ row, peak_ok (row_peak row)) (written r);
  ri_controller : is_peak (ControllerPeak (summary r)) (rows_of "controller" (λ _, true) (written r));
  ri_nodes : ∀ n, is_peak (default zero_peak (NodePeaks (summary r) !! n)) (rows_of "node" (λ m, bool_decide (m = n)) (written r));
  ri_names : ∀ n, is_Some (NodePeaks (summary r) !! n) ↔ ∃ row, row ∈ written r ∧ row_scope row = "node" ∧ row_name row = n
}.

Lemma rows_of_snoc scope named rows row : rows_of scope named (rows ++ [row]) =
  rows_of scope named rows ++ if bool_decide (row_scope row = scope) && named (row_name row) then [row_peak row] else [].
Proof. unfold rows_of. rewrite List.filter_app, fmap_app. cbn. by destruct (_ && _). Qed.
Lemma rows_of_ok scope named rows : Forall (λ row, peak_ok (row_peak row)) rows → Forall peak_ok (rows_of scope named rows).
Proof.
  intros Hr. unfold rows_of. apply Forall_fmap, Forall_forall. intros row Hin.
  apply list_elem_of_In, filter_In in Hin as [Hin _]. rewrite Forall_forall in Hr. apply Hr. by apply list_elem_of_In.
Qed.

Lemma sample_pod_inv phase r pod : recorder_inv r → recorder_inv (sample_pod phase r pod).
Proof.
  intros [Hrows Hc Hn Hnames]. unfold sample_pod. destruct (negb _); [done|].
  set (peak := usageValues _). assert (peak_ok peak) as Hp by apply usageValues_not_nan.
  split; cbn [written summary ControllerPeak NodePeaks]; unfold write.
  - apply Forall_app. split; [done|]. by apply Forall_singleton.
  - rewrite rows_of_snoc. cbn. apply is_peak_snoc; [done..|]. by apply rows_of_ok.
  - intros n. rewrite rows_of_snoc. cbn. by rewrite app_nil_r.
  - intros n. rewrite Hnames. split.
    + intros (row & ? & ? & ?). exists row. set_solver.
    + intros (row & [Hin| ->%list_elem_of_singleton]%elem_of_app & Hs & ?); [by exists row|done].
Qed.

Lemma sample_node_inv phase r node : recorder_inv r → recorder_inv (sample_node phase r node).
Proof.
  intros [Hrows Hc Hn Hnames]. unfold sample_node.
  set (peak := usageValues _). assert (peak_ok peak) as Hp by apply usageValues_not_nan.
  split; cbn [written summary ControllerPeak NodePeaks]; unfold write.
  - apply Forall_app. split; [done|]. by apply Forall_singleton.
  - rewrite rows_of_snoc. cbn. by rewrite app_nil_r.
  - intros n. rewrite rows_of_snoc. cbn [row_scope row_name row_peak]. rewrite (bool_decide_true ("node" = "node")) by done.
    case_bool_decide as Heq; cbn [andb].
    + subst n. rewrite lookup_insert_eq. cbn. apply is_peak_snoc; [by apply Hn|done|by apply rows_of_ok].
    + rewrite lookup_insert_ne by done. by rewrite app_nil_r.
  - intros n. destruct (decide (n = item_Name node)) as [->|Hne].
    + rewrite lookup_insert_eq. split; [intros _|by eexists]. eexists. split; [apply elem_of_app; right; left|done].
    + rewrite lookup_insert_ne by done. rewrite Hnames. split.
      * intros (row & ? & ? & ?). exists row. set_solver.
      * intros (row & [Hin| ->%list_elem_of_singleton]%elem_of_app & Hs & Hr); [by exists row|done].
Qed.

Definition sample_args : Type := phaseKind * result string (list (metricsItem Q)) * result string (list (metricsItem Q)).
Definition sampled (samples : list sample_args) : resourceRecorder :=
  foldl (λ r s, Sample s.1.1 s.1.2 s.2 r) newResourceRecorder samples.
Lemma sampled_snoc samples phase pods nodes :
  sampled (samples ++ [(phase, pods, nodes)]) = Sample phase pods nodes (sampled samples).
Proof. unfold sampled. by rewrite foldl_app. Qed.
Definition readable (s : sample_args) : bool := is_ok s.1.2 && is_ok s.2.

(** After any sequence of samples, whatever the metrics API answered: each
    sample was counted once, as a sample or as an error; and the summary agrees
    with the rows of the file: the controller's peak and the peak of each node are
    the largest values written for them (or zero), never NaN, and the nodes are
    exactly those that were written. *)
Theorem resource_peaks (samples : list sample_args) :
  let r := sampled samples in
  Samples (summary r) = length (List.filter readable samples) ∧
  rs_Errors (summary r) = length (List.filter (λ s, negb (readable s)) samples) ∧
  is_peak (ControllerPeak (summary r)) (rows_of "controller" (λ _, true) (written r)) ∧
  ∀ n, match NodePeaks (summary r) !! n with
       | Some peak => is_peak peak (rows_of "node" (λ m, bool_decide (m = n)) (written r))
       | None => rows_of "node" (λ m, bool_decide (m = n)) (written r) = []
       end.
Proof.
  cbv zeta.
  assert (∀ phase l r, recorder_inv r → recorder_inv (foldl (sample_pod phase) r l)) as Hpods
    by (intros phase l; induction l as [|pod l IH]; intros r Hr; [done|]; by apply IH, sample_pod_inv).
  assert (∀ phase l r, recorder_inv r → recorder_inv (foldl (sample_node phase) r l)) as Hnodes
    by (intros phase l; induction l as [|node l IH]; intros r Hr; [done|]; by apply IH, sample_node_inv).
  assert (∀ phase l r, Samples (summary (foldl (sample_pod phase) r l)) = Samples (summary r) ∧
    rs_Errors (summary (foldl (sample_pod phase) r l)) = rs_Errors (summary r)) as Hpods_count.
  { intros phase l. induction l as [|pod l IH]; intros r; [done|]. cbn [foldl]. rewrite !(proj1 (IH _)), !(proj2 (IH _)).
    unfold sample_pod. by destruct (negb _). }
  assert (∀ phase l r, Samples (summary (foldl (sample_node phase) r l)) = Samples (summary r) ∧
    rs_Errors (summary (foldl (sample_node phase) r l)) = rs_Errors (summary r)) as Hnodes_count.
  { intros phase l. induction l as [|node l IH]; intros r; [done|]. cbn [foldl]. by rewrite !(proj1 (IH _)), !(proj2 (IH _)). }
  assert (recorder_inv (sampled samples) ∧ Samples (summary (sampled samples)) = length (List.filter readable samples) ∧
    rs_Errors (summary (sampled samples)) = length (List.filter (λ s, negb (readable s)) samples)) as (Hinv & Hs & He).
  { induction samples as [|[[phase pods] nodes] samples IH] using rev_ind.
    - split; [|done]. split; [constructor|apply is_peak_nil|intros n; apply is_peak_nil|].
      intros n. cbn. rewrite lookup_empty. split; [by intros []|by intros (row & ?%not_elem_of_nil & _)].
    - rewrite sampled_snoc, !List.filter_app, !length_app. destruct IH as (Hinv & Hs & He).
      set (r := sampled samples) in *. unfold Sample.
      destruct pods as [pods|e], nodes as [nodes|e']; cbn [List.filter readable is_ok fst snd andb negb length]; cbn [summary Samples rs_Errors].
      { pose proof (Hnodes phase nodes _ (Hpods phase pods r Hinv)) as [H1 H2 H3 H4]. split; [by split|].
        rewrite !(proj1 (Hnodes_count _ _ _)), !(proj2 (Hnodes_count _ _ _)), !(proj1 (Hpods_count _ _ _)), !(proj2 (Hpods_count _ _ _)). lia. }
      all: destruct Hinv as [H1 H2 H3 H4]; split; [by split|lia]. }
  split; [done|]. split; [done|]. split; [by apply ri_controller|]. intros n.
  pose proof (ri_nodes _ Hinv n) as Hpeak. destruct (NodePeaks (summary (sampled samples)) !! n) as [peak|] eqn:Hn; [done|].
  destruct (rows_of _ _ _) as [|p l] eqn:Hrows; [done|]. exfalso.
  assert (p ∈ rows_of "node" (λ m, bool_decide (m = n)) (written (sampled samples))) as Hp by (rewrite Hrows; left).
  unfold rows_of in Hp. apply list_elem_of_fmap in Hp as (row & -> & Hin).
  apply list_elem_of_In, filter_In in Hin as [Hin [Hsc Hnm]%andb_true_iff]. apply bool_decide_eq_true in Hsc, Hnm.
  assert (is_Some (NodePeaks (summary (sampled samples)) !! n)) as Hsome.
  { apply ri_names; [done|]. exists row. split; [by apply list_elem_of_In|done]. }
  rewrite Hn in Hsome. by destruct Hsome.
Qed.
End samples.
