(* ===== verification/PerfFiles.v ===== *)
(** * The CSV files of a run (cmd/perf-driver/tracker.go, resources.go)

    The progress recorder and the file of the resource recorder: an [os.File],
    the buffer that [csv.Writer] puts before it, and the errors they keep.  What
    the operating system answers is a parameter. *)
From S2P Require Import Prelude GoStrings Encoding Rfc3339 ConfigTypes Credential GoFloat GoDuration GoCsv.
From S2P Require Import Controller PerfProfile Tracker PerfPhase PerfObserve.
From Stdlib Require Import Ascii.
Local Open Scope Z_scope.

(** [os.Create] and [os.File]: [os_write n p] is the answer to the [n]-th write
    of a file, of the bytes [p]. *)
Class FileSystem := {
  os_create : string → option string;
  os_write : nat → bytes → nat * option string;
  os_close : bytes → option string
}.

Section files.
Context `{FileSystem}.

Record osFile := MkFile { contents : bytes; writes : nat }.
Definition file_Write (p : bytes) (f : osFile) : osFile * nat * option string :=
  let '(n, err) := os_write (writes f) p in
  let n := Nat.min n (length p) in
  (MkFile (contents f ++ take n p) (S (writes f)), n, err).

(** ** csv.Writer over bufio.Writer

    The first error is kept: nothing is written after it. *)
Record csvWriter := MkWriter { out : osFile; buffered : bytes; write_error : option string }.
Definition buffer_size : nat := 4096.

Definition Flush (w : csvWriter) : csvWriter :=
  match write_error w, buffered w with
  | None, (_ :: _) as p =>
    let '(f, n, err) := file_Write p (out w) in
    match err with
    | Some e => MkWriter f (drop n p) (Some e)
    | None => if (n <? length p)%nat then MkWriter f (drop n p) (Some "short write") else MkWriter f [] None
    end
  | _, _ => w
  end.
(** A full buffer is flushed when one more byte arrives. *)
Definition put_byte (w : csvWriter) (c : ascii) : csvWriter :=
  let w := if (length (buffered w) <? buffer_size)%nat then w else Flush w in
  match write_error w with
  | Some _ => w
  | None => MkWriter (out w) (buffered w ++ [c]) None
  end.
(** [Writer.Write]; it answers the error that is kept, as [Writer.Error] does. *)
Definition put_record (w : csvWriter) (record : list bytes) : csvWriter := foldl put_byte w (encode_record record).

Definition NewWriter : csvWriter := MkWriter (MkFile [] 0) [] None.

(** [Close] of both recorders. *)
Definition Close (w : csvWriter) : csvWriter * option string :=
  let w := Flush w in
  let fileErr := os_close (contents (out w)) in
  (w, match write_error w with Some e => Some e | None => fileErr end).

(** ** The progress recorder *)
Definition newProgressRecorder (path : string) : result string csvWriter :=
  match os_create path with
  | Some e => Err ("create progress CSV: " +:+ e)
  | None =>
    let w := put_record NewWriter (to_bytes <$> progress_header) in
    match write_error w with
    | Some e => Err ("write progress CSV header: " +:+ e)
    | None => Ok (Flush w)
    end
  end.
Definition progress_fields (p : phaseProgress) : list bytes :=
  format_nano (UTC (Timestamp p)) :: FormatFloat3 (Seconds (Elapsed p)) :: (to_bytes <$> progress_counts p).
Definition Write (p : phaseProgress) (w : csvWriter) : csvWriter * option string :=
  let w := put_record w (progress_fields p) in
  match write_error w with
  | Some e => (w, Some e)
  | None => let w := Flush w in (w, write_error w)
  end.

(** ** The resource recorder's file *)
Definition resource_header : list string :=
  ["timestamp"; "phase"; "scope"; "name"; "cpu_millicores"; "memory_mib"].
Definition newResourceFile (path : string) : result string csvWriter :=
  match os_create path with
  | Some e => Err ("create resource CSV: " +:+ e)
  | None =>
    let w := put_record NewWriter (to_bytes <$> resource_header) in
    match write_error w with
    | Some e => Err e
    | None => Ok (Flush w)
    end
  end.
(** The error of the row is dropped. *)
Definition row_fields (timestamp : Time) (row : resource_row) : list bytes :=
  [format_nano (UTC timestamp); to_bytes (phase_string (row_phase row)); to_bytes (row_scope row); to_bytes (row_name row);
   FormatFloat3 (CPUMillicores (row_peak row)); FormatFloat3 (MemoryMiB (row_peak row))].
(** The rows that [Sample] adds, and its flush. *)
Definition sample_file `{Quantities Q} `{RangeOrder} (timestamp : Time) (phase : phaseKind)
    (pods nodes : result string (list (metricsItem Q))) (rw : resourceRecorder * csvWriter) : resourceRecorder * csvWriter :=
  let r := Sample phase pods nodes rw.1 in
  let rows := drop (length (written rw.1)) (written r) in
  (r, if is_ok pods && is_ok nodes then Flush (foldl put_record rw.2 (row_fields timestamp <$> rows)) else rw.2).

(** [readMetrics]: the request and the JSON decoding are libraries. *)
Class MetricsAPI (Q : Type) := {
  get_raw : string → result string bytes;
  unmarshal_metrics : bytes → result string (list (metricsItem Q))
}.
Definition readMetrics `{MetricsAPI Q} (path : string) : result string (list (metricsItem Q)) :=
  match get_raw path with
  | Err e => Err e
  | Ok raw => unmarshal_metrics raw
  end.
Definition pods_path : string := "/apis/metrics.k8s.io/v1beta1/namespaces/" +:+ DefaultControllerNamespace +:+ "/pods".
Definition nodes_path : string := "/apis/metrics.k8s.io/v1beta1/nodes".
Definition sample_metrics `{Quantities Q} `{RangeOrder} `{MetricsAPI Q} (timestamp : Time) (phase : phaseKind)
    (rw : resourceRecorder * csvWriter) : resourceRecorder * csvWriter :=
  sample_file timestamp phase (readMetrics pods_path) (readMetrics nodes_path) rw.

(** ** Reading a row of progress back *)
Definition read_counts (l : list bytes) : option (list Z) := mapM (λ f, Atoi (of_bytes f)) l.
Definition read_progress (fields : list bytes) : option (Time * Z * list Z) :=
  match fields with
  | timestamp :: elapsed :: counts =>
    t ← parse_strict timestamp; ms ← read_fixed3 elapsed; counts ← read_counts counts;
    Some (unix_nano t, ms, counts)
  | _ => None
  end.
End files.
