(* ===== verification/PerfFilesCorrect.v ===== *)
(** * The CSV files hold what was recorded

    Whatever the operating system answers, a file is a prefix of the records that
    were handed to its writer; and when no error was reported, it is all of them,
    and reads back. *)
From S2P Require Import Prelude GoStrings Encoding Rfc3339 ConfigTypes Credential GoFloat GoDuration GoDurationTheory GoCsv.
From S2P Require Import PerfOptions PerfProfile PerfProfileCorrect Tracker PerfPhase PerfObserve PerfFiles.
From Stdlib Require Import Ascii SpecFloat.
Local Open Scope Z_scope.

Section files.
Context `{FileSystem}.

(** What was written of [bs], the bytes handed to the writer. *)
Definition holds (bs : bytes) (w : csvWriter) : Prop :=
  match write_error w with
  | None => contents (out w) ++ buffered w = bs
  | Some _ => ∃ rest, contents (out w) ++ rest = bs
  end.

Lemma holds_new : holds [] NewWriter.
Proof. done. Qed.
Lemma Flush_sticky w : write_error w ≠ None → Flush w = w.
Proof. unfold Flush. by destruct (write_error w). Qed.
Lemma Flush_holds bs w : holds bs w → holds bs (Flush w).
Proof.
  unfold Flush, holds. destruct (write_error w) eqn:He; [by rewrite He|].
  destruct (buffered w) as [|c p] eqn:Hb; [by rewrite He, Hb|].
  unfold file_Write. destruct (os_write (writes (out w)) (c :: p)) as [n err]. intros <-.
  set (k := Nat.min n (length (c :: p))).
  assert (contents (out w) ++ take k (c :: p) ++ drop k (c :: p) = contents (out w) ++ c :: p) as Hsplit
    by by rewrite take_drop.
  destruct err as [e|]; [|destruct (Nat.ltb_spec k (length (c :: p)))]; cbn [write_error out contents buffered].
  1, 2: exists (drop k (c :: p)); by rewrite <-(assoc_L (++)).
  by rewrite take_ge, app_nil_r by lia.
Qed.
Lemma Flush_complete bs w : holds bs w → write_error (Flush w) = None → contents (out (Flush w)) = bs.
Proof.
  intros Hw%Flush_holds He. unfold holds in Hw. rewrite He in Hw.
  assert (buffered (Flush w) = []) as Hb; [|by rewrite Hb, app_nil_r in Hw].
  revert He. clear Hw. unfold Flush. destruct (write_error w) eqn:He; [by rewrite He|].
  destruct (buffered w) eqn:Hb; [done|]. destruct (file_Write _ _) as [[f n] [e|]]; [done|]. by case_match.
Qed.

Lemma put_byte_sticky w c : write_error w ≠ None → put_byte w c = w.
Proof.
  intros He. unfold put_byte. rewrite Flush_sticky by done.
  destruct (_ <? _)%nat; by destruct (write_error w).
Qed.
Lemma put_byte_holds bs w c : holds bs w → holds (bs ++ [c]) (put_byte w c).
Proof.
  intros Hw. unfold put_byte.
  assert (holds bs (if (length (buffered w) <? buffer_size)%nat then w else Flush w)) as Hw'
    by (case_match; [done|by apply Flush_holds]).
  revert Hw'. generalize (if (length (buffered w) <? buffer_size)%nat then w else Flush w).
  clear w Hw. intros w Hw. unfold holds in *. destruct (write_error w) eqn:He.
  - rewrite He. destruct Hw as [rest <-]. exists (rest ++ [c]). by rewrite (assoc_L (++)).
  - cbn [write_error out buffered]. by rewrite <-Hw, (assoc_L (++)).
Qed.
Lemma put_record_sticky w record : write_error w ≠ None → put_record w record = w.
Proof.
  intros He. unfold put_record. induction (encode_record record) as [|c l IH]; [done|].
  cbn [foldl]. by rewrite put_byte_sticky.
Qed.
Lemma put_record_holds bs w record : holds bs w → holds (bs ++ encode_record record) (put_record w record).
Proof.
  unfold put_record. generalize (encode_record record). intros l. revert bs w.
  induction l as [|c l IH]; intros bs w Hw; cbn [foldl]; [by rewrite app_nil_r|].
  replace (bs ++ c :: l) with ((bs ++ [c]) ++ l) by by rewrite <-(assoc_L (++)).
  apply IH. by apply put_byte_holds.
Qed.

(** The bytes of a list of records. *)
Definition encoded (records : list (list bytes)) : bytes := concat (encode_record <$> records).
Lemma encoded_snoc records record : encoded records ++ encode_record record = encoded (records ++ [record]).
Proof. unfold encoded. by rewrite fmap_app, concat_app; cbn; rewrite app_nil_r. Qed.
Lemma put_records_holds records rows w :
  holds (encoded records) w → holds (encoded (records ++ rows)) (foldl put_record w rows).
Proof.
  revert records w. induction rows as [|row rows IH]; intros records w Hw; cbn [foldl]; [by rewrite app_nil_r|].
  replace (records ++ row :: rows) with ((records ++ [row]) ++ rows) by by rewrite <-(assoc_L (++)).
  apply IH. rewrite <-encoded_snoc. by apply put_record_holds.
Qed.

(** A prefix of the file's text is what any outcome leaves. *)
Lemma holds_prefix bs w : holds bs w → contents (out w) `prefix_of` bs.
Proof. unfold holds. destruct (write_error w); [intros [rest <-]|intros <-]; apply prefix_app_r; done. Qed.
Lemma Close_complete bs w w' : holds bs w → Close w = (w', None) → contents (out w') = bs.
Proof.
  intros Hw. unfold Close. destruct (write_error (Flush w)) eqn:He; [done|]. intros [= <- _].
  by apply Flush_complete.
Qed.

(** ** Progress *)

(** The rows of a phase, one after the other, with their answers. *)
Fixpoint write_all (ps : list phaseProgress) (w : csvWriter) : csvWriter * list (option string) :=
  match ps with
  | [] => (w, [])
  | p :: ps =>
    let '(w, err) := Write p w in
    let '(w, errs) := write_all ps w in (w, err :: errs)
  end.
Definition progress_records (ps : list phaseProgress) : list (list bytes) :=
  (to_bytes <$> progress_header) :: (progress_fields <$> ps).

Lemma Write_holds records p w :
  holds (encoded records) w → holds (encoded (records ++ [progress_fields p])) (Write p w).1.
Proof.
  intros Hw. apply (put_records_holds records [progress_fields p]) in Hw. cbn [foldl] in Hw. unfold Write.
  destruct (write_error (put_record w _)); [done|]. by apply Flush_holds.
Qed.
Lemma Write_error p w : (Write p w).2 = write_error (Write p w).1.
Proof. unfold Write. destruct (write_error (put_record w _)) eqn:He; [|done]. cbn [fst snd]. by rewrite He. Qed.
Lemma Write_sticky p w : write_error w ≠ None → Write p w = (w, write_error w).
Proof. intros He. unfold Write. rewrite put_record_sticky by done. by destruct (write_error w) eqn:Hw. Qed.
Lemma Write_complete records p w : holds (encoded records) w → (Write p w).2 = None →
  contents (out (Write p w).1) = encoded (records ++ [progress_fields p]).
Proof.
  intros Hw. apply (put_records_holds records [progress_fields p]) in Hw. cbn [foldl] in Hw. unfold Write.
  destruct (write_error (put_record w _)) eqn:He; [done|]. by apply Flush_complete.
Qed.

Lemma write_all_snoc ps p w : write_all (ps ++ [p]) w =
  let '(w1, errs) := write_all ps w in let '(w2, err) := Write p w1 in (w2, errs ++ [err]).
Proof.
  revert w. induction ps as [|q ps IH]; intros w; cbn [app write_all].
  - by destruct (Write p w).
  - destruct (Write q w) as [w1 err]. rewrite IH. destruct (write_all ps w1) as [w2 errs].
    by destruct (Write p w2).
Qed.
Lemma write_all_holds records ps w :
  holds (encoded records) w → holds (encoded (records ++ (progress_fields <$> ps))) (write_all ps w).1.
Proof.
  intros Hw. induction ps as [|p ps IH] using rev_ind; [by rewrite app_nil_r|].
  rewrite write_all_snoc, fmap_app, (assoc_L (++)). destruct (write_all ps w) as [w1 errs].
  pose proof (Write_holds _ p _ IH) as Hp. cbn [fst] in Hp. destruct (Write p w1). exact Hp.
Qed.
Lemma write_all_errors ps w : Forall (λ err, err = None ∨ err = write_error (write_all ps w).1) (write_all ps w).2.
Proof.
  induction ps as [|p ps IH] using rev_ind; [constructor|]. rewrite write_all_snoc.
  destruct (write_all ps w) as [w1 errs]. cbn [fst snd] in IH.
  pose proof (Write_error p w1) as He. pose proof (Write_sticky p w1) as Hs.
  destruct (Write p w1) as [w2 err]. cbn [fst snd] in *. subst err.
  apply Forall_app. split; [|by constructor; [right|constructor]].
  eapply Forall_impl; [exact IH|]. intros err [->|Herr]; [by left|]. rewrite Herr.
  destruct (write_error w1) eqn:Hw1; [right|by left].
  specialize (Hs ltac:(done)). injection Hs as ->. done.
Qed.

Lemma first_record_holds record : holds (encoded [record]) (put_record NewWriter record).
Proof.
  change [record] with ([] ++ [record]). rewrite <-encoded_snoc. apply put_record_holds.
  exact holds_new.
Qed.
Lemma newProgressRecorder_holds path w :
  newProgressRecorder path = Ok w → holds (encoded [to_bytes <$> progress_header]) w.
Proof.
  unfold newProgressRecorder. destruct (os_create path); [done|].
  pose proof (first_record_holds (to_bytes <$> progress_header)) as Hw. revert Hw.
  generalize (put_record NewWriter (to_bytes <$> progress_header)). intros w' Hw'.
  destruct (write_error w'); [done|]. intros [= <-]. by apply Flush_holds.
Qed.

(** Whatever the operating system answers, the file is a prefix of the header and
    the rows in their order: nothing is lost from the middle and nothing comes
    after a row that failed.  When the last row was accepted (the error of the
    header's flush, which [newProgressRecorder] drops, would have been answered
    to the rows), every row was, and the file reads back as the header and the
    rows. *)
Theorem progress_file_faithful (path : string) (ps : list phaseProgress) (w : csvWriter) :
  newProgressRecorder path = Ok w →
  let '(w', errs) := write_all ps w in
  contents (out w') `prefix_of` encoded (progress_records ps) ∧
  (last errs = Some None →
   Forall (λ err, err = None) errs ∧ read_csv (contents (out w')) = Some (progress_records ps)).
Proof.
  intros Hw%newProgressRecorder_holds. pose proof (write_all_holds _ ps w Hw) as Hall.
  pose proof (write_all_errors ps w) as Herrs.
  assert (last (write_all ps w).2 = Some None →
    contents (out (write_all ps w).1) = encoded (progress_records ps) ∧ write_error (write_all ps w).1 = None) as Hlast.
  { destruct ps as [|p ps _] using rev_ind; [done|]. clear Hall Herrs.
    pose proof (write_all_holds _ ps w Hw) as Hall. rewrite write_all_snoc. unfold progress_records.
    destruct (write_all ps w) as [w1 errs]. cbn [fst] in Hall.
    pose proof (Write_complete _ p w1 Hall) as Hc. pose proof (Write_error p w1) as He.
    destruct (Write p w1) as [w2 err]. cbn [fst snd] in *. rewrite last_snoc. intros [= ->].
    by rewrite Hc, fmap_app. }
  destruct (write_all ps w) as [w' errs]. cbn [fst snd] in *. split; [by apply holds_prefix|].
  intros Hl. destruct (Hlast Hl) as [-> He]. rewrite He in Herrs. split.
  - eapply Forall_impl; [exact Herrs|]. by intros err [->|].
  - apply csv_roundtrip. constructor; [done|]. apply Forall_fmap, Forall_forall. by intros.
Qed.

(** ** Resource samples *)

Definition sample_args {Q} : Type := Time * phaseKind * result string (list (metricsItem Q)) * result string (list (metricsItem Q)).

Section samples.
Context {Q : Type} `{Quantities Q} `{RangeOrder}.

Definition sample_rows (s : sample_args) (r : resourceRecorder) : list (list bytes) :=
  let '(timestamp, phase, pods, nodes) := s in
  row_fields timestamp <$> drop (length (written r)) (written (Sample (Q:=Q) phase pods nodes r)).
(** The rows that a sequence of samples hands to the writer. *)
Fixpoint all_rows (samples : list sample_args) (r : resourceRecorder) : list (list bytes) :=
  match samples with
  | [] => []
  | (timestamp, phase, pods, nodes) as s :: samples => sample_rows s r ++ all_rows samples (Sample phase pods nodes r)
  end.
Definition sample_all (samples : list sample_args) (rw : resourceRecorder * csvWriter) : resourceRecorder * csvWriter :=
  foldl (λ rw '(timestamp, phase, pods, nodes), sample_file timestamp phase pods nodes rw) rw samples.

Lemma sample_file_holds records timestamp phase pods nodes r w : holds (encoded records) w →
  holds (encoded (records ++ sample_rows (timestamp, phase, pods, nodes) r))
    (sample_file timestamp phase pods nodes (r, w)).2.
Proof.
  intros Hw. unfold sample_file, sample_rows. cbn [fst snd].
  destruct pods as [pods|], nodes as [nodes|]; cbn [is_ok andb].
  1: by apply Flush_holds, put_records_holds.
  all: cbn [Sample written]; by rewrite drop_all, app_nil_r.
Qed.
Lemma sample_all_holds records samples r w : holds (encoded records) w →
  holds (encoded (records ++ all_rows samples r)) (sample_all samples (r, w)).2.
Proof.
  revert records r w. induction samples as [|[[[timestamp phase] pods] nodes] samples IH]; intros records r w Hw.
  - cbn. by rewrite app_nil_r.
  - cbn [all_rows]. rewrite (assoc_L (++)). unfold sample_all. cbn [foldl].
    pose proof (sample_file_holds records timestamp phase pods nodes r w Hw) as Hs.
    assert (sample_file timestamp phase pods nodes (r, w)
      = (Sample phase pods nodes r, (sample_file timestamp phase pods nodes (r, w)).2)) as -> by done.
    by apply IH.
Qed.
Lemma newResourceFile_holds path w : newResourceFile path = Ok w → holds (encoded [to_bytes <$> resource_header]) w.
Proof.
  unfold newResourceFile. destruct (os_create path); [done|].
  pose proof (first_record_holds (to_bytes <$> resource_header)) as Hw. revert Hw.
  generalize (put_record NewWriter (to_bytes <$> resource_header)). intros w' Hw'.
  destruct (write_error w'); [done|]. intros [= <-]. by apply Flush_holds.
Qed.

(** The errors of the rows are dropped, but not lost: when [Close] reports none,
    the file reads back as the header and every row of every sample. *)
Theorem resource_file_faithful (path : string) (samples : list sample_args) (w : csvWriter) :
  newResourceFile path = Ok w →
  let '(w', err) := Close (sample_all samples (newResourceRecorder, w)).2 in
  let records := (to_bytes <$> resource_header) :: all_rows samples newResourceRecorder in
  contents (out w') `prefix_of` encoded records ∧
  (err = None → read_csv (contents (out w')) = Some records).
Proof.
  intros Hw%newResourceFile_holds.
  pose proof (sample_all_holds _ samples newResourceRecorder w Hw) as Hall.
  pose proof (Flush_holds _ _ Hall) as Hflush.
  destruct (Close _) as [w' err] eqn:Hclose.
  assert (w' = Flush (sample_all samples (newResourceRecorder, w)).2) as Hw' by by injection Hclose.
  cbv zeta. split; [subst w'; by apply holds_prefix|]. intros ->.
  rewrite (Close_complete _ _ _ Hall Hclose). apply csv_roundtrip. constructor; [done|].
  generalize newResourceRecorder. clear. induction samples as [|[[[timestamp phase] pods] nodes] samples IH]; intros r; [constructor|].
  cbn [all_rows]. apply Forall_app. split; [|apply IH]. apply Forall_fmap, Forall_forall. by intros.
Qed.
End samples.
End files.

(** ** Reading a row back *)

(** The rows of the file say when, how long and how many: the time to the
    nanosecond, the seconds to the nearest thousandth of the float that
    [Duration.Seconds] gives, and the counts. *)
Definition nearest_thousandth (x : float64) (n : Z) : Prop :=
  match x with
  | S754_zero false => n = 0
  | S754_finite false m e =>
    if 0 <=? e then n = Zpos m * 1000 * 2 ^ e else 2 * Z.abs (Zpos m * 1000 - n * 2 ^ (- e)) ≤ 2 ^ (- e)
  | _ => False
  end.
Definition finite_float (x : float64) : bool :=
  match x with S754_zero _ | S754_finite _ _ _ => true | _ => false end.
Definition counts_of (p : phaseProgress) : list Z :=
  Z.of_nat <$> [SecretsComplete p; SecretsTotal p; ServiceAccountsComplete p; ServiceAccountsTotal p; UnexpectedServiceAccounts p].

Lemma FormatFloat3_nearest x : nonneg_float x → finite_float x = true →
  ∃ n, read_fixed3 (FormatFloat3 x) = Some n ∧ nearest_thousandth x n.
Proof.
  destruct x as [[]|s| |[] m e]; cbn [nonneg_float finite_float]; try done; intros _ _.
  - by exists 0.
  - destruct (FormatFloat3_finite m e) as (n & Hr & _ & Hn). by exists n.
Qed.
Lemma Atoi_Itoa n : 0 ≤ n ≤ max_int64 → Atoi (of_bytes (to_bytes (Itoa n))) = Some n.
Proof.
  intros Hn. unfold Itoa. rewrite to_of_bytes, (proj2 (Z.ltb_ge _ _)), Z.abs_eq by lia. by apply Atoi_decimal.
Qed.
Lemma read_counts_progress p : Forall (λ n, n ≤ max_int64) (counts_of p) →
  read_counts (to_bytes <$> progress_counts p) = Some (counts_of p).
Proof.
  intros Hp. unfold read_counts, progress_counts, counts_of in *. rewrite <-!list_fmap_compose.
  apply mapM_Some_2. apply Forall2_fmap. apply Forall_Forall2_diag.
  rewrite Forall_fmap in Hp. eapply Forall_impl; [exact Hp|]. intros n Hn. apply Atoi_Itoa. cbn in Hn. lia.
Qed.

Theorem read_progress_fields (p : phaseProgress) :
  0 ≤ year (UTC (Timestamp p)) ≤ 9999 → 0 ≤ Elapsed p → finite_float (Seconds (Elapsed p)) = true →
  Forall (λ n, n ≤ max_int64) (counts_of p) →
  ∃ ms, read_progress (progress_fields p) = Some (Timestamp p, ms, counts_of p) ∧
        nearest_thousandth (Seconds (Elapsed p)) ms.
Proof.
  intros Hy He Hf Hc.
  destruct (FormatFloat3_nearest _ (Seconds_nonneg _ He) Hf) as (ms & Hms & Hn). exists ms. split; [|done].
  unfold read_progress, progress_fields. rewrite parse_format by done. cbn [mbind option_bind].
  rewrite Hms. cbn [mbind option_bind]. by rewrite read_counts_progress.
Qed.

(** ** A disk that fills *)
Module FilesExample.
(** The third write of the file has room for five bytes. *)
Definition full_disk : FileSystem := {|
  os_create := λ _, None;
  os_write := λ n p, if decide (n = 2%nat) then (5%nat, Some "no space left on device") else (length p, None);
  os_close := λ _, None
|}.
Definition row (ms : Z) : phaseProgress := MkProgress 1700000000000000000 (ms * Millisecond) 1 4 2 4 0.
Definition session (n : nat) : string * list (option string) :=
  match @newProgressRecorder full_disk "progress.csv" with
  | Ok w => let '(w, errs) := @write_all full_disk (take n [row 1500; row 2500; row 3500]) w in (of_bytes (contents (out w)), errs)
  | Err e => (e, [])
  end.
Definition header_line : string := "timestamp,elapsed_seconds,secrets_complete,secrets_total,serviceaccounts_complete,serviceaccounts_total,unexpected_serviceaccount_updates".

Example one_row : session 1 = (header_line +:+ newline +:+ "2023-11-14T22:13:20Z,1.500,1,4,2,4,0" +:+ newline, [None]).
Proof. vm_compute. reflexivity. Qed.
Example full : session 3 =
  (header_line +:+ newline +:+ "2023-11-14T22:13:20Z,1.500,1,4,2,4,0" +:+ newline +:+ "2023-",
   [None; Some "no space left on device"; Some "no space left on device"]).
Proof. vm_compute. reflexivity. Qed.
Example row_reads : read_progress (progress_fields (row 1500)) = Some (1700000000000000000, 1500, [1; 4; 2; 4; 0]).
Proof. vm_compute. reflexivity. Qed.
End FilesExample.
