(* ===== verification/PerfCalls.v ===== *)
(** * Single calls of the performance driver (cmd/perf-driver/main.go, profile.go)

    The functions of the driver that make one call and look at its answer: the
    client's configuration, the advance of the mock's clock through the API
    server's proxy, the reading of the controller's profile and the summary's
    file.  The libraries they call are a parameter.  The theorems put the advance
    before the clock endpoint of the mock controller. *)
From S2P Require Import Prelude Prog GoStrings Validation Encoding Rfc3339 ConfigTypes ConfigParserCorrect Credential.
From S2P Require Import GoFloat GoDuration GoDurationTheory Controller PerfOptions PerfOptionsCorrect PerfProfile PerfObserve PerfBenchmark E2E.
From Stdlib Require Import SpecFloat.
Local Open Scope Z_scope.

(** [rest.Config], of which the driver sets the limits and the user agent. *)
Record RestConfig := MkRestConfig { rest_QPS : spec_float; rest_Burst : Z; UserAgent : string }.

(** clientcmd and the constructors of clientsets; [encoding/json], [os] and
    [path/filepath]. *)
Class DriverLibraries := {
  ClientConfig : string → string → result string RestConfig;
  NewForConfig : RestConfig → result string ();
  MarshalIndent : @benchmarkSummary resourceSummary → result string bytes;
  Join : string → string → string;
  WriteFile : string → bytes → result string ()
}.

Section calls.
Context `{DriverLibraries}.

(** An explicit path overrides the paths of the environment; the empty path of the
    loading rules means none. *)
Definition newClientset (kubeconfig contextName : string) (clientQPS : float64) (clientBurst : Z) :
    result string RestConfig :=
  match ClientConfig kubeconfig contextName with
  | Err e => Err e
  | Ok _ =>
    let restConfig := MkRestConfig (to_float32 clientQPS) clientBurst "kubernetes-registry-secret-controller-perf-driver" in
    match NewForConfig restConfig with Ok _ => Ok restConfig | Err e => Err e end
  end.

Definition readControllerProfile (deployment : result string Deployment) (now : Time) :
    result (string + profile_error) controllerProfile :=
  match deployment with
  | Err e => Err (inl ("read performance controller profile: " +:+ e))
  | Ok d => match profileFromDeployment (Some d) now with Ok p => Ok p | Err e => Err (inr e) end
  end.

Definition writeSummary (o : perfOptions) (summary : @benchmarkSummary resourceSummary) : result string () :=
  match MarshalIndent summary with
  | Err e => Err e
  | Ok data => WriteFile (Join (outputDirectory o) (runID o +:+ "-summary.json")) (data ++ to_bytes newline)
  end.
End calls.

(** ** The clock *)
Definition clockControlService : string := "registry-secret-controller-perf-clock".
Definition clockControlServicePort : string := "clock".

(** A POST to a service through the API server, with one query parameter. *)
Inductive proxyE : Type → Type :=
| PostProxy (namespace service suffix : string) (param : string * string) : proxyE (result string string).

Definition advanceControllerClock (duration : Duration) : prog proxyE (result string ()) :=
  try (call (PostProxy DefaultControllerNamespace
        ("http:" +:+ clockControlService +:+ ":" +:+ clockControlServicePort) "advance"
        ("duration", Duration_String duration)))
    (λ e, Ret (Err ("advance mock scheduler clock: " +:+ e)))
    (λ _, Ret (Ok tt)).

(** The endpoint behind the proxy: the query parameter arrives as it was sent, a
    bad request is an error for the client.  [reply] prints the JSON reply. *)
Definition clock_endpoint `{FakeClock} (reply : AdvanceReply → string) X (e : proxyE X) (c : fake_clock) : X * fake_clock :=
  match e with
  | PostProxy _ _ suffix (name, value) =>
    if bool_decide (suffix = "advance") then
      let '(r, c) := handle_advance c (if bool_decide (name = "duration") then value else "") in
      (match r with Some r => Ok (reply r) | None => Err "duration must be a positive Go duration no greater than 168h" end, c)
    else (Err "404 page not found", c)
  end.

(** ** The endpoint's server (clock_control.go) *)

(** What [mockClockServer.Start] receives first: the end of its context, with the
    answer of [Shutdown], or the end of the server. *)
Inductive server_event :=
| ServerCtxDone (shutdown : result string ())
| ServerEnded (closed : bool) (error : string).
Definition mockClockServer_Start (event : server_event) : result string () :=
  match event with
  | ServerCtxDone (Ok _) => Ok tt
  | ServerCtxDone (Err e) => Err ("shut down mock clock server: " +:+ e)
  | ServerEnded closed e => if closed then Ok tt else Err ("serve mock clock control endpoint: " +:+ e)
  end.

(** ** The advance reaches the clock *)

(** The driver's advance reaches the clock: whatever duration it was given, to the
    nanosecond, if the endpoint takes it, and then the driver goes on; otherwise
    the clock stays where it was and the driver reports an error. *)
Theorem advance_reaches_clock `{C : FakeClock} `{!FakeClockLaws C} (reply : AdvanceReply → string) (c : fake_clock) (d : Duration) :
  min_int64 <= d <= max_int64 →
  let '(r, c') := interp (clock_endpoint reply) (advanceControllerClock d) c in
  if bool_decide (0 < d <= maximumClockAdvance) then r = Ok tt ∧ clock_Now c' = clock_Now c + d
  else r = Err ("advance mock scheduler clock: " +:+ "duration must be a positive Go duration no greater than 168h") ∧ c' = c.
Proof.
  intros Hd.
  assert (interp (clock_endpoint reply) (advanceControllerClock d) c
    = let '(r, c') := handle_advance c (Duration_String d) in
      (match r with
       | Some _ => Ok tt
       | None => Err ("advance mock scheduler clock: " +:+ "duration must be a positive Go duration no greater than 168h")
       end, c')) as ->.
  { unfold advanceControllerClock, try, call. cbn [mbind prog_bind prog_bind_def interp clock_endpoint].
    rewrite !bool_decide_true by done. by destruct (handle_advance c (Duration_String d)) as [[r|] c']. }
  unfold handle_advance. rewrite duration_roundtrip by done.
  destruct (Z.leb_spec d 0); [by rewrite bool_decide_false by lia|].
  destruct (Z.ltb_spec maximumClockAdvance d); cbn [orb]; [by rewrite bool_decide_false by lia|].
  rewrite bool_decide_true by lia. by rewrite Now_Step.
Qed.

(** The driver's command line takes advances that the endpoint refuses: the run
    fails only after its initial phase. *)
Module ClockExample.
#[local] Existing Instance dns1123.
#[local] Existing Instance ParserExample.floats.
#[local] Instance clock_Z : FakeClock := {| fake_clock := Z; clock_Now c := c; clock_Step c d := c + d |}.

Definition late_args : list string := ["--run-id=bench-1"; "--namespaces=3"; "--clock-advance=200h"].
Definition endpoint_text (r : AdvanceReply) : string := advancedBy r.

Theorem accepted_advance_refused :
  match parseOptions late_args with
  | Ok o => clockAdvance o = 200 * Hour ∧
      (interp (clock_endpoint endpoint_text) (advanceControllerClock (clockAdvance o)) (0 : fake_clock)).1
      = Err "advance mock scheduler clock: duration must be a positive Go duration no greater than 168h"
  | Err _ => False
  end.
Proof. vm_compute. done. Qed.
Example advanced : interp (clock_endpoint endpoint_text) (advanceControllerClock (50 * Minute)) (0 : fake_clock) = (Ok tt, 50 * Minute).
Proof. vm_compute. reflexivity. Qed.
End ClockExample.
